(** * kb_compare: merging two knowledge bases

    A shallow embedding of [kb_compare.py] (KNOT-FIT-BUT/kb_tools) and the
    properties of its loader, relation parser, deduplicator, matcher and
    output renderer.

    Conventions.
    - A Python [str] is a [string]; its characters are code points below 256.
      A text file is the string of its characters, read with universal
      newlines as Python 3 does.
    - A Python object with identity (an [Entity]) is a natural number, and the
      objects of one KB live in a heap [nat -> Entity].
    - A [set] of strings or of (field, value) tuples is a [gset]: the source
      never depends on the order in which it iterates over them.  A [set] of
      entities is iterated in an order Python does not specify; it is kept as
      the list of its insertions and iterated through the order [set_iter],
      about which only [set_iter l ≡ₚ l] is known.
    - Code that can raise or leave the process returns an [outcome].  A
      subscript [self.data[order_num]] out of range raises [IndexError]: the
      calls that can meet one return an [outcome], next to the function that
      gives what they return. *)

From Stdlib Require Import ZArith Lia Ascii.
From stdpp Require Import base option list sorting functions gmap sets strings.

Open Scope Z_scope.
Open Scope nat_scope.

Set Warnings "-clear-no-such-hyp".

(** ** Python strings *)

Module Str.

Definition TAB : ascii := "009"%char.
Definition LF : ascii := "010"%char.
Definition CR : ascii := "013"%char.

(** [str.isspace] on code points below 256. *)
Definition isspace (c : ascii) : bool :=
  let n := nat_of_ascii c in
  ((9 <=? n) && (n <=? 13)) || ((28 <=? n) && (n <=? 32))
  || (n =? 133) || (n =? 160).

Fixpoint all_space (s : string) : bool :=
  match s with
  | EmptyString => true
  | String c s' => isspace c && all_space s'
  end.

(** [s.startswith(p)] *)
Definition startswith (p s : string) : bool := String.prefix p s.

(** [s[n:]] *)
Fixpoint drop (n : nat) (s : string) : string :=
  match n, s with
  | 0, _ => s
  | S n', String _ s' => drop n' s'
  | S _, EmptyString => EmptyString
  end.

(** [s.find(sub)]: the first position at which [sub] starts. [sub in s] is
    [is_Some (find sub s)], and [s.index(sub)] raises [ValueError] on
    [None]. *)
Fixpoint find (sub s : string) : option nat :=
  if String.prefix sub s then Some 0
  else match s with
       | EmptyString => None
       | String _ s' => S <$> find sub s'
       end.

Definition contains (sub s : string) : bool := bool_decide (is_Some (find sub s)).

(** [sub] starts at position [i] of [s]. *)
Definition occurs_at (sub s : string) (i : nat) : Prop :=
  String.prefix sub (drop i s) = true.

Fixpoint lstrip (s : string) : string :=
  match s with
  | String c s' => if isspace c then lstrip s' else s
  | EmptyString => EmptyString
  end.

Fixpoint rstrip (s : string) : string :=
  match s with
  | String c s' =>
      match rstrip s' with
      | EmptyString => if isspace c then EmptyString else String c EmptyString
      | r => String c r
      end
  | EmptyString => EmptyString
  end.

(** [s.strip()] *)
Definition strip (s : string) : string := rstrip (lstrip s).

(** [s.split(sep)] for a one-character separator. *)
Fixpoint split (sep : ascii) (s : string) : list string :=
  match s with
  | EmptyString => [EmptyString]
  | String c s' =>
      if decide (c = sep) then EmptyString :: split sep s'
      else match split sep s' with
           | p :: ps => String c p :: ps
           | [] => [String c EmptyString]
           end
  end.

(** What [open(name, 'r')] lets the program read: Python 3 opens a text
    file with universal newlines, so a carriage return, alone or followed
    by a line feed, is read as one line feed. *)
Fixpoint universal_newlines (s : string) : string :=
  match s with
  | EmptyString => EmptyString
  | String c s' =>
      if decide (c = CR)
      then String LF
             match s' with
             | String c' s'' =>
                 if decide (c' = LF) then universal_newlines s''
                 else universal_newlines s'
             | EmptyString => EmptyString
             end
      else String c (universal_newlines s')
  end.

(** A text cut after each line feed: the lines, each with its line feed,
    the last one possibly without. *)
Fixpoint split_lines (s : string) : list string :=
  match s with
  | EmptyString => []
  | String c s' =>
      if decide (c = LF) then String c EmptyString :: split_lines s'
      else match split_lines s' with
           | l :: ls => String c l :: ls
           | [] => [String c EmptyString]
           end
  end.

(** What iterating over a text file yields, [text] being the characters
    of the file: the lines of what is read, each with its newline, the last
    one possibly without. *)
Definition lines (text : string) : list string :=
  split_lines (universal_newlines text).

(** [s.endswith(suffix)] *)
Fixpoint endswith (suffix s : string) : bool :=
  String.eqb suffix s
  || match s with
     | String _ s' => endswith suffix s'
     | EmptyString => false
     end.

(** [s[:n]] *)
Fixpoint take (n : nat) (s : string) : string :=
  match n, s with
  | S n', String c s' => String c (take n' s')
  | _, _ => EmptyString
  end.

(** [s[:-n]] for a positive [n] *)
Definition drop_end (n : nat) (s : string) : string :=
  take (String.length s - n) s.

(** [s.rstrip(chars)] *)
Fixpoint rstrip_chars (chars : list ascii) (s : string) : string :=
  match s with
  | String c s' =>
      match rstrip_chars chars s' with
      | EmptyString =>
          if bool_decide (c ∈ chars) then EmptyString else String c EmptyString
      | r => String c r
      end
  | EmptyString => EmptyString
  end.

(** [sep.join(l)] *)
Fixpoint join (sep : string) (l : list string) : string :=
  match l with
  | [] => EmptyString
  | x :: rest =>
      match rest with
      | [] => x
      | _ => x +:+ sep +:+ join sep rest
      end
  end.

(** [s.split(sep)] for a separator of any positive length: [s] is cut at
    the occurrences of [sep], found from the left and not overlapping.
    The first [skip] characters of [s] belong to an occurrence already
    found. *)
Fixpoint split_from (sep : string) (skip : nat) (s : string) : list string :=
  match s with
  | EmptyString => [EmptyString]
  | String c s' =>
      match skip with
      | S skip' => split_from sep skip' s'
      | 0 =>
          if String.prefix sep s
          then EmptyString :: split_from sep (String.length sep - 1) s'
          else match split_from sep 0 s' with
               | p :: ps => String c p :: ps
               | [] => [String c EmptyString]
               end
      end
  end.
Definition split_on (sep s : string) : list string := split_from sep 0 s.

(** [s.count(c)] for one character [c] *)
Fixpoint count (c : ascii) (s : string) : nat :=
  match s with
  | EmptyString => 0
  | String c' s' => (if decide (c' = c) then 1 else 0) + count c s'
  end.

End Str.

(** ** Data model *)

(** What a call can do besides returning: leave through [sys.exit] after
    writing to standard error, or raise an exception nobody catches.  The
    interpreter ends a process on an uncaught exception with a traceback and
    exit status 1. *)
Inductive pyexn := ValueError | KeyError | AttributeError | TypeError | IndexError.

Inductive outcome (A : Type) :=
| Return (a : A)
| SysExit (code : Z) (stderr : list string)
| Raise (e : pyexn).
Arguments Return {A} a.
Arguments SysExit {A} code stderr.
Arguments Raise {A} e.

Definition exit_status {A} (o : outcome A) : option Z :=
  match o with
  | Return _ => None
  | SysExit c _ => Some c
  | Raise _ => Some 1%Z
  end.

Definition obind {A B} (o : outcome A) (k : A -> outcome B) : outcome B :=
  match o with
  | Return a => k a
  | SysExit c e => SysExit c e
  | Raise e => Raise e
  end.

(** [class Field] *)
Record Field := mkField { order_num : nat; multiple : bool }.

(** [class Entity]: [data] holds one list of values per column. [matched]
    refers to an entity of the other KB. *)
Record Entity := mkEntity {
  data : list (list string);
  weight : Z;
  used : bool;
  matched : option nat
}.

Definition set_data (d : list (list string)) (e : Entity) : Entity :=
  mkEntity d (weight e) (used e) (matched e).
Definition set_weight (w : Z) (e : Entity) : Entity :=
  mkEntity (data e) w (used e) (matched e).
Definition set_used (b : bool) (e : Entity) : Entity :=
  mkEntity (data e) (weight e) b (matched e).
Definition set_matched (m : option nat) (e : Entity) : Entity :=
  mkEntity (data e) (weight e) (used e) m.

(** [Entity.get_field].  The subscript [self.data[order_num]] raises
    [IndexError] when the entity has no column [order_num]:
    [get_field_checked] is the call with that way out, and [get_field] is
    the column it returns.  The calls that can be the first to meet an
    ordinal out of range are checked: those of [_make_index], of a fusion,
    of the scoring by the OTHER relations and of the renderer.  The
    deduplicator and the matcher look up, besides, only fields whose
    subscripts [_make_index] has evaluated, on the same entities. *)
Definition get_field (e : Entity) (n : nat) : list string := data e !!! n.

Definition get_field_checked (e : Entity) (n : nat) : outcome (list string) :=
  if n <? length (data e) then Return (get_field e n) else Raise IndexError.

(** The objects of one KB. *)
Abbreviation heap := (nat -> Entity).

(** [class Relation]; [type] is the integer the source stores. *)
Record Relation := mkRelation {
  kb1_field : nat;
  kb2_field : nat;
  type : nat;
  blacklist : gset string
}.

Definition UNIQUE : nat := 1.
Definition NAME : nat := 2.
Definition OTHER : nat := 3.

(** [class KB] once [load_config] has run: its name and its field table. *)
Record KB := mkKB {
  name : string;
  fields : gmap string Field;
  field_count : nat
}.

(** [KB.get_field_order_num]: a dictionary subscript. *)
Definition get_field_order_num (kb : KB) (field_name : string) : outcome nat :=
  match fields kb !! field_name with
  | Some f => Return (order_num f)
  | None => Raise KeyError
  end.

(** What the interpreter leaves unspecified or what lives outside the
    repository: the iteration order of a set of entities and of a set of
    strings, the comparison of two values after [round(float(_), 1)] where
    that parses, and the ten hexadecimal digits [generateId] takes from the
    SHA-224 digest of [str(counter)]. *)
Class Runtime := {
  set_iter : list nat -> list nat;
  str_iter : list string -> list string;
  float_eq : string -> string -> bool;
  sha224_hex : nat -> string
}.

Class RuntimeSpec (R : Runtime) : Prop := {
  set_iter_perm : forall l, set_iter l ≡ₚ l;
  str_iter_perm : forall l, str_iter l ≡ₚ l
}.

(** Sets iterated in insertion order: one admissible runtime. *)
Definition insertion_runtime : Runtime :=
  {| set_iter := fun l => l;
     str_iter := fun l => l;
     float_eq := String.eqb;
     sha224_hex := fun _ => "0000000000" |}.

(** ** Loading: Freebase URLs *)

Definition FREEBASE : string := "freebase.com/".
Definition WWW_FREEBASE : string := "http://www.freebase.com/".

(** The body of the loop of [Entity.fixFreebaseUrl] for one value. *)
Definition fix_url (freebase_url : string) : string :=
  if Str.contains FREEBASE freebase_url
     && negb (Str.contains WWW_FREEBASE freebase_url)
  then match Str.find FREEBASE freebase_url with
       | Some fix_idx => "http://www." +:+ Str.drop fix_idx freebase_url
       | None => freebase_url
       end
  else freebase_url.

Definition fixFreebaseUrl (e : Entity) (freebase_idx : nat) : Entity :=
  set_data (<[freebase_idx := fix_url <$> get_field e freebase_idx]> (data e)) e.

(** The loop of [KB.load_to_memory] over the entities built from the lines
    of the KB file. *)
Definition load_to_memory (kb : KB) (parsed : list Entity) : list Entity :=
  match fields kb !! (name kb +:+ "." +:+ "FREEBASE URL") with
  | Some f => (fun e => fixFreebaseUrl e (order_num f)) <$> parsed
  | None => parsed
  end.

(** ** The relation file *)

Definition invalid_format (rel_conf_file_name : string) : string :=
  "Invalid format of the config file " +:+ rel_conf_file_name +:+ ".".
Definition cannot_open (file_name : string) : string :=
  "Cannot open file " +:+ file_name +:+ ".".

Definition tab_string : string := String Str.TAB EmptyString.

(** One turn of the loop of [parse_relations]; the state is the list of
    relations and the current [rel_type]. *)
Definition parse_line (rel_conf_file_name : string) (kb1 kb2 : KB)
    (st : list Relation * nat) (line : string) : outcome (list Relation * nat) :=
  let '(relations, rel_type) := st in
  if decide (line = EmptyString) then Return st
  else if Str.startswith "UNIQUE:" line then Return (relations, UNIQUE)
  else if Str.startswith "NAME:" line then Return (relations, NAME)
  else if Str.startswith "OTHER:" line then Return (relations, OTHER)
  else if Str.startswith tab_string line then
    match Str.split "="%char (Str.strip line) with
    | [first; second] =>
        let '(first, second) :=
          if Str.startswith (name kb2) first then (second, first)
          else (first, second) in
        obind (get_field_order_num kb1 first) (fun fieldnum1 =>
        obind (get_field_order_num kb2 second) (fun fieldnum2 =>
        Return (relations ++ [mkRelation fieldnum1 fieldnum2 rel_type ∅], rel_type)))
    | _ => Raise ValueError
    end
  else SysExit 1 [invalid_format rel_conf_file_name].

Fixpoint parse_lines (rel_conf_file_name : string) (kb1 kb2 : KB)
    (st : list Relation * nat) (ls : list string) : outcome (list Relation * nat) :=
  match ls with
  | [] => Return st
  | line :: ls' =>
      obind (parse_line rel_conf_file_name kb1 kb2 st line)
            (fun st' => parse_lines rel_conf_file_name kb1 kb2 st' ls')
  end.

(** [parse_relations]; [rel_fd] is the text of the file, [None] when it
    cannot be opened. *)
Definition parse_relations (rel_conf_file_name : string) (rel_fd : option string)
    (kb1 kb2 : KB) : outcome (list Relation) :=
  match rel_fd with
  | None => SysExit 1 [cannot_open rel_conf_file_name]
  | Some text =>
      obind (parse_lines rel_conf_file_name kb1 kb2 ([], 0) (Str.lines text))
            (fun st => Return st.1)
  end.

(** A line no branch of the parser accepts as a header or as a pair. *)
Definition is_header (line : string) : bool :=
  Str.startswith "UNIQUE:" line || Str.startswith "NAME:" line
  || Str.startswith "OTHER:" line.
Definition is_indented (line : string) : bool := Str.startswith tab_string line.

(** ** The field index *)

(** [index[field].get(value)]: the entities holding [value] in [field], in
    the order they were added to the set, or [None] when the dictionary of
    the field has no such key.  Only the fields of UNIQUE and NAME relations
    are ever looked up, and those are the fields [_make_index] gives a
    dictionary. *)
Definition Index := nat -> string -> option (list nat).

(** [index[field].get(value, tuple())] *)
Definition index_get (index : Index) (field : nat) (value : string) : list nat :=
  default [] (index field value).

(** [s.add(x)] on a set kept as the list of its insertions. *)
Definition set_add (x : nat) (s : list nat) : list nat :=
  if decide (x ∈ s) then s else s ++ [x].

(** [index[field].setdefault(value, set()).add(entity)] *)
Definition index_add (index : Index) (field : nat) (value : string)
    (entity : nat) : Index :=
  fun f v =>
    if decide (f = field /\ v = value)
    then Some (set_add entity (index_get index field value))
    else index f v.

(** The fields [_make_index] indexes, and the values it skips in each. *)
Definition fields_to_index (relations : list Relation)
    (kb_field : Relation -> nat) : list nat :=
  remove_dups (kb_field <$> filter (fun r => type r <> OTHER) relations).

Definition blackdict (relations : list Relation) (kb_field : Relation -> nat)
    (field : nat) : gset string :=
  ⋃ (blacklist <$> filter (fun r => type r <> OTHER /\ kb_field r = field) relations).

Definition index_entity (black : nat -> gset string) (fields_to_index : list nat)
    (h : heap) (index : Index) (entity : nat) : Index :=
  foldl (fun index field =>
           foldl (fun index one_value =>
                    if decide (one_value ∈ black field) then index
                    else index_add index field one_value entity)
                 index (get_field (h entity) field))
        index fields_to_index.

(** [_make_index]: the index it returns.  [_make_index_checked], below,
    is the call, which raises when a subscript is out of range. *)
Definition _make_index (h : heap) (kb_entities : list nat)
    (relations : list Relation) (kb_field : Relation -> nat) : Index :=
  foldl (index_entity (blackdict relations kb_field)
                      (fields_to_index relations kb_field) h)
        (fun _ _ => None) kb_entities.

(** The subscripts [_make_index] evaluates: [index[field] = dict()] for
    each field to index, on the list [index] of [kb_field_count + 1]
    entries, and [entity.get_field(field)] for each entity and each field
    to index. *)
Definition index_in_range (h : heap) (kb_entities : list nat)
    (kb_field_count : nat) (fields : list nat) : bool :=
  forallb (fun field => field <=? kb_field_count) fields
  && forallb (fun entity =>
                forallb (fun field => field <? length (data (h entity))) fields)
             kb_entities.

(** [_make_index] as it is called: it raises [IndexError] at the first
    subscript out of range, and returns the index above when there is
    none. *)
Definition _make_index_checked (h : heap) (kb_entities : list nat)
    (kb_field_count : nat) (relations : list Relation)
    (kb_field : Relation -> nat) : outcome Index :=
  if index_in_range h kb_entities kb_field_count
       (fields_to_index relations kb_field)
  then Return (_make_index h kb_entities relations kb_field)
  else Raise IndexError.

Definition make_index_for_kb1 (h : heap) (kb1_entities : list nat)
    (relations : list Relation) : Index :=
  _make_index h kb1_entities relations kb1_field.

Definition make_index_for_kb2 (h : heap) (kb2_entities : list nat)
    (relations : list Relation) : Index :=
  _make_index h kb2_entities relations kb2_field.

(** ** The matcher *)

(** One line written by [printErr]: a text, or the [repr] of a set of
    identifiers. *)
Inductive err_line :=
| ErrText (s : string)
| ErrIds (ids : gset string).

(** What [match] works on: the objects of both KBs, the index of KB1 (which
    it updates) and what it wrote to standard error. *)
Record mstate := mkMstate {
  h1 : heap;
  h2 : heap;
  index_for_kb1 : Index;
  stderr : list err_line
}.

Definition nonempty (value : string) : bool :=
  negb (String.eqb value EmptyString).

Section matcher.
Context `{R : Runtime}.

(** [for e in match: if not e.used: return e] *)
Definition first_unused (h : heap) (l : list nat) : option nat :=
  List.find (fun e => negb (used (h e))) l.

(** The loop of [match_by_unique] over the values of one relation. *)
Fixpoint match_by_unique_values (h : heap) (index : Index) (field : nat)
    (id_list : list string) : option nat :=
  match id_list with
  | [] => None
  | value :: rest =>
      if nonempty value then
        match first_unused h (set_iter (index_get index field value)) with
        | Some e => Some e
        | None => match_by_unique_values h index field rest
        end
      else match_by_unique_values h index field rest
  end.

(** [match_by_unique] *)
Fixpoint match_by_unique (entity : Entity) (h : heap) (index : Index)
    (unique_relations : list Relation) : option nat :=
  match unique_relations with
  | [] => None
  | relation :: rest =>
      match match_by_unique_values h index (kb2_field relation)
              (get_field entity (kb1_field relation)) with
      | Some e => Some e
      | None => match_by_unique entity h index rest
      end
  end.

(** [len(matched_entities) > 1 or len(matched_entities) == 1 and
    next(iter(matched_entities)) is not entity_from_kb1] *)
Definition not_only (entity_from_kb1 : nat) (matched_entities : list nat) : bool :=
  (1 <? length matched_entities)
  || ((length matched_entities =? 1)
      && negb (bool_decide (head (set_iter matched_entities) = Some entity_from_kb1))).

(** The inner loop of [_checkUnique]: [true] when it leaves through
    [break]. *)
Fixpoint conflict_in (entity_from_kb1 : nat) (index_for_kb1 : Index)
    (field : nat) (id_list : list string) : bool :=
  match id_list with
  | [] => false
  | value :: rest =>
      if nonempty value
         && not_only entity_from_kb1 (index_get index_for_kb1 field value)
      then true
      else conflict_in entity_from_kb1 index_for_kb1 field rest
  end.

(** [_checkUnique] *)
Definition _checkUnique (entity_from_kb1 : nat) (entity_from_kb2 : Entity)
    (index_for_kb1 : Index) (unique_relations : list Relation) : bool :=
  foldl (fun is_unique relation =>
           if conflict_in entity_from_kb1 index_for_kb1 (kb1_field relation)
                (get_field entity_from_kb2 (kb2_field relation))
           then false else is_unique)
        true unique_relations.

(** [_getCheckUniqueErrorUriList]; the state of its loops is
    [(kb1, kb2, is_unique)]. *)
Definition error_uri_value (h : heap) (entity_from_kb1 : nat)
    (index_for_kb1 : Index) (unique_relations : list Relation) (field : nat)
    (st : gset string * bool) (value : string) : gset string * bool :=
  let matched_entities := index_get index_for_kb1 field value in
  if nonempty value && not_only entity_from_kb1 matched_entities
  then (foldl (fun kb1 e =>
                 foldl (fun kb1 r => kb1 ∪ list_to_set (get_field (h e) (kb1_field r)))
                       kb1 unique_relations)
              st.1 (set_iter matched_entities), false)
  else st.

Definition _getCheckUniqueErrorUriList (h : heap) (entity_from_kb1 : nat)
    (entity_from_kb2 : Entity) (index_for_kb1 : Index)
    (unique_relations : list Relation) : gset string * gset string :=
  let '(kb1, kb2, is_unique) :=
    foldl (fun '(kb1, kb2, is_unique) relation =>
             let kb1 := kb1 ∪ list_to_set (get_field (h entity_from_kb1) (kb1_field relation)) in
             let id_list := get_field entity_from_kb2 (kb2_field relation) in
             let kb2 := kb2 ∪ list_to_set id_list in
             let '(kb1, is_unique) :=
               foldl (error_uri_value h entity_from_kb1 index_for_kb1
                        unique_relations (kb1_field relation))
                     (kb1, is_unique) id_list in
             (kb1, kb2, is_unique))
          (∅, ∅, true) unique_relations in
  if is_unique then (∅, ∅) else (kb1, kb2).

(** [_updateUniqueInIndex] *)
Definition _updateUniqueInIndex (h1 h2 : heap) (entity_from_kb1 : nat)
    (index_for_kb1 : Index) (unique_relations : list Relation) : Index :=
  match matched (h1 entity_from_kb1) with
  | Some m =>
      foldl (fun index relation =>
               foldl (fun index value =>
                        if nonempty value then
                          if decide (value ∈ blacklist relation) then index
                          else index_add index (kb1_field relation) value entity_from_kb1
                        else index)
                     index (get_field (h2 m) (kb2_field relation)))
            index_for_kb1 unique_relations
  | None => index_for_kb1
  end.

(** [match_by_name]: the candidates in the order they entered the set, and
    the heap of KB2 with their weights raised. *)
Definition match_by_name (entity : Entity) (h : heap) (index : Index)
    (name_relations : list Relation) : list nat * heap :=
  foldl (fun st relation =>
           foldl (fun st value =>
                    if nonempty value then
                      foldl (fun '(candidates, h) e =>
                               if used (h e) then (candidates, h)
                               else (set_add e candidates,
                                     <[e := set_weight (weight (h e) + 1) (h e)]> h))
                            st (set_iter (index_get index (kb2_field relation) value))
                    else st)
                 st (get_field entity (kb1_field relation)))
        ([], h) name_relations.

(** [first and second and first[0] != second[0]] for some UNIQUE
    relation: the loop that sets the weight to -1000 and breaks. *)
Definition unique_disagree (entity candidate : Entity)
    (unique_relations : list Relation) : bool :=
  existsb (fun relation =>
             match get_field entity (kb1_field relation),
                   get_field candidate (kb2_field relation) with
             | f0 :: _, s0 :: _ => negb (String.eqb f0 s0)
             | _, _ => false
             end)
          unique_relations.

(** The loops over the OTHER relations: one point for each pair of values
    that compare equal.  [other_in_range], below, tells whether their
    subscripts are in range. *)
Definition other_score (entity candidate : Entity)
    (other_relations : list Relation) : Z :=
  foldl (fun w relation =>
           foldl (fun w i =>
                    foldl (fun w j => if float_eq i j then (w + 1)%Z else w)
                          w (get_field candidate (kb2_field relation)))
                 w (get_field entity (kb1_field relation)))
        0%Z other_relations.

(** The body of the scoring loop for one candidate. *)
Definition score_candidate (treshold : Z) (entity : nat) (h1 : heap)
    (index_for_kb1 : Index) (unique_relations other_relations : list Relation)
    (h2 : heap) (candidate : nat) : heap :=
  let h2 :=
    if unique_disagree (h1 entity) (h2 candidate) unique_relations
    then <[candidate := set_weight (-1000) (h2 candidate)]> h2 else h2 in
  let h2 :=
    if negb (_checkUnique entity (h2 candidate) index_for_kb1 unique_relations)
    then <[candidate := set_weight (-999) (h2 candidate)]> h2 else h2 in
  if (weight (h2 candidate) <? treshold)%Z then h2
  else <[candidate :=
           set_weight (weight (h2 candidate)
                       + other_score (h1 entity) (h2 candidate) other_relations)
                      (h2 candidate)]> h2.

(** The scoring loop: the heap of KB2 when the best candidate is chosen. *)
Definition score_candidates (treshold : Z) (entity : nat) (h1 : heap)
      (index_for_kb1 : Index) (unique_relations other_relations : list Relation)
      (h2 : heap) (candidates : list nat) : heap :=
    foldl (score_candidate treshold entity h1 index_for_kb1
             unique_relations other_relations) h2 candidates.

(** [best = next(iter(candidates))] and the loop that replaces it by a
    candidate of strictly greater weight. *)
Definition best_from (h2 : heap) (first : nat) (candidates : list nat) : nat :=
  foldl (fun best candidate =>
           if (weight (h2 best) <? weight (h2 candidate))%Z
           then candidate else best)
        first candidates.

Definition choose_best (h2 : heap) (candidates : list nat) : option nat :=
  match candidates with
  | [] => None
  | first :: _ => Some (best_from h2 first candidates)
  end.

(** The second half of the body of the loop of [match]: matching by
    name. *)
Definition match_names (treshold : Z)
    (index_for_kb2 : Index) (unique_relations name_relations other_relations : list Relation)
    (st : mstate) (entity : nat) : mstate :=
  let '(cands, h2a) :=
    match_by_name (h1 st entity) (h2 st) index_for_kb2 name_relations in
  match cands with
  | [] => mkMstate (h1 st) h2a (index_for_kb1 st) (stderr st)
  | _ =>
      let candidates := set_iter cands in
      let h2b :=
        score_candidates treshold entity (h1 st) (index_for_kb1 st)
          unique_relations other_relations h2a candidates in
      let '(h1c, h2c) :=
        match choose_best h2b candidates with
        | Some best =>
            if (treshold <=? weight (h2b best))%Z
            then (<[entity := set_used true (set_matched (Some best) (h1 st entity))]> (h1 st),
                  <[best := set_used true (h2b best)]> h2b)
            else (h1 st, h2b)
        | None => (h1 st, h2b)
        end in
      let h2d :=
        foldl (fun h candidate => <[candidate := set_weight 0 (h candidate)]> h)
              h2c candidates in
      mkMstate h1c h2d
        (_updateUniqueInIndex h1c h2d entity (index_for_kb1 st) unique_relations)
        (stderr st)
  end.

(** The lines [match] writes when the conflict guard rejects a pairing
    found by identifier. *)
Definition unique_error (kb1_error_uri_list kb2_error_uri_list : gset string)
    : list err_line :=
  [ErrText "=== match_by_unique error ==="; ErrText "<<<<<<<<<";
   ErrIds kb1_error_uri_list; ErrText "---------";
   ErrIds kb2_error_uri_list; ErrText ">>>>>>>>>"].

(** The body of the loop of [match] for one entity of KB1. *)
Definition match_entity (treshold : Z) (index_for_kb2 : Index)
    (unique_relations name_relations other_relations : list Relation)
    (st : mstate) (entity : nat) : mstate :=
  match match_by_unique (h1 st entity) (h2 st) index_for_kb2 unique_relations with
  | Some m =>
      if _checkUnique entity (h2 st m) (index_for_kb1 st) unique_relations then
        let h1' := <[entity := set_used true (set_matched (Some m) (h1 st entity))]> (h1 st) in
        let h2' := <[m := set_used true (h2 st m)]> (h2 st) in
        mkMstate h1' h2'
          (_updateUniqueInIndex h1' h2' entity (index_for_kb1 st) unique_relations)
          (stderr st)
      else
        let '(kb1_error_uri_list, kb2_error_uri_list) :=
          _getCheckUniqueErrorUriList (h1 st) entity (h2 st m)
            (index_for_kb1 st) unique_relations in
        mkMstate (h1 st) (h2 st) (index_for_kb1 st)
          (stderr st ++ unique_error kb1_error_uri_list kb2_error_uri_list)
  | None =>
      match_names treshold index_for_kb2
        unique_relations name_relations other_relations st entity
  end.

(** [match]: the relations are split by type, then the entities of KB1
    are taken in file order.  This is the state [match] leaves;
    [match_checked], below, is the call, which raises when the scoring by
    the OTHER relations meets a subscript out of range. *)
Definition match_ (kb1_entities : list nat) (index_for_kb2 : Index)
    (relations : list Relation) (treshold : Z) (st : mstate) : mstate :=
  let unique_relations := filter (fun x => type x = UNIQUE) relations in
  let name_relations :=
    filter (fun x => type x <> UNIQUE /\ type x = NAME) relations in
  let other_relations :=
    filter (fun x => type x <> UNIQUE /\ type x <> NAME) relations in
  foldl (match_entity treshold index_for_kb2
           unique_relations name_relations other_relations)
        st kb1_entities.

(** The subscripts of the loops over the OTHER relations for one
    candidate: [entity.get_field(relation.kb1_field)] and
    [candidate.get_field(relation.kb2_field)] for each of them. *)
Definition other_in_range (entity candidate : Entity)
    (other_relations : list Relation) : bool :=
  forallb (fun relation =>
             (kb1_field relation <? length (data entity))
             && (kb2_field relation <? length (data candidate)))
          other_relations.

(** The body of the scoring loop raises [IndexError]: the candidate gets
    past the comparison with the threshold, and a subscript of the loops
    over the OTHER relations is out of range. *)
Definition score_raises (treshold : Z) (entity : nat) (h1 : heap)
    (index_for_kb1 : Index) (unique_relations other_relations : list Relation)
    (h2 : heap) (candidate : nat) : bool :=
  let h2 :=
    if unique_disagree (h1 entity) (h2 candidate) unique_relations
    then <[candidate := set_weight (-1000) (h2 candidate)]> h2 else h2 in
  let h2 :=
    if negb (_checkUnique entity (h2 candidate) index_for_kb1 unique_relations)
    then <[candidate := set_weight (-999) (h2 candidate)]> h2 else h2 in
  negb (weight (h2 candidate) <? treshold)%Z
  && negb (other_in_range (h1 entity) (h2 candidate) other_relations).

Fixpoint scoring_raises (treshold : Z) (entity : nat) (h1 : heap)
    (index_for_kb1 : Index) (unique_relations other_relations : list Relation)
    (h2 : heap) (candidates : list nat) : bool :=
  match candidates with
  | [] => false
  | candidate :: rest =>
      score_raises treshold entity h1 index_for_kb1 unique_relations
        other_relations h2 candidate
      || scoring_raises treshold entity h1 index_for_kb1 unique_relations
           other_relations
           (score_candidate treshold entity h1 index_for_kb1 unique_relations
              other_relations h2 candidate)
           rest
  end.

(** The body of the loop of [match] raises [IndexError] for [entity]: no
    record is found by identifier, and the scoring of the candidates found
    by name does. *)
Definition match_entity_raises (treshold : Z) (index_for_kb2 : Index)
    (unique_relations name_relations other_relations : list Relation)
    (st : mstate) (entity : nat) : bool :=
  match match_by_unique (h1 st entity) (h2 st) index_for_kb2 unique_relations with
  | Some _ => false
  | None =>
      let '(cands, h2a) :=
        match_by_name (h1 st entity) (h2 st) index_for_kb2 name_relations in
      match cands with
      | [] => false
      | _ =>
          scoring_raises treshold entity (h1 st) (index_for_kb1 st)
            unique_relations other_relations h2a (set_iter cands)
      end
  end.

Fixpoint match_loop (treshold : Z) (index_for_kb2 : Index)
    (unique_relations name_relations other_relations : list Relation)
    (st : mstate) (kb1_entities : list nat) : outcome mstate :=
  match kb1_entities with
  | [] => Return st
  | entity :: rest =>
      if match_entity_raises treshold index_for_kb2 unique_relations
           name_relations other_relations st entity
      then Raise IndexError
      else match_loop treshold index_for_kb2 unique_relations name_relations
             other_relations
             (match_entity treshold index_for_kb2 unique_relations
                name_relations other_relations st entity)
             rest
  end.

(** [match] as [main] calls it, on indexes whose making has checked the
    fields of the UNIQUE and NAME relations: it raises [IndexError] when
    the scoring of a candidate meets a field of an OTHER relation that is
    no column, and leaves what [match_] describes when it returns. *)
Definition match_checked (kb1_entities : list nat) (index_for_kb2 : Index)
    (relations : list Relation) (treshold : Z) (st : mstate) : outcome mstate :=
  let unique_relations := filter (fun x => type x = UNIQUE) relations in
  let name_relations :=
    filter (fun x => type x <> UNIQUE /\ type x = NAME) relations in
  let other_relations :=
    filter (fun x => type x <> UNIQUE /\ type x <> NAME) relations in
  match_loop treshold index_for_kb2 unique_relations name_relations
    other_relations st kb1_entities.

End matcher.

(** The pairs [match] has made: the entities of KB1 with a [matched]
    reference. *)
Definition matched_pairs (h1 : heap) (kb1_entities : list nat) : list (nat * nat) :=
  omap (fun e => (fun m => (e, m)) <$> matched (h1 e)) kb1_entities.

(** ** The deduplicator *)

(** [uniqifyList(seq, order_preserving=True)] *)
Fixpoint uniqify_from (seen : gset string) (seq : list string) : list string :=
  match seq with
  | [] => []
  | x :: rest =>
      if decide (x ∈ seen) then uniqify_from seen rest
      else x :: uniqify_from (seen ∪ {[x]}) rest
  end.
Definition uniqifyList (seq : list string) : list string := uniqify_from ∅ seq.

(** [countNonEmptyFields] *)
Definition countNonEmptyFields (entity : Entity) : nat :=
  length (filter (fun field => field <> []) (data entity)).

(** [matches.sort(key=countNonEmptyFields, reverse=True)]: a stable sort,
    greatest key first. *)
Fixpoint insert_desc (key : nat -> nat) (x : nat) (l : list nat) : list nat :=
  match l with
  | [] => [x]
  | y :: l' => if key x <? key y then y :: insert_desc key x l' else x :: l
  end.
Definition sort_desc (key : nat -> nat) (l : list nat) : list nat :=
  foldr (insert_desc key) [] l.

(** The identifiers of one deduplication pass: pairs [(field_idx, id)]. *)
Definition idpair := (nat * string)%type.

(** [blacklist is None or p not in blacklist] *)
Definition allowed (blacklist : option (gset idpair)) (p : idpair) : bool :=
  match blacklist with
  | None => true
  | Some b => bool_decide (p ∉ b)
  end.

(** [_getIds] *)
Definition _getIds (id_fields : list nat) (entity : Entity)
    (blacklist : option (gset idpair)) : list idpair :=
  id_fields ≫= fun field_idx =>
    filter (fun p => allowed blacklist p = true)
           ((fun id => (field_idx, id)) <$> get_field entity field_idx).

(** What [_collectUniqueIds] keeps between two turns of its [while]:
    [dest_unique_ids_dict] as the set of the pairs [(field_idx, id)] with
    [id in dest_unique_ids_dict[field_idx]] (its keys never change), the
    blacklist, and the queue of [(entity, from_id)], where the [from_id] of
    the root is the empty string, here [None]. *)
Record cstate := mkCstate {
  dest : gset idpair;
  black : gset idpair;
  fifo_entity : list (nat * option idpair)
}.

(** What the [for] over [cur_ids] works on. *)
Record pstate := mkPstate {
  p_dest : gset idpair;
  p_black : gset idpair;
  candidates_ids : list idpair;
  candidates_entities : list (nat * option idpair)
}.

(** [len(dest_unique_ids_dict[field_idx])] is not zero. *)
Definition field_taken (d : gset idpair) (field_idx : nat) : Prop :=
  set_Exists (fun p => p.1 = field_idx) d.

(** The comprehension that builds [new_black_ids]: it goes through
    [cur_ids] and removes from [dest_unique_ids_dict] each pair it finds
    there. *)
Definition remove_conflict (cur_ids : list idpair) (d : gset idpair)
    : gset idpair * list idpair :=
  foldl (fun '(d, new_black_ids) p =>
           if decide (p ∈ d) then (d ∖ {[p]}, new_black_ids ++ [p])
           else (d, new_black_ids))
        (d, []) cur_ids.

(** [from_id in blacklist]; the empty string of the root is no tuple. *)
Definition from_blacklisted (from_id : option idpair) (b : gset idpair) : bool :=
  match from_id with
  | Some p => bool_decide (p ∈ b)
  | None => false
  end.

Section dedup.
Context `{R : Runtime}.

(** The body of the [for] over [cur_ids]. *)
Definition collect_id (index_for_kb : Index) (cur_ids : list idpair)
    (st : pstate) (p : idpair) : outcome pstate :=
  if decide (p ∈ p_black st) then Return st
  else if decide (p ∈ p_dest st) then Return st
  else if decide (field_taken (p_dest st) p.1) then
    let '(d, new_black_ids) := remove_conflict cur_ids (p_dest st) in
    Return (mkPstate d (p_black st ∪ list_to_set new_black_ids) [] [])
  else
    match index_for_kb p.1 p.2 with
    | None => Raise TypeError
    | Some entities =>
        Return (mkPstate (p_dest st) (p_black st)
                  (candidates_ids st ++ [p])
                  (candidates_entities st
                   ++ ((fun e => (e, Some p)) <$> set_iter entities)))
    end.

Fixpoint collect_ids (index_for_kb : Index) (cur_ids : list idpair)
    (st : pstate) (todo : list idpair) : outcome pstate :=
  match todo with
  | [] => Return st
  | p :: rest =>
      obind (collect_id index_for_kb cur_ids st p)
            (fun st' => collect_ids index_for_kb cur_ids st' rest)
  end.

(** One turn of the [while] of [_collectUniqueIds], after [popleft]. *)
Definition collect_entity (h : heap) (index_for_kb : Index)
    (id_fields : list nat) (d b : gset idpair)
    (fifo : list (nat * option idpair)) (entity : nat)
    (from_id : option idpair) : outcome cstate :=
  if from_blacklisted from_id b then Return (mkCstate d b fifo)
  else
    let cur_ids := _getIds id_fields (h entity) (Some b) in
    obind (collect_ids index_for_kb cur_ids (mkPstate d b [] []) cur_ids)
          (fun st =>
             Return (mkCstate (p_dest st ∪ list_to_set (candidates_ids st))
                              (p_black st)
                              (fifo ++ candidates_entities st))).

(** The [while] of [_collectUniqueIds]; [None] when [fuel] turns do not
    empty the queue. *)
Fixpoint collect_loop (fuel : nat) (h : heap) (index_for_kb : Index)
    (id_fields : list nat) (st : cstate) : option (outcome cstate) :=
  match fifo_entity st with
  | [] => Some (Return st)
  | (entity, from_id) :: fifo =>
      match fuel with
      | 0 => None
      | S fuel' =>
          match collect_entity h index_for_kb id_fields (dest st) (black st)
                  fifo entity from_id with
          | Return st' => collect_loop fuel' h index_for_kb id_fields st'
          | SysExit c e => Some (SysExit c e)
          | Raise e => Some (Raise e)
          end
      end
  end.

(** [_collectUniqueIds], called as [_deduplicate] does, on a dictionary
    of empty sets. *)
Definition _collectUniqueIds (fuel : nat) (h : heap) (id_fields : list nat)
    (root_entity : nat) (index_for_kb : Index) (blacklist : gset idpair)
    : option (outcome cstate) :=
  collect_loop fuel h index_for_kb id_fields
    (mkCstate ∅ blacklist [(root_entity, None)]).

(** The loops of [_deduplicate] that gather [matches]. *)
Fixpoint gather_matches (index_for_kb : Index) (ids : list idpair)
    (matches : list nat) : outcome (list nat) :=
  match ids with
  | [] => Return matches
  | p :: rest =>
      match index_for_kb p.1 p.2 with
      | None => Raise TypeError
      | Some entities =>
          gather_matches index_for_kb rest
            (foldl (fun s e => set_add e s) matches (set_iter entities))
      end
  end.

Definition ids_in_key_order (id_fields : list nat) (d : gset idpair)
    : list idpair :=
  id_fields ≫= fun field_idx =>
    filter (fun p => p.1 = field_idx) (elements d).

(** What [_deduplicate] keeps between two entities: the objects, the next
    free object, the blacklist and [new_kb_entities]. *)
Record dstate := mkDstate {
  objs : heap;
  fresh : nat;
  blacklist_of_uniques : gset idpair;
  new_kb_entities : list nat
  }.

(** The body of [for match in matches]: [new_entity.data] is the very list
    [matches[0].data], so what is appended lands in the base entity. *)
Definition extend_column (base match_ : nat) (h : heap) (field_idx : nat) : heap :=
  <[base := set_data
      (<[field_idx := get_field (h base) field_idx
                      ++ get_field (h match_) field_idx]> (data (h base)))
      (h base)]> h.

Definition extend_base (width : nat) (base : nat) (h : heap) (match_ : nat) : heap :=
  let h := <[match_ := set_used true (h match_)]> h in
  foldl (extend_column base match_) h (seq 0 width).

(** A field without (MULTIPLE VALUES) keeps its first value only; the
    columns [d] have a column for each such field. *)
Definition keep_first (kb : KB) (d : list (list string)) : list (list string) :=
  foldr (fun field_head d =>
           if multiple field_head then d
           else match d !! order_num field_head with
                | Some (v :: _ :: _) => <[order_num field_head := [v]]> d
                | _ => d
                end)
        d ((map_to_list (fields kb)).*2).

(** The loop over [kb.fields.values()]: [new_entity.data[order_num]] is
    read for each field without (MULTIPLE VALUES), and raises [IndexError]
    when the new entity has no such column. *)
Definition truncate_single (kb : KB) (d : list (list string))
    : outcome (list (list string)) :=
  if forallb (fun field_head =>
                multiple field_head || (order_num field_head <? length d))
             ((map_to_list (fields kb)).*2)
  then Return (keep_first kb d)
  else Raise IndexError.

(** What the fusion of [matches], already sorted, leaves when no
    subscript is out of range. *)
Definition fuse (kb : KB) (width : nat) (st : dstate) (matches : list nat) : dstate :=
  match matches with
  | [] => st
  | base :: _ =>
      let copied := objs st base in
      let h := foldl (extend_base width base) (objs st) matches in
      let new_entity :=
        mkEntity (keep_first kb (uniqifyList <$> data (h base)))
                 (weight copied) (used copied) (matched copied) in
      mkDstate (<[fresh st := new_entity]> h) (S (fresh st))
               (blacklist_of_uniques st)
               (new_kb_entities st ++ [fresh st])
  end.

(** The fusion as [_deduplicate] runs it.  The loop over [matches] reads
    [new_entity.data[field_idx]] and [match.data[field_idx]] for each
    [field_idx] below [width], the number of columns of the entity the
    cluster was collected from; [new_entity.data] is the list of columns of
    the first match.  Then comes the loop of [truncate_single].  The first
    subscript out of range raises [IndexError]. *)
Definition fuse_checked (kb : KB) (width : nat) (st : dstate)
    (matches : list nat) : outcome dstate :=
  match matches with
  | [] => Return st
  | base :: _ =>
      if forallb (fun match_ =>
                    (width <=? length (data (objs st base)))
                    && (width <=? length (data (objs st match_))))
                 matches
      then
        let copied := objs st base in
        let h := foldl (extend_base width base) (objs st) matches in
        obind (truncate_single kb (uniqifyList <$> data (h base)))
              (fun d =>
                 Return (mkDstate
                           (<[fresh st := mkEntity d (weight copied) (used copied)
                                            (matched copied)]> h)
                           (S (fresh st)) (blacklist_of_uniques st)
                           (new_kb_entities st ++ [fresh st])))
      else Raise IndexError
  end.

(** The body of the loop of [_deduplicate] for one entity. *)
Definition dedup_entity (fuel : nat) (kb : KB) (index_for_kb : Index)
    (id_fields : list nat) (st : dstate) (entity : nat)
    : option (outcome dstate) :=
  if used (objs st entity) then Some (Return st)
  else
    match _collectUniqueIds fuel (objs st) id_fields entity index_for_kb
            (blacklist_of_uniques st) with
    | None => None
    | Some (SysExit c e) => Some (SysExit c e)
    | Some (Raise e) => Some (Raise e)
    | Some (Return c) =>
        Some (obind (gather_matches index_for_kb
                       (ids_in_key_order id_fields (dest c)) [])
                (fun matches =>
                   let matches := set_iter matches in
                   let st := mkDstate (objs st) (fresh st) (black c)
                                      (new_kb_entities st) in
                   if 1 <? length matches then
                     fuse_checked kb (length (data (objs st entity))) st
                       (sort_desc (fun e => countNonEmptyFields (objs st e))
                                  matches)
                   else
                     Return (mkDstate (objs st) (fresh st) (black c)
                                      (new_kb_entities st ++ [entity]))))
    end.

Fixpoint dedup_loop (fuel : nat) (kb : KB) (index_for_kb : Index)
    (id_fields : list nat) (st : dstate) (kb_entities : list nat)
    : option (outcome dstate) :=
  match kb_entities with
  | [] => Some (Return st)
  | entity :: rest =>
      match dedup_entity fuel kb index_for_kb id_fields st entity with
      | None => None
      | Some (Return st') => dedup_loop fuel kb index_for_kb id_fields st' rest
      | Some (SysExit c e) => Some (SysExit c e)
      | Some (Raise e) => Some (Raise e)
      end
  end.

(** [_deduplicate]; the result's [new_kb_entities] replace [kb.entities]. *)
Definition _deduplicate (fuel : nat) (kb : KB) (h : heap) (fresh : nat)
    (kb_entities : list nat) (index_for_kb : Index)
    (relations : list Relation) (kb_field : Relation -> nat)
    (blacklist : gset idpair) : option (outcome dstate) :=
  let unique_ids_fields_idx :=
    set_iter (remove_dups (kb_field <$> filter (fun r => type r = UNIQUE) relations)) in
  dedup_loop fuel kb index_for_kb unique_ids_fields_idx
    (mkDstate h fresh blacklist []) kb_entities.

(** [_getIdRelations] *)
Definition _getIdRelations (kb : KB) (id_fields : list string) : list Relation :=
  omap (fun field_name =>
          (fun f => mkRelation (order_num f) 0 UNIQUE ∅)
            <$> fields kb !! (name kb +:+ "." +:+ field_name))
       id_fields.

(** [deduplicate] *)
Definition deduplicate (fuel : nat) (kb : KB) (h : heap) (fresh : nat)
    (kb_entities : list nat) (id_fields : list string)
    (blacklist_of_uniques : gset idpair) : option (outcome dstate) :=
  let relations := _getIdRelations kb id_fields in
  match _make_index_checked h kb_entities (field_count kb) relations kb1_field with
  | Return index_for_kb =>
      _deduplicate fuel kb h fresh kb_entities index_for_kb relations kb1_field
        blacklist_of_uniques
  | SysExit c e => Some (SysExit c e)
  | Raise e => Some (Raise e)
  end.

End dedup.

(** ** The pipeline of [main], from the loaded KBs to the end of [match] *)

Record Args := mkArgs {
  deduplicate_kb1 : bool;
  deduplicate_kb2 : bool;
  id_fields : list string;
  treshold : Z
}.

(** One loaded KB: its objects, [kb.entities] and the next free object. *)
Record Loaded := mkLoaded {
  l_objs : heap;
  l_entities : list nat;
  l_fresh : nat
}.

(** [blackdict_of_uniques[field]] *)
Definition blackdict_of_uniques (b : gset idpair) (field : nat) : gset string :=
  set_map snd (filter (fun p => p.1 = field) b).

(** The loop of [main] that adds the blacklist of a pass to the UNIQUE
    relations. *)
Definition feed_blacklist (kb_field : Relation -> nat) (b : gset idpair)
    (relations : list Relation) : list Relation :=
  (fun r =>
     if decide (type r = UNIQUE /\ blackdict_of_uniques b (kb_field r) <> ∅)
     then mkRelation (kb1_field r) (kb2_field r) (type r)
            (blacklist r ∪ blackdict_of_uniques b (kb_field r))
     else r) <$> relations.

(** What [main] hands to [make_output]. *)
Record Matched := mkMatched {
  m_kb1_entities : list nat;
  m_kb2_entities : list nat;
  m_relations : list Relation;
  m_state : mstate
}.

Section pipeline.
Context `{R : Runtime}.

(** The [if args.deduplicate_kb...] block of [main] for one KB. *)
Definition dedup_step (fuel : nat) (enabled : bool) (kb : KB) (l : Loaded)
  (id_fields : list string) (kb_field : Relation -> nat)
  (relations : list Relation) : option (outcome (Loaded * list Relation)) :=
if enabled then
  match deduplicate fuel kb (l_objs l) (l_fresh l) (l_entities l) id_fields ∅ with
  | None => None
  | Some (SysExit c e) => Some (SysExit c e)
  | Some (Raise e) => Some (Raise e)
  | Some (Return d) =>
      Some (Return (mkLoaded (objs d) (new_kb_entities d) (fresh d),
                    feed_blacklist kb_field (blacklist_of_uniques d) relations))
  end
else Some (Return (l, relations)).

(** [main] after [parse_relations] and before [make_output]; [None] when
  [fuel] is too little for a deduplication pass. *)
Definition main_match (fuel : nat) (args : Args) (kb1 kb2 : KB)
  (l1 l2 : Loaded) (relations : list Relation) : option (outcome Matched) :=
match dedup_step fuel (deduplicate_kb1 args) kb1 l1 (id_fields args)
        kb1_field relations with
| None => None
| Some (SysExit c e) => Some (SysExit c e)
| Some (Raise e) => Some (Raise e)
| Some (Return (l1, relations)) =>
    match dedup_step fuel (deduplicate_kb2 args) kb2 l2 (id_fields args)
            kb2_field relations with
    | None => None
    | Some (SysExit c e) => Some (SysExit c e)
    | Some (Raise e) => Some (Raise e)
    | Some (Return (l2, relations)) =>
        Some (obind (_make_index_checked (l_objs l1) (l_entities l1)
                       (field_count kb1) relations kb1_field)
                (fun index_for_kb1 =>
              obind (_make_index_checked (l_objs l2) (l_entities l2)
                       (field_count kb2) relations kb2_field)
                (fun index_for_kb2 =>
              obind (match_checked (l_entities l1) index_for_kb2 relations
                       (treshold args)
                       (mkMstate (l_objs l1) (l_objs l2) index_for_kb1 []))
                (fun st =>
              Return (mkMatched (l_entities l1) (l_entities l2) relations st)))))
    end
end.

End pipeline.

(** ** The output renderer *)

(** What [print] and [sys.stdout.write] leave on standard output. *)
Inductive out_line :=
| OutText (s : string)
| OutEntity (e : Entity).

(** What [make_output] has done so far: the ID counter, the lines written to
    the output file (one list of cells per record, one list of values per
    cell) and standard output. *)
Record ostate := mkOstate {
  counter : nat;
  output_fd : list (list (list string));
  stdout : list out_line
}.

(** [s.strip(c)] for one character [c]; the source strips the double
    quote. *)
Fixpoint lstrip_char (c : ascii) (s : string) : string :=
  match s with
  | String c' s' => if decide (c' = c) then lstrip_char c s' else s
  | EmptyString => EmptyString
  end.
Fixpoint rstrip_char (c : ascii) (s : string) : string :=
  match s with
  | String c' s' =>
      match rstrip_char c s' with
      | EmptyString => if decide (c' = c) then EmptyString else String c' EmptyString
      | r => String c' r
      end
  | EmptyString => EmptyString
  end.
Definition strip_char (c : ascii) (s : string) : string :=
  rstrip_char c (lstrip_char c s).

Definition QUOTE : ascii := "034"%char.

Section output.
Context `{R : Runtime}.

(** [generateId(prefix, counter)] *)
Definition generateId (prefix : string) (counter : nat) : string :=
prefix +:+ ":" +:+ sha224_hex counter.

(** [uniqifyList(seq, order_preserving=False)] *)
Definition uniqify_set (seq : list string) : list string :=
str_iter (uniqifyList seq).

(** [possible.extend(line.matched.get_field(n))] *)
Definition extend_matched (h2 : heap) (line : Entity) (n : nat)
  (possible : list string) : outcome (list string) :=
match matched line with
| Some m =>
    obind (get_field_checked (h2 m) n) (fun values => Return (possible ++ values))
| None => Raise AttributeError
end.

(** [possible.extend(line.get_field(n))] *)
Definition extend_line (line : Entity) (n : nat) (possible : list string)
  : outcome (list string) :=
obind (get_field_checked line n) (fun values => Return (possible ++ values)).

(** The last branch of the [if] over [fieldname] for a used line: the
  values of a field of one of the KBs.  The state is standard output. *)
Definition field_values (kb1 kb2 : KB) (h2 : heap) (relations : list Relation)
  (line : Entity) (fieldname : string) (out : list out_line)
  : outcome (list string) * list out_line :=
if Str.startswith (name kb1) fieldname then
  match fields kb1 !! fieldname with
  | None => (Raise KeyError, out)
  | Some ff =>
      (obind (extend_line line (order_num ff) []) (fun possible =>
       obind (if multiple ff || (length possible =? 0) then
                foldl (fun possible relation =>
                         if decide (kb1_field relation = order_num ff)
                         then obind possible
                                (extend_matched h2 line (kb2_field relation))
                         else possible)
                      (Return possible) relations
              else Return possible) (fun possible =>
         let possible := uniqify_set possible in
         Return (if negb (multiple ff) && (1 <? length possible)
                 then take 1 possible else possible))), out)
  end
else
  match fields kb2 !! fieldname with
  | None => (Raise KeyError, out)
  | Some ff =>
      let out := match matched line with
                 | None => out ++ [OutEntity line]
                 | Some _ => out
                 end in
      (obind (extend_matched h2 line (order_num ff) []) (fun possible =>
       obind (if multiple ff || (length possible =? 0) then
                foldl (fun possible relation =>
                         if decide (kb2_field relation = order_num ff)
                         then obind possible
                                (extend_line line (kb1_field relation))
                         else possible)
                      (Return possible) relations
              else Return possible) (fun possible =>
         let possible := uniqify_set possible in
         Return (if negb (multiple ff) && (1 <? length possible)
                 then take 1 possible else possible))), out)
  end.

(** One cell of a used line; [None] stands for the Python [None] that a
  line "None" of the configuration becomes. *)
Definition used_cell (prefix : string) (kb1 kb2 : KB) (h2 : heap)
  (relations : list Relation) (line : Entity) (fieldname : option string)
  (st : nat * list out_line) : outcome (list string) * (nat * list out_line) :=
match fieldname with
| None => (Return [EmptyString], st)
| Some fieldname =>
    if String.eqb fieldname "ID"
    then (Return [generateId prefix (S st.1)], (S st.1, st.2))
    else if Str.startswith (String QUOTE EmptyString) fieldname
    then (Return [strip_char QUOTE fieldname], st)
    else let '(r, out) := field_values kb1 kb2 h2 relations line fieldname st.2 in
         (r, (st.1, out))
end.

(** One cell of a line that is not used. *)
Definition other_cell (prefix : string) (kb1 : KB) (line : Entity)
  (fieldname : option string) (st : nat * list out_line)
  : outcome (list string) * (nat * list out_line) :=
match fieldname with
| None => (Return [EmptyString], st)
| Some fieldname =>
    if String.eqb fieldname "ID"
    then (Return [generateId prefix (S st.1)], (S st.1, st.2))
    else if Str.startswith (String QUOTE EmptyString) fieldname
    then (Return [strip_char QUOTE fieldname], st)
    else
      (obind (foldl (fun possible fn =>
                       obind possible (fun possible =>
                       obind (get_field_order_num kb1 fn) (fun field =>
                       extend_line line field possible)))
                    (Return []) (Str.split "|"%char fieldname))
             (fun possible => Return (uniqify_set possible)), st)
end.

(** The loop over the field names of one line; it stops at the first cell
  that raises. *)
Fixpoint generate_line
  (cell : option string -> nat * list out_line
          -> outcome (list string) * (nat * list out_line))
  (fieldnames : list (option string)) (generated_line : list (list string))
  (st : nat * list out_line)
  : outcome (list (list string)) * (nat * list out_line) :=
match fieldnames with
| [] => (Return generated_line, st)
| fieldname :: rest =>
    match cell fieldname st with
    | (Return possible, st') =>
        generate_line cell rest (generated_line ++ [possible]) st'
    | (SysExit c e, st') => (SysExit c e, st')
    | (Raise e, st') => (Raise e, st')
    end
end.

(** The loop of [make_output] over the entities of KB1.  An exception ends
  it; the state reached by then is returned with it. *)
Fixpoint make_output_kb1 (prefix : string) (kb1 kb2 : KB) (h1 h2 : heap)
  (relations : list Relation) (output_fields other_output_fields : list (option string))
  (kb1_entities : list nat) (st : ostate) : outcome unit * ostate :=
match kb1_entities with
| [] => (Return (), st)
| e :: rest =>
    let line := h1 e in
    let cell :=
      if used line then used_cell prefix kb1 kb2 h2 relations line
      else other_cell prefix kb1 line in
    let fieldnames := if used line then output_fields else other_output_fields in
    match generate_line cell fieldnames [] (counter st, stdout st) with
    | (Return generated_line, (n, out)) =>
        make_output_kb1 prefix kb1 kb2 h1 h2 relations output_fields
          other_output_fields rest
          (mkOstate n (output_fd st ++ [generated_line]) out)
    | (SysExit c e, (n, out)) => (SysExit c e, mkOstate n (output_fd st) out)
    | (Raise e, (n, out)) => (Raise e, mkOstate n (output_fd st) out)
    end
end.

End output.

(** ** Notions used in the statements about the matcher *)

(** Two heaps that differ in the weights of their entities at most. *)
Definition same_frame (h h' : heap) : Prop :=
  forall x, used (h' x) = used (h x) /\ data (h' x) = data (h x)
            /\ matched (h' x) = matched (h x).

(** [h'] is [h] with the entity [b] marked as used; weights may differ. *)
Definition marks_used (b : nat) (h h' : heap) : Prop :=
  used (h' b) = true
  /\ (forall x, x <> b -> used (h' x) = used (h x))
  /\ forall x, data (h' x) = data (h x) /\ matched (h' x) = matched (h x).

(** What holds between two turns of the loop of [match], for the entities
    [done] it has been through and those [todo] it has yet to see. *)
Definition match_inv (st0 st : mstate) (done todo : list nat) : Prop :=
  (forall e, e ∈ todo -> matched (h1 st e) = None /\ used (h1 st e) = false)
  /\ (forall e, e ∈ done -> used (h1 st e) = true <-> is_Some (matched (h1 st e)))
  /\ (forall e m, e ∈ done -> matched (h1 st e) = Some m ->
        used (h2 st0 m) = false /\ used (h2 st m) = true)
  /\ (forall e e' m, e ∈ done -> e' ∈ done ->
        matched (h1 st e) = Some m -> matched (h1 st e') = Some m -> e = e')
  /\ (forall m, used (h2 st0 m) = false -> used (h2 st m) = true ->
        exists e, e ∈ done /\ matched (h1 st e) = Some m)
  /\ (forall m, used (h2 st0 m) = true -> used (h2 st m) = true)
  /\ (forall m, data (h2 st m) = data (h2 st0 m))
  /\ (forall e, data (h1 st e) = data (h1 st0 e)).

(** The weight the scoring loop of [match] leaves on a candidate that
    entered it as [candidate]. *)
Definition scored_weight `{R : Runtime} (treshold : Z) (entity : nat) (h1 : heap)
    (index_for_kb1 : Index) (unique_relations other_relations : list Relation)
    (candidate : Entity) : Z :=
  let w := if unique_disagree (h1 entity) candidate unique_relations
           then (-1000)%Z else weight candidate in
  let w := if negb (_checkUnique entity candidate index_for_kb1 unique_relations)
           then (-999)%Z else w in
  if (w <? treshold)%Z then w
  else (w + other_score (h1 entity) candidate other_relations)%Z.

(** A KB as [load_to_memory] leaves it: its records are distinct objects
    below the next free one, and none of them is used, matched or weighted. *)
Definition freshly_loaded (l : Loaded) : Prop :=
  NoDup (l_entities l)
  /\ (forall x, x ∈ l_entities l ->
        used (l_objs l x) = false /\ matched (l_objs l x) = None
        /\ weight (l_objs l x) = 0%Z)
  /\ forall x, x ∈ l_entities l -> x < l_fresh l.

(** A KB in which no subscript is out of range: every ordinal of the
    schema is below [field_count], as [load_config] leaves it when no name
    is declared twice, and every record has [field_count] columns, as
    [Entity.__init__] demands of a line. *)
Definition columns_ok (kb : KB) (h : heap) (kb_entities : list nat) : Prop :=
  (forall key f, fields kb !! key = Some f -> order_num f < field_count kb)
  /\ forall x, x ∈ kb_entities -> length (data (h x)) = field_count kb.

(** Relations between columns the two KBs have. *)
Definition relations_in_range (kb1 kb2 : KB) (relations : list Relation) : Prop :=
  forall r, r ∈ relations ->
    kb1_field r < field_count kb1 /\ kb2_field r < field_count kb2.

(** ** Notions used in the statements about the deduplicator *)

(** The entity [e] has the identifier [p.2] in the identifier field [p.1]. *)
Definition has_id (id_fields : list nat) (e : Entity) (p : idpair) : Prop :=
  p.1 ∈ id_fields /\ p.2 ∈ get_field e p.1.

(** What holds of the [for] over [cur_ids] of [_collectUniqueIds] after the
    pairs [seen], when it started from the dictionary [d] and the blacklist
    [b]; [conflict] tells whether the conflict branch was taken. *)
Record collect_ids_inv `{R : Runtime} (index_for_kb : Index)
    (cur_ids : list idpair) (d b : gset idpair) (seen : list idpair)
    (st : pstate) (conflict : bool) : Prop := {
  ci_dest : p_dest st ⊆ d;
  ci_black : p_black st = b ∪ (d ∖ p_dest st);
  ci_quiet : conflict = false -> p_dest st = d;
  ci_removed : conflict = true ->
    (exists p, p ∈ d) /\ forall p, p ∈ cur_ids -> p ∈ d -> p ∉ p_dest st;
  ci_cands : forall p, p ∈ candidates_ids st ->
    p ∈ cur_ids /\ (p ∉ d) /\ (p ∉ b) /\ is_Some (index_for_kb p.1 p.2);
  ci_ents : candidates_entities st
            = candidates_ids st ≫= fun p =>
                (fun e => (e, Some p)) <$> set_iter (index_get index_for_kb p.1 p.2);
  ci_seen : conflict = false ->
    forall p, p ∈ seen -> p ∈ b \/ p ∈ d \/ p ∈ candidates_ids st
}.

(** What [_collectUniqueIds] relies on while it collects the cluster of one
    root: the index refers to the entities [ents] of the KB and to what they
    hold, it knows everything an entity holds that is not [finished] (used by
    an earlier fusion or an earlier root), and an entity that is finished
    shares an identifier outside the blacklist [b0] with finished entities
    only. *)
Record collect_env (h : heap) (index_for_kb : Index) (id_fields : list nat)
    (ents : list nat) (finished : nat -> Prop) (b0 : gset idpair) : Prop := {
  ce_index_ents : forall x f v, x ∈ index_get index_for_kb f v -> x ∈ ents;
  ce_index_sound : forall x f v,
    x ∈ index_get index_for_kb f v -> has_id id_fields (h x) (f, v);
  ce_index_complete : forall x p,
    x ∈ ents -> ~ finished x -> has_id id_fields (h x) p ->
    x ∈ index_get index_for_kb p.1 p.2;
  ce_closed : forall y p z,
    y ∈ ents -> finished y -> has_id id_fields (h y) p -> p ∉ b0 ->
    z ∈ index_get index_for_kb p.1 p.2 -> finished z
}.

(** What holds between two turns of the [while] of [_collectUniqueIds]. *)
Record collect_inv (h : heap) (index_for_kb : Index) (id_fields : list nat)
    (ents : list nat) (finished : nat -> Prop) (b0 : gset idpair)
    (root_entity : nat) (st : cstate) : Prop := {
  cl_disjoint : dest st ## black st;
  cl_black : b0 ⊆ black st;
  cl_queue : forall x from_id,
    (x, from_id) ∈ fifo_entity st -> x ∈ ents /\ ~ finished x;
  cl_members : forall p x,
    p ∈ dest st -> x ∈ index_get index_for_kb p.1 p.2 ->
    ~ finished x
    /\ ((x, Some p) ∈ fifo_entity st
        \/ forall q, has_id id_fields (h x) q -> q ∈ dest st \/ q ∈ black st);
  cl_keys : forall p,
    p ∈ dest st -> p.1 ∈ id_fields /\ is_Some (index_for_kb p.1 p.2);
  cl_root :
    (fifo_entity st = [(root_entity, None)] /\ dest st = ∅)
    \/ forall q, has_id id_fields (h root_entity) q -> q ∈ dest st \/ q ∈ black st
}.

(** An entity [_deduplicate] is done with: used by a fusion, or already
    taken as the root of a cluster. *)
Definition finished_in (h : heap) (visited : list nat) (x : nat) : Prop :=
  used (h x) = true \/ x ∈ visited.

(** What holds between two turns of the loop of [_deduplicate], for the
    entities [visited] it has been through.  [h0] and [fresh0] are the
    objects and the first free object at the start, [ents] is [kb.entities]
    and [b0] the blacklist it was given. *)
Record dedup_inv (h0 : heap) (fresh0 : nat) (index_for_kb : Index)
    (id_fields : list nat) (ents : list nat) (b0 : gset idpair)
    (st : dstate) (visited : list nat) : Prop := {
  di_frame : forall x, x ∈ ents -> used (objs st x) = false -> objs st x = h0 x;
  di_grow : forall x f v,
    x ∈ ents -> v ∈ get_field (h0 x) f -> v ∈ get_field (objs st x) f;
  di_fresh : fresh0 <= fresh st;
  di_out : forall r, r ∈ new_kb_entities st ->
    (r ∈ visited /\ r ∈ ents) \/ ((r ∉ ents) /\ fresh0 <= r < fresh st);
  di_out_nodup : NoDup (new_kb_entities st);
  di_out_new : forall r, r ∈ new_kb_entities st ->
    used (objs st r) = false /\ matched (objs st r) = None
    /\ weight (objs st r) = 0%Z;
  di_closed : forall y p z,
    y ∈ ents -> finished_in (objs st) visited y ->
    has_id id_fields (objs st y) p -> p ∉ blacklist_of_uniques st ->
    z ∈ index_get index_for_kb p.1 p.2 -> finished_in (objs st) visited z;
  di_out_closed : forall r p z,
    r ∈ new_kb_entities st ->
    has_id id_fields (objs st r) p -> p ∉ blacklist_of_uniques st ->
    z ∈ index_get index_for_kb p.1 p.2 -> finished_in (objs st) visited z;
  di_distinct : forall i j r r' p,
    i < j -> new_kb_entities st !! i = Some r -> new_kb_entities st !! j = Some r' ->
    has_id id_fields (objs st r) p -> has_id id_fields (objs st r') p ->
    p ∈ blacklist_of_uniques st;
  di_black : b0 ⊆ blacklist_of_uniques st
}.

(** ** Small knowledge bases used as examples *)

(** An entity as [Entity.__init__] leaves it. *)
Definition new_entity (d : list (list string)) : Entity := mkEntity d 0 false None.

(** The heap that holds the entities of a list at their positions. *)
Definition heap_of (l : list Entity) : heap :=
  fun i => default (new_entity []) (l !! i).

(** A KB whose only column holds Freebase URLs. *)
Definition freebase_kb : KB :=
  mkKB "kb1" {[ "kb1.FREEBASE URL" := mkField 0 false ]} 1.

(** A relation file with an empty line between its two sections, and the
    two KBs it is about. *)
Definition rel_kb1 : KB := mkKB "a" {[ "a.ID" := mkField 0 false ]} 1.
Definition rel_kb2 : KB := mkKB "b" {[ "b.ID" := mkField 0 false ]} 1.
Definition rel_text : string :=
  "UNIQUE:" +:+ String Str.LF (String Str.TAB "a.ID=b.ID")
  +:+ String Str.LF (String Str.LF ("NAME:" +:+ String Str.LF "")).

(** A relation file whose second line is a tab and nothing else. *)
Definition rel_blank_text : string :=
  "UNIQUE:" +:+ String Str.LF (String Str.TAB (String Str.LF "")).

Module DedupExample.
(** Two records share the identifier [a] in the first identifier field and
    disagree in the second. *)
Definition kb : KB :=
  mkKB "k" {[ "k.ID" := mkField 0 false; "k.WIKIDATA URL" := mkField 1 false ]} 2.
Definition kb_objs : heap :=
  heap_of [new_entity [["a"]; ["x"]]; new_entity [["a"]; ["y"]]].
Definition kb_entities : list nat := [0; 1].
Definition id_names : list string := ["ID"; "WIKIDATA URL"].
Definition index : Index :=
  make_index_for_kb1 kb_objs kb_entities (_getIdRelations kb id_names).
(** The turn of the [while] that finds the conflict: the dictionary holds
    what the first record has, the second record is being looked at. *)
Definition at_conflict : pstate :=
  mkPstate {[ (0, "a"); (1, "x") ]} ∅ [] [].
Definition cur_ids : list idpair := [(0, "a"); (1, "y")].
End DedupExample.

Module FuseExample.
(** Two records share an identifier and nothing sets them apart. *)
Definition kb : KB :=
  mkKB "k" {[ "k.ID" := mkField 0 false; "k.NAME" := mkField 1 true ]} 2.
Definition kb_objs : heap :=
  heap_of [new_entity [["a"]; ["n1"]]; new_entity [["a"]; ["n2"]]].
Definition kb_entities : list nat := [0; 1].
Definition empty_kb : KB := mkKB "e" ∅ 0.
(** [main] with [--deduplicate_kb1], an empty second KB and no relation. *)
Definition args : Args := mkArgs true false ["ID"] 1.
Definition loaded : Loaded := mkLoaded kb_objs kb_entities 2.
Definition nothing_loaded : Loaded := mkLoaded (heap_of []) [] 0.
End FuseExample.

Module PipelineExample.
(** KB1 holds two records of the identifier [a] and a third one; KB2 holds
    a record of the identifier [a], one that has the name of the third
    record of KB1 and another identifier, and one that has nothing in
    common with KB1.  [main] runs with [--deduplicate_kb1]. *)
Definition kb1 : KB :=
  mkKB "a" {[ "a.ID" := mkField 0 false; "a.NAME" := mkField 1 true ]} 2.
Definition kb2 : KB :=
  mkKB "b" {[ "b.ID" := mkField 0 false; "b.NAME" := mkField 1 true ]} 2.
Definition relations : list Relation :=
  [mkRelation 0 0 UNIQUE ∅; mkRelation 1 1 NAME ∅].
Definition l1 : Loaded :=
  mkLoaded (heap_of [new_entity [["a"]; ["n1"]]; new_entity [["a"]; ["n2"]];
                     new_entity [["b"]; ["n3"]]]) [0; 1; 2] 3.
Definition l2 : Loaded :=
  mkLoaded (heap_of [new_entity [["a"]; ["n9"]]; new_entity [["c"]; ["n3"]];
                     new_entity [["d"]; ["n7"]]]) [0; 1; 2] 3.
Definition args : Args := mkArgs true false ["ID"] 1.
End PipelineExample.

Module ConflictExample.
(** KB1 holds [A] (a GeoNames identifier and a name) and another record that
    has the Wikipedia identifier of [B]; KB2 holds [B], which shares the
    GeoNames identifier of [A], and [D], which shares the name of [A]. *)
Definition relations : list Relation :=
  [mkRelation 0 0 UNIQUE ∅; mkRelation 1 1 UNIQUE ∅; mkRelation 2 2 NAME ∅].
Definition kb1_objs : heap :=
  heap_of [new_entity [["123"]; []; ["d"]]; new_entity [[]; ["w"]; ["q"]]].
Definition kb2_objs : heap :=
  heap_of [new_entity [["123"]; ["w"]; ["b"]]; new_entity [[]; []; ["d"]]].
Definition index2 : Index := make_index_for_kb2 kb2_objs [0; 1] relations.
Definition start : mstate :=
  mkMstate kb1_objs kb2_objs (make_index_for_kb1 kb1_objs [0; 1] relations) [].
Definition unique_relations : list Relation :=
  filter (fun x => type x = UNIQUE) relations.
Definition name_relations : list Relation :=
  filter (fun x => type x <> UNIQUE /\ type x = NAME) relations.
End ConflictExample.

Module VetoExample.
(** The first record of KB1 shares a name with the only record of KB2 but
    not its identifier, which the second record of KB1 has. *)
Definition relations : list Relation :=
  [mkRelation 0 0 UNIQUE ∅; mkRelation 1 1 NAME ∅].
Definition kb1_objs : heap :=
  heap_of [new_entity [["u1"]; ["n"]]; new_entity [["u2"]; ["z"]]].
Definition kb2_objs : heap := heap_of [new_entity [["u2"]; ["n"]]].
Definition index2 : Index := make_index_for_kb2 kb2_objs [0] relations.
Definition start : mstate :=
  mkMstate kb1_objs kb2_objs (make_index_for_kb1 kb1_objs [0; 1] relations) [].
End VetoExample.

Module OutputExample.
(** The first record of KB1 is marked as used and has no [matched]; the
    template for used records asks for a field of KB2. *)
Definition kb1 : KB := mkKB "a" {[ "a.ID" := mkField 0 false ]} 1.
Definition kb2 : KB := mkKB "b" {[ "b.ID" := mkField 0 false ]} 1.
Definition relations : list Relation := [mkRelation 0 0 UNIQUE ∅].
Definition kb1_objs : heap :=
  heap_of [mkEntity [["1"]] 0 true None; new_entity [["2"]]].
Definition kb2_objs : heap := heap_of [].
Definition output_fields : list (option string) := [Some "ID"; Some "b.ID"].
Definition other_output_fields : list (option string) := [Some "ID"; Some "a.ID"].
Definition start : ostate := mkOstate 0 [] [].
End OutputExample.

Module TresholdExample.
(** Two records of KB1 share names with the only record of KB2: the first
    one name, the second two. *)
Definition relations : list Relation := [mkRelation 0 0 NAME ∅].
Definition kb1_objs : heap :=
  heap_of [new_entity [["n1"]]; new_entity [["n1"; "n2"]]].
Definition kb2_objs : heap := heap_of [new_entity [["n1"; "n2"]]].
Definition run (R : Runtime) (treshold : Z) : mstate :=
  match_ [0; 1] (make_index_for_kb2 kb2_objs [0] relations) relations treshold
    (mkMstate kb1_objs kb2_objs (make_index_for_kb1 kb1_objs [0; 1] relations) []).
End TresholdExample.


(** ** Loading a KB: the field table and the records *)

Definition MULTIPLE_VALUES : string := " (MULTIPLE VALUES)".

(** What a line of the [.fields] file declares: nothing when it is blank,
    else a field name and whether the field may hold several values. *)
Definition declared (line : string) : option (string * bool) :=
  let line := Str.strip line in
  if decide (line = EmptyString) then None
  else if Str.endswith MULTIPLE_VALUES line
       then Some (Str.drop_end (String.length MULTIPLE_VALUES) line, true)
       else Some (line, false).

(** One turn of the loop of [KB.load_config]; the state is [self.fields]
    and [line_number]. *)
Definition config_line (kb_name : string) (st : gmap string Field * nat)
    (line : string) : gmap string Field * nat :=
  match declared line with
  | None => st
  | Some (field_name, multiple) =>
      (<[kb_name +:+ "." +:+ field_name := mkField st.2 multiple]> st.1, S st.2)
  end.

(** [KB.__init__] and [KB.load_config]; [fields_fd] is the text of the
    [.fields] file, [None] when it cannot be opened. *)
Definition load_config (KB_file_name fields_file_name : string)
    (fields_fd : option string) : outcome KB :=
  match fields_fd with
  | None => SysExit 1 [cannot_open fields_file_name]
  | Some text =>
      let st := foldl (config_line KB_file_name) (∅, 0) (Str.lines text) in
      Return (mkKB KB_file_name st.1 (size st.1))
  end.

(** The declarations of a [.fields] file, in file order. *)
Definition declarations (text : string) : list (string * bool) :=
  omap declared (Str.lines text).

(** The table and the line count after the declarations [es], each under
    the ordinal of its position. *)
Definition table_of (kb_name : string) (es : list (string * bool))
    : gmap string Field * nat :=
  foldl (fun st e =>
           (<[kb_name +:+ "." +:+ e.1 := mkField st.2 e.2]> st.1, S st.2))
        (∅, 0) es.

(** What building the records of a KB can raise: the [RuntimeError] of
    [Entity.__init__] with the columns it found, the [ValueError] of
    [str.split] on an empty separator, and the [IndexError] of a subscript
    past the last column. *)
Inductive load_exn :=
| RuntimeError (data : list string)
| EmptySeparator
| Uncaught (e : pyexn).

Inductive load_outcome (A : Type) :=
| LoadReturn (a : A)
| LoadExit (code : Z) (stderr : list string)
| LoadRaise (e : load_exn).
Arguments LoadReturn {A} a.
Arguments LoadExit {A} code stderr.
Arguments LoadRaise {A} e.

Section loader.
Context `{R : Runtime}.

(** One column of a line: split at the separator, each part stripped, the
    parts put in a set, the empty string removed, the set made a list. *)
Definition init_cell (separator cell : string) : list string :=
  str_iter (filter (fun v => v <> EmptyString)
                   (uniqifyList (Str.strip <$> Str.split_on separator cell))).

(** [Entity.__init__] *)
Definition Entity_init (line separator : string) (field_count : nat)
    : load_outcome Entity :=
  let data := Str.split Str.TAB line in
  if decide (length data = field_count) then
    if decide (separator = EmptyString) then LoadRaise EmptySeparator
    else LoadReturn (mkEntity (init_cell separator <$> data) 0 false None)
  else LoadRaise (RuntimeError data).

(** The body of the loop of [KB.load_to_memory] for one line of the KB
    file. *)
Definition load_line (separator : string) (field_count : nat)
    (freebase_idx : option nat) (line : string) : load_outcome Entity :=
  match Entity_init (Str.rstrip_chars [Str.CR; Str.LF] line) separator field_count with
  | LoadReturn entity =>
      match freebase_idx with
      | None => LoadReturn entity
      | Some idx =>
          if idx <? length (data entity)
          then LoadReturn (fixFreebaseUrl entity idx)
          else LoadRaise (Uncaught IndexError)
      end
  | other => other
  end.

Fixpoint load_lines (separator : string) (field_count : nat)
    (freebase_idx : option nat) (entities : list Entity) (ls : list string)
    : load_outcome (list Entity) :=
  match ls with
  | [] => LoadReturn entities
  | line :: rest =>
      match load_line separator field_count freebase_idx line with
      | LoadReturn entity =>
          load_lines separator field_count freebase_idx (entities ++ [entity]) rest
      | LoadExit c e => LoadExit c e
      | LoadRaise e => LoadRaise e
      end
  end.

(** [KB.load_to_memory], from the text of the KB file ([None] when it
    cannot be opened) to [self.entities]. *)
Definition load_file (kb : KB) (separator : string) (kb_fd : option string)
    : load_outcome (list Entity) :=
  let freebase_idx :=
    order_num <$> fields kb !! (name kb +:+ "." +:+ "FREEBASE URL") in
  match kb_fd with
  | None => LoadExit 1 [cannot_open (name kb)]
  | Some text =>
      load_lines separator (field_count kb) freebase_idx [] (Str.lines text)
  end.

End loader.

(** The records of a KB as [main] holds them: the object of line [i] is
    [i]. *)
Definition loaded_kb (entities : list Entity) : Loaded :=
  mkLoaded (heap_of entities) (seq 0 (length entities)) (length entities).

(** ** Examples for the loader *)

Module LoadExample.
(** A [.fields] file with a blank line and a field of several values,
    whose first line ends with a carriage return and a line feed and whose
    second line is a lone carriage return; one that declares a name twice;
    and a KB file of two records, the first of which ends with a lone
    carriage return. *)
Definition fields_text : string :=
  "ID" +:+ String Str.CR (String Str.LF (String Str.CR
    ("NAME (MULTIPLE VALUES)" +:+ String Str.LF ""))).
Definition repeated_text : string :=
  "ID" +:+ String Str.LF ("ID" +:+ String Str.LF "").
Definition kb : KB :=
  mkKB "k" {[ "k.ID" := mkField 0 false; "k.NAME" := mkField 1 true ]} 2.
Definition kb_text : string :=
  "a" +:+ String Str.TAB ("n1| n2 |n1" +:+ String Str.CR
  ("b" +:+ String Str.TAB (String Str.LF ""))).
End LoadExample.

(** ** Notions used in the statements about the relation file *)

(** A relation as [parse_relations] builds it: between a field of [kb1]
    and a field of [kb2], of a type the parser knows or of the type 0 it
    starts with, and with nothing blacklisted. *)
Definition parsed_relation (kb1 kb2 : KB) (r : Relation) : Prop :=
  (exists key f, fields kb1 !! key = Some f /\ kb1_field r = order_num f)
  /\ (exists key f, fields kb2 !! key = Some f /\ kb2_field r = order_num f)
  /\ type r <= OTHER /\ blacklist r = ∅.

(** A field name as it can stand on either side of the [=] of a pair: not
    empty, without white space at its ends and without [=]. *)
Definition pair_name (s : string) : Prop :=
  s <> EmptyString /\ Str.strip s = s /\ Str.count "="%char s = 0.

(** The line of a relation file that pairs [first] with [second], with
    the white space [ws] (the newline) at its end. *)
Definition pair_line (first second ws : string) : string :=
  tab_string +:+ (first +:+ ("=" +:+ (second +:+ ws))).

(** A relation file of one section and one pair; the line of the section
    ends with a lone carriage return. *)
Definition rel_pair_text : string :=
  "UNIQUE:" +:+ String Str.CR (String Str.TAB "a.ID=b.ID" +:+ String Str.LF "").

(** ** Notions used in the statements about the matcher *)

(** The record [m] of the other KB is in the index under a value, not
    empty, that [entity] has in the field of one of the [relations]. *)
Definition shares (entity : Entity) (index : Index) (relations : list Relation)
    (m : nat) : Prop :=
  exists r value,
    r ∈ relations /\ value ∈ get_field entity (kb1_field r)
    /\ value <> EmptyString /\ m ∈ index_get index (kb2_field r) value.

(** The pairs of a relation and a value of [entity] under which the index
    holds [c]: what [c] has in common with [entity]. *)
Definition name_hits (entity : Entity) (index : Index)
    (name_relations : list Relation) (c : nat) : list (Relation * string) :=
  name_relations ≫= fun r =>
    (fun value => (r, value))
      <$> filter (fun value => value <> EmptyString
                               /\ c ∈ index_get index (kb2_field r) value)
                 (get_field entity (kb1_field r)).

(** The records the loops of [match_by_name] come across, one for each
    time they do. *)
Definition name_lookups `{R : Runtime} (entity : Entity) (index : Index)
    (name_relations : list Relation) : list nat :=
  name_relations ≫= fun r =>
    get_field entity (kb1_field r) ≫= fun value =>
      if nonempty value then set_iter (index_get index (kb2_field r) value)
      else [].

(** The body of the innermost loop of [match_by_name]. *)
Definition name_step (st : list nat * heap) (e : nat) : list nat * heap :=
  let '(candidates, h) := st in
  if used (h e) then (candidates, h)
  else (set_add e candidates, <[e := set_weight (weight (h e) + 1) (h e)]> h).

Module SoloExample.
(** Two records that share a name and no identifier. *)
Definition kb_objs : heap :=
  heap_of [new_entity [["a"]; ["n"]]; new_entity [["b"]; ["n"]]].
Definition kb_entities : list nat := [0; 1].
End SoloExample.

(** ** The rest of the renderer: writing lines, and the records of KB2
    that were not matched *)

(** [Output.write_line_to_output]: the text written for a generated
    line. *)
Definition render_line (line : list (list string)) : string :=
  Str.join tab_string (Str.join "|" <$> line) +:+ String Str.LF EmptyString.

(** [Output.generate_rest]: the lines written to the second output file,
    one for each record of KB2 that is not used. *)
Definition generate_rest (h2 : heap) (entities : list nat) : list string :=
  (fun e => render_line (data (h2 e)))
    <$> filter (fun e => used (h2 e) = false) entities.

Section second.
Context `{R : Runtime}.

(** One cell of a line of [Output.generate_second]; the state is the ID
    counter. *)
Definition second_cell (prefix kb : string) (fields_in_kb2 : gmap string Field)
    (line : Entity) (fieldname : option string) (counter : nat)
    : outcome string * nat :=
  match fieldname with
  | None => (Return EmptyString, counter)
  | Some fieldname =>
      if String.eqb fieldname "ID"
      then (Return (generateId prefix (S counter)), S counter)
      else if Str.startswith (String QUOTE EmptyString) fieldname
      then (Return (strip_char QUOTE fieldname), counter)
      else if negb (Str.startswith kb fieldname)
      then (Return EmptyString, counter)
      else match fields_in_kb2 !! fieldname with
           | None => (Raise KeyError, counter)
           | Some f =>
               (obind (get_field_checked line (order_num f))
                      (fun values => Return (Str.join "|" values)), counter)
           end
  end.

(** The loop over [output] for one record. *)
Fixpoint second_line (prefix kb : string) (fields_in_kb2 : gmap string Field)
    (line : Entity) (output : list (option string)) (result : list string)
    (counter : nat) : outcome (list string) * nat :=
  match output with
  | [] => (Return result, counter)
  | fieldname :: rest =>
      match second_cell prefix kb fields_in_kb2 line fieldname counter with
      | (Return cell, counter') =>
          second_line prefix kb fields_in_kb2 line rest (result ++ [cell]) counter'
      | (SysExit c e, counter') => (SysExit c e, counter')
      | (Raise e, counter') => (Raise e, counter')
      end
  end.

(** [Output.generate_second]: the lines it writes to the output file and
    the ID counter it leaves. *)
Fixpoint generate_second (prefix : string) (h2 : heap) (data : list nat)
    (output : list (option string)) (kb : string)
    (fields_in_kb2 : gmap string Field) (written : list string) (counter : nat)
    : outcome (list string) * nat :=
  match data with
  | [] => (Return written, counter)
  | e :: rest =>
      if used (h2 e)
      then generate_second prefix h2 rest output kb fields_in_kb2 written counter
      else
        match second_line prefix kb fields_in_kb2 (h2 e) output [] counter with
        | (Return result, counter') =>
            generate_second prefix h2 rest output kb fields_in_kb2
              (written ++ [Str.join tab_string result +:+ String Str.LF EmptyString])
              counter'
        | (SysExit c e, counter') => (SysExit c e, counter')
        | (Raise e, counter') => (Raise e, counter')
        end
  end.

End second.

(** A value that a file keeps as it is: not empty, without white space at
    its ends, and without the characters that separate lines, columns and
    values. *)
Definition plain_value (v : string) : Prop :=
  v <> EmptyString /\ Str.strip v = v
  /\ Str.count Str.TAB v = 0 /\ Str.count "|"%char v = 0
  /\ Str.count Str.CR v = 0 /\ Str.count Str.LF v = 0.

(** A record a file keeps as it is: at least one column, and in each
    column plain values without repetition. *)
Definition plain_record (d : list (list string)) : Prop :=
  d <> [] /\ Forall (Forall plain_value) d /\ Forall NoDup d.

(** What writing [lines] one after the other leaves in a file. *)
Definition file_text (lines : list string) : string :=
  foldr String.append EmptyString lines.

Module RestExample.
(** Two KBs of one column; the second record of KB2 has no counterpart in
    KB1. *)
Definition kb1 : KB := mkKB "a" {[ "a.ID" := mkField 0 false ]} 1.
Definition kb2 : KB := mkKB "b" {[ "b.ID" := mkField 0 false ]} 1.
Definition relations : list Relation := [mkRelation 0 0 UNIQUE ∅].
Definition l1 : Loaded := loaded_kb [new_entity [["1"]]].
Definition l2 : Loaded := loaded_kb [new_entity [["1"]]; new_entity [["2"]]].
Definition args : Args := mkArgs false false ["ID"] 1.
End RestExample.


(** * Proofs *)

(** ** Strings *)

Section find_facts.
Variable sub : string.

Lemma find_Some s i :
  Str.find sub s = Some i ->
  Str.occurs_at sub s i /\ forall j, j < i -> ~ Str.occurs_at sub s j.
Proof.
  unfold Str.occurs_at. revert i.
  induction s as [|c s IH]; intros i; cbn [Str.find].
  - destruct (String.prefix sub "") eqn:E; [|done].
    intros [= <-]. split; [done | lia].
  - destruct (String.prefix sub (String c s)) eqn:E.
    + intros [= <-]. split; [done | lia].
    + destruct (Str.find sub s) as [k|] eqn:F; [|done].
      intros [= <-]. destruct (IH k eq_refl) as [H1 H2].
      split; [done|]. intros [|j] Hj; cbn [Str.drop].
      * by rewrite E.
      * apply H2. lia.
Qed.

Lemma find_None s :
  Str.find sub s = None -> forall j, ~ Str.occurs_at sub s j.
Proof.
  unfold Str.occurs_at.
  induction s as [|c s IH]; cbn [Str.find].
  - destruct (String.prefix sub "") eqn:E; [done|].
    intros _ [|j]; cbn [Str.drop]; by rewrite E.
  - destruct (String.prefix sub (String c s)) eqn:E; [done|].
    destruct (Str.find sub s) eqn:F; [done|].
    intros _ [|j]; cbn [Str.drop]; [by rewrite E | by apply IH].
Qed.

Lemma contains_true s :
  Str.contains sub s = true <-> exists j, Str.occurs_at sub s j.
Proof.
  unfold Str.contains. rewrite bool_decide_eq_true. split.
  - intros [i Hi]. exists i. by apply find_Some.
  - intros [j Hj]. destruct (Str.find sub s) eqn:F; [done|].
    by apply find_None with (j := j) in F.
Qed.

Lemma contains_false s :
  Str.contains sub s = false <-> forall j, ~ Str.occurs_at sub s j.
Proof.
  rewrite <- not_true_iff_false, contains_true. split.
  - intros H j Hj. apply H. by exists j.
  - intros H [j Hj]. by apply (H j).
Qed.
End find_facts.

(** ** Loading *)

Lemma fix_url_cases u :
  (exists i,
      Str.occurs_at FREEBASE u i
      /\ (forall j, j < i -> ~ Str.occurs_at FREEBASE u j)
      /\ (forall j, ~ Str.occurs_at WWW_FREEBASE u j)
      /\ fix_url u = "http://www." +:+ Str.drop i u)
  \/ (((forall j, ~ Str.occurs_at FREEBASE u j)
       \/ exists j, Str.occurs_at WWW_FREEBASE u j)
      /\ fix_url u = u).
Proof.
  unfold fix_url.
  destruct (Str.contains FREEBASE u) eqn:E1; simpl.
  - destruct (Str.contains WWW_FREEBASE u) eqn:E2; simpl.
    + right. split; [|done]. right. by apply contains_true.
    + destruct (Str.find FREEBASE u) as [i|] eqn:F.
      * left. exists i. destruct (find_Some _ _ _ F) as [H1 H2].
        split_and!; try done. by apply contains_false.
      * apply contains_true in E1 as [j Hj].
        by apply find_None with (j := j) in F.
  - right. split; [|done]. left. by apply contains_false.
Qed.

(** C8 (as the code has it). For a KB with a field named FREEBASE URL,
    loading rewrites every value of that field of every record, and nothing
    else: a value in which "freebase.com/" occurs and
    "http://www.freebase.com/" occurs nowhere becomes "http://www." followed
    by the value from the first occurrence of "freebase.com/" on; every other
    value is kept. *)
Theorem load_to_memory_freebase (kb : KB) (parsed : list Entity) (f : Field)
    (n : nat) (e : Entity) :
  fields kb !! (name kb +:+ ".FREEBASE URL") = Some f ->
  parsed !! n = Some e ->
  order_num f < length (data e) ->
  exists e', load_to_memory kb parsed !! n = Some e'
    /\ weight e' = weight e /\ used e' = used e /\ matched e' = matched e
    /\ length (data e') = length (data e)
    /\ (forall k, k <> order_num f -> get_field e' k = get_field e k)
    /\ length (get_field e' (order_num f)) = length (get_field e (order_num f))
    /\ forall k u, get_field e (order_num f) !! k = Some u ->
        exists u', get_field e' (order_num f) !! k = Some u'
        /\ ((exists i,
               Str.occurs_at FREEBASE u i
               /\ (forall j, j < i -> ~ Str.occurs_at FREEBASE u j)
               /\ (forall j, ~ Str.occurs_at WWW_FREEBASE u j)
               /\ u' = "http://www." +:+ Str.drop i u)
            \/ (((forall j, ~ Str.occurs_at FREEBASE u j)
                 \/ exists j, Str.occurs_at WWW_FREEBASE u j)
                /\ u' = u)).
Proof.
  intros Hf Hn Hlen. unfold load_to_memory.
  change (name kb +:+ "." +:+ "FREEBASE URL") with (name kb +:+ ".FREEBASE URL").
  rewrite Hf, list_lookup_fmap, Hn. simpl.
  eexists. split; [done|].
  unfold fixFreebaseUrl, get_field; simpl.
  split_and!; try done.
  - by rewrite length_insert.
  - intros k Hk. rewrite !list_lookup_total_alt.
    by rewrite list_lookup_insert_ne.
  - rewrite (list_lookup_total_alt (<[_:=_]> _)), list_lookup_insert_eq by done.
    simpl. by rewrite length_fmap.
  - intros k u Hu.
    rewrite (list_lookup_total_alt (<[_:=_]> _)), list_lookup_insert_eq by done.
    simpl. rewrite list_lookup_fmap, Hu. simpl.
    eexists. split; [done|]. apply fix_url_cases.
Qed.

Lemma load_to_memory_freebase_witness :
  exists e', load_to_memory freebase_kb
               [mkEntity [["m.123/freebase.com/type/X"]] 0 false None] !! 0 = Some e'
    /\ get_field e' 0 = ["http://www.freebase.com/type/X"].
Proof.
  destruct (load_to_memory_freebase freebase_kb
              [mkEntity [["m.123/freebase.com/type/X"]] 0 false None]
              (mkField 0 false) 0
              (mkEntity [["m.123/freebase.com/type/X"]] 0 false None))
    as (e' & He' & _); [reflexivity | reflexivity | simpl; lia |].
  exists e'. split; [exact He'|].
  vm_compute in He'. injection He' as <-. reflexivity.
Defined.

(** C8 (as the spec has it) fails where "http://www.freebase.com/" occurs in
    a value but not at its start: the value contains "freebase.com/" and does
    not begin with "http://www.freebase.com/", yet it is kept as it is. *)
Lemma fix_url_not_prefix_test :
  Str.contains FREEBASE "x http://www.freebase.com/m/1" = true
  /\ Str.startswith WWW_FREEBASE "x http://www.freebase.com/m/1" = false
  /\ Str.find FREEBASE "x http://www.freebase.com/m/1" = Some 13
  /\ fix_url "x http://www.freebase.com/m/1" = "x http://www.freebase.com/m/1"
  /\ fix_url "x http://www.freebase.com/m/1"
     <> "http://www." +:+ Str.drop 13 "x http://www.freebase.com/m/1".
Proof. vm_compute. split_and!; try reflexivity. discriminate. Qed.


(** ** The relation file *)

Lemma split_lines_nonempty text l : l ∈ Str.split_lines text -> l <> EmptyString.
Proof.
  revert l. induction text as [|c s IH]; intros l; cbn [Str.split_lines].
  - by intros ?%elem_of_nil.
  - case_decide as Hc.
    + intros [->|Hl]%elem_of_cons; [done | by apply IH].
    + destruct (Str.split_lines s) as [|l0 ls] eqn:E.
      * by intros ->%list_elem_of_singleton.
      * intros [->|Hl]%elem_of_cons; [done|]. apply IH. by right.
Qed.

Lemma lines_nonempty text l : l ∈ Str.lines text -> l <> EmptyString.
Proof. apply split_lines_nonempty. Qed.

Lemma isspace_not_header c s :
  Str.isspace c = true -> is_header (String c s) = false.
Proof.
  destruct c as [[] [] [] [] [] [] [] []]; try discriminate; reflexivity.
Qed.

Lemma lstrip_all_space s : Str.all_space s = true -> Str.lstrip s = EmptyString.
Proof.
  induction s as [|c s IH]; [done|]. cbn [Str.all_space Str.lstrip].
  intros [Hc Hs]%andb_prop. rewrite Hc. auto.
Qed.

Lemma parse_line_blank_indented fname kb1 kb2 st l :
  Str.all_space l = true -> is_indented l = true ->
  parse_line fname kb1 kb2 st l = Raise ValueError.
Proof.
  intros Hb Hi. destruct l as [|c s]; [done|].
  cbn [Str.all_space] in Hb. apply andb_prop in Hb as [Hc Hs].
  pose proof (isspace_not_header c s Hc) as Hh.
  unfold is_header in Hh. apply orb_false_elim in Hh as [Hh H3].
  apply orb_false_elim in Hh as [H1 H2].
  unfold parse_line. destruct st as [rels ty].
  rewrite decide_False by done. rewrite H1, H2, H3.
  unfold is_indented in Hi. rewrite Hi.
  unfold Str.strip. rewrite lstrip_all_space; [done|].
  cbn [Str.all_space]. by rewrite Hc, Hs.
Qed.

Lemma parse_line_unknown fname kb1 kb2 st l :
  l <> EmptyString -> is_header l = false -> is_indented l = false ->
  parse_line fname kb1 kb2 st l = SysExit 1 [invalid_format fname].
Proof.
  intros Hne Hh Hi. unfold is_header in Hh.
  apply orb_false_elim in Hh as [Hh H3].
  apply orb_false_elim in Hh as [H1 H2].
  unfold parse_line. destruct st as [rels ty].
  rewrite decide_False by done. rewrite H1, H2, H3.
  unfold is_indented in Hi. by rewrite Hi.
Qed.

Lemma parse_line_status fname kb1 kb2 st l :
  (exists st', parse_line fname kb1 kb2 st l = Return st')
  \/ exit_status (parse_line fname kb1 kb2 st l) = Some 1%Z.
Proof.
  unfold parse_line. destruct st as [rels ty].
  repeat (case_decide || case_match); simplify_eq/=; eauto.
  all: unfold get_field_order_num, obind; repeat case_match; simplify_eq/=; eauto.
Qed.

Lemma parse_lines_app fname kb1 kb2 st pre ls :
  parse_lines fname kb1 kb2 st (pre ++ ls)
  = obind (parse_lines fname kb1 kb2 st pre)
          (fun st' => parse_lines fname kb1 kb2 st' ls).
Proof.
  revert st. induction pre as [|l pre IH]; intros st; [done|].
  simpl. destruct (parse_line fname kb1 kb2 st l); simpl; auto.
Qed.

Lemma parse_lines_status fname kb1 kb2 st ls :
  (exists st', parse_lines fname kb1 kb2 st ls = Return st')
  \/ exit_status (parse_lines fname kb1 kb2 st ls) = Some 1%Z.
Proof.
  revert st. induction ls as [|l ls IH]; intros st; simpl; [eauto|].
  destruct (parse_line_status fname kb1 kb2 st l) as [[st' ->]| H]; simpl; [auto|].
  right. by destruct (parse_line fname kb1 kb2 st l).
Qed.

(** A line that is blank, or that is neither a header nor indented. *)
Lemma parse_line_rejected fname kb1 kb2 st l :
  l <> EmptyString ->
  Str.all_space l = true \/ (is_header l = false /\ is_indented l = false) ->
  parse_line fname kb1 kb2 st l
  = if is_indented l then Raise ValueError else SysExit 1 [invalid_format fname].
Proof.
  intros Hne Hl. destruct (is_indented l) eqn:Hi.
  - destruct Hl as [Hb|[_ ?]]; [|done]. by apply parse_line_blank_indented.
  - apply parse_line_unknown; try done.
    destruct Hl as [Hb|[? _]]; [|done].
    destruct l as [|c s]; [done|]. apply isspace_not_header.
    cbn [Str.all_space] in Hb. by apply andb_prop in Hb as [? _].
Qed.

(** C10 (as the code has it). A line of the relation file that is blank
    (white space only), or
    that neither starts with "UNIQUE:", "NAME:" or "OTHER:" nor with a tab,
    is fatal: whatever comes before and after it, [parse_relations] does not
    return and the process ends with exit status 1.  When the lines before it
    are accepted, it is this line that ends the run: through [printErr]
    ("Invalid format of the config file ...") and [exit(1)] when it does not
    start with a tab, and through the [ValueError] of the unpacking, which
    nobody catches, when it is blank and starts with a tab. *)
Theorem parse_relations_rejects_line (fname text : string) (kb1 kb2 : KB)
    (pre post : list string) (l : string) :
  Str.lines text = pre ++ l :: post ->
  Str.all_space l = true \/ (is_header l = false /\ is_indented l = false) ->
  exit_status (parse_relations fname (Some text) kb1 kb2) = Some 1%Z
  /\ forall st, parse_lines fname kb1 kb2 ([], 0) pre = Return st ->
       parse_relations fname (Some text) kb1 kb2
       = if is_indented l then Raise ValueError
         else SysExit 1 [invalid_format fname].
Proof.
  intros Hlines Hl.
  assert (l <> EmptyString) as Hne.
  { apply (lines_nonempty text). rewrite Hlines.
    apply elem_of_app. right. apply elem_of_cons. by left. }
  unfold parse_relations. rewrite Hlines, parse_lines_app.
  cbn [parse_lines].
  destruct (parse_lines_status fname kb1 kb2 ([], 0) pre) as [[st Hst]|Hst].
  - rewrite Hst. cbn [obind].
    rewrite (parse_line_rejected _ _ _ _ _ Hne Hl).
    split; [by destruct (is_indented l)|].
    intros st' [= <-]. by destruct (is_indented l).
  - split.
    + by destruct (parse_lines fname kb1 kb2 ([], 0) pre).
    + intros st Hst'. by rewrite Hst' in Hst.
Qed.

Lemma parse_relations_rejects_line_witness :
  exit_status (parse_relations "rel.conf" (Some rel_text) rel_kb1 rel_kb2) = Some 1%Z
  /\ parse_relations "rel.conf" (Some rel_text) rel_kb1 rel_kb2
     = SysExit 1 ["Invalid format of the config file rel.conf."].
Proof.
  destruct (parse_relations_rejects_line "rel.conf" rel_text rel_kb1 rel_kb2
              ["UNIQUE:" +:+ String Str.LF ""; String Str.TAB "a.ID=b.ID" +:+ String Str.LF ""]
              ["NAME:" +:+ String Str.LF ""] (String Str.LF ""))
    as [H1 H2]; [reflexivity | left; reflexivity |].
  split; [exact H1|]. exact (H2 _ eq_refl).
Defined.

(** C10 (as the spec has it) fails for a blank line that starts with a
    tab: the parser takes it for a pair, the unpacking of what [split]
    returns raises [ValueError], and the run ends without the message of
    the parser and without its [exit(1)]. *)
Lemma blank_indented_line_raises_test :
  Str.lines rel_blank_text
  = ["UNIQUE:" +:+ String Str.LF ""; String Str.TAB (String Str.LF "")]
  /\ Str.all_space (String Str.TAB (String Str.LF "")) = true
  /\ parse_relations "rel.conf" (Some rel_blank_text) rel_kb1 rel_kb2
     = Raise ValueError.
Proof. repeat split. Qed.


(** ** The matcher *)

Ltac heap_lookup :=
  repeat first
    [ rewrite fn_lookup_insert
    | rewrite fn_lookup_insert_ne by congruence ].

Lemma heap_insert_cases (h : heap) (a b : nat) (e : Entity) :
  (a = b /\ <[a := e]> h b = e) \/ (a <> b /\ <[a := e]> h b = h b).
Proof.
  destruct (decide (a = b)) as [->|Hne].
  - left. by rewrite fn_lookup_insert.
  - right. by rewrite fn_lookup_insert_ne.
Qed.

(** A loop that only ever lowers a flag. *)
Lemma foldl_lower_flag {A} (P : A -> bool) (l : list A) (b : bool) :
  foldl (fun flag x => if P x then false else flag) b l = false
  <-> b = false \/ exists x, x ∈ l /\ P x = true.
Proof.
  revert b. induction l as [|x l IH]; intros b; simpl.
  - split; [auto|]. intros [?|(? & ?%elem_of_nil & _)]; done.
  - rewrite IH. split.
    + intros [H|(y & ? & ?)].
      * destruct (P x) eqn:E; [|auto]. right. exists x. split; [by left|done].
      * right. exists y. split; [by right|done].
    + intros [->|(y & [->|?]%elem_of_cons & Hy)].
      * left. by destruct (P x).
      * left. by rewrite Hy.
      * right. by exists y.
Qed.

Section matcher_facts.
Context `{R : Runtime}.

Lemma first_unused_Some h l m :
  first_unused h l = Some m -> m ∈ l /\ used (h m) = false.
Proof.
  unfold first_unused. intros [H1 H2]%find_some.
  split; [by apply list_elem_of_In|]. by apply negb_true_iff.
Qed.

Lemma match_by_unique_values_Some h index field id_list m :
  match_by_unique_values h index field id_list = Some m ->
  used (h m) = false
  /\ exists value, value ∈ id_list /\ m ∈ set_iter (index_get index field value).
Proof.
  induction id_list as [|v l IH]; simpl; [done|].
  destruct (nonempty v).
  - destruct (first_unused h _) as [e|] eqn:E.
    + intros [= ->]. apply first_unused_Some in E as [? ?].
      split; [done|]. exists v. split; [by left | done].
    + intros (? & v' & ? & ?)%IH. split; [done|]. exists v'. split; [by right|done].
  - intros (? & v' & ? & ?)%IH. split; [done|]. exists v'. split; [by right|done].
Qed.

Lemma match_by_unique_Some entity h index unique_relations m :
  match_by_unique entity h index unique_relations = Some m ->
  used (h m) = false.
Proof.
  induction unique_relations as [|r l IH]; simpl; [done|].
  destruct (match_by_unique_values _ _ _ _) eqn:E; [|done].
  intros [= ->]. by apply match_by_unique_values_Some in E as [? _].
Qed.

Lemma conflict_in_true e index field id_list :
  conflict_in e index field id_list = true <->
  exists value, value ∈ id_list /\ nonempty value = true
                /\ not_only e (index_get index field value) = true.
Proof.
  induction id_list as [|v l IH]; simpl.
  - split; [done|]. by intros (? & ?%elem_of_nil & _).
  - destruct (nonempty v && not_only e (index_get index field v)) eqn:E.
    + split; [|done]. intros _. apply andb_prop in E as [? ?].
      exists v. split; [by left | done].
    + rewrite IH. split.
      * intros (v' & ? & ?). exists v'. split; [by right | done].
      * intros (v' & [->|?]%elem_of_cons & H1 & H2).
        -- by rewrite H1, H2 in E.
        -- by exists v'.
Qed.

Lemma checkUnique_false e m index unique_relations :
  _checkUnique e m index unique_relations = false <->
  exists r, r ∈ unique_relations
    /\ conflict_in e index (kb1_field r) (get_field m (kb2_field r)) = true.
Proof.
  unfold _checkUnique.
  rewrite (foldl_lower_flag
             (fun r => conflict_in e index (kb1_field r) (get_field m (kb2_field r)))).
  split; [by intros [?|?] | auto].
Qed.

Lemma error_uri_fields_grow (h : heap) (unique_relations : list Relation)
    (e : nat) (kb1 : gset string) :
  kb1 ⊆ foldl (fun kb1 r => kb1 ∪ list_to_set (get_field (h e) (kb1_field r)))
              kb1 unique_relations.
Proof.
  revert kb1. induction unique_relations as [|r rs IH]; intros kb1; simpl; [done|].
  etrans; [|apply IH]. set_solver.
Qed.

Lemma error_uri_entities_grow (h : heap) (unique_relations : list Relation)
    (l : list nat) (kb1 : gset string) :
  kb1 ⊆ foldl (fun kb1 e =>
                 foldl (fun kb1 r => kb1 ∪ list_to_set (get_field (h e) (kb1_field r)))
                       kb1 unique_relations) kb1 l.
Proof.
  revert kb1. induction l as [|e l IH]; intros kb1; simpl; [done|].
  etrans; [|apply IH]. apply error_uri_fields_grow.
Qed.

Lemma error_uri_value_fold h e index unique_relations field l kb1 iu :
  forall kb1' iu',
  foldl (error_uri_value h e index unique_relations field) (kb1, iu) l = (kb1', iu') ->
  kb1 ⊆ kb1' /\ (iu = false -> iu' = false)
  /\ (conflict_in e index field l = true -> iu' = false).
Proof.
  revert kb1 iu. induction l as [|v l IH]; intros kb1 iu kb1' iu'; simpl.
  - intros [= <- <-]. done.
  - unfold error_uri_value at 2. simpl.
    destruct (nonempty v && not_only e (index_get index field v)) eqn:E.
    + intros (H1 & H2 & H3)%IH. split_and!; [|auto..].
      etrans; [apply error_uri_entities_grow | exact H1].
    + intros (H1 & H2 & H3)%IH. done.
Qed.

Lemma error_uri_relations_fold h e (m : Entity) index unique_relations rels
    (kb1 kb2 : gset string) (iu : bool) :
  forall kb1' kb2' iu',
  foldl (fun '(kb1, kb2, is_unique) relation =>
           let kb1 := kb1 ∪ list_to_set (get_field (h e) (kb1_field relation)) in
           let id_list := get_field m (kb2_field relation) in
           let kb2 := kb2 ∪ list_to_set id_list in
           let '(kb1, is_unique) :=
             foldl (error_uri_value h e index unique_relations (kb1_field relation))
                   (kb1, is_unique) id_list in
           (kb1, kb2, is_unique))
        (kb1, kb2, iu) rels = (kb1', kb2', iu') ->
  kb1 ⊆ kb1' /\ kb2 ⊆ kb2' /\ (iu = false -> iu' = false)
  /\ forall r, r ∈ rels ->
       list_to_set (get_field (h e) (kb1_field r)) ⊆ kb1'
       /\ list_to_set (get_field m (kb2_field r)) ⊆ kb2'
       /\ (conflict_in e index (kb1_field r) (get_field m (kb2_field r)) = true
           -> iu' = false).
Proof.
  revert kb1 kb2 iu. induction rels as [|r rels IH]; intros kb1 kb2 iu kb1' kb2' iu'.
  - simpl. intros [= <- <- <-]. split_and!; try done. by intros ? ?%elem_of_nil.
  - cbn [foldl].
    destruct (foldl (error_uri_value h e index unique_relations (kb1_field r))
                (kb1 ∪ list_to_set (get_field (h e) (kb1_field r)), iu)
                (get_field m (kb2_field r))) as [kb1a iua] eqn:E.
    apply error_uri_value_fold in E as (E1 & E2 & E3).
    intros (H1 & H2 & H3 & H4)%IH.
    split_and!; [set_solver | set_solver | auto |].
    intros r' [->|Hr']%elem_of_cons; [|by apply H4].
    split_and!; [set_solver | set_solver | auto].
Qed.

Lemma error_uri_list_conflict h e (m : Entity) index unique_relations :
  _checkUnique e m index unique_relations = false ->
  forall kb1 kb2,
  _getCheckUniqueErrorUriList h e m index unique_relations = (kb1, kb2) ->
  forall r, r ∈ unique_relations ->
    list_to_set (get_field (h e) (kb1_field r)) ⊆ kb1
    /\ list_to_set (get_field m (kb2_field r)) ⊆ kb2.
Proof.
  intros (r0 & Hr0 & Hc)%checkUnique_false kb1 kb2.
  unfold _getCheckUniqueErrorUriList.
  destruct (foldl _ _ unique_relations) as [[kb1a kb2a] iu] eqn:E.
  apply error_uri_relations_fold in E as (_ & _ & _ & H).
  destruct (H r0 Hr0) as (_ & _ & Hiu). rewrite (Hiu Hc).
  intros [= <- <-] r Hr. destruct (H r Hr) as (? & ? & _). done.
Qed.

(** The sets of the diagnostic hold identifiers of the two KBs only. *)
Lemma error_uri_fields_upper (h : heap) (unique_relations : list Relation)
    (e : nat) (v : string) : forall kb1 : gset string,
  v ∈ foldl (fun kb1 r => kb1 ∪ list_to_set (get_field (h e) (kb1_field r)))
            kb1 unique_relations ->
  v ∈ kb1 \/ exists r, r ∈ unique_relations /\ v ∈ get_field (h e) (kb1_field r).
Proof.
  induction unique_relations as [|r rs IH]; intros kb1; simpl; [auto|].
  intros [Hv|(r' & Hr' & Hv)]%IH.
  - apply elem_of_union in Hv as [Hv|Hv]; [auto|]. right. exists r.
    split; [by left|]. by apply elem_of_list_to_set in Hv.
  - right. exists r'. split; [by right|done].
Qed.

Lemma error_uri_entities_upper (h : heap) (unique_relations : list Relation)
    (l : list nat) (v : string) : forall kb1 : gset string,
  v ∈ foldl (fun kb1 e =>
               foldl (fun kb1 r => kb1 ∪ list_to_set (get_field (h e) (kb1_field r)))
                     kb1 unique_relations) kb1 l ->
  v ∈ kb1 \/ exists r x, r ∈ unique_relations /\ v ∈ get_field (h x) (kb1_field r).
Proof.
  induction l as [|e l IH]; intros kb1; simpl; [auto|].
  intros [Hv|?]%IH; [|auto].
  apply error_uri_fields_upper in Hv as [?|(r & ? & ?)]; [auto|].
  right. by exists r, e.
Qed.

Lemma error_uri_value_upper h e index unique_relations field l v :
  forall kb1 iu kb1' iu',
  foldl (error_uri_value h e index unique_relations field) (kb1, iu) l = (kb1', iu') ->
  v ∈ kb1' ->
  v ∈ kb1 \/ exists r x, r ∈ unique_relations /\ v ∈ get_field (h x) (kb1_field r).
Proof.
  induction l as [|value l IH]; intros kb1 iu kb1' iu'; simpl.
  - intros [= <- <-]. auto.
  - unfold error_uri_value at 2. simpl.
    destruct (nonempty value && not_only e (index_get index field value)).
    + intros Hfold Hv. destruct (IH _ _ _ _ Hfold Hv) as [Hv'|?]; [|auto].
      by apply error_uri_entities_upper in Hv'.
    + apply IH.
Qed.

Lemma error_uri_relations_upper h e (m : Entity) index unique_relations rels v :
  forall (kb1 kb2 : gset string) (iu : bool) kb1' kb2' iu',
  foldl (fun '(kb1, kb2, is_unique) relation =>
           let kb1 := kb1 ∪ list_to_set (get_field (h e) (kb1_field relation)) in
           let id_list := get_field m (kb2_field relation) in
           let kb2 := kb2 ∪ list_to_set id_list in
           let '(kb1, is_unique) :=
             foldl (error_uri_value h e index unique_relations (kb1_field relation))
                   (kb1, is_unique) id_list in
           (kb1, kb2, is_unique))
        (kb1, kb2, iu) rels = (kb1', kb2', iu') ->
  (forall r, r ∈ rels -> r ∈ unique_relations) ->
  (v ∈ kb1' ->
   v ∈ kb1 \/ exists r x, r ∈ unique_relations /\ v ∈ get_field (h x) (kb1_field r))
  /\ (v ∈ kb2' ->
      v ∈ kb2 \/ exists r, r ∈ unique_relations /\ v ∈ get_field m (kb2_field r)).
Proof.
  induction rels as [|r rels IH]; intros kb1 kb2 iu kb1' kb2' iu'.
  - simpl. intros [= <- <- <-] _. auto.
  - cbn [foldl].
    destruct (foldl (error_uri_value h e index unique_relations (kb1_field r))
                (kb1 ∪ list_to_set (get_field (h e) (kb1_field r)), iu)
                (get_field m (kb2_field r))) as [kb1a iua] eqn:E.
    intros Hfold Hsub.
    assert (r ∈ unique_relations) as Hr by (apply Hsub; by left).
    destruct (IH _ _ _ _ _ _ Hfold) as [I1 I2].
    { intros r' Hr'. apply Hsub. by right. }
    split.
    + intros [Hv|?]%I1; [|auto].
      destruct (error_uri_value_upper _ _ _ _ _ _ _ _ _ _ _ E Hv) as [Hv'|?]; [|auto].
      apply elem_of_union in Hv' as [?|Hv']; [auto|].
      right. exists r, e. split; [done|]. by apply elem_of_list_to_set in Hv'.
    + intros [Hv|?]%I2; [|auto].
      apply elem_of_union in Hv as [?|Hv]; [auto|].
      right. exists r. split; [done|]. by apply elem_of_list_to_set in Hv.
Qed.

Lemma error_uri_list_upper h e (m : Entity) index unique_relations kb1 kb2 v :
  _getCheckUniqueErrorUriList h e m index unique_relations = (kb1, kb2) ->
  (v ∈ kb1 ->
   exists r x, r ∈ unique_relations /\ v ∈ get_field (h x) (kb1_field r))
  /\ (v ∈ kb2 ->
      exists r, r ∈ unique_relations /\ v ∈ get_field m (kb2_field r)).
Proof.
  unfold _getCheckUniqueErrorUriList.
  destruct (foldl _ _ unique_relations) as [[kb1a kb2a] iu] eqn:E.
  destruct (error_uri_relations_upper _ _ _ _ _ _ v _ _ _ _ _ _ E) as [U1 U2]; [done|].
  destruct iu.
  - intros [= <- <-]. split; by intros ?%not_elem_of_empty.
  - intros [= <- <-]. split.
    + intros [?%not_elem_of_empty|?]%U1; done.
    + intros [?%not_elem_of_empty|?]%U2; done.
Qed.

Lemma match_cons kb1_entities e index_for_kb2 relations treshold st :
  match_ (e :: kb1_entities) index_for_kb2 relations treshold st
  = match_ kb1_entities index_for_kb2 relations treshold
      (match_entity treshold index_for_kb2
         (filter (fun x => type x = UNIQUE) relations)
         (filter (fun x => type x <> UNIQUE /\ type x = NAME) relations)
         (filter (fun x => type x <> UNIQUE /\ type x <> NAME) relations)
         st e).
Proof. reflexivity. Qed.

End matcher_facts.

(** C3. When [match_by_unique] finds a record [m] of KB2 for the record
    [e] of KB1 and [_checkUnique e m] fails, the pairing is dropped: the
    objects of both KBs and the index of KB1 are what they were (so [e] has
    no more of a match than before, and [m] is still not used), and [match]
    goes on with the records after [e].  The diagnostic is written: six
    lines are added to standard error, the heading, the identifiers of KB1
    and those of KB2 between their marks.  The two sets hold what [e] and
    [m] have in the UNIQUE fields, the second set nothing else and the
    first nothing but identifiers of records of KB1. *)
Theorem match_unique_conflict_rejected `{R : Runtime} (treshold : Z)
    (index_for_kb2 : Index) (relations : list Relation) (st : mstate)
    (e : nat) (rest : list nat) (m : nat) :
  let unique_relations := filter (fun x => type x = UNIQUE) relations in
  match_by_unique (h1 st e) (h2 st) index_for_kb2 unique_relations = Some m ->
  _checkUnique e (h2 st m) (index_for_kb1 st) unique_relations = false ->
  exists kb1_ids kb2_ids st',
    st' = mkMstate (h1 st) (h2 st) (index_for_kb1 st)
            (stderr st
             ++ [ErrText "=== match_by_unique error ==="; ErrText "<<<<<<<<<";
                 ErrIds kb1_ids; ErrText "---------";
                 ErrIds kb2_ids; ErrText ">>>>>>>>>"])
    /\ match_ (e :: rest) index_for_kb2 relations treshold st
       = match_ rest index_for_kb2 relations treshold st'
    /\ h1 st' e = h1 st e
    /\ used (h2 st' m) = false
    /\ (forall r v, r ∈ unique_relations ->
          (v ∈ get_field (h1 st e) (kb1_field r) -> v ∈ kb1_ids)
          /\ (v ∈ get_field (h2 st m) (kb2_field r) -> v ∈ kb2_ids))
    /\ (forall v, v ∈ kb2_ids ->
          exists r, r ∈ unique_relations /\ v ∈ get_field (h2 st m) (kb2_field r))
    /\ (forall v, v ∈ kb1_ids ->
          exists r x, r ∈ unique_relations /\ v ∈ get_field (h1 st x) (kb1_field r)).
Proof.
  intros urels Hm Hc.
  destruct (_getCheckUniqueErrorUriList (h1 st) e (h2 st m) (index_for_kb1 st) urels)
    as [kb1_ids kb2_ids] eqn:E.
  exists kb1_ids, kb2_ids. eexists. split; [reflexivity|].
  split_and!.
  - rewrite match_cons. f_equal. unfold match_entity.
    fold urels. by rewrite Hm, Hc, E.
  - done.
  - simpl. by eapply match_by_unique_Some.
  - intros r v Hr.
    destruct (error_uri_list_conflict _ _ _ _ _ Hc _ _ E r Hr) as [H1 H2].
    split; intros Hv.
    + apply H1. by apply elem_of_list_to_set.
    + apply H2. by apply elem_of_list_to_set.
  - intros v Hv. by apply (error_uri_list_upper _ _ _ _ _ _ _ v E).
  - intros v Hv. by apply (error_uri_list_upper _ _ _ _ _ _ _ v E).
Qed.

Lemma match_unique_conflict_rejected_witness :
  exists kb1_ids kb2_ids st',
    st' = mkMstate (h1 ConflictExample.start) (h2 ConflictExample.start)
            (index_for_kb1 ConflictExample.start)
            (stderr ConflictExample.start
             ++ [ErrText "=== match_by_unique error ==="; ErrText "<<<<<<<<<";
                 ErrIds kb1_ids; ErrText "---------";
                 ErrIds kb2_ids; ErrText ">>>>>>>>>"])
    /\ match_ (R := insertion_runtime) [0; 1] ConflictExample.index2
         ConflictExample.relations 1 ConflictExample.start
       = match_ (R := insertion_runtime) [1] ConflictExample.index2
           ConflictExample.relations 1 st'
    /\ h1 st' 0 = h1 ConflictExample.start 0
    /\ used (h2 st' 0) = false
    /\ (forall r v, r ∈ ConflictExample.unique_relations ->
          (v ∈ get_field (h1 ConflictExample.start 0) (kb1_field r) -> v ∈ kb1_ids)
          /\ (v ∈ get_field (h2 ConflictExample.start 0) (kb2_field r) -> v ∈ kb2_ids))
    /\ (forall v, v ∈ kb2_ids ->
          exists r, r ∈ ConflictExample.unique_relations
            /\ v ∈ get_field (h2 ConflictExample.start 0) (kb2_field r))
    /\ (forall v, v ∈ kb1_ids ->
          exists r x, r ∈ ConflictExample.unique_relations
            /\ v ∈ get_field (h1 ConflictExample.start x) (kb1_field r)).
Proof.
  apply (match_unique_conflict_rejected (R := insertion_runtime) 1
           ConflictExample.index2 ConflictExample.relations
           ConflictExample.start 0 [1] 0); vm_compute; reflexivity.
Defined.

(** C7 (as the code has it). When [match_by_unique] finds a record of KB2
    for [e] and the conflict guard rejects it, the body of the loop of
    [match] writes the diagnostic and is done with [e]: matching by name is
    not tried.  The result is the state before with the diagnostic added,
    whatever the NAME and OTHER relations and the threshold are; no weight of
    KB2 is touched and [e] is left as it was. *)
Theorem match_unique_conflict_skips_names `{R : Runtime} (treshold : Z)
    (index_for_kb2 : Index)
    (unique_relations name_relations other_relations : list Relation)
    (st : mstate) (e m : nat) :
  match_by_unique (h1 st e) (h2 st) index_for_kb2 unique_relations = Some m ->
  _checkUnique e (h2 st m) (index_for_kb1 st) unique_relations = false ->
  let ids := _getCheckUniqueErrorUriList (h1 st) e (h2 st m)
               (index_for_kb1 st) unique_relations in
  match_entity treshold index_for_kb2 unique_relations name_relations
    other_relations st e
  = mkMstate (h1 st) (h2 st) (index_for_kb1 st)
      (stderr st ++ unique_error ids.1 ids.2)
  /\ match_entity treshold index_for_kb2 unique_relations name_relations
       other_relations st e
     = match_entity 0 index_for_kb2 unique_relations [] [] st e.
Proof.
  intros Hm Hc ids. unfold match_entity. rewrite Hm, Hc.
  subst ids. by destruct (_getCheckUniqueErrorUriList _ _ _ _ _).
Qed.

Lemma match_unique_conflict_skips_names_witness :
  match_entity (R := insertion_runtime) 1 ConflictExample.index2
    ConflictExample.unique_relations ConflictExample.name_relations []
    ConflictExample.start 0
  = match_entity (R := insertion_runtime) 0 ConflictExample.index2
      ConflictExample.unique_relations [] [] ConflictExample.start 0.
Proof.
  apply (match_unique_conflict_skips_names (R := insertion_runtime) 1
           ConflictExample.index2 ConflictExample.unique_relations
           ConflictExample.name_relations [] ConflictExample.start 0 0);
    vm_compute; reflexivity.
Defined.

(** C7 (as the spec has it) fails: in [ConflictExample] the guard rejects
    the record of KB2 that shares the GeoNames identifier of [A], matching by
    name would have paired [A] with [D], and [match] leaves [A] without a
    match and the weight of [D] untouched. *)
Lemma match_conflict_no_phase_b_test :
  match_by_unique (R := insertion_runtime) (h1 ConflictExample.start 0)
    (h2 ConflictExample.start) ConflictExample.index2
    ConflictExample.unique_relations = Some 0
  /\ _checkUnique (R := insertion_runtime) 0 (h2 ConflictExample.start 0)
       (index_for_kb1 ConflictExample.start) ConflictExample.unique_relations = false
  /\ matched (h1 (match_names (R := insertion_runtime) 1 ConflictExample.index2
                    ConflictExample.unique_relations ConflictExample.name_relations []
                    ConflictExample.start 0) 0) = Some 1
  /\ matched (h1 (match_entity (R := insertion_runtime) 1 ConflictExample.index2
                    ConflictExample.unique_relations ConflictExample.name_relations []
                    ConflictExample.start 0) 0) = None
  /\ matched_pairs (h1 (match_ (R := insertion_runtime) [0; 1] ConflictExample.index2
                          ConflictExample.relations 1 ConflictExample.start)) [0; 1] = [].
Proof. vm_compute. split_and!; reflexivity. Qed.


(** *** Matching by name: what it leaves alone *)

Lemma foldl_invariant {A B} (P : A -> Prop) (f : A -> B -> A) (l : list B) (a : A) :
  P a -> (forall a x, x ∈ l -> P a -> P (f a x)) -> P (foldl f a l).
Proof.
  revert a. induction l as [|x l IH]; intros a Ha Hf; simpl; [done|].
  apply IH.
  - apply Hf; [by left | done].
  - intros a' y Hy. apply Hf. by right.
Qed.

Lemma same_frame_refl h : same_frame h h.
Proof. by intros x. Qed.

Lemma same_frame_trans h h' h'' :
  same_frame h h' -> same_frame h' h'' -> same_frame h h''.
Proof.
  intros H1 H2 x. destruct (H1 x) as (? & ? & ?), (H2 x) as (? & ? & ?).
  split_and!; congruence.
Qed.

Lemma same_frame_sym h h' : same_frame h h' -> same_frame h' h.
Proof. intros H1 x. destruct (H1 x) as (? & ? & ?). by split_and!. Qed.

Lemma same_frame_set_weight (h : heap) c w :
  same_frame h (<[c := set_weight w (h c)]> h).
Proof.
  intros x. destruct (heap_insert_cases h c x (set_weight w (h c))) as [[-> ->]|[_ ->]];
    done.
Qed.

Lemma elem_of_set_add x y s : x ∈ set_add y s <-> x = y \/ x ∈ s.
Proof.
  unfold set_add. case_decide; [set_solver|].
  rewrite elem_of_app, list_elem_of_singleton. tauto.
Qed.

Lemma NoDup_set_add y s : NoDup s -> NoDup (set_add y s).
Proof.
  unfold set_add. case_decide; [done|]. intros Hs.
  apply NoDup_app. split_and!; [done| |apply NoDup_singleton].
  intros x Hx ->%list_elem_of_singleton. done.
Qed.

Section names_facts.
Context `{R : Runtime}.

Lemma match_by_name_spec entity (h : heap) index name_relations cands h' :
  match_by_name entity h index name_relations = (cands, h') ->
  same_frame h h' /\ NoDup cands /\ forall c, c ∈ cands -> used (h c) = false.
Proof.
  unfold match_by_name. intros Heq.
  pose (P := fun st : list nat * heap =>
               same_frame h st.2 /\ NoDup st.1
               /\ forall c, c ∈ st.1 -> used (h c) = false).
  change (P (cands, h')). rewrite <- Heq. clear Heq.
  apply foldl_invariant.
  { split_and!; [apply same_frame_refl | apply NoDup_nil_2 | by intros ? ?%elem_of_nil]. }
  intros st r _ Hst. apply foldl_invariant; [done|].
  clear st Hst. intros st v _ Hst. destruct (nonempty v); [|done].
  apply foldl_invariant; [done|].
  clear st Hst. intros [cs hh] e _ (H1 & H2 & H3).
  destruct (used (hh e)) eqn:E; [done|].
  split_and!; simpl.
  - eapply same_frame_trans; [exact H1 | apply same_frame_set_weight].
  - by apply NoDup_set_add.
  - intros c [->|?]%elem_of_set_add; [|auto].
    destruct (H1 e) as (<- & _). done.
Qed.

Lemma other_score_data entity (c c' : Entity) orels :
  data c = data c' -> other_score entity c orels = other_score entity c' orels.
Proof. intros H. unfold other_score, get_field. by rewrite H. Qed.


Lemma checkUnique_data e (c c' : Entity) index urels :
  data c = data c' -> _checkUnique e c index urels = _checkUnique e c' index urels.
Proof. intros H. unfold _checkUnique, get_field. by rewrite H. Qed.

Lemma weight_step (h : heap) c w (b : bool) :
  let h' := if b then <[c := set_weight w (h c)]> h else h in
  same_frame h h' /\ (forall x, x <> c -> h' x = h x)
  /\ h' c = if b then set_weight w (h c) else h c.
Proof.
  destruct b; simpl.
  - split_and!; [apply same_frame_set_weight | |by heap_lookup].
    intros x Hx. by heap_lookup.
  - split_and!; [apply same_frame_refl | done..].
Qed.

Lemma score_candidate_spec treshold entity (h1 : heap) index urels orels (h2 : heap) c :
  same_frame h2 (score_candidate treshold entity h1 index urels orels h2 c)
  /\ (forall x, x <> c ->
        score_candidate treshold entity h1 index urels orels h2 c x = h2 x)
  /\ weight (score_candidate treshold entity h1 index urels orels h2 c c)
     = scored_weight treshold entity h1 index urels orels (h2 c).
Proof.
  unfold score_candidate, scored_weight.
  destruct (weight_step h2 c (-1000) (unique_disagree (h1 entity) (h2 c) urels))
    as (A1 & A2 & A3).
  set (ha := if unique_disagree (h1 entity) (h2 c) urels
             then <[c := set_weight (-1000) (h2 c)]> h2 else h2) in *.
  assert (_checkUnique entity (ha c) index urels
          = _checkUnique entity (h2 c) index urels) as Hcu.
  { apply checkUnique_data, A1. }
  destruct (weight_step ha c (-999) (negb (_checkUnique entity (ha c) index urels)))
    as (B1 & B2 & B3).
  set (hb := if negb (_checkUnique entity (ha c) index urels)
             then <[c := set_weight (-999) (ha c)]> ha else ha) in *.
  assert (weight (hb c)
          = if negb (_checkUnique entity (h2 c) index urels) then (-999)%Z
            else if unique_disagree (h1 entity) (h2 c) urels then (-1000)%Z
                 else weight (h2 c)) as Hw.
  { rewrite B3, Hcu. destruct (_checkUnique _ (h2 c) _ _); simpl; [|done].
    rewrite A3. by destruct (unique_disagree _ _ _). }
  assert (other_score (h1 entity) (hb c) orels
          = other_score (h1 entity) (h2 c) orels) as Ho.
  { apply other_score_data. destruct (B1 c) as (_ & -> & _). apply A1. }
  rewrite Hw. 
  set (w := if negb (_checkUnique entity (h2 c) index urels) then (-999)%Z
            else if unique_disagree (h1 entity) (h2 c) urels then (-1000)%Z
                 else weight (h2 c)) in *.
  destruct (w <? treshold)%Z.
  - split_and!; [by eapply same_frame_trans | |done].
    intros x Hx. rewrite B2, A2; done.
  - split_and!.
    + eapply same_frame_trans; [|apply same_frame_set_weight].
      by eapply same_frame_trans.
    + intros x Hx. heap_lookup. rewrite B2, A2; done.
    + heap_lookup. simpl. by rewrite Ho.
Qed.

Lemma score_candidates_spec treshold entity (h1 : heap) index urels orels l :
  forall h2 : heap,
  same_frame h2 (score_candidates treshold entity h1 index urels orels h2 l)
  /\ (forall x, x ∉ l ->
        score_candidates treshold entity h1 index urels orels h2 l x = h2 x)
  /\ (NoDup l -> forall c, c ∈ l ->
        weight (score_candidates treshold entity h1 index urels orels h2 l c)
        = scored_weight treshold entity h1 index urels orels (h2 c)).
Proof.
  unfold score_candidates.
  induction l as [|x l IH]; intros h2; simpl.
  - split_and!; [apply same_frame_refl | done | by intros _ ? ?%elem_of_nil].
  - destruct (score_candidate_spec treshold entity h1 index urels orels h2 x)
      as (S1 & S2 & S3).
    destruct (IH (score_candidate treshold entity h1 index urels orels h2 x))
      as (I1 & I2 & I3).
    split_and!.
    + by eapply same_frame_trans.
    + intros y Hy. rewrite I2 by set_solver. apply S2. set_solver.
    + intros Hnd c Hc. apply NoDup_cons in Hnd as [Hx Hnd].
      apply elem_of_cons in Hc as [->|Hc].
      * by rewrite I2.
      * rewrite I3 by done. rewrite S2; [done|]. by intros ->.
Qed.

Lemma choose_best_fold (h2 : heap) l b0 :
  (best_from h2 b0 l = b0 \/ best_from h2 b0 l ∈ l)
  /\ (weight (h2 b0) <= weight (h2 (best_from h2 b0 l)))%Z
  /\ forall c, c ∈ l -> (weight (h2 c) <= weight (h2 (best_from h2 b0 l)))%Z.
Proof.
  unfold best_from.
  revert b0. induction l as [|x l IH]; intros b0; simpl.
  - split_and!; [by left | lia | by intros ? ?%elem_of_nil].
  - destruct (weight (h2 b0) <? weight (h2 x))%Z eqn:E.
    + apply Z.ltb_lt in E. destruct (IH x) as (H1 & H2 & H3).
      split_and!; [set_solver | lia |].
      intros c [->|Hc]%elem_of_cons; [done | auto].
    + apply Z.ltb_ge in E. destruct (IH b0) as (H1 & H2 & H3).
      split_and!; [set_solver | lia |].
      intros c [->|Hc]%elem_of_cons; [lia | auto].
Qed.

Lemma choose_best_spec (h2 : heap) l b :
  choose_best h2 l = Some b ->
  b ∈ l /\ forall c, c ∈ l -> (weight (h2 c) <= weight (h2 b))%Z.
Proof.
  unfold choose_best. destruct l as [|x l]; [done|]. intros Hb.
  assert (b = best_from h2 x (x :: l)) as -> by congruence. clear Hb.
  destruct (choose_best_fold h2 (x :: l) x) as (H1 & H2 & H3).
  split; [|done]. destruct H1 as [H1|?]; [|done]. rewrite H1. by left.
Qed.

Lemma choose_best_is_Some (h2 : heap) l : l <> [] -> is_Some (choose_best h2 l).
Proof. destruct l; [done|]. intros _. by eexists. Qed.

Lemma reset_weights_spec (h : heap) l :
  same_frame h (foldl (fun h candidate => <[candidate := set_weight 0 (h candidate)]> h) h l).
Proof.
  apply (foldl_invariant (same_frame h)); [apply same_frame_refl|].
  intros h' c _ Hh'. eapply same_frame_trans; [exact Hh'|apply same_frame_set_weight].
Qed.

End names_facts.


#[global] Instance insertion_runtime_spec : RuntimeSpec insertion_runtime.
Proof. by split. Qed.

(** *** What one turn of the loop of [match] does to the two heaps *)

Lemma marks_used_insert (h h' : heap) b :
  same_frame h h' -> marks_used b h (<[b := set_used true (h' b)]> h').
Proof.
  intros Hf. split_and!.
  - by heap_lookup.
  - intros x Hx. heap_lookup. apply Hf.
  - intros x. destruct (heap_insert_cases h' b x (set_used true (h' b)))
      as [[-> ->]|[_ ->]]; simpl; split; apply Hf.
Qed.

Lemma marks_used_frame (h h' h'' : heap) b :
  marks_used b h h' -> same_frame h' h'' -> marks_used b h h''.
Proof.
  intros (H1 & H2 & H3) Hf. split_and!.
  - destruct (Hf b) as (-> & _). done.
  - intros x Hx. destruct (Hf x) as (-> & _). auto.
  - intros x. destruct (Hf x) as (_ & -> & ->). auto.
Qed.

Section step_facts.
Context `{R : Runtime} `{!RuntimeSpec R}.

Lemma elem_of_set_iter x l : x ∈ set_iter l <-> x ∈ l.
Proof. by rewrite set_iter_perm. Qed.

Lemma NoDup_set_iter l : NoDup l -> NoDup (set_iter l).
Proof. by rewrite set_iter_perm. Qed.

Lemma match_names_effect treshold index_for_kb2 urels nrels orels st e :
  let st' := match_names treshold index_for_kb2 urels nrels orels st e in
  stderr st' = stderr st
  /\ ((h1 st' = h1 st /\ same_frame (h2 st) (h2 st'))
      \/ exists b, used (h2 st b) = false
           /\ h1 st' = <[e := set_used true (set_matched (Some b) (h1 st e))]> (h1 st)
           /\ marks_used b (h2 st) (h2 st')).
Proof.
  unfold match_names.
  destruct (match_by_name (h1 st e) (h2 st) index_for_kb2 nrels) as [cands h2a] eqn:E.
  apply match_by_name_spec in E as (F1 & ND & Hun).
  destruct cands as [|c0 cs]; [simpl; auto|].
  set (candidates := set_iter (c0 :: cs)).
  set (h2b := score_candidates treshold e (h1 st) (index_for_kb1 st) urels orels
                h2a candidates).
  assert (same_frame (h2 st) h2b) as F2.
  { eapply same_frame_trans; [exact F1|]. apply score_candidates_spec. }
  destruct (choose_best h2b candidates) as [best|] eqn:B.
  - apply choose_best_spec in B as [Hb _].
    unfold candidates in Hb. rewrite elem_of_set_iter in Hb.
    destruct (treshold <=? weight (h2b best))%Z; simpl.
    + split; [done|]. right. exists best. split_and!; [auto | done |].
      eapply marks_used_frame; [|apply reset_weights_spec].
      by apply marks_used_insert.
    + split; [done|]. left. split; [done|].
      eapply same_frame_trans; [exact F2|apply reset_weights_spec].
  - simpl. split; [done|]. left. split; [done|].
    eapply same_frame_trans; [exact F2|apply reset_weights_spec].
Qed.

Lemma match_entity_effect treshold index_for_kb2 urels nrels orels st e :
  let st' := match_entity treshold index_for_kb2 urels nrels orels st e in
  (h1 st' = h1 st /\ same_frame (h2 st) (h2 st'))
  \/ exists b, used (h2 st b) = false
       /\ h1 st' = <[e := set_used true (set_matched (Some b) (h1 st e))]> (h1 st)
       /\ marks_used b (h2 st) (h2 st').
Proof.
  unfold match_entity.
  destruct (match_by_unique (h1 st e) (h2 st) index_for_kb2 urels) as [m|] eqn:E.
  - apply match_by_unique_Some in E.
    destruct (_checkUnique e (h2 st m) (index_for_kb1 st) urels).
    + right. exists m. split_and!; [done..|].
      apply marks_used_insert, same_frame_refl.
    + destruct (_getCheckUniqueErrorUriList _ _ _ _ _). left.
      split; [done | apply same_frame_refl].
  - apply match_names_effect.
Qed.

Lemma match_inv_step treshold index_for_kb2 urels nrels orels st0 st done e todo :
  e ∉ done -> e ∉ todo ->
  match_inv st0 st done (e :: todo) ->
  match_inv st0 (match_entity treshold index_for_kb2 urels nrels orels st e)
    (done ++ [e]) todo.
Proof.
  intros Hd Ht (I1 & I2 & I3 & I4 & I5 & I6 & I7 & I8).
  destruct (I1 e) as [Hm Hu]; [by left|].
  destruct (match_entity_effect treshold index_for_kb2 urels nrels orels st e)
    as [[E1 E2]|(b & Hb & E1 & E2 & E3 & E4)];
    set (st' := match_entity treshold index_for_kb2 urels nrels orels st e) in *;
    unfold match_inv.
  - (* nothing matched *)
    rewrite E1.
    assert (forall x, used (h2 st' x) = used (h2 st x)) as Hused by (intros x; apply E2).
    split_and!.
    + intros x Hx. apply I1. by right.
    + intros x [Hx| ->%list_elem_of_singleton]%elem_of_app; [by apply I2|].
      rewrite Hm, Hu. split; [done|]. by intros [? ?].
    + intros x m [Hx| ->%list_elem_of_singleton]%elem_of_app Hxm.
      * rewrite Hused. by eapply I3.
      * congruence.
    + intros x x' m [Hx| ->%list_elem_of_singleton]%elem_of_app
        [Hx'| ->%list_elem_of_singleton]%elem_of_app; try congruence.
      by apply I4.
    + intros m H0 Hm'. rewrite Hused in Hm'.
      destruct (I5 m H0 Hm') as (x & Hx & Hxm). exists x. split; [set_solver|done].
    + intros m H0. rewrite Hused. auto.
    + intros m. destruct (E2 m) as (_ & -> & _). auto.
    + done.
  - (* [e] matched with [b] *)
    assert (forall x, x <> e -> h1 st' x = h1 st x) as Hother.
    { intros x Hx. rewrite E1. by heap_lookup. }
    assert (h1 st' e = set_used true (set_matched (Some b) (h1 st e))) as He.
    { rewrite E1. by heap_lookup. }
    assert (forall x m, x ∈ done -> matched (h1 st x) = Some m -> m <> b) as Hfresh.
    { intros x m Hx Hxm ->. destruct (I3 x b Hx Hxm) as [_ ?]. congruence. }
    split_and!.
    + intros x Hx. rewrite Hother by (intros ->; done). apply I1. by right.
    + intros x [Hx| ->%list_elem_of_singleton]%elem_of_app.
      * rewrite Hother by (intros ->; done). by apply I2.
      * rewrite He. simpl. split; [by eexists | done].
    + intros x m [Hx| ->%list_elem_of_singleton]%elem_of_app.
      * rewrite Hother by (intros ->; done). intros Hxm.
        destruct (I3 x m Hx Hxm) as [? ?]. split; [done|].
        rewrite E3 by eauto. done.
      * rewrite He. simpl. intros [= <-]. split; [|done].
        destruct (decide (used (h2 st0 b) = false)) as [|Hn]; [done|].
        apply not_false_is_true in Hn. apply I6 in Hn. congruence.
    + intros x x' m [Hx| ->%list_elem_of_singleton]%elem_of_app
        [Hx'| ->%list_elem_of_singleton]%elem_of_app.
      * rewrite !Hother by (intros ->; done). by apply I4.
      * rewrite Hother by (intros ->; done). rewrite He. simpl.
        intros Hxm [= <-]. by destruct (Hfresh x b Hx Hxm).
      * rewrite (Hother x') by (intros ->; done). rewrite He. simpl.
        intros [= <-] Hxm. by destruct (Hfresh x' b Hx' Hxm).
      * done.
    + intros m H0 Hm'. destruct (decide (m = b)) as [->|Hne].
      * exists e. split; [set_solver|]. by rewrite He.
      * rewrite E3 in Hm' by done.
        destruct (I5 m H0 Hm') as (x & Hx & Hxm). exists x. split; [set_solver|].
        rewrite Hother; [done|]. by intros ->.
    + intros m H0. destruct (decide (m = b)) as [->|Hne]; [done|].
      rewrite E3 by done. auto.
    + intros m. destruct (E4 m) as [-> _]. auto.
    + intros x. destruct (decide (x = e)) as [->|Hne].
      * rewrite He. simpl. auto.
      * rewrite Hother by done. auto.
Qed.

Lemma match_inv_run treshold index_for_kb2 urels nrels orels st0 todo :
  forall st done,
  NoDup (done ++ todo) ->
  match_inv st0 st done todo ->
  match_inv st0
    (foldl (match_entity treshold index_for_kb2 urels nrels orels) st todo)
    (done ++ todo) [].
Proof.
  induction todo as [|e todo IH]; intros st done Hnd Hinv; simpl.
  - by rewrite app_nil_r.
  - replace (done ++ e :: todo) with ((done ++ [e]) ++ todo) in *
      by (by rewrite <- app_assoc).
    apply IH; [done|].
    apply NoDup_app in Hnd as (Hnd1 & Hnd2 & _).
    apply NoDup_app in Hnd1 as (_ & Hnd1 & _).
    apply match_inv_step; [| |done].
    + intros He. by apply (Hnd1 e He), list_elem_of_singleton.
    + intros He. apply (Hnd2 e); [|done]. set_solver.
Qed.

End step_facts.

(** *** The choice made by matching by name *)

Section choice_facts.
Context `{R : Runtime} `{!RuntimeSpec R}.

Lemma match_names_h1 treshold index_for_kb2 urels nrels orels st e :
  let cands := (match_by_name (h1 st e) (h2 st) index_for_kb2 nrels).1 in
  let h2a := (match_by_name (h1 st e) (h2 st) index_for_kb2 nrels).2 in
  let h2b := score_candidates treshold e (h1 st) (index_for_kb1 st) urels orels
               h2a (set_iter cands) in
  h1 (match_names treshold index_for_kb2 urels nrels orels st e)
  = match cands with
    | [] => h1 st
    | _ => match choose_best h2b (set_iter cands) with
           | Some best =>
               if (treshold <=? weight (h2b best))%Z
               then <[e := set_used true (set_matched (Some best) (h1 st e))]> (h1 st)
               else h1 st
           | None => h1 st
           end
    end.
Proof.
  unfold match_names.
  destruct (match_by_name (h1 st e) (h2 st) index_for_kb2 nrels) as [cands h2a].
  simpl. destruct cands as [|c0 cs]; [done|].
  destruct (choose_best _ _) as [best|]; [|done].
  by destruct (treshold <=? _)%Z.
Qed.

Lemma other_score_nonneg entity candidate orels :
  (0 <= other_score entity candidate orels)%Z.
Proof.
  unfold other_score.
  apply (foldl_invariant (fun w => (0 <= w)%Z)); [lia|].
  intros w r _ Hw. apply (foldl_invariant (fun w => (0 <= w)%Z)); [done|].
  clear w Hw. intros w i _ Hw.
  apply (foldl_invariant (fun w => (0 <= w)%Z)); [done|].
  clear w Hw. intros w j _ Hw. destruct (float_eq i j); lia.
Qed.

Lemma scored_weight_mono t t' e (h1 : heap) index urels orels candidate :
  (t <= t')%Z ->
  (scored_weight t' e h1 index urels orels candidate
   <= scored_weight t e h1 index urels orels candidate)%Z.
Proof.
  intros Ht. unfold scored_weight.
  pose proof (other_score_nonneg (h1 e) candidate orels).
  repeat case_match; try lia.
  all: repeat match goal with
         | H : (_ <? _)%Z = true |- _ => apply Z.ltb_lt in H
         | H : (_ <? _)%Z = false |- _ => apply Z.ltb_ge in H
         end; lia.
Qed.


End choice_facts.




(** C6 (as the code has it). With the state of the matcher fixed, a record
    of KB1 that the body of the loop of [match] pairs under a threshold is
    also paired under every lower threshold, though not always with the same
    record of KB2 (the OTHER relations are scored for more candidates).  The
    sets of pairs of two whole runs need not be comparable: a pair made under
    the lower threshold uses up a record of KB2 that a later record of KB1
    would have got under the higher one. *)
Theorem match_entity_treshold_mono `{R : Runtime} `{!RuntimeSpec R}
    (t t' : Z) (index_for_kb2 : Index)
    (unique_relations name_relations other_relations : list Relation)
    (st : mstate) (e : nat) :
  (t <= t')%Z ->
  matched (h1 st e) = None ->
  is_Some (matched (h1 (match_entity t' index_for_kb2 unique_relations
                          name_relations other_relations st e) e)) ->
  is_Some (matched (h1 (match_entity t index_for_kb2 unique_relations
                          name_relations other_relations st e) e)).
Proof.
  intros Ht Hnone. unfold match_entity.
  destruct (match_by_unique (h1 st e) (h2 st) index_for_kb2 unique_relations)
    as [m|]; [done|].
  pose proof (match_names_h1 t index_for_kb2 unique_relations
                name_relations other_relations st e) as H1.
  pose proof (match_names_h1 t' index_for_kb2 unique_relations
                name_relations other_relations st e) as H1'.
  cbv zeta in H1, H1'.
  destruct (match_by_name (h1 st e) (h2 st) index_for_kb2 name_relations)
    as [cands h2a] eqn:E.
  simpl in H1, H1'. rewrite H1, H1'. clear H1 H1'.
  apply match_by_name_spec in E as (_ & ND & _).
  destruct cands as [|c0 cs]; [done|].
  set (L := set_iter (c0 :: cs)).
  set (hb := score_candidates t e (h1 st) (index_for_kb1 st) unique_relations
               other_relations h2a L).
  set (hb' := score_candidates t' e (h1 st) (index_for_kb1 st) unique_relations
                other_relations h2a L).
  assert (NoDup L) as NDL by (by apply NoDup_set_iter).
  destruct (choose_best hb' L) as [best'|] eqn:B';
    [|rewrite Hnone; by intros [? ?]].
  destruct (t' <=? weight (hb' best'))%Z eqn:A'.
  2: { rewrite Hnone. by intros [? ?]. }
  intros _.
  apply choose_best_spec in B' as [Hb' _].
  assert (L <> []) as HL by (intros HL; rewrite HL in Hb'; by apply elem_of_nil in Hb').
  destruct (choose_best_is_Some hb L HL) as [best B]. rewrite B.
  apply choose_best_spec in B as [Hb Hmax].
  assert (t <= weight (hb best))%Z as Hacc.
  { apply Z.leb_le in A'. specialize (Hmax best' Hb').
    destruct (score_candidates_spec t e (h1 st) (index_for_kb1 st)
                unique_relations other_relations L h2a) as (_ & _ & W).
    destruct (score_candidates_spec t' e (h1 st) (index_for_kb1 st)
                unique_relations other_relations L h2a) as (_ & _ & W').
    fold hb in W. fold hb' in W'.
    rewrite (W NDL best' Hb') in Hmax. rewrite (W' NDL best' Hb') in A'.
    pose proof (scored_weight_mono t t' e (h1 st) (index_for_kb1 st)
                  unique_relations other_relations (h2a best') Ht).
    lia. }
  apply Z.leb_le in Hacc. rewrite Hacc. heap_lookup. simpl. by eexists.
Qed.

Lemma match_entity_treshold_mono_witness :
  is_Some (matched (h1 (match_entity (R := insertion_runtime) 1
                          (make_index_for_kb2 TresholdExample.kb2_objs [0]
                             TresholdExample.relations)
                          [] TresholdExample.relations []
                          (mkMstate TresholdExample.kb1_objs TresholdExample.kb2_objs
                             (fun _ _ => None) []) 1) 1)).
Proof.
  apply (match_entity_treshold_mono (R := insertion_runtime) 1 2).
  - lia.
  - reflexivity.
  - vm_compute. by eexists.
Defined.

(** C6 (as the spec has it) fails in [TresholdExample]: under threshold 1
    the first record of KB1 takes the record of KB2, under threshold 2 the
    second one does, so the pairs of the run with the higher threshold are
    not among those of the run with the lower one. *)
Lemma treshold_not_monotone_test :
  matched_pairs (h1 (TresholdExample.run insertion_runtime 1)) [0; 1] = [(0, 0)]
  /\ matched_pairs (h1 (TresholdExample.run insertion_runtime 2)) [0; 1] = [(1, 0)]
  /\ (1, 0) ∉ matched_pairs (h1 (TresholdExample.run insertion_runtime 1)) [0; 1].
Proof.
  split_and!; [vm_compute; reflexivity..|].
  replace (matched_pairs _ _) with [(0, 0)] by (vm_compute; reflexivity).
  by intros [=]%list_elem_of_singleton.
Qed.


(** *** The subscripts of the scoring loop *)

Lemma other_in_range_data (e e' c c' : Entity) (orels : list Relation) :
  data e = data e' -> data c = data c' ->
  other_in_range e c orels = other_in_range e' c' orels.
Proof. unfold other_in_range. by intros -> ->. Qed.

Lemma other_in_range_true (e c : Entity) (orels : list Relation) :
  (forall r, r ∈ orels ->
     kb1_field r < length (data e) /\ kb2_field r < length (data c)) ->
  other_in_range e c orels = true.
Proof.
  intros Hok. unfold other_in_range. apply forallb_forall.
  intros r Hr%list_elem_of_In. destruct (Hok r Hr) as [H1 H2].
  apply andb_true_intro. split; by apply Nat.ltb_lt.
Qed.

Section loop_facts.
Context `{R : Runtime} `{!RuntimeSpec R}.

Lemma score_raises_false treshold e (h1 : heap) index urels orels (h2 : heap) c :
  other_in_range (h1 e) (h2 c) orels = true ->
  score_raises treshold e h1 index urels orels h2 c = false.
Proof.
  intros Hok. unfold score_raises.
  set (ha := if unique_disagree (h1 e) (h2 c) urels
             then <[c := set_weight (-1000) (h2 c)]> h2 else h2).
  set (hb := if negb (_checkUnique e (ha c) index urels)
             then <[c := set_weight (-999) (ha c)]> ha else ha).
  assert (data (hb c) = data (h2 c)) as Hd.
  { assert (data (ha c) = data (h2 c)) as Ha.
    { unfold ha. destruct (unique_disagree _ _ _); [|done].
      destruct (same_frame_set_weight h2 c (-1000) c) as (_ & ? & _). done. }
    unfold hb. destruct (negb _); [|done].
    destruct (same_frame_set_weight ha c (-999) c) as (_ & ? & _). congruence. }
  rewrite (other_in_range_data (h1 e) (h1 e) (hb c) (h2 c) orels eq_refl Hd), Hok.
  apply andb_false_r.
Qed.

Lemma scoring_raises_false treshold e (h1 : heap) index urels orels l :
  forall h2 : heap,
  (forall c, c ∈ l -> other_in_range (h1 e) (h2 c) orels = true) ->
  scoring_raises treshold e h1 index urels orels h2 l = false.
Proof.
  induction l as [|c l IH]; intros h2 Hok; simpl; [done|].
  rewrite score_raises_false by (apply Hok; by left). simpl.
  apply IH. intros c' Hc'.
  destruct (score_candidate_spec treshold e h1 index urels orels h2 c) as (F & _).
  destruct (F c') as (_ & Hd & _).
  rewrite (other_in_range_data (h1 e) (h1 e) _ (h2 c') orels eq_refl Hd).
  apply Hok. by right.
Qed.

(** A candidate of [match_by_name] is a record the index holds. *)
Lemma match_by_name_indexed entity (h : heap) index name_relations c :
  c ∈ (match_by_name entity h index name_relations).1 ->
  exists f v, c ∈ index_get index f v.
Proof.
  unfold match_by_name.
  pose (P := fun st : list nat * heap =>
               forall c, c ∈ st.1 -> exists f v, c ∈ index_get index f v).
  revert c. change (P (foldl
    (fun st relation =>
       foldl (fun st value =>
                if nonempty value then
                  foldl (fun '(candidates, h) e =>
                           if used (h e) then (candidates, h)
                           else (set_add e candidates,
                                 <[e := set_weight (weight (h e) + 1) (h e)]> h))
                        st (set_iter (index_get index (kb2_field relation) value))
                else st)
             st (get_field entity (kb1_field relation)))
    ([], h) name_relations)).
  apply foldl_invariant.
  { by intros c ?%elem_of_nil. }
  intros st r _ Hst. apply foldl_invariant; [done|].
  clear st Hst. intros st v _ Hst. destruct (nonempty v); [|done].
  apply foldl_invariant; [done|].
  clear st Hst. intros [cs hh] x Hx Hst.
  destruct (used (hh x)); [done|].
  intros c [->|Hc]%elem_of_set_add; [|by apply Hst].
  rewrite elem_of_set_iter in Hx. by exists (kb2_field r), v.
Qed.

Lemma match_entity_raises_false treshold index_for_kb2 urels nrels orels st e
    (ents2 : list nat) :
  (forall x f v, x ∈ index_get index_for_kb2 f v -> x ∈ ents2) ->
  (forall r, r ∈ orels -> kb1_field r < length (data (h1 st e))) ->
  (forall r x, r ∈ orels -> x ∈ ents2 -> kb2_field r < length (data (h2 st x))) ->
  match_entity_raises treshold index_for_kb2 urels nrels orels st e = false.
Proof.
  intros Hidx H1 H2. unfold match_entity_raises.
  destruct (match_by_unique _ _ _ _); [done|].
  pose proof (match_by_name_indexed (h1 st e) (h2 st) index_for_kb2 nrels) as Hin.
  destruct (match_by_name (h1 st e) (h2 st) index_for_kb2 nrels) as [cands h2a] eqn:E.
  apply match_by_name_spec in E as (F & _ & _). simpl in Hin.
  destruct cands as [|c0 cands]; [done|]. revert Hin.
  generalize (c0 :: cands). clear c0 cands. intros cands Hin.
  apply scoring_raises_false. intros c Hc. rewrite elem_of_set_iter in Hc.
  destruct (Hin c Hc) as (f & v & Hcv). apply Hidx in Hcv.
  apply other_in_range_true. intros r Hr. split; [by apply H1|].
  destruct (F c) as (_ & -> & _). by apply H2.
Qed.

Lemma match_entity_data treshold index_for_kb2 urels nrels orels st e x :
  data (h1 (match_entity treshold index_for_kb2 urels nrels orels st e) x)
  = data (h1 st x)
  /\ data (h2 (match_entity treshold index_for_kb2 urels nrels orels st e) x)
     = data (h2 st x).
Proof.
  destruct (match_entity_effect treshold index_for_kb2 urels nrels orels st e)
    as [[E1 E2]|(b & _ & E1 & E2)].
  - rewrite E1. destruct (E2 x) as (_ & ? & _). done.
  - rewrite E1. destruct E2 as (_ & _ & E2). destruct (E2 x) as [? _].
    split; [|done].
    by destruct (heap_insert_cases (h1 st) e x
                   (set_used true (set_matched (Some b) (h1 st e))))
      as [[-> ->]|[_ ->]].
Qed.

(** A loop that returns leaves what the turns of [match_entity] make. *)
Lemma match_loop_Return treshold index_for_kb2 urels nrels orels l : forall st st',
  match_loop treshold index_for_kb2 urels nrels orels st l = Return st' ->
  st' = foldl (match_entity treshold index_for_kb2 urels nrels orels) st l.
Proof.
  induction l as [|e l IH]; intros st st'; simpl; [by intros [= <-]|].
  destruct (match_entity_raises _ _ _ _ _ _ _); [done|]. apply IH.
Qed.

(** It returns when the fields of the OTHER relations are columns of the
    records of KB1 and of the records the index of KB2 holds. *)
Lemma match_loop_in_range treshold index_for_kb2 urels nrels orels
    (ents2 : list nat) l : forall st,
  (forall x f v, x ∈ index_get index_for_kb2 f v -> x ∈ ents2) ->
  (forall r e, r ∈ orels -> e ∈ l -> kb1_field r < length (data (h1 st e))) ->
  (forall r x, r ∈ orels -> x ∈ ents2 -> kb2_field r < length (data (h2 st x))) ->
  match_loop treshold index_for_kb2 urels nrels orels st l
  = Return (foldl (match_entity treshold index_for_kb2 urels nrels orels) st l).
Proof.
  induction l as [|e l IH]; intros st Hidx H1 H2; simpl; [done|].
  rewrite (match_entity_raises_false _ _ _ _ _ _ _ ents2); [|done| |done].
  2: { intros r Hr. apply H1; [done|by left]. }
  apply IH; [done| |].
  - intros r e' Hr He'.
    destruct (match_entity_data treshold index_for_kb2 urels nrels orels st e e')
      as [-> _].
    apply H1; [done|by right].
  - intros r x Hr Hx.
    destruct (match_entity_data treshold index_for_kb2 urels nrels orels st e x)
      as [_ ->].
    by apply H2.
Qed.

Lemma match_checked_Return kb1_entities index_for_kb2 relations treshold st st' :
  match_checked kb1_entities index_for_kb2 relations treshold st = Return st' ->
  st' = match_ kb1_entities index_for_kb2 relations treshold st.
Proof. unfold match_checked, match_. apply match_loop_Return. Qed.

Lemma match_checked_in_range kb1_entities index_for_kb2 relations treshold st
    (ents2 : list nat) :
  (forall x f v, x ∈ index_get index_for_kb2 f v -> x ∈ ents2) ->
  (forall r e, r ∈ relations -> e ∈ kb1_entities ->
     kb1_field r < length (data (h1 st e))) ->
  (forall r x, r ∈ relations -> x ∈ ents2 ->
     kb2_field r < length (data (h2 st x))) ->
  match_checked kb1_entities index_for_kb2 relations treshold st
  = Return (match_ kb1_entities index_for_kb2 relations treshold st).
Proof.
  intros Hidx H1 H2. unfold match_checked, match_.
  apply (match_loop_in_range _ _ _ _ _ ents2); [done| |].
  - intros r e [_ Hr]%list_elem_of_filter He. by apply H1.
  - intros r x [_ Hr]%list_elem_of_filter Hx. by apply H2.
Qed.

End loop_facts.


(** ** The deduplicator *)

(** *** The identifiers of an entity *)

Lemma elem_of_getIds id_fields entity blacklist p :
  p ∈ _getIds id_fields entity blacklist
  <-> has_id id_fields entity p /\ allowed blacklist p = true.
Proof.
  unfold _getIds, has_id. rewrite list_elem_of_bind. split.
  - intros (f & Hp & Hf). apply list_elem_of_filter in Hp as [Ha Hp].
    apply list_elem_of_fmap in Hp as (v & -> & Hv). done.
  - intros [[Hf Hv] Ha]. exists p.1. split; [|done].
    apply list_elem_of_filter. split; [done|].
    apply list_elem_of_fmap. exists p.2. split; [by destruct p | done].
Qed.

Lemma elem_of_getIds_Some id_fields entity b p :
  p ∈ _getIds id_fields entity (Some b) <-> has_id id_fields entity p /\ p ∉ b.
Proof.
  rewrite elem_of_getIds. unfold allowed. by rewrite bool_decide_eq_true.
Qed.

(** *** The conflict branch *)

Lemma remove_conflict_spec (cur_ids : list idpair) (d : gset idpair) :
  (remove_conflict cur_ids d).1 = d ∖ list_to_set cur_ids
  /\ list_to_set (remove_conflict cur_ids d).2 = d ∩ list_to_set cur_ids.
Proof.
  unfold remove_conflict.
  assert (forall (l : list idpair) (d0 : gset idpair) (nb : list idpair),
             (foldl (fun '(d, new_black_ids) p =>
                       if decide (p ∈ d) then (d ∖ {[p]}, new_black_ids ++ [p])
                       else (d, new_black_ids)) (d0, nb) l).1
             = d0 ∖ list_to_set l
             /\ list_to_set (C := gset idpair)
                  (foldl (fun '(d, new_black_ids) p =>
                            if decide (p ∈ d) then (d ∖ {[p]}, new_black_ids ++ [p])
                            else (d, new_black_ids)) (d0, nb) l).2
                = list_to_set nb ∪ (d0 ∩ list_to_set l)) as H.
  { induction l as [|p l IH]; intros d0 nb; simpl.
    - split; apply leibniz_equiv; set_solver.
    - case_decide as Hp.
      + destruct (IH (d0 ∖ {[p]}) (nb ++ [p])) as [-> ->].
        split; apply leibniz_equiv; [set_solver|].
        rewrite list_to_set_app.
        intros q. destruct (decide (q = p)); set_solver.
      + destruct (IH d0 nb) as [-> ->].
        split; apply leibniz_equiv; set_solver. }
  destruct (H cur_ids d []) as [-> ->].
  split; [done|]. apply leibniz_equiv. set_solver.
Qed.

Section collect_ids_facts.
Context `{R : Runtime}.

Lemma collect_ids_inv_start (index : Index) (cur_ids : list idpair) (d b : gset idpair) :
  collect_ids_inv index cur_ids d b [] (mkPstate d b [] []) false.
Proof.
  split; simpl; try done.
  - apply leibniz_equiv. set_solver.
  - by intros ? ?%elem_of_nil.
  - by intros _ ? ?%elem_of_nil.
Qed.

Lemma collect_id_inv (index : Index) (cur_ids : list idpair) (d b : gset idpair)
    (seen : list idpair) (st : pstate) (conflict : bool) (p : idpair) :
  d ## b ->
  p ∈ cur_ids ->
  is_Some (index p.1 p.2) ->
  collect_ids_inv index cur_ids d b seen st conflict ->
  exists st' conflict',
    collect_id index cur_ids st p = Return st'
    /\ collect_ids_inv index cur_ids d b (seen ++ [p]) st' conflict'.
Proof.
  intros Hdisj Hp [l Hl] [I1 I2 I3 I4 I5 I6 I7]. unfold collect_id.
  case_decide as Hb.
  { (* blacklisted *)
    exists st, conflict. split; [done|]. split; [done..|].
    intros Hc q [Hq| ->%list_elem_of_singleton]%elem_of_app; [auto|].
    rewrite I2, (I3 Hc) in Hb. left. clear -Hb. set_solver. }
  case_decide as Hd.
  { (* already collected *)
    exists st, conflict. split; [done|]. split; [done..|].
    intros Hc q [Hq| ->%list_elem_of_singleton]%elem_of_app; [auto|].
    right. left. by apply I1. }
  case_decide as Ht.
  { (* conflict *)
    destruct (remove_conflict cur_ids (p_dest st)) as [d' nb] eqn:E.
    pose proof (remove_conflict_spec cur_ids (p_dest st)) as [E1 E2].
    rewrite E in E1, E2. simpl in E1, E2.
    eexists _, true. split; [done|]. split; simpl.
    - rewrite E1. clear -I1. set_solver.
    - rewrite I2, E1, E2. apply leibniz_equiv.
      intros q. specialize (I1 q).
      destruct (decide (q ∈ (list_to_set cur_ids : gset idpair))) as [Hq|Hq];
        destruct (decide (q ∈ p_dest st)) as [Hq'|Hq'];
        clear -I1 Hq Hq'; set_unfold; tauto.
    - done.
    - intros _. split.
      + destruct Ht as (q & Hq & _). exists q. by apply I1.
      + intros q Hq _. rewrite E1. clear -Hq. set_solver.
    - by intros ? ?%elem_of_nil.
    - done.
    - done. }
  (* staged *)
  rewrite Hl. eexists _, conflict. split; [done|]. split; simpl; [done..| | |].
  - intros q [Hq| ->%list_elem_of_singleton]%elem_of_app; [auto|].
    split_and!; [done| | |by eexists].
    + intros Hpd. apply Hb. rewrite I2. clear -Hpd Hd. set_solver.
    + intros Hpb. apply Hb. rewrite I2. clear -Hpb. set_solver.
  - rewrite bind_app. simpl. rewrite app_nil_r. rewrite <- I6.
    unfold index_get. by rewrite Hl.
  - intros Hc q [Hq| ->%list_elem_of_singleton]%elem_of_app.
    + destruct (I7 Hc q Hq) as [?|[?|?]]; [auto..|]. right. right.
      apply elem_of_app. by left.
    + right. right. apply elem_of_app. right. by apply list_elem_of_singleton.
Qed.

Lemma collect_ids_run (index : Index) (cur_ids : list idpair) (d b : gset idpair)
    (todo : list idpair) :
  d ## b ->
  (forall p, p ∈ cur_ids -> is_Some (index p.1 p.2)) ->
  forall seen st conflict,
  (forall p, p ∈ todo -> p ∈ cur_ids) ->
  collect_ids_inv index cur_ids d b seen st conflict ->
  exists st' conflict',
    collect_ids index cur_ids st todo = Return st'
    /\ collect_ids_inv index cur_ids d b (seen ++ todo) st' conflict'.
Proof.
  intros Hdisj Hidx. induction todo as [|p todo IH]; intros seen st conflict Hsub Hinv.
  - exists st, conflict. by rewrite app_nil_r.
  - destruct (collect_id_inv index cur_ids d b seen st conflict p)
      as (st1 & c1 & E1 & Hinv1); [done | apply Hsub; by left | | done |].
    { apply Hidx, Hsub. by left. }
    destruct (IH (seen ++ [p]) st1 c1) as (st2 & c2 & E2 & Hinv2); [|done|].
    { intros q Hq. apply Hsub. by right. }
    exists st2, c2. simpl. rewrite E1. simpl. split; [done|].
    by rewrite <- app_assoc in Hinv2.
Qed.

End collect_ids_facts.


(** *** One turn of the [while] of [_collectUniqueIds] *)

Lemma index_get_is_Some (index : Index) f v x :
  x ∈ index_get index f v -> is_Some (index f v).
Proof.
  unfold index_get. destruct (index f v); [by eexists|]. by intros ?%elem_of_nil.
Qed.

Section collect_facts.
Context `{R : Runtime} `{!RuntimeSpec R}.
Context (h : heap) (index : Index) (id_fields : list nat) (ents : list nat)
        (finished : nat -> Prop) (b0 : gset idpair) (root : nat).
Context (Henv : collect_env h index id_fields ents finished b0).

Lemma staged_not_finished (x : nat) (p : idpair) (y : nat) :
  x ∈ ents -> ~ finished x -> has_id id_fields (h x) p -> p ∉ b0 ->
  y ∈ index_get index p.1 p.2 -> ~ finished y.
Proof.
  intros Hx Hnf Hp Hb Hy Hfy.
  apply Hnf. apply (ce_closed _ _ _ _ _ _ Henv y p x); try done.
  - by eapply ce_index_ents.
  - destruct p as [f v]. by apply (ce_index_sound _ _ _ _ _ _ Henv).
  - by apply (ce_index_complete _ _ _ _ _ _ Henv).
Qed.

Lemma collect_entity_inv (st : cstate) (x : nat) (from_id : option idpair)
    (fifo : list (nat * option idpair)) :
  collect_inv h index id_fields ents finished b0 root st ->
  fifo_entity st = (x, from_id) :: fifo ->
  exists st',
    collect_entity h index id_fields (dest st) (black st) fifo x from_id = Return st'
    /\ collect_inv h index id_fields ents finished b0 root st'
    /\ dest st ∪ black st ⊆ dest st' ∪ black st'
    /\ (fifo_entity st' = fifo
        \/ exists p y, p ∈ dest st' /\ (p ∉ dest st) /\ (p ∉ black st)
                       /\ y ∈ ents /\ has_id id_fields (h y) p).
Proof.
  intros [I1 I2 I3 I4 I5 I6] Hfifo. unfold collect_entity.
  destruct (I3 x from_id) as [Hx Hnf]; [rewrite Hfifo; by left|].
  destruct (from_blacklisted from_id (black st)) eqn:Hfrom.
  { (* the arriving identifier is blacklisted *)
    destruct from_id as [p0|]; [|done]. simpl in Hfrom.
    apply bool_decide_eq_true in Hfrom.
    eexists. split; [done|]. split_and!; [|done|by left].
    split; simpl; try done.
    - intros y fr Hy. apply (I3 y fr). rewrite Hfifo. by right.
    - intros p y Hp Hy. destruct (I4 p y Hp Hy) as [? [Hq|?]]; [|auto].
      split; [done|]. left. rewrite Hfifo in Hq.
      apply elem_of_cons in Hq as [[= -> ->]|?]; [|done].
      by destruct (I1 p0).
    - destruct I6 as [[Hq _]|?]; [|auto]. rewrite Hfifo in Hq. done. }
  set (cur_ids := _getIds id_fields (h x) (Some (black st))).
  assert (forall p, p ∈ cur_ids <-> has_id id_fields (h x) p /\ p ∉ black st) as Hcur.
  { intros p. apply elem_of_getIds_Some. }
  destruct (collect_ids_run index cur_ids (dest st) (black st) cur_ids)
    with (seen := @nil idpair) (st := mkPstate (dest st) (black st) [] [])
         (conflict := false)
    as (st1 & conflict & E & [J1 J2 J3 J4 J5 J6 J7]);
    [done| |done|apply collect_ids_inv_start|].
  { intros p [Hp _]%Hcur. eapply index_get_is_Some.
    by apply (ce_index_complete _ _ _ _ _ _ Henv x p). }
  rewrite E. simpl. simpl in J7.
  assert (forall y fr, (y, fr) ∈ candidates_entities st1 <->
            exists p, p ∈ candidates_ids st1 /\ fr = Some p
                      /\ y ∈ index_get index p.1 p.2) as Hcents.
  { intros y fr. rewrite J6, list_elem_of_bind. split.
    - intros (p & Hy & Hp). apply list_elem_of_fmap in Hy as (z & [= -> ->] & Hz).
      exists p. split_and!; [done..|]. by rewrite set_iter_perm in Hz.
    - intros (p & Hp & -> & Hy). exists p. split; [|done].
      apply list_elem_of_fmap. exists y. split; [done|]. by rewrite set_iter_perm. }
  assert (forall p y, p ∈ candidates_ids st1 -> y ∈ index_get index p.1 p.2 ->
            ~ finished y) as Hfresh.
  { intros p y Hp Hy. destruct (J5 p Hp) as (Hpc & _ & Hpb & _).
    apply Hcur in Hpc as [Hpx _].
    apply (staged_not_finished x p y); try done. set_solver. }
  assert (forall q, q ∈ dest st \/ q ∈ black st ->
            q ∈ p_dest st1 ∪ list_to_set (candidates_ids st1) \/ q ∈ p_black st1)
    as Hmono.
  { intros q Hq. rewrite J2.
    destruct (decide (q ∈ p_dest st1)); set_solver. }
  assert (conflict = false ->
          forall q, has_id id_fields (h x) q ->
            q ∈ p_dest st1 ∪ list_to_set (candidates_ids st1) \/ q ∈ p_black st1)
    as Hall.
  { intros Hc q Hq. destruct (decide (q ∈ black st)) as [Hqb|Hqb].
    - apply Hmono. by right.
    - destruct (J7 Hc q) as [?|[?|?]].
      + apply Hcur. done.
      + done.
      + left. rewrite (J3 Hc). set_solver.
      + left. set_solver. }
  eexists. split; [done|]. split_and!.
  - split; simpl.
    + rewrite J2. intros q Hq1 Hq2.
      apply elem_of_union in Hq1 as [Hq1|Hq1].
      * set_solver.
      * apply elem_of_list_to_set in Hq1. destruct (J5 q Hq1) as (_ & ? & ? & _).
        set_solver.
    + rewrite J2. set_solver.
    + intros y fr [Hy|Hy]%elem_of_app.
      * apply (I3 y fr). rewrite Hfifo. by right.
      * apply Hcents in Hy as (p & Hp & -> & Hy). split.
        -- by eapply ce_index_ents.
        -- by eapply Hfresh.
    + intros p y Hp Hy. apply elem_of_union in Hp as [Hp|Hp].
      * destruct (I4 p y (J1 p Hp) Hy) as [Hnfy Hold]. split; [done|].
        destruct Hold as [Hq|Hq].
        -- rewrite Hfifo in Hq. apply elem_of_cons in Hq as [[= -> ->]|Hq].
           ++ right. apply Hall. destruct conflict; [|done].
              destruct (J4 eq_refl) as [_ Hrem]. exfalso.
              apply (Hrem p); [|by apply J1|done].
              apply Hcur. split.
              ** destruct p as [f v]. by apply (ce_index_sound _ _ _ _ _ _ Henv).
              ** specialize (J1 p Hp). set_solver.
           ++ left. apply elem_of_app. by left.
        -- right. intros q Hq'. apply Hmono. auto.
      * apply elem_of_list_to_set in Hp. split; [by eapply Hfresh|].
        left. apply elem_of_app. right. apply Hcents. by exists p.
    + intros p Hp. apply elem_of_union in Hp as [Hp|Hp].
      * apply I5. by apply J1.
      * apply elem_of_list_to_set in Hp. destruct (J5 p Hp) as (Hpc & _ & _ & ?).
        split; [|done]. apply Hcur in Hpc as [[? _] _]. done.
    + right. destruct I6 as [[Hq Hd]|Hold].
      * rewrite Hfifo in Hq. injection Hq as -> -> ->.
        apply Hall. destruct conflict; [|done].
        destruct (J4 eq_refl) as [[p Hp] _]. rewrite Hd in Hp.
        by apply not_elem_of_empty in Hp.
      * intros q Hq. apply Hmono. auto.
  - simpl. intros q Hq. apply elem_of_union in Hq.
    apply elem_of_union. by apply Hmono.
  - simpl. destruct (candidates_ids st1) as [|p cids] eqn:Hcids.
    + left. rewrite J6. simpl. by rewrite app_nil_r.
    + right. destruct (J5 p) as (Hpc & Hpd & Hpb & _); [by left|].
      apply Hcur in Hpc as [Hpx _].
      exists p, x. split_and!; try done.
      apply elem_of_union. right. apply elem_of_list_to_set. by left.
Qed.

Lemma collect_loop_nil fuel (st : cstate) :
  fifo_entity st = [] ->
  collect_loop fuel h index id_fields st = Some (Return st).
Proof. intros Hf. destruct fuel; simpl; by rewrite Hf. Qed.

(** The [while] ends, without an exception, in a state with an empty queue
    that satisfies the invariant: each turn either shortens the queue or
    moves an identifier of the KB into the dictionary for good. *)
Lemma collect_loop_total (univ : gset idpair) :
  (forall y p, y ∈ ents -> has_id id_fields (h y) p -> p ∈ univ) ->
  forall n m st,
  collect_inv h index id_fields ents finished b0 root st ->
  size (univ ∖ (dest st ∪ black st)) <= n ->
  length (fifo_entity st) <= m ->
  exists N c,
    (forall fuel, N <= fuel ->
       collect_loop fuel h index id_fields st = Some (Return c))
    /\ collect_inv h index id_fields ents finished b0 root c
    /\ fifo_entity c = [].
Proof.
  intros Huniv n. induction n as [n IHn] using lt_wf_ind.
  intros m. induction m as [|m IHm]; intros st Hinv Hsize Hlen.
  - destruct (fifo_entity st) eqn:Hf; [|simpl in Hlen; lia].
    exists 0, st. split_and!; [|done..]. intros fuel _. by apply collect_loop_nil.
  - destruct (fifo_entity st) as [|[x from_id] fifo] eqn:Hf.
    { exists 0, st. split_and!; [|done..]. intros fuel _. by apply collect_loop_nil. }
    destruct (collect_entity_inv st x from_id fifo Hinv Hf)
      as (st' & E & Hinv' & Hsub & Hcase).
    assert (univ ∖ (dest st' ∪ black st') ⊆ univ ∖ (dest st ∪ black st)) as Hle.
    { clear -Hsub. set_solver. }
    assert (exists N c,
               (forall fuel, N <= fuel ->
                  collect_loop fuel h index id_fields st' = Some (Return c))
               /\ collect_inv h index id_fields ents finished b0 root c
               /\ fifo_entity c = []) as (N & c & Hrun & Hc & Hnil).
    { destruct Hcase as [Hq|(p & y & Hp1 & Hp2 & Hp3 & Hy & Hyp)].
      - apply IHm; [done| |].
        + apply subseteq_size in Hle. lia.
        + rewrite Hq. simpl in Hlen. lia.
      - assert (size (univ ∖ (dest st' ∪ black st')) < n) as Hlt.
        { eapply Nat.lt_le_trans; [|exact Hsize]. apply subset_size.
          split; [done|]. intros Hge.
          assert (p ∈ univ ∖ (dest st ∪ black st)) as Hin.
          { specialize (Huniv y p Hy Hyp). clear -Huniv Hp2 Hp3. set_solver. }
          apply Hge in Hin. clear -Hin Hp1. set_solver. }
        by eapply (IHn _ Hlt (length (fifo_entity st'))). }
    exists (S N), c. split_and!; [|done..].
    intros [|fuel] Hfuel; [lia|]. simpl. rewrite Hf, E. apply Hrun. lia.
Qed.

Lemma collectUniqueIds_total (root_ok : root ∈ ents) (root_new : ~ finished root) :
  exists N c,
    (forall fuel, N <= fuel ->
       _collectUniqueIds fuel h id_fields root index b0 = Some (Return c))
    /\ collect_inv h index id_fields ents finished b0 root c
    /\ fifo_entity c = [].
Proof.
  unfold _collectUniqueIds.
  eapply (collect_loop_total
            (list_to_set (ents ≫= fun y => _getIds id_fields (h y) None))); try done.
  - intros y p Hy Hp. apply elem_of_list_to_set, list_elem_of_bind.
    exists y. split; [|done]. by apply elem_of_getIds.
  - split; simpl.
    + clear. set_solver.
    + done.
    + by intros y fr [= -> ->]%list_elem_of_singleton.
    + by intros p y ?%not_elem_of_empty.
    + by intros p ?%not_elem_of_empty.
    + by left.
Qed.

End collect_facts.


(** *** Gathering and sorting the matches *)

Section gather_facts.
Context `{R : Runtime} `{!RuntimeSpec R}.

Lemma elem_of_foldl_set_add (l acc : list nat) x :
  x ∈ foldl (fun s e => set_add e s) acc l <-> x ∈ acc \/ x ∈ l.
Proof.
  revert acc. induction l as [|y l IH]; intros acc; simpl.
  - split; [auto|]. by intros [?|?%elem_of_nil].
  - rewrite IH, elem_of_set_add, elem_of_cons. tauto.
Qed.

Lemma gather_matches_spec (index : Index) (ids : list idpair) (acc : list nat) :
  (forall p, p ∈ ids -> is_Some (index p.1 p.2)) ->
  exists matches,
    gather_matches index ids acc = Return matches
    /\ forall x, x ∈ matches
         <-> x ∈ acc \/ exists p, p ∈ ids /\ x ∈ index_get index p.1 p.2.
Proof.
  revert acc. induction ids as [|p ids IH]; intros acc Hids; simpl.
  - exists acc. split; [done|]. intros x. split; [auto|].
    by intros [?|(? & ?%elem_of_nil & _)].
  - destruct (Hids p) as [l Hl]; [by left|]. rewrite Hl.
    destruct (IH (foldl (fun s e => set_add e s) acc (set_iter l)))
      as (matches & E & Hm).
    { intros q Hq. apply Hids. by right. }
    exists matches. split; [done|]. intros x. rewrite Hm, elem_of_foldl_set_add.
    rewrite set_iter_perm. split.
    + intros [[?|Hx]|(q & Hq & Hx)]; [auto| |].
      * right. exists p. split; [by left|]. unfold index_get. by rewrite Hl.
      * right. exists q. split; [by right|done].
    + intros [?|(q & [->|Hq]%elem_of_cons & Hx)]; [auto| |].
      * left. right. unfold index_get in Hx. by rewrite Hl in Hx.
      * right. by exists q.
Qed.

Lemma elem_of_ids_in_key_order (id_fields : list nat) (d : gset idpair) p :
  p ∈ ids_in_key_order id_fields d <-> p.1 ∈ id_fields /\ p ∈ d.
Proof.
  unfold ids_in_key_order. rewrite list_elem_of_bind. split.
  - intros (f & [Hf Hp]%list_elem_of_filter & Hin). rewrite Hf.
    split; [done|]. by apply elem_of_elements.
  - intros [Hf Hp]. exists p.1. split; [|done].
    apply list_elem_of_filter. split; [done|]. by apply elem_of_elements.
Qed.

End gather_facts.

Lemma insert_desc_perm key x l : insert_desc key x l ≡ₚ x :: l.
Proof.
  induction l as [|y l IH]; simpl; [done|].
  destruct (key x <? key y); [|done]. rewrite IH. apply Permutation_swap.
Qed.

Lemma sort_desc_perm key l : sort_desc key l ≡ₚ l.
Proof.
  unfold sort_desc. induction l as [|x l IH]; simpl; [done|].
  by rewrite insert_desc_perm, IH.
Qed.

(** *** The fusion *)

Lemma get_field_insert (e : Entity) (d : list (list string)) f l f' v :
  v ∈ get_field (set_data (<[f := l]> d) e) f' ->
  (f = f' /\ v ∈ l) \/ v ∈ d !!! f'.
Proof.
  unfold get_field. simpl. rewrite list_lookup_total_insert.
  case_decide as H; [|auto]. destruct H as [-> _]. auto.
Qed.

Lemma get_field_insert_grow (e : Entity) (d : list (list string)) f l' f' v :
  v ∈ d !!! f' -> v ∈ get_field (set_data (<[f := d !!! f ++ l']> d) e) f'.
Proof.
  unfold get_field. simpl. rewrite list_lookup_total_insert.
  case_decide as H; [|done]. destruct H as [-> _]. intros ?. apply elem_of_app. by left.
Qed.

Lemma extend_columns_spec base m fs : forall h : heap,
  let g := foldl (extend_column base m) h fs in
  (forall x, x <> base -> g x = h x)
  /\ used (g base) = used (h base) /\ weight (g base) = weight (h base)
  /\ matched (g base) = matched (h base)
  /\ (forall f v, v ∈ get_field (h base) f -> v ∈ get_field (g base) f)
  /\ (forall f v, v ∈ get_field (g base) f ->
        v ∈ get_field (h base) f \/ v ∈ get_field (h m) f).
Proof.
  induction fs as [|f0 fs IH]; intros h; simpl.
  - split_and!; auto.
  - destruct (IH (extend_column base m h f0)) as (G1 & G2 & G3 & G4 & G5 & G6).
    set (h1 := extend_column base m h f0) in *.
    assert (h1 base = set_data (<[f0 := get_field (h base) f0 ++ get_field (h m) f0]>
                                  (data (h base))) (h base)) as Hb.
    { unfold h1, extend_column. by heap_lookup. }
    assert (forall x, x <> base -> h1 x = h x) as Hx.
    { intros x Hx. unfold h1, extend_column. by heap_lookup. }
    assert (forall f v, v ∈ get_field (h1 base) f ->
              v ∈ get_field (h base) f \/ v ∈ get_field (h m) f) as Hmem.
    { intros f v. rewrite Hb. intros [[-> Hv]|Hv]%get_field_insert; [|auto].
      by apply elem_of_app in Hv. }
    split_and!.
    + intros x Hne. rewrite G1, Hx; done.
    + by rewrite G2, Hb.
    + by rewrite G3, Hb.
    + by rewrite G4, Hb.
    + intros f v Hv. apply G5. rewrite Hb. by apply get_field_insert_grow.
    + intros f v Hv. destruct (G6 f v Hv) as [Hv'|Hv'].
      * by apply Hmem.
      * destruct (decide (m = base)) as [->|Hne].
        -- destruct (Hmem f v Hv'); auto.
        -- rewrite Hx in Hv' by done. auto.
Qed.

Lemma extend_base_spec width base (h : heap) m :
  let g := extend_base width base h m in
  used (g m) = true
  /\ (forall x, x <> m -> used (g x) = used (h x))
  /\ (forall x, weight (g x) = weight (h x) /\ matched (g x) = matched (h x))
  /\ (forall x, x <> base -> data (g x) = data (h x))
  /\ (forall f v, v ∈ get_field (h base) f -> v ∈ get_field (g base) f)
  /\ (forall f v, v ∈ get_field (g base) f ->
        v ∈ get_field (h base) f \/ v ∈ get_field (h m) f).
Proof.
  unfold extend_base.
  set (h1 := <[m := set_used true (h m)]> h).
  destruct (extend_columns_spec base m (seq 0 width) h1) as (G1 & G2 & G3 & G4 & G5 & G6).
  set (g := foldl (extend_column base m) h1 (seq 0 width)) in *.
  assert (forall x, data (h1 x) = data (h x) /\ weight (h1 x) = weight (h x)
                    /\ matched (h1 x) = matched (h x)) as H1.
  { intros x. unfold h1.
    destruct (heap_insert_cases h m x (set_used true (h m))) as [[-> ->]|[_ ->]]; done. }
  assert (forall x, x <> m -> used (h1 x) = used (h x)) as H1u.
  { intros x Hx. unfold h1. by heap_lookup. }
  assert (used (h1 m) = true) as H1m by (unfold h1; by heap_lookup).
  assert (forall x f, get_field (h1 x) f = get_field (h x) f) as H1f.
  { intros x f. unfold get_field. by destruct (H1 x) as (-> & _). }
  cbv zeta. split_and!.
  - destruct (decide (m = base)) as [->|Hne]; [by rewrite G2|by rewrite G1].
  - intros x Hx. destruct (decide (x = base)) as [->|Hne].
    + rewrite G2. by apply H1u.
    + rewrite G1 by done. by apply H1u.
  - intros x. destruct (decide (x = base)) as [->|Hne].
    + rewrite G3, G4. apply H1.
    + rewrite G1 by done. apply H1.
  - intros x Hx. rewrite G1 by done. apply H1.
  - intros f v Hv. apply G5. by rewrite H1f.
  - intros f v Hv. destruct (G6 f v Hv) as [Hv'|Hv']; rewrite H1f in Hv'; auto.
Qed.

Lemma extend_matches_spec width base matches : forall h : heap,
  let g := foldl (extend_base width base) h matches in
  (forall x, x ∈ matches -> used (g x) = true)
  /\ (forall x, x ∉ matches -> used (g x) = used (h x))
  /\ (forall x, weight (g x) = weight (h x) /\ matched (g x) = matched (h x))
  /\ (forall x, x <> base -> data (g x) = data (h x))
  /\ (forall f v, v ∈ get_field (h base) f -> v ∈ get_field (g base) f)
  /\ (forall f v, v ∈ get_field (g base) f ->
        v ∈ get_field (h base) f
        \/ exists m, m ∈ matches /\ v ∈ get_field (h m) f).
Proof.
  induction matches as [|m matches IH]; intros h; simpl.
  - split_and!; auto. by intros ? ?%elem_of_nil.
  - destruct (extend_base_spec width base h m) as (E1 & E2 & E3 & E4 & E5 & E6).
    destruct (IH (extend_base width base h m)) as (G1 & G2 & G3 & G4 & G5 & G6).
    set (h1 := extend_base width base h m) in *.
    split_and!.
    + intros x [->|Hx]%elem_of_cons; [|by apply G1].
      destruct (decide (m ∈ matches)); [by apply G1|]. by rewrite G2.
    + intros x Hx. apply not_elem_of_cons in Hx as [Hne Hx].
      rewrite G2 by done. by apply E2.
    + intros x. destruct (G3 x) as [-> ->]. apply E3.
    + intros x Hx. rewrite G4 by done. by apply E4.
    + intros f v Hv. by apply G5, E5.
    + intros f v Hv. destruct (G6 f v Hv) as [Hv'|(m' & Hm' & Hv')].
      * destruct (E6 f v Hv') as [?|?]; [auto|]. right. exists m. split; [by left|done].
      * destruct (decide (m' = base)) as [->|Hne].
        -- destruct (E6 f v Hv') as [?|?]; [auto|]. right. exists m. split; [by left|done].
        -- right. exists m'. split; [by right|].
           unfold get_field in *. by rewrite <- (E4 m' Hne).
Qed.

Lemma elem_of_uniqify_from seen l v : v ∈ uniqify_from seen l -> v ∈ l.
Proof.
  revert seen. induction l as [|x l IH]; intros seen; simpl; [done|].
  case_decide.
  - intros ?%IH. by right.
  - intros [->|?%IH]%elem_of_cons; [by left|by right].
Qed.

Lemma keep_first_subset (kb : KB) (d : list (list string)) f v :
  v ∈ keep_first kb d !!! f -> v ∈ d !!! f.
Proof.
  unfold keep_first.
  induction ((map_to_list (fields kb)).*2) as [|fh l IH]; simpl; [done|].
  destruct (multiple fh); [done|].
  destruct (foldr _ d l !! order_num fh) as [[|v0 [|v1 vs]]|] eqn:E; try done.
  rewrite list_lookup_total_insert. case_decide as H; [|done].
  destruct H as [<- _]. intros ->%list_elem_of_singleton. apply IH.
  rewrite list_lookup_total_alt, E. by left.
Qed.

Lemma fused_data_subset (kb : KB) (d : list (list string)) f v :
  v ∈ keep_first kb (uniqifyList <$> d) !!! f -> v ∈ d !!! f.
Proof.
  intros Hv%keep_first_subset. revert Hv.
  rewrite !list_lookup_total_alt, list_lookup_fmap.
  destruct (d !! f); simpl; [|done]. apply elem_of_uniqify_from.
Qed.

(** *** The subscripts of a fusion *)

Lemma keep_first_length (kb : KB) (d : list (list string)) :
  length (keep_first kb d) = length d.
Proof.
  unfold keep_first.
  induction ((map_to_list (fields kb)).*2) as [|fh l IH]; simpl; [done|].
  destruct (multiple fh); [done|].
  destruct (foldr _ d l !! order_num fh) as [[|v0 [|v1 vs]]|]; try done.
  by rewrite length_insert.
Qed.

Lemma truncate_single_Return (kb : KB) (d d' : list (list string)) :
  truncate_single kb d = Return d' -> d' = keep_first kb d.
Proof. unfold truncate_single. case_match; by intros [= <-]. Qed.

Lemma truncate_single_in_range (kb : KB) (d : list (list string)) :
  (forall key f, fields kb !! key = Some f -> order_num f < length d) ->
  truncate_single kb d = Return (keep_first kb d).
Proof.
  intros Hok. unfold truncate_single.
  rewrite (proj2 (forallb_forall _ _)); [done|].
  intros fh Hfh%list_elem_of_In.
  apply list_elem_of_fmap in Hfh as ([key f] & -> & Hin).
  apply elem_of_map_to_list in Hin. simpl.
  apply orb_true_intro. right. apply Nat.ltb_lt. by eapply Hok.
Qed.

Lemma extend_column_length base m (h : heap) f x :
  length (data (extend_column base m h f x)) = length (data (h x)).
Proof.
  unfold extend_column.
  destruct (heap_insert_cases h base x
              (set_data (<[f := get_field (h base) f ++ get_field (h m) f]>
                           (data (h base))) (h base))) as [[-> ->]|[_ ->]];
    [|done].
  simpl. by rewrite length_insert.
Qed.

Lemma extend_base_length width base (h : heap) m x :
  length (data (extend_base width base h m x)) = length (data (h x)).
Proof.
  unfold extend_base.
  set (h1 := <[m := set_used true (h m)]> h).
  assert (length (data (h1 x)) = length (data (h x))) as <-.
  { unfold h1.
    by destruct (heap_insert_cases h m x (set_used true (h m))) as [[-> ->]|[_ ->]]. }
  generalize h1. clear h1. induction (seq 0 width) as [|f fs IH]; intros h1; simpl; [done|].
  by rewrite IH, extend_column_length.
Qed.

Lemma extend_matches_length width base matches : forall (h : heap) x,
  length (data (foldl (extend_base width base) h matches x)) = length (data (h x)).
Proof.
  induction matches as [|m matches IH]; intros h x; simpl; [done|].
  by rewrite IH, extend_base_length.
Qed.

(** A fusion that returns leaves what [fuse] describes. *)
Lemma fuse_checked_Return (kb : KB) width st matches st' :
  fuse_checked kb width st matches = Return st' -> st' = fuse kb width st matches.
Proof.
  unfold fuse_checked, fuse. destruct matches as [|base rest]; [by intros [= <-]|].
  case_match; [|done].
  destruct (truncate_single kb _) as [d| |] eqn:E; [|done..].
  apply truncate_single_Return in E as ->. by intros [= <-].
Qed.

(** It returns when the matches have the columns of the schema. *)
Lemma fuse_checked_in_range (kb : KB) width st matches :
  (forall key f, fields kb !! key = Some f -> order_num f < width) ->
  (forall m, m ∈ matches -> length (data (objs st m)) = width) ->
  fuse_checked kb width st matches = Return (fuse kb width st matches).
Proof.
  intros Hschema Hcols. unfold fuse_checked, fuse.
  destruct matches as [|base rest]; [done|].
  rewrite (proj2 (forallb_forall _ _)).
  - rewrite truncate_single_in_range; [done|].
    intros key f Hf. rewrite length_fmap, extend_matches_length.
    rewrite Hcols by (by left). by eapply Hschema.
  - intros m Hm%list_elem_of_In. rewrite (Hcols base) by (by left).
    rewrite (Hcols m Hm). by rewrite Nat.leb_refl.
Qed.

(** The columns a fusion leaves: no entity that was there changes its
    number of columns, and the new entity has as many as the first match. *)
Lemma fuse_length (kb : KB) width st matches x :
  length (data (objs (fuse kb width st matches) x))
  = match matches with
    | base :: _ => if decide (x = fresh st) then length (data (objs st base))
                   else length (data (objs st x))
    | [] => length (data (objs st x))
    end.
Proof.
  unfold fuse. destruct matches as [|base rest]; [done|]. simpl.
  destruct (heap_insert_cases
              (foldl (extend_base width base) (extend_base width base (objs st) base) rest)
              (fresh st) x
              (mkEntity (keep_first kb (uniqifyList <$>
                           data (foldl (extend_base width base)
                                   (extend_base width base (objs st) base) rest base)))
                 (weight (objs st base)) (used (objs st base)) (matched (objs st base))))
    as [[-> ->]|[Hne ->]].
  - rewrite decide_True by done. simpl.
    rewrite keep_first_length, length_fmap.
    by rewrite (extend_matches_length width base rest), extend_base_length.
  - rewrite decide_False by done.
    by rewrite (extend_matches_length width base rest), extend_base_length.
Qed.


(** *** One turn of the loop of [_deduplicate] *)

Lemma entity_ext (e e' : Entity) :
  data e = data e' -> weight e = weight e' -> used e = used e' ->
  matched e = matched e' -> e = e'.
Proof. destruct e, e'; simpl. by intros -> -> -> ->. Qed.

Lemma short_list_unique {A} (l : list A) x y :
  length l <= 1 -> x ∈ l -> y ∈ l -> x = y.
Proof.
  destruct l as [|a [|b l]]; simpl; [by intros _ ?%elem_of_nil| |lia].
  by intros _ ->%list_elem_of_singleton ->%list_elem_of_singleton.
Qed.

(** More fuel does not change what a loop returns. *)
Section fuel_facts.
Context `{R : Runtime}.

Lemma collect_loop_mono (h : heap) (index : Index) (id_fields : list nat) a :
  forall b cst r,
  collect_loop a h index id_fields cst = Some r -> a <= b ->
  collect_loop b h index id_fields cst = Some r.
Proof.
  induction a as [|a IHa]; intros b cst r; simpl.
  - destruct (fifo_entity cst) as [|[x fr] fifo] eqn:Hf; [|done].
    intros [= <-] _. destruct b; simpl; by rewrite Hf.
  - destruct (fifo_entity cst) as [|[x fr] fifo] eqn:Hf.
    + intros [= <-] _. destruct b; simpl; by rewrite Hf.
    + destruct b as [|b]; [lia|]. simpl. rewrite Hf.
      destruct (collect_entity _ _ _ _ _ _ _ _); [|done..].
      intros H Hle. apply IHa; [done|lia].
Qed.

Lemma dedup_entity_mono (kb : KB) (index : Index) (id_fields : list nat) st s a b r :
  dedup_entity a kb index id_fields st s = Some r -> a <= b ->
  dedup_entity b kb index id_fields st s = Some r.
Proof.
  unfold dedup_entity. destruct (used (objs st s)); [done|].
  unfold _collectUniqueIds.
  destruct (collect_loop a _ _ _ _) as [r'|] eqn:Ea; [|done].
  intros H Hle. by rewrite (collect_loop_mono _ _ _ _ _ _ _ Ea Hle).
Qed.

Lemma dedup_loop_mono (kb : KB) (index : Index) (id_fields : list nat) todo :
  forall st a b r,
  dedup_loop a kb index id_fields st todo = Some r -> a <= b ->
  dedup_loop b kb index id_fields st todo = Some r.
Proof.
  induction todo as [|s todo IH]; intros st a b r; simpl; [done|].
  destruct (dedup_entity a kb index id_fields st s) as [r'|] eqn:Ea; [|done].
  intros H Hle. rewrite (dedup_entity_mono _ _ _ _ _ _ _ _ Ea Hle).
  destruct r'; [|done..]. by eapply IH.
Qed.

End fuel_facts.

Section dedup_facts.
Context `{R : Runtime} `{!RuntimeSpec R}.
Context (kb : KB) (h0 : heap) (fresh0 : nat) (index : Index)
        (id_fields ents : list nat) (b0 : gset idpair).
Context (Hnodup : NoDup ents)
        (Hinit : forall x, x ∈ ents ->
                   used (h0 x) = false /\ matched (h0 x) = None
                   /\ weight (h0 x) = 0%Z)
        (Hbound : forall x, x ∈ ents -> x < fresh0)
        (Hsound : forall x f v, x ∈ index_get index f v ->
                    x ∈ ents /\ f ∈ id_fields /\ v ∈ get_field (h0 x) f)
        (Hcomplete : forall x f v, x ∈ ents -> f ∈ id_fields ->
                       v ∈ get_field (h0 x) f -> x ∈ index_get index f v).

Lemma dedup_env st visited :
  dedup_inv h0 fresh0 index id_fields ents b0 st visited ->
  collect_env (objs st) index id_fields ents (finished_in (objs st) visited)
    (blacklist_of_uniques st).
Proof.
  intros K. split.
  - intros x f v Hx. by destruct (Hsound x f v Hx).
  - intros x f v Hx. destruct (Hsound x f v Hx) as (? & ? & ?).
    split; simpl; [done|]. by apply (di_grow _ _ _ _ _ _ _ _ K).
  - intros x [f v] Hx Hnf [Hf Hv]. simpl in *.
    apply Hcomplete; [done..|].
    rewrite <- (di_frame _ _ _ _ _ _ _ _ K x Hx); [done|].
    destruct (used (objs st x)) eqn:E; [|done]. exfalso. apply Hnf. by left.
  - apply (di_closed _ _ _ _ _ _ _ _ K).
Qed.

(** An entity that is already used is skipped. *)
Lemma dedup_inv_skip st visited s :
  used (objs st s) = true ->
  dedup_inv h0 fresh0 index id_fields ents b0 st visited ->
  dedup_inv h0 fresh0 index id_fields ents b0 st (visited ++ [s]).
Proof.
  intros Hs K.
  assert (forall x, finished_in (objs st) (visited ++ [s]) x
                    <-> finished_in (objs st) visited x) as Hfin.
  { intros x. unfold finished_in. rewrite elem_of_app, list_elem_of_singleton.
    split; [|tauto]. intros [?|[?| ->]]; auto. }
  destruct K as [K1 K2 K3 K4 K5 K6 K7 K8 K9 K10]. split; try done.
  - intros r Hr. destruct (K4 r Hr) as [[? ?]|?]; [left|by right].
    split; [|done]. apply elem_of_app. by left.
  - intros y p z Hy Hfy Hp Hb Hz. apply Hfin. apply Hfin in Hfy. by eapply K7.
  - intros r p z Hr Hp Hb Hz. apply Hfin. by eapply K8.
Qed.

Section cluster.
Context (st : dstate) (visited todo : list nat) (s : nat) (c : cstate)
        (matches : list nat).
Context (Hents : ents = visited ++ s :: todo)
        (K : dedup_inv h0 fresh0 index id_fields ents b0 st visited)
        (Hunused : used (objs st s) = false)
        (Hc : collect_inv (objs st) index id_fields ents
                (finished_in (objs st) visited) (blacklist_of_uniques st) s c)
        (Hnil : fifo_entity c = [])
        (Hmatches : forall x, x ∈ matches <->
                      exists p, p ∈ dest c /\ x ∈ index_get index p.1 p.2).

Lemma root_in_ents : s ∈ ents.
Proof. rewrite Hents. apply elem_of_app. right. by left. Qed.

Lemma root_not_finished : ~ finished_in (objs st) visited s.
Proof.
  intros [Hu|Hv]; [congruence|].
  rewrite Hents in Hnodup. apply NoDup_app in Hnodup as (_ & Hn & _).
  apply (Hn s Hv). by left.
Qed.

Lemma black_grows : blacklist_of_uniques st ⊆ black c.
Proof. apply (cl_black _ _ _ _ _ _ _ _ Hc). Qed.

Lemma member_facts x :
  x ∈ matches ->
  x ∈ ents /\ ~ finished_in (objs st) visited x /\ used (objs st x) = false
  /\ objs st x = h0 x
  /\ forall q, has_id id_fields (objs st x) q -> q ∈ dest c \/ q ∈ black c.
Proof.
  intros (p & Hp & Hx)%Hmatches.
  destruct (cl_members _ _ _ _ _ _ _ _ Hc p x Hp Hx) as [Hnf Hq].
  assert (x ∈ ents) as Hxe by (by destruct (Hsound _ _ _ Hx)).
  assert (used (objs st x) = false) as Hu.
  { destruct (used (objs st x)) eqn:E; [|done]. exfalso. apply Hnf. by left. }
  split_and!; try done.
  - by apply (di_frame _ _ _ _ _ _ _ _ K).
  - destruct Hq as [Hq|Hq]; [|done]. rewrite Hnil in Hq. by apply elem_of_nil in Hq.
Qed.

Lemma member_closed m p z :
  m ∈ matches -> has_id id_fields (objs st m) p -> p ∉ black c ->
  z ∈ index_get index p.1 p.2 -> z ∈ matches.
Proof.
  intros Hm Hp Hb Hz. destruct (member_facts m Hm) as (_ & _ & _ & _ & Hq).
  destruct (Hq p Hp) as [Hd|?]; [|done]. apply Hmatches. by exists p.
Qed.

Lemma root_ids q :
  has_id id_fields (objs st s) q -> q ∈ dest c \/ q ∈ black c.
Proof.
  destruct (cl_root _ _ _ _ _ _ _ _ Hc) as [[Hq _]|Hq]; [|apply Hq].
  by rewrite Hnil in Hq.
Qed.

Lemma root_closed p z :
  has_id id_fields (objs st s) p -> p ∉ black c ->
  z ∈ index_get index p.1 p.2 -> s ∈ matches /\ z ∈ matches.
Proof.
  intros Hp Hb Hz. destruct (root_ids p Hp) as [Hd|?]; [|done].
  split; apply Hmatches; exists p; split; try done.
  apply (ce_index_complete _ _ _ _ _ _ (dedup_env st visited K)); [|apply root_not_finished|done].
  apply root_in_ents.
Qed.

Lemma finished_member x :
  finished_in (objs st) visited x -> x ∉ matches.
Proof. intros Hf Hx. by destruct (member_facts x Hx) as (_ & ? & _). Qed.

(** The cluster has at most one entity: the root is kept as it is. *)
Lemma dedup_inv_solo :
  length matches <= 1 ->
  dedup_inv h0 fresh0 index id_fields ents b0
    (mkDstate (objs st) (fresh st) (black c) (new_kb_entities st ++ [s]))
    (visited ++ [s]).
Proof.
  intros Hlen.
  pose proof K as [K1 K2 K3 K4 K5 K6 K7 K8 K9 K10].
  pose proof black_grows as Hbg.
  assert (forall x, finished_in (objs st) visited x ->
                    finished_in (objs st) (visited ++ [s]) x) as Hfin.
  { intros x [?|?]; [by left|right]. apply elem_of_app. by left. }
  assert (forall p z, has_id id_fields (objs st s) p -> p ∉ black c ->
            z ∈ index_get index p.1 p.2 ->
            finished_in (objs st) (visited ++ [s]) z) as Hroot.
  { intros p z Hp Hb Hz. destruct (root_closed p z Hp Hb Hz) as [Hs Hzm].
    rewrite (short_list_unique matches z s Hlen Hzm Hs).
    right. apply elem_of_app. right. by apply list_elem_of_singleton. }
  assert (s ∉ new_kb_entities st) as Hsout.
  { intros Hs. destruct (K4 s Hs) as [[Hv _]|[Hne _]].
    - apply root_not_finished. by right.
    - apply Hne, root_in_ents. }
  split; simpl; try done.
  - intros r [Hr| ->%list_elem_of_singleton]%elem_of_app.
    + destruct (K4 r Hr) as [[? ?]|?]; [left|by right].
      split; [|done]. apply elem_of_app. by left.
    + left. split; [|apply root_in_ents].
      apply elem_of_app. right. by apply list_elem_of_singleton.
  - apply NoDup_app. split_and!; [done| |apply NoDup_singleton].
    by intros r Hr ->%list_elem_of_singleton.
  - intros r [Hr| ->%list_elem_of_singleton]%elem_of_app; [by apply K6|].
    rewrite (K1 s root_in_ents Hunused). apply Hinit, root_in_ents.
  - intros y p z Hy [Hu|[Hv| ->%list_elem_of_singleton]%elem_of_app] Hp Hb Hz.
    + apply Hfin. apply (K7 y p z Hy); [by left|done| |done].
      intros Hb'. by apply Hb, Hbg.
    + apply Hfin. apply (K7 y p z Hy); [by right|done| |done].
      intros Hb'. by apply Hb, Hbg.
    + by eapply Hroot.
  - intros r p z [Hr| ->%list_elem_of_singleton]%elem_of_app Hp Hb Hz.
    + apply Hfin. apply (K8 r p z Hr); [done| |done].
      intros Hb'. by apply Hb, Hbg.
    + by eapply Hroot.
  - intros i j r r' p Hij Hi Hj Hp Hp'.
    apply lookup_app_Some in Hj as [Hj|[Hjlen Hj]].
    + apply Hbg. eapply (K9 i j r r' p); try done.
      apply lookup_app_Some in Hi as [Hi|[Hilen _]]; [done|].
      apply lookup_lt_Some in Hj. lia.
    + apply list_lookup_singleton_Some in Hj as [Hj0 <-].
      apply lookup_app_Some in Hi as [Hi|[Hilen _]]; [|lia].
      destruct (decide (p ∈ black c)) as [|Hb]; [done|]. exfalso.
      apply root_not_finished.
      apply (K8 r p s); [by eapply list_elem_of_lookup_2|done| |].
      * intros Hb'. by apply Hb, Hbg.
      * apply (ce_index_complete _ _ _ _ _ _ (dedup_env st visited K));
          [apply root_in_ents|apply root_not_finished|done].
  - etrans; [exact K10|exact Hbg].
Qed.

(** The cluster has several entities: they are fused into a new one. *)
Lemma dedup_inv_fuse (width : nat) (sorted : list nat) :
  sorted ≡ₚ matches ->
  1 < length matches ->
  dedup_inv h0 fresh0 index id_fields ents b0
    (fuse kb width
       (mkDstate (objs st) (fresh st) (black c) (new_kb_entities st)) sorted)
    (visited ++ [s]).
Proof.
  intros Hperm Hlen.
  pose proof K as [K1 K2 K3 K4 K5 K6 K7 K8 K9 K10].
  pose proof black_grows as Hbg.
  destruct sorted as [|base rest].
  { apply Permutation_length in Hperm. simpl in Hperm. lia. }
  unfold fuse. cbn [objs fresh blacklist_of_uniques new_kb_entities].
  destruct (extend_matches_spec width base (base :: rest) (objs st))
    as (U1 & U2 & U3 & U4 & U5 & U6).
  set (g := foldl (extend_base width base) (objs st) (base :: rest)) in *.
  set (fr := fresh st) in *.
  set (new_e := mkEntity (keep_first kb (uniqifyList <$> data (g base)))
                  (weight (objs st base)) (used (objs st base))
                  (matched (objs st base))).
  set (h' := <[fr := new_e]> g).
  assert (forall x, x ∈ base :: rest <-> x ∈ matches) as Hin.
  { intros x. by rewrite Hperm. }
  assert (base ∈ matches) as Hbase by (apply Hin; by left).
  destruct (member_facts base Hbase) as (Hbe & Hbnf & Hbu & Hb0 & _).
  assert (forall x, x ∈ ents -> x <> fr) as Hfr.
  { intros x Hx ->. apply Hbound in Hx. unfold fr in Hx. lia. }
  assert (forall x, x <> fr -> h' x = g x) as Hh'.
  { intros x Hx. unfold h'. by heap_lookup. }
  assert (h' fr = new_e) as Hnew by (unfold h'; by heap_lookup).
  assert (forall x, x ∈ matches -> x ∈ ents) as Hment.
  { intros x Hx. by destruct (member_facts x Hx). }
  assert (forall x, x ∉ matches -> g x = objs st x) as Hout.
  { intros x Hx. apply entity_ext.
    - apply U4. by intros ->.
    - apply U3.
    - apply U2. by rewrite Hin.
    - apply U3. }
  assert (forall x, x ∈ matches -> used (g x) = true) as Hused.
  { intros x Hx. apply U1. by apply Hin. }
  assert (forall y p, has_id id_fields (g y) p ->
            (y ∈ matches /\ exists m, m ∈ matches /\ has_id id_fields (objs st m) p)
            \/ has_id id_fields (objs st y) p) as Hchar.
  { intros y [f v] [Hf Hv]. simpl in *. destruct (decide (y = base)) as [->|Hne].
    - left. split; [done|]. destruct (U6 f v Hv) as [Hv'|(m & Hm & Hv')].
      + by exists base.
      + exists m. split; [by apply Hin|done].
    - right. split; [done|]. simpl. unfold get_field in *. by rewrite <- (U4 y Hne). }
  assert (forall x, x <> fr -> finished_in (objs st) visited x ->
            finished_in h' (visited ++ [s]) x) as Hfin.
  { intros x Hx [Hu|Hv].
    - left. rewrite Hh' by done. destruct (decide (x ∈ matches)); [auto|].
      by rewrite Hout.
    - right. apply elem_of_app. by left. }
  assert (forall x, x ∈ matches -> finished_in h' (visited ++ [s]) x) as Hfinm.
  { intros x Hx. left. rewrite Hh' by auto. auto. }
  assert (forall m p z, m ∈ matches -> has_id id_fields (objs st m) p ->
            p ∉ black c -> z ∈ index_get index p.1 p.2 ->
            finished_in h' (visited ++ [s]) z) as Hmem.
  { intros m p z Hm Hp Hb Hz. apply Hfinm. by eapply member_closed. }
  assert (forall r, r ∈ new_kb_entities st -> r <> fr /\ g r = objs st r) as Hold.
  { intros r Hr. destruct (K4 r Hr) as [[Hv He]|[Hne Hlt]].
    - split; [auto|]. apply Hout. apply finished_member. by right.
    - split; [unfold fr; lia|]. apply Hout. intros Hm. by apply Hne, Hment. }
  assert (forall p, has_id id_fields new_e p ->
            exists m, m ∈ matches /\ has_id id_fields (objs st m) p) as Hnewid.
  { intros [f v] [Hf Hv]. simpl in *.
    apply fused_data_subset in Hv.
    destruct (Hchar base (f, v)) as [[_ ?]|?]; [done|done|by exists base]. }
  split; cbn [objs fresh blacklist_of_uniques new_kb_entities].
  - (* di_frame *)
    intros x Hx. rewrite Hh' by auto. intros Hu.
    destruct (decide (x ∈ matches)) as [Hm|Hm].
    + rewrite (Hused x Hm) in Hu. done.
    + rewrite Hout in Hu |- * by done. by apply K1.
  - (* di_grow *)
    intros x f v Hx Hv. rewrite Hh' by auto.
    apply K2 in Hv; [|done].
    destruct (decide (x = base)) as [->|Hne]; [by apply U5|].
    unfold get_field in *. by rewrite (U4 x Hne).
  - unfold fr. lia.
  - (* di_out *)
    intros r [Hr| ->%list_elem_of_singleton]%elem_of_app.
    + destruct (K4 r Hr) as [[? ?]|[? ?]]; [left|right].
      * split; [|done]. apply elem_of_app. by left.
      * split; [done|]. lia.
    + right. split; [|unfold fr; lia]. intros Hx. by apply (Hfr fr).
  - (* di_out_nodup *)
    apply NoDup_app. split_and!; [done| |apply NoDup_singleton].
    intros r Hr ->%list_elem_of_singleton. by destruct (Hold fr Hr).
  - (* di_out_new *)
    intros r [Hr| ->%list_elem_of_singleton]%elem_of_app.
    + destruct (Hold r Hr) as [Hne Hg]. rewrite Hh', Hg by done. by apply K6.
    + rewrite Hnew. simpl. rewrite Hb0. by apply Hinit.
  - (* di_closed *)
    intros y p z Hy Hfy Hp Hb Hz.
    assert (z <> fr) as Hzfr by (apply Hfr; by destruct (Hsound _ _ _ Hz)).
    rewrite Hh' in Hp by auto.
    destruct (Hchar y p Hp) as [[Hym (m & Hm & Hmp)]|Hp']; [by eapply Hmem|].
    destruct (decide (y ∈ matches)) as [Hym|Hym]; [by eapply (Hmem y)|].
    destruct Hfy as [Hu|[Hv| ->%list_elem_of_singleton]%elem_of_app].
    + rewrite Hh', Hout in Hu by auto. apply Hfin; [done|].
      apply (K7 y p z Hy); [by left|done| |done]. intros ?. by apply Hb, Hbg.
    + apply Hfin; [done|].
      apply (K7 y p z Hy); [by right|done| |done]. intros ?. by apply Hb, Hbg.
    + destruct (root_closed p z Hp' Hb Hz) as [Hs _]. done.
  - (* di_out_closed *)
    intros r p z [Hr| ->%list_elem_of_singleton]%elem_of_app Hp Hb Hz.
    + assert (z <> fr) as Hzfr by (apply Hfr; by destruct (Hsound _ _ _ Hz)).
      destruct (Hold r Hr) as [Hne Hg]. rewrite Hh', Hg in Hp by done.
      apply Hfin; [done|]. apply (K8 r p z Hr); [done| |done].
      intros ?. by apply Hb, Hbg.
    + rewrite Hnew in Hp. destruct (Hnewid p Hp) as (m & Hm & Hmp).
      by eapply Hmem.
  - (* di_distinct *)
    intros i j r r' p Hij Hi Hj Hp Hp'.
    apply lookup_app_Some in Hj as [Hj|[Hjlen Hj]].
    + apply lookup_app_Some in Hi as [Hi|[Hilen _]];
        [|apply lookup_lt_Some in Hj; lia].
      destruct (Hold r) as [Hne Hg]; [by eapply list_elem_of_lookup_2|].
      destruct (Hold r') as [Hne' Hg']; [by eapply list_elem_of_lookup_2|].
      rewrite Hh', Hg in Hp by done. rewrite Hh', Hg' in Hp' by done.
      apply Hbg. by eapply (K9 i j r r' p).
    + apply list_lookup_singleton_Some in Hj as [Hj0 <-].
      apply lookup_app_Some in Hi as [Hi|[Hilen _]]; [|lia].
      destruct (decide (p ∈ black c)) as [|Hb]; [done|]. exfalso.
      assert (r ∈ new_kb_entities st) as Hr by (by eapply list_elem_of_lookup_2).
      destruct (Hold r Hr) as [Hne Hg]. rewrite Hh', Hg in Hp by done.
      rewrite Hnew in Hp'. destruct (Hnewid p Hp') as (m & Hm & Hmp).
      destruct (member_facts m Hm) as (Hme & Hmnf & _).
      apply Hmnf. apply (K8 r p m Hr); [done| |].
      * intros ?. by apply Hb, Hbg.
      * by apply (ce_index_complete _ _ _ _ _ _ (dedup_env st visited K)).
  - etrans; [exact K10|exact Hbg].
Qed.

End cluster.

Lemma dedup_entity_step st visited s todo :
  ents = visited ++ s :: todo ->
  dedup_inv h0 fresh0 index id_fields ents b0 st visited ->
  exists N o,
    (forall fuel, N <= fuel ->
       dedup_entity fuel kb index id_fields st s = Some o)
    /\ (forall st', o = Return st' ->
          dedup_inv h0 fresh0 index id_fields ents b0 st' (visited ++ [s])
          /\ (used (objs st s) = true -> st' = st))
    /\ (columns_ok kb (objs st) (ents ++ new_kb_entities st) ->
        exists st', o = Return st'
          /\ columns_ok kb (objs st') (ents ++ new_kb_entities st')).
Proof.
  intros Hents K. unfold dedup_entity.
  destruct (used (objs st s)) eqn:Hu.
  { exists 0, (Return st). split_and!; [done| |by eauto].
    intros st' [= <-]. split; [|done]. by apply dedup_inv_skip. }
  destruct (collectUniqueIds_total (objs st) index id_fields ents
              (finished_in (objs st) visited) (blacklist_of_uniques st) s
              (dedup_env st visited K))
    as (N & c & Hrun & Hc & Hnil).
  { by eapply root_in_ents. }
  { by eapply root_not_finished. }
  destruct (gather_matches_spec index (ids_in_key_order id_fields (dest c)) [])
    as (M & E & HM).
  { intros p [_ Hp]%elem_of_ids_in_key_order.
    by destruct (cl_keys _ _ _ _ _ _ _ _ Hc p Hp). }
  assert (forall x, x ∈ set_iter M <->
            exists p, p ∈ dest c /\ x ∈ index_get index p.1 p.2) as Hmatches.
  { intros x. rewrite set_iter_perm, HM. split.
    - intros [?%elem_of_nil|(p & [_ Hp]%elem_of_ids_in_key_order & Hx)]; [done|].
      by exists p.
    - intros (p & Hp & Hx). right. exists p. split; [|done].
      apply elem_of_ids_in_key_order. split; [|done].
      by destruct (cl_keys _ _ _ _ _ _ _ _ Hc p Hp). }
  set (st1 := mkDstate (objs st) (fresh st) (black c) (new_kb_entities st)).
  set (sorted := sort_desc (fun e => countNonEmptyFields (objs st e)) (set_iter M)).
  exists N,
    (if 1 <? length (set_iter M) then
       fuse_checked kb (length (data (objs st s))) st1 sorted
     else Return (mkDstate (objs st) (fresh st) (black c) (new_kb_entities st ++ [s]))).
  assert (s ∈ ents) as Hs by (by eapply root_in_ents).
  split_and!.
  - intros fuel Hfuel. rewrite (Hrun fuel Hfuel). rewrite E. cbn [obind].
    destruct (1 <? length (set_iter M)); reflexivity.
  - intros st' Hst'. split; [|done].
    destruct (1 <? length (set_iter M)) eqn:Hlen.
    + apply Nat.ltb_lt in Hlen. apply fuse_checked_Return in Hst' as ->.
      eapply (dedup_inv_fuse st visited todo s c (set_iter M)); try done.
      apply sort_desc_perm.
    + apply Nat.ltb_ge in Hlen. injection Hst' as <-.
      by eapply (dedup_inv_solo st visited todo s c (set_iter M)).
  - intros [Hschema Hcols].
    assert (forall x, x ∈ sorted -> x ∈ ents) as Hsorted.
    { intros x Hx. unfold sorted in Hx. rewrite sort_desc_perm in Hx.
      apply Hmatches in Hx as (p & _ & Hx). by destruct (Hsound _ _ _ Hx). }
    destruct (1 <? length (set_iter M)) eqn:Hlen.
    + apply Nat.ltb_lt in Hlen. eexists. split.
      * apply fuse_checked_in_range.
        -- intros key f Hf. rewrite Hcols by (apply elem_of_app; by left).
           by eapply Hschema.
        -- intros m Hm. cbn [st1 objs].
           rewrite !Hcols; [done|apply elem_of_app; by left|].
           apply elem_of_app. left. by apply Hsorted.
      * split; [done|]. intros x Hx. rewrite fuse_length.
        destruct sorted as [|base rest] eqn:Esorted.
        { pose proof (Permutation_length
                        (sort_desc_perm (fun e => countNonEmptyFields (objs st e))
                           (set_iter M))) as Hl.
          fold sorted in Hl. rewrite Esorted in Hl. simpl in Hl. lia. }
        cbn [st1 objs fresh]. case_decide as Hfr.
        -- apply Hcols. apply elem_of_app. left. apply Hsorted. by left.
        -- apply Hcols. unfold fuse in Hx. cbn [st1 new_kb_entities] in Hx.
           rewrite !elem_of_app in Hx. rewrite elem_of_app.
           destruct Hx as [?|[?|Hx%list_elem_of_singleton]]; [auto|auto|done].
    + eexists. split; [done|]. split; [done|]. cbn [objs new_kb_entities].
      intros x Hx. apply Hcols. rewrite !elem_of_app in Hx. rewrite elem_of_app.
      destruct Hx as [?|[?|Hx%list_elem_of_singleton]]; [auto|auto|].
      subst x. by left.
Qed.

Lemma dedup_loop_total todo : forall visited st,
  ents = visited ++ todo ->
  dedup_inv h0 fresh0 index id_fields ents b0 st visited ->
  exists N o,
    (forall fuel, N <= fuel ->
       dedup_loop fuel kb index id_fields st todo = Some o)
    /\ (forall st', o = Return st' ->
          dedup_inv h0 fresh0 index id_fields ents b0 st' ents)
    /\ (columns_ok kb (objs st) (ents ++ new_kb_entities st) ->
        exists st', o = Return st'
          /\ columns_ok kb (objs st') (ents ++ new_kb_entities st')).
Proof.
  induction todo as [|s todo IH]; intros visited st Hents K.
  - exists 0, (Return st). rewrite app_nil_r in Hents. subst visited.
    split_and!; [done| |by eauto]. by intros st' [= <-].
  - destruct (dedup_entity_step st visited s todo Hents K)
      as (N1 & o1 & H1 & K1 & C1).
    destruct o1 as [st1|code err|e].
    + destruct (K1 st1 eq_refl) as [K1' _].
      destruct (IH (visited ++ [s]) st1) as (N2 & o2 & H2 & K2 & C2); [|done|].
      { by rewrite <- app_assoc. }
      exists (N1 `max` N2), o2. split_and!; [|done|].
      * intros fuel Hfuel. simpl. rewrite H1 by lia. apply H2. lia.
      * intros Hcols. destruct (C1 Hcols) as (st1' & [= <-] & Hcols1). by apply C2.
    + exists N1, (SysExit code err). split_and!; [|done|].
      * intros fuel Hfuel. simpl. by rewrite H1.
      * intros Hcols. by destruct (C1 Hcols) as (? & ? & _).
    + exists N1, (Raise e). split_and!; [|done|].
      * intros fuel Hfuel. simpl. by rewrite H1.
      * intros Hcols. by destruct (C1 Hcols) as (? & ? & _).
Qed.

Lemma dedup_inv_start :
  dedup_inv h0 fresh0 index id_fields ents b0 (mkDstate h0 fresh0 b0 []) [].
Proof.
  split; simpl; try done.
  - by intros ? ?%elem_of_nil.
  - apply NoDup_nil_2.
  - by intros ? ?%elem_of_nil.
  - intros y p z Hy [Hu|?%elem_of_nil]; [|done].
    destruct (Hinit y Hy) as [? _]. congruence.
  - by intros r p z ?%elem_of_nil.
Qed.

(** A pass that returns has the state the invariant describes. *)
Lemma dedup_loop_inv fuel st' :
  dedup_loop fuel kb index id_fields (mkDstate h0 fresh0 b0 []) ents
  = Some (Return st') ->
  dedup_inv h0 fresh0 index id_fields ents b0 st' ents.
Proof.
  intros Hrun.
  destruct (dedup_loop_total ents [] (mkDstate h0 fresh0 b0 []) eq_refl dedup_inv_start)
    as (N & o & H2 & K2 & _).
  pose proof (dedup_loop_mono kb index id_fields ents _ fuel (fuel `max` N) _
                Hrun (Nat.le_max_l _ _)) as Ha.
  rewrite (H2 (fuel `max` N) (Nat.le_max_r _ _)) in Ha. injection Ha as ->.
  by apply K2.
Qed.

(** A pass over a KB that has the columns of its schema returns. *)
Lemma dedup_loop_returns :
  columns_ok kb h0 ents ->
  exists N st',
    (forall fuel, N <= fuel ->
       dedup_loop fuel kb index id_fields (mkDstate h0 fresh0 b0 []) ents
       = Some (Return st'))
    /\ columns_ok kb (objs st') (new_kb_entities st').
Proof.
  intros [Hschema Hcols].
  destruct (dedup_loop_total ents [] (mkDstate h0 fresh0 b0 []) eq_refl dedup_inv_start)
    as (N & o & H2 & _ & C2).
  destruct C2 as (st' & -> & Hschema' & Hcols').
  { split; [done|]. simpl. intros x Hx. rewrite app_nil_r in Hx. by apply Hcols. }
  exists N, st'. split; [done|]. split; [done|].
  intros x Hx. apply Hcols'. apply elem_of_app. by right.
Qed.

End dedup_facts.


(** *** What [_make_index] puts in the index *)

Lemma foldl_collects {A B T} (mem : A -> T -> Prop) (Q : B -> T -> Prop)
    (step : A -> B -> A) (l : list B) :
  (forall a b t, mem (step a b) t <-> mem a t \/ Q b t) ->
  forall a t, mem (foldl step a l) t <-> mem a t \/ exists b, b ∈ l /\ Q b t.
Proof.
  intros Hstep. induction l as [|b l IH]; intros a t; simpl.
  - split; [auto|]. by intros [?|(? & ?%elem_of_nil & _)].
  - rewrite IH, Hstep. split.
    + intros [[?|?]|(b' & ? & ?)]; [auto| |].
      * right. exists b. split; [by left|done].
      * right. exists b'. split; [by right|done].
    + intros [?|(b' & [->|?]%elem_of_cons & ?)]; [auto|auto|].
      right. by exists b'.
Qed.

Lemma elem_of_index_add (index : Index) f v x f' v' y :
  y ∈ index_get (index_add index f v x) f' v'
  <-> y ∈ index_get index f' v' \/ (y = x /\ f' = f /\ v' = v).
Proof.
  unfold index_get at 1. unfold index_add. case_decide as H.
  - destruct H as [-> ->]. simpl. rewrite elem_of_set_add. tauto.
  - fold (index_get index f' v'). split; [auto|]. intros [?|(_ & ? & ?)]; [done|].
    destruct H. done.
Qed.

Lemma elem_of_make_index (h : heap) (kb_entities : list nat)
    (relations : list Relation) (kb_field : Relation -> nat) x f v :
  x ∈ index_get (_make_index h kb_entities relations kb_field) f v
  <-> x ∈ kb_entities /\ f ∈ fields_to_index relations kb_field
      /\ v ∈ get_field (h x) f /\ v ∉ blackdict relations kb_field f.
Proof.
  unfold _make_index.
  rewrite (foldl_collects
             (fun (index : Index) (t : nat * nat * string) =>
                t.1.1 ∈ index_get index t.1.2 t.2)
             (fun e (t : nat * nat * string) =>
                t.1.1 = e /\ t.1.2 ∈ fields_to_index relations kb_field
                /\ t.2 ∈ get_field (h e) t.1.2
                /\ t.2 ∉ blackdict relations kb_field t.1.2)
             _ kb_entities) with (t := (x, f, v)).
  - simpl. split.
    + intros [?%elem_of_nil|(e & He & -> & ?)]; done.
    + intros (? & ?). right. by exists x.
  - intros index e [[y f'] v']. simpl. unfold index_entity.
    rewrite (foldl_collects
               (fun (index : Index) (t : nat * nat * string) =>
                  t.1.1 ∈ index_get index t.1.2 t.2)
               (fun field (t : nat * nat * string) =>
                  t.1.1 = e /\ t.1.2 = field
                  /\ t.2 ∈ get_field (h e) t.1.2
                  /\ t.2 ∉ blackdict relations kb_field t.1.2)
               _ (fields_to_index relations kb_field)) with (t := (y, f', v')).
    + simpl. split.
      * intros [?|(fd & Hfd & -> & -> & ?)]; [auto|]. right. done.
      * intros [?|(-> & ? & ?)]; [auto|]. right. by exists f'.
    + clear. intros index field [[y f'] v']. simpl.
      rewrite (foldl_collects
                 (fun (index : Index) (t : nat * nat * string) =>
                    t.1.1 ∈ index_get index t.1.2 t.2)
                 (fun one_value (t : nat * nat * string) =>
                    t.1.1 = e /\ t.1.2 = field /\ t.2 = one_value
                    /\ t.2 ∉ blackdict relations kb_field field)
                 _ (get_field (h e) field)) with (t := (y, f', v')).
      * simpl. split.
        -- intros [?|(ov & Hov & -> & -> & -> & ?)]; [auto|]. right. done.
        -- intros [?|(-> & -> & ? & ?)]; [auto|]. right. by exists v'.
      * clear. intros index ov [[y f'] v']. simpl. case_decide as Hb.
        -- split; [auto|]. intros [?|(-> & -> & -> & ?)]; done.
        -- rewrite elem_of_index_add. split.
           ++ intros [?|(-> & -> & ->)]; [auto|]. right. done.
           ++ intros [?|(-> & -> & -> & _)]; [auto|]. right. done.
Qed.

Lemma filter_all {A} (P : A -> Prop) `{!forall x, Decision (P x)} (l : list A) :
  (forall x, x ∈ l -> P x) -> filter P l = l.
Proof.
  induction l as [|x l IH]; intros Hall; [done|].
  rewrite filter_cons_True by (apply Hall; by left).
  f_equal. apply IH. intros y Hy. apply Hall. by right.
Qed.

(** The relations [_getIdRelations] builds are UNIQUE and have an empty
    blacklist. *)
Lemma getIdRelations_spec `{R : Runtime} (kb : KB) (id_fields : list string) r :
  r ∈ _getIdRelations kb id_fields -> type r = UNIQUE /\ blacklist r = ∅.
Proof.
  unfold _getIdRelations. intros (nm & _ & Hr)%list_elem_of_omap.
  destruct (fields kb !! _); [|done]. by injection Hr as <-.
Qed.

Section id_index_facts.
Context `{R : Runtime} `{!RuntimeSpec R}.
Context (kb : KB) (names : list string).

Lemma id_filter_unique :
  filter (fun r => type r = UNIQUE) (_getIdRelations kb names)
  = _getIdRelations kb names.
Proof.
  apply filter_all. intros r Hr.
  by destruct (getIdRelations_spec kb names r Hr).
Qed.

Lemma id_filter_other :
  filter (fun r => type r <> OTHER) (_getIdRelations kb names)
  = _getIdRelations kb names.
Proof.
  apply filter_all. intros r Hr.
  destruct (getIdRelations_spec kb names r Hr) as [-> _]. done.
Qed.

Lemma id_blackdict f : blackdict (_getIdRelations kb names) kb1_field f = ∅.
Proof.
  unfold blackdict. apply leibniz_equiv. intros v. split; [|by intros ?%not_elem_of_empty].
  intros (X & HX & Hv)%elem_of_union_list.
  apply list_elem_of_fmap in HX as (r & -> & Hr).
  apply list_elem_of_filter in Hr as [_ Hr].
  destruct (getIdRelations_spec kb names r Hr) as [_ Hb]. by rewrite Hb in Hv.
Qed.

Lemma id_index_spec (h : heap) (ents : list nat) x f v :
  x ∈ index_get (make_index_for_kb1 h ents (_getIdRelations kb names)) f v
  <-> x ∈ ents
      /\ f ∈ set_iter (remove_dups (kb1_field <$>
                         filter (fun r => type r = UNIQUE) (_getIdRelations kb names)))
      /\ v ∈ get_field (h x) f.
Proof.
  unfold make_index_for_kb1. rewrite elem_of_make_index.
  unfold fields_to_index. rewrite id_filter_other, id_filter_unique, id_blackdict.
  rewrite set_iter_perm. split.
  - intros (? & ? & ? & _). done.
  - intros (? & ? & ?). by split_and!.
Qed.

End id_index_facts.

(** *** The subscripts of [_make_index] *)

Lemma make_index_checked_Return (h : heap) (ents : list nat) (n : nat)
    (relations : list Relation) (kb_field : Relation -> nat) (index : Index) :
  _make_index_checked h ents n relations kb_field = Return index ->
  index = _make_index h ents relations kb_field.
Proof. unfold _make_index_checked. case_match; by intros [= <-]. Qed.

Lemma index_in_range_true (h : heap) (ents : list nat) (n : nat) (fs : list nat) :
  index_in_range h ents n fs = true
  <-> (forall f, f ∈ fs -> f <= n)
      /\ forall x f, x ∈ ents -> f ∈ fs -> f < length (data (h x)).
Proof.
  unfold index_in_range. rewrite andb_true_iff, !forallb_forall.
  split.
  - intros [H1 H2]. split.
    + intros f Hf%list_elem_of_In. by apply Nat.leb_le, H1.
    + intros x f Hx%list_elem_of_In Hf%list_elem_of_In.
      specialize (H2 x Hx). rewrite forallb_forall in H2. by apply Nat.ltb_lt, H2.
  - intros [H1 H2]. split.
    + intros f Hf%list_elem_of_In. by apply Nat.leb_le, H1.
    + intros x Hx%list_elem_of_In. apply forallb_forall.
      intros f Hf%list_elem_of_In. by apply Nat.ltb_lt, H2.
Qed.

Lemma make_index_checked_in_range (h : heap) (ents : list nat) (n : nat)
    (relations : list Relation) (kb_field : Relation -> nat) :
  (forall r, r ∈ relations -> kb_field r < n) ->
  (forall x, x ∈ ents -> length (data (h x)) = n) ->
  _make_index_checked h ents n relations kb_field
  = Return (_make_index h ents relations kb_field).
Proof.
  intros Hrel Hcols. unfold _make_index_checked.
  rewrite (proj2 (index_in_range_true _ _ _ _)); [done|].
  assert (forall f, f ∈ fields_to_index relations kb_field -> f < n) as Hf.
  { intros f. unfold fields_to_index.
    rewrite elem_of_remove_dups, list_elem_of_fmap.
    intros (r & -> & [_ Hr]%list_elem_of_filter). by apply Hrel. }
  split.
  - intros f ?%Hf. lia.
  - intros x f Hx ?%Hf. by rewrite Hcols.
Qed.

Lemma getIdRelations_in_range `{R : Runtime} (kb : KB) (names : list string) r :
  (forall key f, fields kb !! key = Some f -> order_num f < field_count kb) ->
  r ∈ _getIdRelations kb names -> kb1_field r < field_count kb.
Proof.
  intros Hschema. unfold _getIdRelations. intros (nm & _ & Hr)%list_elem_of_omap.
  destruct (fields kb !! _) as [f|] eqn:E; [|done]. injection Hr as <-. simpl.
  by eapply Hschema.
Qed.

(** *** A whole pass *)

Section pass_facts.
Context `{R : Runtime} `{!RuntimeSpec R}.

Lemma deduplicate_spec (kb : KB) (h : heap) (fresh : nat) (ents : list nat)
    (names : list string) (b0 : gset idpair) :
  NoDup ents ->
  (forall x, x ∈ ents ->
     used (h x) = false /\ matched (h x) = None /\ weight (h x) = 0%Z) ->
  (forall x, x ∈ ents -> x < fresh) ->
  (columns_ok kb h ents ->
   exists N d,
     (forall fuel, N <= fuel ->
        deduplicate fuel kb h fresh ents names b0 = Some (Return d))
     /\ columns_ok kb (objs d) (new_kb_entities d))
  /\ forall fuel d,
       deduplicate fuel kb h fresh ents names b0 = Some (Return d) ->
       dedup_inv h fresh
         (make_index_for_kb1 h ents (_getIdRelations kb names))
         (set_iter (remove_dups (kb1_field <$>
            filter (fun r => type r = UNIQUE) (_getIdRelations kb names))))
         ents b0 d ents.
Proof.
  intros Hnd Hinit Hbound. unfold deduplicate, _deduplicate.
  set (index := make_index_for_kb1 h ents (_getIdRelations kb names)).
  set (id_fields := set_iter (remove_dups (kb1_field <$>
         filter (fun r => type r = UNIQUE) (_getIdRelations kb names)))).
  assert (forall x f v, x ∈ index_get index f v ->
            x ∈ ents /\ f ∈ id_fields /\ v ∈ get_field (h x) f) as Hsound.
  { intros x f v Hx. by apply id_index_spec in Hx. }
  assert (forall x f v, x ∈ ents -> f ∈ id_fields -> v ∈ get_field (h x) f ->
            x ∈ index_get index f v) as Hcomplete.
  { intros x f v ? ? ?. by apply id_index_spec. }
  split.
  - intros Hcols.
    rewrite make_index_checked_in_range; [| |apply Hcols].
    2: { intros r Hr. eapply getIdRelations_in_range; [apply Hcols|exact Hr]. }
    destruct (dedup_loop_returns kb h fresh index id_fields ents b0 Hnd Hinit Hbound
                Hsound Hcomplete Hcols) as (N & d & Hrun & Hd).
    by exists N, d.
  - intros fuel d Hrun.
    destruct (_make_index_checked h ents (field_count kb) (_getIdRelations kb names)
                kb1_field) as [index'| |] eqn:E; [|done..].
    apply make_index_checked_Return in E as ->.
    by eapply (dedup_loop_inv kb h fresh index id_fields ents b0).
Qed.

End pass_facts.

(** C2. After a deduplication pass over a KB as loaded (distinct records,
    none used or matched), no two of the records it leaves hold the same
    value in the same identifier field unless that identifier is in the
    blacklist the pass returns.  And the pass does end without an exception
    when the KB has the columns of its schema: every ordinal of the schema
    below [field_count], every record of [field_count] columns. *)
Theorem dedup_no_shared_identifier `{R : Runtime} `{!RuntimeSpec R}
    (kb : KB) (h : heap) (fresh : nat) (kb_entities : list nat)
    (id_fields : list string) (blacklist : gset idpair) :
  NoDup kb_entities ->
  (forall x, x ∈ kb_entities ->
     used (h x) = false /\ matched (h x) = None /\ weight (h x) = 0%Z) ->
  (forall x, x ∈ kb_entities -> x < fresh) ->
  (columns_ok kb h kb_entities ->
   exists N d, forall fuel, N <= fuel ->
     deduplicate fuel kb h fresh kb_entities id_fields blacklist = Some (Return d))
  /\ forall fuel d,
       deduplicate fuel kb h fresh kb_entities id_fields blacklist
       = Some (Return d) ->
       forall i j r r' f v,
         i <> j ->
         new_kb_entities d !! i = Some r ->
         new_kb_entities d !! j = Some r' ->
         f ∈ kb1_field <$> _getIdRelations kb id_fields ->
         v ∈ get_field (objs d r) f ->
         v ∈ get_field (objs d r') f ->
         (f, v) ∈ blacklist_of_uniques d.
Proof.
  intros Hnd Hinit Hbound.
  destruct (deduplicate_spec kb h fresh kb_entities id_fields blacklist
              Hnd Hinit Hbound) as [Htotal Hinv].
  split.
  { intros Hcols. destruct (Htotal Hcols) as (N & d & Hrun & _). by exists N, d. }
  intros fuel d Hrun i j r r' f v Hij Hi Hj Hf Hv Hv'.
  specialize (Hinv fuel d Hrun).
  assert (f ∈ set_iter (remove_dups (kb1_field <$>
            filter (fun r => type r = UNIQUE) (_getIdRelations kb id_fields))))
    as Hf'.
  { by rewrite set_iter_perm, elem_of_remove_dups, id_filter_unique. }
  destruct (decide (i < j)) as [Hlt|Hge].
  - by apply (di_distinct _ _ _ _ _ _ _ _ Hinv i j r r' (f, v)).
  - apply (di_distinct _ _ _ _ _ _ _ _ Hinv j i r' r (f, v)); [lia|done..].
Qed.

Lemma dedup_no_shared_identifier_witness :
  (exists N d, forall fuel, N <= fuel ->
     deduplicate (R := insertion_runtime) fuel DedupExample.kb DedupExample.kb_objs
       2 DedupExample.kb_entities DedupExample.id_names ∅ = Some (Return d))
  /\ forall fuel d,
       deduplicate (R := insertion_runtime) fuel DedupExample.kb
         DedupExample.kb_objs 2 DedupExample.kb_entities DedupExample.id_names ∅
       = Some (Return d) ->
       forall i j r r' f v,
         i <> j ->
         new_kb_entities d !! i = Some r ->
         new_kb_entities d !! j = Some r' ->
         f ∈ kb1_field <$> _getIdRelations DedupExample.kb DedupExample.id_names ->
         v ∈ get_field (objs d r) f ->
         v ∈ get_field (objs d r') f ->
         (f, v) ∈ blacklist_of_uniques d.
Proof.
  destruct (dedup_no_shared_identifier (R := insertion_runtime)
              DedupExample.kb DedupExample.kb_objs 2 DedupExample.kb_entities
              DedupExample.id_names ∅) as [Hreturns Hinv].
  - apply (bool_decide_unpack _). vm_compute. exact I.
  - intros x Hx. unfold DedupExample.kb_entities in Hx.
    apply elem_of_cons in Hx as [->|Hx]; [vm_compute; auto|].
    apply list_elem_of_singleton in Hx as ->. vm_compute. auto.
  - intros x Hx. unfold DedupExample.kb_entities in Hx.
    apply elem_of_cons in Hx as [->|Hx]; [lia|].
    apply list_elem_of_singleton in Hx as ->. lia.
  - split; [|exact Hinv]. apply Hreturns. split.
    + intros key f Hf. unfold DedupExample.kb in Hf. cbn [fields field_count] in *.
      apply lookup_insert_Some in Hf as [[_ <-]|[_ Hf]]; [simpl; lia|].
      apply lookup_singleton_Some in Hf as [_ <-]. simpl. lia.
    + intros x Hx. unfold DedupExample.kb_entities in Hx.
      apply elem_of_cons in Hx as [->|Hx]; [reflexivity|].
      apply list_elem_of_singleton in Hx as ->. reflexivity.
Defined.


(** *** The blacklist only grows *)

Section black_facts.
Context `{R : Runtime}.

Lemma collect_id_black index cur_ids st p st' :
  collect_id index cur_ids st p = Return st' -> p_black st ⊆ p_black st'.
Proof.
  unfold collect_id. repeat case_decide.
  - by intros [= <-].
  - by intros [= <-].
  - destruct (remove_conflict cur_ids (p_dest st)). intros [= <-]. simpl.
    apply union_subseteq_l.
  - destruct (index p.1 p.2); [|done]. by intros [= <-].
Qed.

Lemma collect_ids_black index cur_ids todo : forall st st',
  collect_ids index cur_ids st todo = Return st' -> p_black st ⊆ p_black st'.
Proof.
  induction todo as [|p todo IH]; intros st st'; simpl.
  - by intros [= <-].
  - destruct (collect_id index cur_ids st p) as [st1| |] eqn:E; [|done..].
    simpl. intros H. etrans; [by eapply collect_id_black|by eapply IH].
Qed.

Lemma collect_entity_black h index id_fields d b fifo x from_id st' :
  collect_entity h index id_fields d b fifo x from_id = Return st' ->
  b ⊆ black st'.
Proof.
  unfold collect_entity. destruct (from_blacklisted from_id b).
  - by intros [= <-].
  - destruct (collect_ids _ _ _ _) as [st1| |] eqn:E; [|done..].
    simpl. intros [= <-]. simpl. by apply collect_ids_black in E.
Qed.

Lemma collect_loop_black h index id_fields fuel : forall st c,
  collect_loop fuel h index id_fields st = Some (Return c) ->
  black st ⊆ black c.
Proof.
  induction fuel as [|fuel IH]; intros st c; simpl.
  - destruct (fifo_entity st) as [|[x fr] fifo]; [|done]. by intros [= <-].
  - destruct (fifo_entity st) as [|[x fr] fifo]; [by intros [= <-]|].
    destruct (collect_entity _ _ _ _ _ _ _ _) as [st1| |] eqn:E; [|done..].
    intros H. etrans; [by eapply collect_entity_black|by eapply IH].
Qed.

Lemma dedup_entity_black fuel kb index id_fields st s st' :
  dedup_entity fuel kb index id_fields st s = Some (Return st') ->
  blacklist_of_uniques st ⊆ blacklist_of_uniques st'.
Proof.
  unfold dedup_entity. destruct (used (objs st s)); [by intros [= <-]|].
  unfold _collectUniqueIds.
  destruct (collect_loop _ _ _ _ _) as [[c| |]|] eqn:E; [|done..].
  apply collect_loop_black in E. simpl in E.
  destruct (gather_matches _ _ _) as [M| |]; [|done..]. simpl.
  destruct (1 <? length (set_iter M)); [|by intros [= <-]].
  intros [= ->%fuse_checked_Return].
  unfold fuse. by destruct (sort_desc _ _).
Qed.

Lemma dedup_loop_black fuel kb index id_fields todo : forall st st',
  dedup_loop fuel kb index id_fields st todo = Some (Return st') ->
  blacklist_of_uniques st ⊆ blacklist_of_uniques st'.
Proof.
  induction todo as [|s todo IH]; intros st st'; simpl.
  - by intros [= <-].
  - destruct (dedup_entity fuel kb index id_fields st s) as [[st1| |]|] eqn:E;
      [|done..].
    intros H. etrans; [by eapply dedup_entity_black|by eapply IH].
Qed.

End black_facts.

(** C1 (as the code has it). When the pair [p] of the record being looked
    at is not in the blacklist, its value is not in the dictionary and the
    dictionary has another value in the field of [p], [_collectUniqueIds]
    removes from the dictionary the pairs of the record that are in it, puts
    exactly those into the blacklist and drops what it had staged in this
    turn.  The blacklisted pairs are thus the identifiers through which the
    record hangs on the cluster: [p] itself is neither collected nor
    blacklisted, and a value of the dictionary that the record does not have
    stays where it is, in the dictionary and out of the blacklist.  From then
    on the blacklist only grows, to the end of the collection and of the
    pass. *)
Theorem collect_conflict_quarantine `{R : Runtime} (index_for_kb : Index)
    (cur_ids : list idpair) (st : pstate) (p : idpair) :
  p ∉ p_black st ->
  p ∉ p_dest st ->
  field_taken (p_dest st) p.1 ->
  exists st',
    collect_id index_for_kb cur_ids st p = Return st'
    /\ p_dest st' = p_dest st ∖ list_to_set cur_ids
    /\ p_black st' = p_black st ∪ (p_dest st ∩ list_to_set cur_ids)
    /\ candidates_ids st' = [] /\ candidates_entities st' = []
    /\ (p ∉ p_dest st') /\ (p ∉ p_black st')
    /\ (forall q, q ∈ p_dest st -> q ∉ cur_ids ->
          q ∈ p_dest st' /\ (q ∈ p_black st' <-> q ∈ p_black st))
    /\ (forall fuel h id_fields d fifo c,
          collect_loop fuel h index_for_kb id_fields
            (mkCstate d (p_black st') fifo) = Some (Return c) ->
          p_black st' ⊆ black c)
    /\ (forall fuel kb id_fields d todo d',
          blacklist_of_uniques d = p_black st' ->
          dedup_loop fuel kb index_for_kb id_fields d todo = Some (Return d') ->
          p_black st' ⊆ blacklist_of_uniques d').
Proof.
  intros Hb Hd Ht. unfold collect_id.
  rewrite decide_False by done. rewrite decide_False by done.
  rewrite decide_True by done.
  pose proof (remove_conflict_spec cur_ids (p_dest st)) as [E1 E2].
  destruct (remove_conflict cur_ids (p_dest st)) as [d' nb]. simpl in E1, E2.
  eexists. split; [done|]. simpl. rewrite E1, E2.
  split_and!; try done.
  - clear -Hd. set_solver.
  - clear -Hb Hd. set_solver.
  - intros q Hq Hqc. split; [clear -Hq Hqc; set_solver|].
    clear -Hqc. set_solver.
  - intros fuel h id_fields d fifo c Hrun. by apply collect_loop_black in Hrun.
  - intros fuel kb id_fields d todo d'' Hd' Hrun.
    apply dedup_loop_black in Hrun. by rewrite Hd' in Hrun.
Qed.

Lemma collect_conflict_quarantine_witness :
  exists st',
    collect_id (R := insertion_runtime) DedupExample.index DedupExample.cur_ids
      DedupExample.at_conflict (1, "y") = Return st'
    /\ p_dest st' = p_dest DedupExample.at_conflict ∖ list_to_set DedupExample.cur_ids
    /\ p_black st' = p_black DedupExample.at_conflict
                     ∪ (p_dest DedupExample.at_conflict
                        ∩ list_to_set DedupExample.cur_ids)
    /\ candidates_ids st' = [] /\ candidates_entities st' = []
    /\ ((1, "y") ∉ p_dest st') /\ ((1, "y") ∉ p_black st').
Proof.
  destruct (collect_conflict_quarantine (R := insertion_runtime) DedupExample.index
              DedupExample.cur_ids DedupExample.at_conflict (1, "y"))
    as (st' & H1 & H2 & H3 & H4 & H5 & H6 & H7 & _).
  - apply not_elem_of_empty.
  - apply (bool_decide_unpack _). vm_compute. exact I.
  - exists (1, "x"). split; [|reflexivity].
    apply (bool_decide_unpack _). vm_compute. exact I.
  - exists st'. repeat split; assumption.
Defined.

(** C1 (as the spec has it) fails in [DedupExample]: the second record
    arrives through the identifier [a] and has [y] where the cluster has
    [x].  What is blacklisted is [a]; neither the value in conflict, [y], nor
    the one that was there, [x], is in the blacklist, at that turn or at the
    end of the pass, and [x] stays in the cluster. *)
Lemma conflict_values_not_quarantined_test :
  exists st' d,
    collect_id (R := insertion_runtime) DedupExample.index DedupExample.cur_ids
      DedupExample.at_conflict (1, "y") = Return st'
    /\ elements (p_black st') = [(0, "a")]
    /\ elements (p_dest st') = [(1, "x")]
    /\ deduplicate (R := insertion_runtime) 10 DedupExample.kb DedupExample.kb_objs 2
         DedupExample.kb_entities DedupExample.id_names ∅ = Some (Return d)
    /\ elements (blacklist_of_uniques d) = [(0, "a")]
    /\ new_kb_entities d = [0; 1]
    /\ ((1, "x") ∉ blacklist_of_uniques d) /\ ((1, "y") ∉ blacklist_of_uniques d).
Proof.
  eexists _, _. split; [vm_compute; reflexivity|].
  split; [vm_compute; reflexivity|].
  split; [vm_compute; reflexivity|].
  split; [vm_compute; reflexivity|].
  split; [vm_compute; reflexivity|].
  split; [vm_compute; reflexivity|].
  split; apply (bool_decide_unpack _); vm_compute; exact I.
Qed.


(** *** From the loaded KBs to the end of [match] *)

Section pipeline_facts.
Context `{R : Runtime} `{!RuntimeSpec R}.

Lemma match_inv_start (st0 : mstate) (kb1_entities : list nat) :
  (forall e, e ∈ kb1_entities ->
     matched (h1 st0 e) = None /\ used (h1 st0 e) = false) ->
  match_inv st0 st0 [] kb1_entities.
Proof.
  intros Hnew. unfold match_inv. split_and!; try done.
  - intros e He. by apply elem_of_nil in He.
  - intros e m He. by apply elem_of_nil in He.
  - intros e e' m He. by apply elem_of_nil in He.
  - intros m Hm Hm'. congruence.
Qed.

Lemma feed_blacklist_in_range (kb_field : Relation -> nat) (b : gset idpair)
    (kb1 kb2 : KB) (relations : list Relation) :
  relations_in_range kb1 kb2 relations ->
  relations_in_range kb1 kb2 (feed_blacklist kb_field b relations).
Proof.
  intros Hok r (r0 & -> & Hr0)%list_elem_of_fmap.
  case_decide; simpl; by apply Hok.
Qed.

(** A deduplication pass, when asked for, leaves a KB that is as good as
    loaded, and it ends when the KB has the columns of its schema. *)
Lemma dedup_step_spec (enabled : bool) (kb : KB) (l : Loaded)
    (names : list string) (kb_field : Relation -> nat) (relations : list Relation) :
  freshly_loaded l ->
  (columns_ok kb (l_objs l) (l_entities l) ->
   exists N l' relations',
     (forall fuel, N <= fuel ->
        dedup_step fuel enabled kb l names kb_field relations
        = Some (Return (l', relations')))
     /\ columns_ok kb (l_objs l') (l_entities l')
     /\ forall kb1 kb2, relations_in_range kb1 kb2 relations ->
          relations_in_range kb1 kb2 relations')
  /\ forall fuel l' relations',
       dedup_step fuel enabled kb l names kb_field relations
       = Some (Return (l', relations')) ->
       freshly_loaded l'.
Proof.
  intros (Hnd & Hnew & Hbound). unfold dedup_step.
  destruct enabled.
  - destruct (deduplicate_spec kb (l_objs l) (l_fresh l) (l_entities l) names ∅
                Hnd Hnew Hbound) as [Htotal Hinv].
    split.
    + intros Hcols. destruct (Htotal Hcols) as (N & d & Hrun & Hd).
      exists N. eexists _, _. split_and!.
      * intros fuel Hfuel. by rewrite (Hrun fuel Hfuel).
      * done.
      * intros kb1 kb2. apply feed_blacklist_in_range.
    + intros fuel l' relations' Hstep.
      destruct (deduplicate fuel kb (l_objs l) (l_fresh l) (l_entities l) names ∅)
        as [[d'| |]|] eqn:E; try done.
      injection Hstep as <- _.
      specialize (Hinv fuel d' E). unfold freshly_loaded. simpl.
      split_and!.
      * eapply di_out_nodup, Hinv.
      * eapply di_out_new, Hinv.
      * intros x Hx. pose proof (di_fresh _ _ _ _ _ _ _ _ Hinv) as Hf.
        destruct (di_out _ _ _ _ _ _ _ _ Hinv x Hx) as [[_ Hin]|[_ ?]]; [|lia].
        specialize (Hbound x Hin). lia.
  - split.
    + intros Hcols. exists 0, l, relations. done.
    + by intros fuel l' relations' [= <- _].
Qed.

Lemma main_match_spec (args : Args) (kb1 kb2 : KB) (l1 l2 : Loaded)
    (relations : list Relation) :
  freshly_loaded l1 -> freshly_loaded l2 ->
  (columns_ok kb1 (l_objs l1) (l_entities l1) ->
   columns_ok kb2 (l_objs l2) (l_entities l2) ->
   relations_in_range kb1 kb2 relations ->
   exists N m, forall fuel, N <= fuel ->
     main_match fuel args kb1 kb2 l1 l2 relations = Some (Return m))
  /\ forall fuel m,
       main_match fuel args kb1 kb2 l1 l2 relations = Some (Return m) ->
       exists st0,
         NoDup (m_kb1_entities m)
         /\ (forall x, x ∈ m_kb2_entities m -> used (h2 st0 x) = false)
         /\ match_inv st0 (m_state m) (m_kb1_entities m) [].
Proof.
  intros Hl1 Hl2. unfold main_match. split.
  - intros Hc1 Hc2 Hrel.
    destruct (dedup_step_spec (deduplicate_kb1 args) kb1 l1 (id_fields args)
                kb1_field relations Hl1) as [Ht1 _].
    destruct (Ht1 Hc1) as (N1 & l1' & rel1 & Hrun1 & Hc1' & Hrel1).
    destruct (dedup_step_spec (deduplicate_kb2 args) kb2 l2 (id_fields args)
                kb2_field rel1 Hl2) as [Ht2 _].
    destruct (Ht2 Hc2) as (N2 & l2' & rel2 & Hrun2 & Hc2' & Hrel2).
    pose proof (Hrel2 kb1 kb2 (Hrel1 kb1 kb2 Hrel)) as Hrel'.
    exists (N1 `max` N2). eexists. intros fuel Hfuel.
    rewrite (Hrun1 fuel) by lia. rewrite (Hrun2 fuel) by lia.
    rewrite make_index_checked_in_range;
      [|intros r Hr; by destruct (Hrel' r Hr)|apply Hc1'].
    rewrite make_index_checked_in_range;
      [|intros r Hr; by destruct (Hrel' r Hr)|apply Hc2'].
    cbn [obind].
    rewrite (match_checked_in_range _ _ _ _ _ (l_entities l2')); [done| | |].
    + intros x f v Hx. by apply elem_of_make_index in Hx as [? _].
    + intros r e Hr He. cbn [h1]. destruct Hc1' as [_ ->]; [|done].
      by destruct (Hrel' r Hr).
    + intros r x Hr Hx. cbn [h2]. destruct Hc2' as [_ ->]; [|done].
      by destruct (Hrel' r Hr).
  - intros fuel m.
    destruct (dedup_step fuel (deduplicate_kb1 args) kb1 l1 (id_fields args)
                kb1_field relations) as [[[l1' rel1]| |]|] eqn:E1; try done.
    destruct (dedup_step fuel (deduplicate_kb2 args) kb2 l2 (id_fields args)
                kb2_field rel1) as [[[l2' rel2]| |]|] eqn:E2; try done.
    destruct (_make_index_checked (l_objs l1') _ _ _ _) as [i1| |] eqn:I1; [|done..].
    destruct (_make_index_checked (l_objs l2') _ _ _ _) as [i2| |] eqn:I2; [|done..].
    cbn [obind].
    destruct (match_checked _ _ _ _ _) as [st'| |] eqn:M; [|done..].
    apply match_checked_Return in M as ->.
    intros [= <-]. simpl.
    apply (dedup_step_spec _ _ _ _ _ _ Hl1) in E1 as (Hnd1 & Hnew1 & _).
    apply (dedup_step_spec _ _ _ _ _ _ Hl2) in E2 as (_ & Hnew2 & _).
    eexists. split; [done|]. split; last first.
    + unfold match_. apply (match_inv_run _ _ _ _ _ _ _ _ []); [done|].
      apply match_inv_start. simpl. intros e He.
      by destruct (Hnew1 e He) as (? & ? & _).
    + simpl. intros x Hx. by destruct (Hnew2 x Hx) as (? & _).
Qed.

End pipeline_facts.

(** C4 (as the code has it). When [main] gets from two loaded KBs to the
    end of [match], no record of KB2 is the [matched] of two records of
    KB1; a record of KB1 is used exactly when it has a [matched]; and a
    record of KB2 is used exactly when it is the [matched] of a record of
    KB1.  This holds of the records the passes have left, those made by a
    fusion among them: a fusion marks the records it consumes, which leave
    the KB, and the record it makes is as unused as a loaded one.  And
    [main] does get there without an exception, with fuel enough for the
    deduplication passes asked for, when the two KBs have the columns of
    their schemas and the relations are between columns they have. *)
Theorem pipeline_used_iff_matched `{R : Runtime} `{!RuntimeSpec R}
    (args : Args) (kb1 kb2 : KB) (l1 l2 : Loaded) (relations : list Relation) :
  freshly_loaded l1 -> freshly_loaded l2 ->
  (columns_ok kb1 (l_objs l1) (l_entities l1) ->
   columns_ok kb2 (l_objs l2) (l_entities l2) ->
   relations_in_range kb1 kb2 relations ->
   exists N m, forall fuel, N <= fuel ->
     main_match fuel args kb1 kb2 l1 l2 relations = Some (Return m))
  /\ forall fuel m,
       main_match fuel args kb1 kb2 l1 l2 relations = Some (Return m) ->
       (forall e e' x,
          e ∈ m_kb1_entities m -> e' ∈ m_kb1_entities m ->
          matched (h1 (m_state m) e) = Some x ->
          matched (h1 (m_state m) e') = Some x -> e = e')
       /\ (forall e, e ∈ m_kb1_entities m ->
             used (h1 (m_state m) e) = true <-> is_Some (matched (h1 (m_state m) e)))
       /\ (forall x, x ∈ m_kb2_entities m ->
             used (h2 (m_state m) x) = true
             <-> exists e, e ∈ m_kb1_entities m /\ matched (h1 (m_state m) e) = Some x).
Proof.
  intros Hl1 Hl2.
  destruct (main_match_spec args kb1 kb2 l1 l2 relations Hl1 Hl2) as [Htotal Hinv].
  split; [done|]. intros fuel m Hrun.
  destruct (Hinv fuel m Hrun) as (st0 & Hnd & Hnew2 & I).
  destruct I as (_ & I2 & I3 & I4 & I5 & _).
  split_and!.
  - intros e e' x He He' Hm Hm'. by apply (I4 e e' x).
  - done.
  - intros x Hx. split.
    + intros Hu. by apply I5; [apply Hnew2|].
    + intros (e & He & Hm). by destruct (I3 e x He Hm).
Qed.

Lemma pipeline_used_iff_matched_witness :
  (exists N m, forall fuel, N <= fuel ->
     main_match (R := insertion_runtime) fuel PipelineExample.args
       PipelineExample.kb1 PipelineExample.kb2 PipelineExample.l1
       PipelineExample.l2 PipelineExample.relations
     = Some (Return m))
  /\ (exists m,
        main_match (R := insertion_runtime) 10 PipelineExample.args
          PipelineExample.kb1 PipelineExample.kb2 PipelineExample.l1
          PipelineExample.l2 PipelineExample.relations
        = Some (Return m)
        /\ m_kb1_entities m = [3; 2]
        /\ matched_pairs (h1 (m_state m)) (m_kb1_entities m) = [(3, 0)]
        /\ (forall e, e ∈ m_kb1_entities m ->
              used (h1 (m_state m) e) = true
              <-> is_Some (matched (h1 (m_state m) e)))
        /\ (forall x, x ∈ m_kb2_entities m ->
              used (h2 (m_state m) x) = true
              <-> exists e, e ∈ m_kb1_entities m
                    /\ matched (h1 (m_state m) e) = Some x)).
Proof.
  assert (forall (P : nat -> Prop), P 0 -> P 1 -> P 2 ->
            forall x, x ∈ [0; 1; 2] -> P x) as Hthree.
  { intros P P0 P1 P2 x Hx.
    apply elem_of_cons in Hx as [->|Hx]; [done|].
    apply elem_of_cons in Hx as [->|Hx]; [done|].
    by apply list_elem_of_singleton in Hx as ->. }
  assert (forall (nm : string) key f,
            ({[ nm +:+ ".ID" := mkField 0 false;
                nm +:+ ".NAME" := mkField 1 true ]} : gmap string Field) !! key
            = Some f -> order_num f < 2) as Hschema.
  { intros nm key f Hf.
    apply lookup_insert_Some in Hf as [[_ <-]|[_ Hf]]; [simpl; lia|].
    apply lookup_singleton_Some in Hf as [_ <-]. simpl. lia. }
  destruct (pipeline_used_iff_matched (R := insertion_runtime)
              PipelineExample.args PipelineExample.kb1 PipelineExample.kb2
              PipelineExample.l1 PipelineExample.l2 PipelineExample.relations)
    as [Hreturns Hinv].
  - split_and!.
    + apply (bool_decide_unpack _). vm_compute. exact I.
    + apply Hthree; vm_compute; auto.
    + apply Hthree; simpl; lia.
  - split_and!.
    + apply (bool_decide_unpack _). vm_compute. exact I.
    + apply Hthree; vm_compute; auto.
    + apply Hthree; simpl; lia.
  - split.
    + apply Hreturns.
      * split; [apply (Hschema "a")|]. apply Hthree; reflexivity.
      * split; [apply (Hschema "b")|]. apply Hthree; reflexivity.
      * intros r Hr. unfold PipelineExample.relations in Hr.
        apply elem_of_cons in Hr as [->|Hr]; [simpl; lia|].
        apply list_elem_of_singleton in Hr as ->. simpl. lia.
    + assert (exists m,
                main_match (R := insertion_runtime) 10 PipelineExample.args
                  PipelineExample.kb1 PipelineExample.kb2 PipelineExample.l1
                  PipelineExample.l2 PipelineExample.relations
                = Some (Return m)
                /\ m_kb1_entities m = [3; 2]
                /\ matched_pairs (h1 (m_state m)) (m_kb1_entities m) = [(3, 0)])
        as (m & Hrun & Hents & Hpairs)
        by (eexists; split; [vm_compute; reflexivity|];
            split; vm_compute; reflexivity).
      destruct (Hinv 10 m Hrun) as (_ & Hused1 & Hused2).
      exists m. split_and!; assumption.
Defined.

(** C4 (as the spec has it) fails in [FuseExample]: with
    [--deduplicate_kb1] the two records of the KB are fused, and the record
    made of them is the only one [match] and the renderer see.  It was
    produced by fusing a cluster and it is not used; used are the two
    records it was made of, which are no longer in the KB. *)
Lemma fused_record_not_used_test :
  exists m,
    main_match (R := insertion_runtime) 10 FuseExample.args FuseExample.kb
      FuseExample.empty_kb FuseExample.loaded FuseExample.nothing_loaded []
    = Some (Return m)
    /\ m_kb1_entities m = [2]
    /\ data (h1 (m_state m) 2) = [["a"]; ["n1"; "n2"]]
    /\ used (h1 (m_state m) 2) = false
    /\ matched (h1 (m_state m) 2) = None
    /\ used (h1 (m_state m) 0) = true
    /\ used (h1 (m_state m) 1) = true.
Proof.
  eexists. split; [vm_compute; reflexivity|].
  repeat split; vm_compute; reflexivity.
Qed.


(** *** The renderer and a used record without [matched] *)

Section output_facts.
Context `{R : Runtime}.

Lemma generate_line_app cell (fpre fs : list (option string)) :
  forall generated_line st,
  generate_line cell (fpre ++ fs) generated_line st
  = match generate_line cell fpre generated_line st with
    | (Return g, st') => generate_line cell fs g st'
    | other => other
    end.
Proof.
  induction fpre as [|f fpre IH]; intros g st; simpl; [done|].
  destruct (cell f st) as [[possible| |] st']; [apply IH|done..].
Qed.

(** Asked for a field of KB2 on a line without [matched], the renderer
    prints the line and raises. *)
Lemma field_values_missing_matched (kb1 kb2 : KB) (h2 : heap)
    (relations : list Relation) (line : Entity) (fieldname : string) (ff : Field)
    (out : list out_line) :
  matched line = None ->
  Str.startswith (name kb1) fieldname = false ->
  fields kb2 !! fieldname = Some ff ->
  field_values kb1 kb2 h2 relations line fieldname out
  = (Raise AttributeError, out ++ [OutEntity line]).
Proof.
  intros Hm Hkb1 Hff. unfold field_values, extend_matched.
  by rewrite Hkb1, Hff, Hm.
Qed.

End output_facts.

(** C9 (as the code has it). When [make_output] comes to a record of KB1
    that is used and has no [matched], and the template for used records
    has, after fields that render, a field of KB2, it prints the record and
    then raises [AttributeError]: the loop is left there, and neither this
    record nor any of those after it gets a line in the output.  No run of
    [main] brings the renderer there: the objects [match] leaves do not
    have such a record among the records of KB1. *)
Theorem make_output_missing_matched `{R : Runtime} `{!RuntimeSpec R}
    (prefix : string) (kb1 kb2 : KB) (kb1_objs kb2_objs : heap)
    (relations : list Relation)
    (output_fields other_output_fields : list (option string))
    (e : nat) (rest : list nat) (st : ostate)
    (fpre frest : list (option string)) (fieldname : string) (ff : Field)
    (cells : list (list string)) (n : nat) (out : list out_line) :
  used (kb1_objs e) = true ->
  matched (kb1_objs e) = None ->
  output_fields = fpre ++ Some fieldname :: frest ->
  generate_line (used_cell prefix kb1 kb2 kb2_objs relations (kb1_objs e)) fpre []
    (counter st, stdout st) = (Return cells, (n, out)) ->
  String.eqb fieldname "ID" = false ->
  Str.startswith (String QUOTE EmptyString) fieldname = false ->
  Str.startswith (name kb1) fieldname = false ->
  fields kb2 !! fieldname = Some ff ->
  make_output_kb1 prefix kb1 kb2 kb1_objs kb2_objs relations output_fields
    other_output_fields (e :: rest) st
  = (Raise AttributeError,
     mkOstate n (output_fd st) (out ++ [OutEntity (kb1_objs e)]))
  /\ forall fuel args l1 l2 relations0 m,
       freshly_loaded l1 -> freshly_loaded l2 ->
       main_match fuel args kb1 kb2 l1 l2 relations0 = Some (Return m) ->
       h1 (m_state m) = kb1_objs ->
       e ∉ m_kb1_entities m.
Proof.
  intros Hused Hm -> Hpre Hid Hquote Hkb1 Hff. split.
  - simpl. rewrite Hused, generate_line_app, Hpre. simpl.
    rewrite Hid, Hquote.
    by rewrite (field_values_missing_matched kb1 kb2 kb2_objs relations (kb1_objs e)
                  fieldname ff out Hm Hkb1 Hff).
  - intros fuel args l1 l2 relations0 m Hl1 Hl2 Hrun Hobjs He.
    destruct (main_match_spec args kb1 kb2 l1 l2 relations0 Hl1 Hl2) as [_ Hinv].
    destruct (Hinv fuel m Hrun) as (st0 & _ & _ & I).
    destruct I as (_ & I2 & _).
    rewrite Hobjs in I2. apply (I2 e He) in Hused as [x Hx]. congruence.
Qed.

Lemma make_output_missing_matched_witness :
  make_output_kb1 (R := insertion_runtime) "p" OutputExample.kb1 OutputExample.kb2
    OutputExample.kb1_objs OutputExample.kb2_objs OutputExample.relations
    OutputExample.output_fields OutputExample.other_output_fields [0; 1]
    OutputExample.start
  = (Raise AttributeError,
     mkOstate 1 [] [OutEntity (mkEntity [["1"]] 0 true None)])
  /\ forall fuel args l1 l2 relations0 m,
       freshly_loaded l1 -> freshly_loaded l2 ->
       main_match (R := insertion_runtime) fuel args OutputExample.kb1
         OutputExample.kb2 l1 l2 relations0 = Some (Return m) ->
       h1 (m_state m) = OutputExample.kb1_objs ->
       0 ∉ m_kb1_entities m.
Proof.
  apply (make_output_missing_matched (R := insertion_runtime) "p"
           OutputExample.kb1 OutputExample.kb2 OutputExample.kb1_objs
           OutputExample.kb2_objs OutputExample.relations
           OutputExample.output_fields OutputExample.other_output_fields
           0 [1] OutputExample.start [Some "ID"] [] "b.ID" (mkField 0 false)
           [["p:0000000000"]] 1 []); reflexivity.
Defined.

(** C9 (as the spec has it) fails in [OutputExample]: the first record of
    KB1 is used and has no [matched], and the template for used records
    asks for a field of KB2.  The renderer prints the record and raises;
    the output file has no line, neither for this record nor for the one
    after it, which is a plain unused record. *)
Lemma missing_matched_aborts_test :
  exists st,
    make_output_kb1 (R := insertion_runtime) "p" OutputExample.kb1 OutputExample.kb2
      OutputExample.kb1_objs OutputExample.kb2_objs OutputExample.relations
      OutputExample.output_fields OutputExample.other_output_fields [0; 1]
      OutputExample.start
    = (Raise AttributeError, st)
    /\ output_fd st = []
    /\ stdout st = [OutEntity (mkEntity [["1"]] 0 true None)]
    /\ used (OutputExample.kb1_objs 1) = false.
Proof.
  eexists. split; [vm_compute; reflexivity|]. repeat split.
Qed.


(** *** The field table *)

Lemma string_app_inv_head (s a b : string) : s +:+ a = s +:+ b -> a = b.
Proof. induction s as [|c s IH]; simpl; [done|]. intros [= ?]. auto. Qed.

Lemma field_key_inj (kb_name a b : string) :
  kb_name +:+ "." +:+ a = kb_name +:+ "." +:+ b -> a = b.
Proof.
  intros H. apply string_app_inv_head in H. by apply (string_app_inv_head ".").
Qed.

Lemma config_lines_table kb_name ls : forall st,
  foldl (config_line kb_name) st ls
  = foldl (fun st e =>
             (<[kb_name +:+ "." +:+ e.1 := mkField st.2 e.2]> st.1, S st.2))
          st (omap declared ls).
Proof.
  induction ls as [|l ls IH]; intros st; simpl; [done|].
  rewrite IH. unfold config_line at 1.
  destruct (declared l) as [[nm mu]|]; done.
Qed.

Lemma table_of_snoc kb_name es e :
  table_of kb_name (es ++ [e])
  = (<[kb_name +:+ "." +:+ e.1 := mkField (table_of kb_name es).2 e.2]>
       (table_of kb_name es).1,
     S (table_of kb_name es).2).
Proof. unfold table_of. by rewrite foldl_app. Qed.

Lemma table_of_count kb_name es : (table_of kb_name es).2 = length es.
Proof.
  induction es as [|e es IH] using rev_ind; [done|].
  rewrite table_of_snoc, length_app. simpl. lia.
Qed.

(** A key of the table is the last declaration of its name. *)
Lemma table_of_lookup kb_name es key f :
  (table_of kb_name es).1 !! key = Some f
  <-> exists nm, key = kb_name +:+ "." +:+ nm
        /\ es !! order_num f = Some (nm, multiple f)
        /\ forall j mu, order_num f < j -> es !! j <> Some (nm, mu).
Proof.
  revert key f. induction es as [|[nm0 mu0] es IH] using rev_ind; intros key f.
  - simpl. rewrite lookup_empty. split; [done|]. by intros (nm & _ & ? & _).
  - rewrite table_of_snoc, table_of_count. simpl.
    destruct (decide (key = kb_name +:+ "." +:+ nm0)) as [->|Hne].
    + rewrite lookup_insert_eq. split.
      * intros [= <-]. simpl. exists nm0. split; [done|]. split.
        -- by rewrite lookup_app_r, Nat.sub_diag by lia.
        -- intros j mu Hj Hlook. apply lookup_lt_Some in Hlook.
           rewrite length_app in Hlook. simpl in Hlook. lia.
      * intros (nm & Hkey & Hlook & Hlast).
        apply field_key_inj in Hkey as <-.
        destruct (decide (order_num f = length es)) as [Hlen|Hlen].
        -- rewrite Hlen, lookup_app_r, Nat.sub_diag in Hlook by lia.
           injection Hlook as ->. destruct f. simpl in *. by subst.
        -- exfalso. apply (Hlast (length es) mu0).
           ++ apply lookup_lt_Some in Hlook. rewrite length_app in Hlook.
              simpl in Hlook. lia.
           ++ by rewrite lookup_app_r, Nat.sub_diag by lia.
    + rewrite lookup_insert_ne by done. rewrite IH. split.
      * intros (nm & -> & Hlook & Hlast). exists nm. split; [done|].
        pose proof (lookup_lt_Some _ _ _ Hlook) as Hlt. split.
        -- by rewrite lookup_app_l.
        -- intros j mu Hj Hj'. apply lookup_app_Some in Hj' as [Hj'|[_ Hj']].
           ++ by apply (Hlast j mu).
           ++ apply list_lookup_singleton_Some in Hj' as [_ [= -> _]]. done.
      * intros (nm & -> & Hlook & Hlast). exists nm. split; [done|].
        apply lookup_app_Some in Hlook as [Hlook|[_ Hlook]].
        -- split; [done|]. intros j mu Hj Hj'. apply (Hlast j mu Hj).
           rewrite lookup_app_l; [done|]. by apply lookup_lt_Some in Hj'.
        -- apply list_lookup_singleton_Some in Hlook as [_ [= -> _]]. done.
Qed.

Lemma table_of_declared kb_name es nm :
  nm ∈ es.*1 -> is_Some ((table_of kb_name es).1 !! (kb_name +:+ "." +:+ nm)).
Proof.
  induction es as [|[nm0 mu0] es IH] using rev_ind; intros Hin.
  - by apply elem_of_nil in Hin.
  - rewrite table_of_snoc. simpl. rewrite lookup_insert_is_Some'.
    rewrite fmap_app, elem_of_app in Hin. destruct Hin as [Hin|Hin].
    + right. by apply IH.
    + left. simpl in Hin. apply list_elem_of_singleton in Hin. by subst.
Qed.

Lemma table_of_size kb_name es :
  size (table_of kb_name es).1 <= length es
  /\ (NoDup es.*1 -> size (table_of kb_name es).1 = length es)
  /\ (~ NoDup es.*1 -> size (table_of kb_name es).1 < length es).
Proof.
  induction es as [|[nm0 mu0] es (IH1 & IH2 & IH3)] using rev_ind.
  - simpl. rewrite map_size_empty. split_and!; [done..|].
    intros H. destruct H. constructor.
  - rewrite table_of_snoc, length_app, fmap_app. simpl.
    rewrite map_size_insert.
    destruct ((table_of kb_name es).1 !! (kb_name +:+ "." +:+ nm0)) as [f|] eqn:E;
      simpl.
    + apply table_of_lookup in E as (nm & Hkey & Hlook & _).
      apply field_key_inj in Hkey as <-.
      assert (nm0 ∈ es.*1) as Hin.
      { apply list_elem_of_fmap. exists (nm0, multiple f). split; [done|].
        by eapply list_elem_of_lookup_2. }
      split_and!; [lia| |lia].
      intros Hnd. apply NoDup_app in Hnd as (_ & Hnd & _).
      exfalso. apply (Hnd nm0 Hin). by apply list_elem_of_singleton.
    + assert (nm0 ∉ es.*1) as Hnin.
      { intros Hin. apply (table_of_declared kb_name) in Hin.
        rewrite E in Hin. by destruct Hin. }
      split_and!; [lia| |].
      * intros Hnd. apply NoDup_app in Hnd as (Hnd & _ & _).
        rewrite IH2 by done. lia.
      * intros Hnd. assert (~ NoDup es.*1) as Hnd'.
        { intros Hnd'. apply Hnd. apply NoDup_app. split_and!; [done| |].
          - intros x Hx Hx'. apply list_elem_of_singleton in Hx'. by subst.
          - apply NoDup_singleton. }
        specialize (IH3 Hnd'). lia.
Qed.

Lemma load_config_table KB_file_name fields_file_name text :
  load_config KB_file_name fields_file_name (Some text)
  = Return (mkKB KB_file_name (table_of KB_file_name (declarations text)).1
              (size (table_of KB_file_name (declarations text)).1)).
Proof. unfold load_config. by rewrite config_lines_table. Qed.

(** X1. [load_config] on a [.fields] file it can open always returns: the
    KB gets one field for each name declared, under the KB's name and a
    dot; a name declared more than once keeps its last declaration, with
    the ordinal and the flag of that line; and [field_count], the number of
    fields, is at most the number of declarations. *)
Theorem load_config_last_declaration (KB_file_name fields_file_name text : string) :
  exists kb,
    load_config KB_file_name fields_file_name (Some text) = Return kb
    /\ name kb = KB_file_name
    /\ field_count kb = size (fields kb)
    /\ field_count kb <= length (declarations text)
    /\ forall key f,
         fields kb !! key = Some f
         <-> exists nm, key = KB_file_name +:+ "." +:+ nm
               /\ declarations text !! order_num f = Some (nm, multiple f)
               /\ forall j mu, order_num f < j ->
                    declarations text !! j <> Some (nm, mu).
Proof.
  eexists. split; [apply load_config_table|]. simpl.
  split_and!; [done..| |].
  - apply table_of_size.
  - intros key f. apply table_of_lookup.
Qed.

(** X2. When the names declared in the [.fields] file are pairwise
    distinct, [field_count] is the number of declarations and the field of
    the [i]-th declaration has ordinal [i]: every ordinal of the KB is
    below [field_count], the number of columns [Entity.__init__] asks
    for. *)
Theorem load_config_distinct_names (KB_file_name fields_file_name text : string) :
  NoDup (declarations text).*1 ->
  exists kb,
    load_config KB_file_name fields_file_name (Some text) = Return kb
    /\ field_count kb = length (declarations text)
    /\ (forall i nm mu,
          declarations text !! i = Some (nm, mu) ->
          fields kb !! (KB_file_name +:+ "." +:+ nm) = Some (mkField i mu))
    /\ forall key f, fields kb !! key = Some f -> order_num f < field_count kb.
Proof.
  intros Hnd. eexists. split; [apply load_config_table|]. simpl.
  destruct (table_of_size KB_file_name (declarations text)) as (_ & Hsize & _).
  rewrite (Hsize Hnd). split_and!; [done| |].
  - intros i nm mu Hi. apply table_of_lookup. exists nm. simpl.
    split_and!; [done..|].
    intros j mu' Hj Hj'.
    assert (i = j); [|lia].
    eapply NoDup_lookup; [exact Hnd| |].
    + by rewrite list_lookup_fmap, Hi.
    + by rewrite list_lookup_fmap, Hj'.
  - intros key f Hf. apply table_of_lookup in Hf as (nm & _ & Hlook & _).
    by apply lookup_lt_Some in Hlook.
Qed.

Lemma load_config_distinct_names_witness :
  exists kb,
    load_config "k" "k.fields" (Some LoadExample.fields_text) = Return kb
    /\ field_count kb = length (declarations LoadExample.fields_text)
    /\ (forall i nm mu,
          declarations LoadExample.fields_text !! i = Some (nm, mu) ->
          fields kb !! ("k" +:+ "." +:+ nm) = Some (mkField i mu))
    /\ forall key f, fields kb !! key = Some f -> order_num f < field_count kb.
Proof.
  apply (load_config_distinct_names "k" "k.fields" LoadExample.fields_text).
  apply (bool_decide_unpack _). vm_compute. exact I.
Defined.

(** X3. When the [.fields] file declares some name twice, the KB has a
    field whose ordinal is not below [field_count]: its column is past the
    end of every record [Entity.__init__] accepts. *)
Theorem load_config_repeated_name (KB_file_name fields_file_name text : string) :
  ~ NoDup (declarations text).*1 ->
  exists kb key f,
    load_config KB_file_name fields_file_name (Some text) = Return kb
    /\ fields kb !! key = Some f
    /\ field_count kb <= order_num f.
Proof.
  intros Hnd.
  destruct (table_of_size KB_file_name (declarations text)) as (_ & _ & Hsize).
  specialize (Hsize Hnd).
  destruct (declarations text) as [|e es _] eqn:E using rev_ind.
  { destruct Hnd. constructor. }
  eexists _, (KB_file_name +:+ "." +:+ e.1), (mkField (length es) e.2).
  split; [apply load_config_table|]. simpl. rewrite E. split.
  - rewrite table_of_snoc, table_of_count. simpl. by rewrite lookup_insert_eq.
  - simpl. rewrite length_app in Hsize. simpl in Hsize. lia.
Qed.

Lemma load_config_repeated_name_witness :
  exists kb key f,
    load_config "k" "k.fields" (Some LoadExample.repeated_text) = Return kb
    /\ fields kb !! key = Some f
    /\ field_count kb <= order_num f.
Proof.
  apply (load_config_repeated_name "k" "k.fields" LoadExample.repeated_text).
  apply (bool_decide_unpack _). vm_compute. exact I.
Defined.


(** *** Splitting and stripping *)

Lemma split_length (c : ascii) (s : string) :
  length (Str.split c s) = S (Str.count c s).
Proof.
  induction s as [|c' s IH]; simpl; [done|].
  destruct (decide (c' = c)); simpl; [by rewrite IH|].
  destruct (Str.split c s) as [|p ps]; [done|]. by rewrite <- IH.
Qed.

Lemma lstrip_head (s : string) (c : ascii) (t : string) :
  Str.lstrip s = String c t -> Str.isspace c = false.
Proof.
  induction s as [|c' s IH]; simpl; [done|].
  destruct (Str.isspace c') eqn:E; [done|]. by intros [= <- _].
Qed.

Lemma lstrip_fixed (c : ascii) (t : string) :
  Str.isspace c = false -> Str.lstrip (String c t) = String c t.
Proof. intros H. simpl. by rewrite H. Qed.

Lemma rstrip_idemp (s : string) : Str.rstrip (Str.rstrip s) = Str.rstrip s.
Proof.
  induction s as [|c s IH]; simpl; [done|].
  destruct (Str.rstrip s) as [|c' r] eqn:E.
  - destruct (Str.isspace c) eqn:Hc; simpl; [done|]. by rewrite Hc.
  - simpl in *. by rewrite IH.
Qed.

Lemma rstrip_head (c : ascii) (t : string) :
  Str.isspace c = false -> exists r, Str.rstrip (String c t) = String c r.
Proof.
  intros H. simpl. destruct (Str.rstrip t); [|by eexists].
  rewrite H. by eexists.
Qed.

Lemma strip_idemp (s : string) : Str.strip (Str.strip s) = Str.strip s.
Proof.
  unfold Str.strip. destruct (Str.lstrip s) as [|c t] eqn:E; [done|].
  apply lstrip_head in E. destruct (rstrip_head c t E) as [r Hr].
  rewrite Hr, (lstrip_fixed c r E), <- Hr. apply rstrip_idemp.
Qed.

(** *** [uniqifyList] *)

Lemma uniqify_from_spec (l : list string) : forall seen : gset string,
  NoDup (uniqify_from seen l)
  /\ (forall v, v ∈ uniqify_from seen l <-> v ∈ l /\ v ∉ seen)
  /\ uniqify_from seen l `sublist_of` l.
Proof.
  induction l as [|x l IH]; intros seen; simpl.
  - split_and!; [constructor| |done]. intros v. rewrite elem_of_nil. tauto.
  - destruct (decide (x ∈ seen)) as [Hx|Hx].
    + destruct (IH seen) as (I1 & I2 & I3). split_and!; [done| |].
      * intros v. rewrite I2, elem_of_cons. split; [tauto|].
        intros [[->|?] ?]; [done|tauto].
      * by apply sublist_cons.
    + destruct (IH (seen ∪ {[x]})) as (I1 & I2 & I3). split_and!.
      * constructor; [|done]. rewrite I2. set_solver.
      * intros v. rewrite !elem_of_cons, I2.
        destruct (decide (v = x)) as [->|Hv]; [tauto|]. set_solver.
      * by apply sublist_skip.
Qed.

Lemma uniqify_from_fixed (l : list string) : forall seen : gset string,
  NoDup l -> (forall v, v ∈ l -> v ∉ seen) -> uniqify_from seen l = l.
Proof.
  induction l as [|x l IH]; intros seen Hnd Hfresh; simpl; [done|].
  apply NoDup_cons in Hnd as [Hx Hnd].
  rewrite decide_False by (apply Hfresh; left).
  f_equal. apply IH; [done|]. intros v Hv.
  specialize (Hfresh v). rewrite elem_of_cons in Hfresh.
  assert (v <> x) by (by intros ->). set_solver.
Qed.

(** *** Records *)

Section entity_facts.
Context `{R : Runtime} `{!RuntimeSpec R}.

Lemma init_cell_spec (separator cell : string) :
  NoDup (init_cell separator cell)
  /\ (forall v, v ∈ init_cell separator cell
        <-> v <> EmptyString
            /\ exists part, part ∈ Str.split_on separator cell /\ v = Str.strip part)
  /\ forall v, v ∈ init_cell separator cell -> Str.strip v = v.
Proof.
  unfold init_cell, uniqifyList.
  destruct (uniqify_from_spec (Str.strip <$> Str.split_on separator cell) ∅)
    as (U1 & U2 & _).
  assert (forall v, v ∈ str_iter (filter (fun v => v <> EmptyString)
            (uniqify_from ∅ (Str.strip <$> Str.split_on separator cell)))
          <-> v <> EmptyString
              /\ exists part, part ∈ Str.split_on separator cell /\ v = Str.strip part)
    as Hmem.
  { intros v. rewrite str_iter_perm, list_elem_of_filter, U2, list_elem_of_fmap.
    split.
    - intros (? & (part & ? & ?) & _). split; [done|]. by exists part.
    - intros (? & part & ? & ?). split_and!; [done|by exists part|set_solver]. }
  split_and!.
  - rewrite str_iter_perm. by apply NoDup_filter.
  - done.
  - intros v Hv. apply Hmem in Hv as (_ & part & _ & ->). apply strip_idemp.
Qed.

Lemma load_line_fresh separator field_count freebase_idx line e :
  load_line separator field_count freebase_idx line = LoadReturn e ->
  length (data e) = field_count /\ weight e = 0%Z /\ used e = false
  /\ matched e = None.
Proof.
  unfold load_line, Entity_init.
  destruct (decide (length (Str.split Str.TAB _) = field_count)) as [Hlen|]; [|done].
  destruct (decide (separator = EmptyString)); [done|].
  destruct freebase_idx as [idx|].
  - simpl. destruct (idx <? _); [|done]. intros [= <-]. simpl.
    by rewrite length_insert, length_fmap.
  - intros [= <-]. simpl. by rewrite length_fmap.
Qed.

Lemma load_lines_fresh separator field_count freebase_idx ls : forall acc es,
  load_lines separator field_count freebase_idx acc ls = LoadReturn es ->
  length es = length acc + length ls
  /\ forall e, e ∈ es ->
       e ∈ acc \/ (length (data e) = field_count /\ weight e = 0%Z
                   /\ used e = false /\ matched e = None).
Proof.
  induction ls as [|l ls IH]; intros acc es; simpl.
  - intros [= <-]. split; [lia|]. auto.
  - destruct (load_line separator field_count freebase_idx l) as [e| |] eqn:E;
      [|done..].
    intros Hrun. apply IH in Hrun as [Hlen Hall]. rewrite length_app in Hlen.
    simpl in Hlen. split; [lia|]. intros e' He'.
    destruct (Hall e' He') as [Hacc|Hnew]; [|by right].
    apply elem_of_app in Hacc as [Hacc|Hacc]; [by left|].
    apply list_elem_of_singleton in Hacc as ->. right.
    by eapply load_line_fresh.
Qed.

End entity_facts.

(** X4. [Entity.__init__] goes by the number of tabs of the line: with a
    separator that is not empty, a line of [field_count - 1] tabs gives a
    record of [field_count] columns that is not used, has no [matched] and
    weighs nothing, and any other line raises [RuntimeError] with the
    columns it found.  No line at all is accepted when [field_count] is
    zero. *)
Theorem Entity_init_columns `{R : Runtime} (line separator : string)
    (field_count : nat) :
  separator <> EmptyString ->
  (Str.count Str.TAB line + 1 = field_count ->
   exists e, Entity_init line separator field_count = LoadReturn e
     /\ length (data e) = field_count
     /\ weight e = 0%Z /\ used e = false /\ matched e = None)
  /\ (Str.count Str.TAB line + 1 <> field_count ->
      Entity_init line separator field_count
      = LoadRaise (RuntimeError (Str.split Str.TAB line)))
  /\ (field_count = 0 ->
      Entity_init line separator field_count
      = LoadRaise (RuntimeError (Str.split Str.TAB line))).
Proof.
  intros Hsep. unfold Entity_init.
  pose proof (split_length Str.TAB line) as Hlen.
  split_and!.
  - intros Hcount. rewrite decide_True by lia. rewrite decide_False by done.
    eexists. split; [done|]. simpl. rewrite length_fmap. split_and!; [lia|done..].
  - intros Hcount. by rewrite decide_False by lia.
  - intros ->. by rewrite decide_False by lia.
Qed.

Lemma Entity_init_columns_witness :
  exists e, Entity_init (R := insertion_runtime)
              ("a" +:+ String Str.TAB "n1|n2") "|" 2 = LoadReturn e
    /\ length (data e) = 2
    /\ weight e = 0%Z /\ used e = false /\ matched e = None.
Proof.
  destruct (Entity_init_columns (R := insertion_runtime)
              ("a" +:+ String Str.TAB "n1|n2") "|" 2) as (H & _ & _).
  - discriminate.
  - apply H. reflexivity.
Defined.

(** X5. The values [Entity.__init__] puts in a column are the parts of
    the column's text between separators, stripped of white space, without
    the empty one and without repetition: no value of a record is empty,
    begins or ends with white space, or occurs twice in its column. *)
Theorem Entity_init_values `{R : Runtime} `{!RuntimeSpec R}
    (line separator : string) (field_count : nat) (e : Entity)
    (k : nat) (column : string) :
  Entity_init line separator field_count = LoadReturn e ->
  Str.split Str.TAB line !! k = Some column ->
  NoDup (get_field e k)
  /\ (forall v, v ∈ get_field e k
        <-> v <> EmptyString
            /\ exists part, part ∈ Str.split_on separator column
                 /\ v = Str.strip part)
  /\ forall v, v ∈ get_field e k -> v <> EmptyString /\ Str.strip v = v.
Proof.
  unfold Entity_init. intros Hinit Hk.
  destruct (decide (length (Str.split Str.TAB line) = field_count)); [|done].
  destruct (decide (separator = EmptyString)); [done|].
  injection Hinit as <-. unfold get_field. simpl.
  rewrite (list_lookup_total_correct _ k (init_cell separator column))
    by (by rewrite list_lookup_fmap, Hk).
  destruct (init_cell_spec separator column) as (C1 & C2 & C3).
  split_and!; [done..|].
  intros v Hv. split; [by apply C2 in Hv as [? _]|by apply C3].
Qed.

Lemma Entity_init_values_witness :
  NoDup (get_field (mkEntity [["a"]; ["n1"; "n2"]] 0 false None) 1)
  /\ (forall v, v ∈ get_field (mkEntity [["a"]; ["n1"; "n2"]] 0 false None) 1
        <-> v <> EmptyString
            /\ exists part, part ∈ Str.split_on "|" "n1| n2 |n1"
                 /\ v = Str.strip part)
  /\ forall v, v ∈ get_field (mkEntity [["a"]; ["n1"; "n2"]] 0 false None) 1 ->
       v <> EmptyString /\ Str.strip v = v.
Proof.
  apply (Entity_init_values (R := insertion_runtime)
           ("a" +:+ String Str.TAB "n1| n2 |n1") "|" 2
           (mkEntity [["a"]; ["n1"; "n2"]] 0 false None) 1 "n1| n2 |n1");
    reflexivity.
Defined.

(** X6. When [load_to_memory] returns, the KB has one record for each
    line of the file, in file order, each of [field_count] columns, and it
    is as [deduplicate] and [match] expect it: the records are distinct
    objects, none is used, matched or weighted. *)
Theorem load_file_freshly_loaded `{R : Runtime} (kb : KB) (separator text : string)
    (entities : list Entity) :
  load_file kb separator (Some text) = LoadReturn entities ->
  length entities = length (Str.lines text)
  /\ (forall e, e ∈ entities -> length (data e) = field_count kb)
  /\ freshly_loaded (loaded_kb entities).
Proof.
  unfold load_file. intros Hrun.
  apply load_lines_fresh in Hrun as [Hlen Hall]. simpl in Hlen.
  assert (forall e, e ∈ entities ->
            length (data e) = field_count kb /\ weight e = 0%Z
            /\ used e = false /\ matched e = None) as Hnew.
  { intros e He. destruct (Hall e He) as [Hnil|?]; [|done].
    by apply elem_of_nil in Hnil. }
  split_and!; [done| |].
  - intros e He. by apply Hnew.
  - unfold freshly_loaded, loaded_kb. simpl. split_and!.
    + apply NoDup_seq.
    + intros x Hx. apply elem_of_seq in Hx as [_ Hx]. simpl in Hx.
      unfold heap_of. destruct (lookup_lt_is_Some_2 entities x Hx) as [e He].
      rewrite He. simpl. apply list_elem_of_lookup_2 in He.
      by destruct (Hnew e He) as (_ & ? & ? & ?).
    + intros x Hx. apply elem_of_seq in Hx. lia.
Qed.

Lemma load_file_freshly_loaded_witness :
  length [mkEntity [["a"]; ["n1"; "n2"]] 0 false None;
          mkEntity [["b"]; []] 0 false None]
  = length (Str.lines LoadExample.kb_text)
  /\ (forall e, e ∈ [mkEntity [["a"]; ["n1"; "n2"]] 0 false None;
                     mkEntity [["b"]; []] 0 false None] ->
        length (data e) = field_count LoadExample.kb)
  /\ freshly_loaded (loaded_kb [mkEntity [["a"]; ["n1"; "n2"]] 0 false None;
                                mkEntity [["b"]; []] 0 false None]).
Proof.
  apply (load_file_freshly_loaded (R := insertion_runtime) LoadExample.kb "|"
           LoadExample.kb_text).
  reflexivity.
Defined.

(** *** Freebase URLs *)

Lemma prefix_app (a b c : string) :
  String.prefix (a +:+ b) (a +:+ c) = String.prefix b c.
Proof.
  induction a as [|x a IH]; simpl; [done|].
  destruct (ascii_dec x x); [done|congruence].
Qed.

(** X7. Normalising a Freebase URL twice is normalising it once: what
    [fixFreebaseUrl] leaves in the field, it would leave alone. *)
Theorem fix_url_idempotent (freebase_url : string) :
  fix_url (fix_url freebase_url) = fix_url freebase_url.
Proof.
  destruct (fix_url_cases freebase_url)
    as [(i & Hocc & _ & _ & ->)|[_ Hsame]]; [|by rewrite !Hsame].
  unfold Str.occurs_at in Hocc.
  assert (Str.contains WWW_FREEBASE ("http://www." +:+ Str.drop i freebase_url)
          = true) as Hwww.
  { apply contains_true. exists 0. unfold Str.occurs_at. cbn [Str.drop].
    change WWW_FREEBASE with ("http://www." +:+ FREEBASE).
    by rewrite prefix_app. }
  unfold fix_url at 1. rewrite Hwww. by rewrite andb_false_r.
Qed.


(** *** The relations a file yields *)

Lemma indented_not_header (l : string) : is_indented l = true -> is_header l = false.
Proof.
  destruct l as [|c s]; [by vm_compute|].
  unfold is_indented, tab_string, Str.startswith. cbn [String.prefix].
  destruct (ascii_dec Str.TAB c) as [<-|]; [|done].
  intros _. by apply isspace_not_header.
Qed.

Lemma parse_line_inv fname kb1 kb2 rels t l rels' t' :
  parse_line fname kb1 kb2 (rels, t) l = Return (rels', t') ->
  t <= OTHER -> Forall (parsed_relation kb1 kb2) rels ->
  t' <= OTHER /\ Forall (parsed_relation kb1 kb2) rels'
  /\ length rels' = length rels + (if is_indented l then 1 else 0).
Proof.
  intros Hline Ht Hrels.
  destruct (is_indented l) eqn:Hind.
  - pose proof (indented_not_header l Hind) as Hhead.
    unfold is_header in Hhead.
    apply orb_false_elim in Hhead as [Hhead Ho].
    apply orb_false_elim in Hhead as [Hu Hn].
    unfold parse_line in Hline.
    destruct (decide (l = EmptyString)) as [->|_]; [done|].
    rewrite Hu, Hn, Ho in Hline. unfold is_indented in Hind. rewrite Hind in Hline.
    destruct (Str.split "=" (Str.strip l)) as [|first [|second [|]]]; [done..| |done].
    destruct (Str.startswith (name kb2) first).
    + unfold get_field_order_num in Hline.
      destruct (fields kb1 !! second) as [f1|] eqn:E1; [|done]. simpl in Hline.
      destruct (fields kb2 !! first) as [f2|] eqn:E2; [|done]. simpl in Hline.
      injection Hline as <- <-. split_and!; [done| |rewrite length_app; simpl; lia].
      apply Forall_app. split; [done|]. apply Forall_singleton.
      unfold parsed_relation. simpl. split_and!; [by exists second, f1|by exists first, f2|lia|done].
    + unfold get_field_order_num in Hline.
      destruct (fields kb1 !! first) as [f1|] eqn:E1; [|done]. simpl in Hline.
      destruct (fields kb2 !! second) as [f2|] eqn:E2; [|done]. simpl in Hline.
      injection Hline as <- <-. split_and!; [done| |rewrite length_app; simpl; lia].
      apply Forall_app. split; [done|]. apply Forall_singleton.
      unfold parsed_relation. simpl. split_and!; [by exists first, f1|by exists second, f2|lia|done].
  - unfold parse_line in Hline. unfold is_indented in Hind. rewrite Hind in Hline.
    unfold UNIQUE, NAME, OTHER in *.
    repeat case_match; simplify_eq/=; split_and!; try done; try lia.
Qed.

Lemma parse_lines_inv fname kb1 kb2 ls : forall rels t rels' t',
  parse_lines fname kb1 kb2 (rels, t) ls = Return (rels', t') ->
  t <= OTHER -> Forall (parsed_relation kb1 kb2) rels ->
  Forall (parsed_relation kb1 kb2) rels'
  /\ length rels' = length rels + length (filter (fun l => is_indented l = true) ls).
Proof.
  induction ls as [|l ls IH]; intros rels t rels' t'; cbn [parse_lines].
  - intros [= <- <-] _ Hrels. split; [done|]. simpl. lia.
  - destruct (parse_line fname kb1 kb2 (rels, t) l) as [[rels1 t1]| |] eqn:E;
      simpl; [|done..].
    intros Hrun Ht Hrels.
    destruct (parse_line_inv _ _ _ _ _ _ _ _ E Ht Hrels) as (Ht1 & Hrels1 & Hlen1).
    destruct (IH _ _ _ _ Hrun Ht1 Hrels1) as [Hall Hlen].
    split; [done|]. rewrite Hlen, Hlen1, filter_cons.
    destruct (is_indented l).
    + rewrite decide_True by done. simpl. lia.
    + rewrite decide_False by done. lia.
Qed.

(** X8. When [parse_relations] returns, it has made one relation for each
    line of the file that starts with a tab, and each relation is between a
    field that [kb1] has and a field that [kb2] has, carries an empty
    blacklist and has the type of a section or the type 0. *)
Theorem parse_relations_well_formed (rel_conf_file_name text : string)
    (kb1 kb2 : KB) (relations : list Relation) :
  parse_relations rel_conf_file_name (Some text) kb1 kb2 = Return relations ->
  Forall (parsed_relation kb1 kb2) relations
  /\ length relations
     = length (filter (fun l => is_indented l = true) (Str.lines text)).
Proof.
  unfold parse_relations.
  destruct (parse_lines rel_conf_file_name kb1 kb2 ([], 0) (Str.lines text))
    as [[rels t]| |] eqn:E; [|done..].
  simpl. intros [= <-].
  apply parse_lines_inv in E; [done| |done]. unfold OTHER. lia.
Qed.

Lemma parse_relations_well_formed_witness :
  Forall (parsed_relation rel_kb1 rel_kb2) [mkRelation 0 0 UNIQUE ∅]
  /\ length [mkRelation 0 0 UNIQUE ∅]
     = length (filter (fun l => is_indented l = true) (Str.lines rel_pair_text)).
Proof.
  apply (parse_relations_well_formed "rel.conf" rel_pair_text rel_kb1 rel_kb2).
  vm_compute. reflexivity.
Defined.

(** *** A pair, written either way round *)

Lemma app_cons (c : ascii) (s t : string) : String c s +:+ t = String c (s +:+ t).
Proof. reflexivity. Qed.

Lemma app_nil (t : string) : EmptyString +:+ t = t.
Proof. reflexivity. Qed.

Lemma app_assoc_string (x y z : string) : (x +:+ y) +:+ z = x +:+ (y +:+ z).
Proof. induction x as [|c x IH]; [done|]. by rewrite !app_cons, IH. Qed.

Lemma rstrip_app (s t : string) :
  Str.rstrip t <> EmptyString -> Str.rstrip (s +:+ t) = s +:+ Str.rstrip t.
Proof.
  intros Ht. induction s as [|c s IH]; [done|].
  rewrite !app_cons. cbn [Str.rstrip].
  rewrite IH. destruct (s +:+ Str.rstrip t) eqn:E; [|done].
  destruct s; [done|discriminate].
Qed.

Lemma rstrip_all_space (ws : string) :
  Str.all_space ws = true -> Str.rstrip ws = EmptyString.
Proof.
  induction ws as [|c ws IH]; simpl; [done|].
  intros [Hc Hws]%andb_prop. by rewrite (IH Hws), Hc.
Qed.

Lemma rstrip_app_space (s ws : string) :
  Str.all_space ws = true -> Str.rstrip (s +:+ ws) = Str.rstrip s.
Proof.
  intros Hws. induction s as [|c s IH]; [by apply rstrip_all_space|].
  rewrite app_cons. cbn [Str.rstrip]. by rewrite IH.
Qed.

Lemma split_no_sep (c : ascii) (s : string) :
  Str.count c s = 0 -> Str.split c s = [s].
Proof.
  induction s as [|c' s IH]; simpl; [done|].
  destruct (decide (c' = c)); [done|]. simpl. intros H. by rewrite IH.
Qed.

Lemma split_app_sep (c : ascii) (a t : string) :
  Str.count c a = 0 -> Str.split c (a +:+ String c t) = a :: Str.split c t.
Proof.
  induction a as [|c' a IH].
  - intros _. rewrite app_nil. simpl. by rewrite decide_True.
  - rewrite app_cons. simpl.
    destruct (decide (c' = c)); [done|]. simpl. intros H. by rewrite IH.
Qed.

Lemma pair_name_ends (s : string) :
  pair_name s ->
  Str.rstrip s = s /\ exists c t, s = String c t /\ Str.isspace c = false.
Proof.
  intros (Hne & Hstrip & _). unfold Str.strip in Hstrip. split.
  - rewrite <- Hstrip at 1. rewrite rstrip_idemp. done.
  - destruct (Str.lstrip s) as [|c t] eqn:E.
    + simpl in Hstrip. congruence.
    + apply lstrip_head in E. destruct (rstrip_head c t E) as [r Hr].
      exists c, r. split; [congruence|done].
Qed.

Lemma strip_pair_line (first second ws : string) :
  pair_name first -> pair_name second -> Str.all_space ws = true ->
  Str.strip (pair_line first second ws) = first +:+ String "=" second.
Proof.
  intros Hf Hs Hws.
  destruct (pair_name_ends first Hf) as [_ (c & t & -> & Hc)].
  destruct (pair_name_ends second Hs) as [Hr _].
  destruct Hs as (Hne & _ & _).
  unfold Str.strip, pair_line, tab_string.
  rewrite app_cons, app_nil.
  change (Str.lstrip (String Str.TAB ?s)) with (Str.lstrip s).
  rewrite app_cons, (lstrip_fixed c _ Hc), <- app_cons.
  change (String "=" second) with ("=" +:+ second).
  rewrite <- (app_assoc_string "=" second ws).
  rewrite <- (app_assoc_string (String c t) ("=" +:+ second) ws).
  rewrite rstrip_app_space by done.
  rewrite rstrip_app; rewrite rstrip_app by (by rewrite Hr); by rewrite Hr.
Qed.

Lemma parse_pair_line fname kb1 kb2 rels t first second ws :
  pair_name first -> pair_name second -> Str.all_space ws = true ->
  parse_line fname kb1 kb2 (rels, t) (pair_line first second ws)
  = let '(first, second) :=
      if Str.startswith (name kb2) first then (second, first)
      else (first, second) in
    obind (get_field_order_num kb1 first) (fun fieldnum1 =>
    obind (get_field_order_num kb2 second) (fun fieldnum2 =>
    Return (rels ++ [mkRelation fieldnum1 fieldnum2 t ∅], t))).
Proof.
  intros Hf Hs Hws.
  assert (is_indented (pair_line first second ws) = true) as Hind.
  { unfold pair_line, tab_string. rewrite app_cons. unfold is_indented, tab_string.
    unfold Str.startswith. cbn [String.prefix].
    destruct (ascii_dec Str.TAB Str.TAB); [|done]. by destruct (_ +:+ _). }
  pose proof (indented_not_header _ Hind) as Hhead. unfold is_header in Hhead.
  apply orb_false_elim in Hhead as [Hhead Ho].
  apply orb_false_elim in Hhead as [Hu Hn].
  unfold parse_line. rewrite decide_False.
  2: { unfold pair_line, tab_string. by rewrite app_cons. }
  rewrite Hu, Hn, Ho. unfold is_indented in Hind. rewrite Hind.
  rewrite strip_pair_line by done.
  destruct Hf as (_ & _ & Hf), Hs as (_ & _ & Hs).
  by rewrite (split_app_sep "=" first second Hf), (split_no_sep "=" second Hs).
Qed.

(** X9. A pair of the relation file can be written either way round:
    when the name of the KB2 field starts with the name of KB2 and the name
    of the KB1 field does not, the line [first=second] and the line
    [second=first] add the same relation, of the type of the section they
    stand in, from the field of KB1 to the field of KB2. *)
Theorem parse_pair_either_order (rel_conf_file_name : string) (kb1 kb2 : KB)
    (relations : list Relation) (rel_type : nat) (first second ws : string)
    (f1 f2 : Field) :
  pair_name first -> pair_name second -> Str.all_space ws = true ->
  Str.startswith (name kb2) first = false ->
  Str.startswith (name kb2) second = true ->
  fields kb1 !! first = Some f1 ->
  fields kb2 !! second = Some f2 ->
  parse_line rel_conf_file_name kb1 kb2 (relations, rel_type)
    (pair_line first second ws)
  = Return (relations ++ [mkRelation (order_num f1) (order_num f2) rel_type ∅],
            rel_type)
  /\ parse_line rel_conf_file_name kb1 kb2 (relations, rel_type)
       (pair_line second first ws)
     = Return (relations ++ [mkRelation (order_num f1) (order_num f2) rel_type ∅],
               rel_type).
Proof.
  intros Hf Hs Hws Hfirst Hsecond H1 H2.
  rewrite !parse_pair_line by done. rewrite Hfirst, Hsecond.
  unfold get_field_order_num. by rewrite H1, H2.
Qed.

Lemma parse_pair_either_order_witness :
  parse_line "rel.conf" rel_kb1 rel_kb2 ([], UNIQUE)
    (pair_line "a.ID" "b.ID" (String Str.LF ""))
  = Return ([mkRelation 0 0 UNIQUE ∅], UNIQUE)
  /\ parse_line "rel.conf" rel_kb1 rel_kb2 ([], UNIQUE)
       (pair_line "b.ID" "a.ID" (String Str.LF ""))
     = Return ([mkRelation 0 0 UNIQUE ∅], UNIQUE).
Proof.
  apply (parse_pair_either_order "rel.conf" rel_kb1 rel_kb2 [] UNIQUE
           "a.ID" "b.ID" (String Str.LF "") (mkField 0 false) (mkField 0 false));
    try (vm_compute; reflexivity);
    (split_and!; [discriminate|vm_compute; reflexivity..]).
Defined.


(** *** The index as a table of sets *)

Lemma elem_of_fields_to_index relations (kb_field : Relation -> nat) f :
  f ∈ fields_to_index relations kb_field
  <-> exists r, r ∈ relations /\ type r <> OTHER /\ kb_field r = f.
Proof.
  unfold fields_to_index. rewrite elem_of_remove_dups, list_elem_of_fmap.
  split.
  - intros (r & -> & Hr). apply list_elem_of_filter in Hr as [? ?]. by exists r.
  - intros (r & ? & ? & <-). exists r. split; [done|].
    by apply list_elem_of_filter.
Qed.

Lemma elem_of_blackdict relations (kb_field : Relation -> nat) f v :
  v ∈ blackdict relations kb_field f
  <-> exists r, r ∈ relations /\ type r <> OTHER /\ kb_field r = f
        /\ v ∈ blacklist r.
Proof.
  unfold blackdict. rewrite elem_of_union_list. split.
  - intros (X & HX & Hv). apply list_elem_of_fmap in HX as (r & -> & Hr).
    apply list_elem_of_filter in Hr as [[? ?] ?]. by exists r.
  - intros (r & ? & ? & ? & ?). exists (blacklist r). split; [|done].
    apply list_elem_of_fmap. exists r. split; [done|].
    by apply list_elem_of_filter.
Qed.

Lemma NoDup_index_add (index : Index) f v x :
  (forall f' v', NoDup (index_get index f' v')) ->
  forall f' v', NoDup (index_get (index_add index f v x) f' v').
Proof.
  intros Hnd f' v'. unfold index_get at 1. unfold index_add. case_decide.
  - simpl. by apply NoDup_set_add.
  - apply Hnd.
Qed.

Lemma NoDup_make_index (h : heap) (kb_entities : list nat)
    (relations : list Relation) (kb_field : Relation -> nat) f v :
  NoDup (index_get (_make_index h kb_entities relations kb_field) f v).
Proof.
  revert f v. unfold _make_index.
  apply (foldl_invariant (fun index : Index => forall f v, NoDup (index_get index f v))).
  { intros f v. constructor. }
  intros index e _ Hnd. unfold index_entity.
  apply (foldl_invariant (fun index : Index => forall f v, NoDup (index_get index f v)));
    [done|].
  intros index' field _ Hnd'.
  apply (foldl_invariant (fun index : Index => forall f v, NoDup (index_get index f v)));
    [done|].
  intros index'' one_value _ Hnd''. case_decide; [done|].
  by apply NoDup_index_add.
Qed.

(** X10. What [_make_index] holds under a value of a field: each record of
    the KB once that has the value in the field, when the field is the
    field of some relation that is not of type OTHER and no such relation
    blacklists the value; nothing otherwise.  A blacklisted value is in no
    entry of the index. *)
Theorem make_index_lookup (h : heap) (kb_entities : list nat)
    (relations : list Relation) (kb_field : Relation -> nat)
    (field : nat) (value : string) :
  NoDup (index_get (_make_index h kb_entities relations kb_field) field value)
  /\ forall x,
       x ∈ index_get (_make_index h kb_entities relations kb_field) field value
       <-> x ∈ kb_entities
           /\ value ∈ get_field (h x) field
           /\ (exists r, r ∈ relations /\ type r <> OTHER /\ kb_field r = field)
           /\ forall r, r ∈ relations -> type r <> OTHER -> kb_field r = field ->
                value ∉ blacklist r.
Proof.
  split; [apply NoDup_make_index|].
  intros x. rewrite elem_of_make_index, elem_of_fields_to_index.
  assert (value ∉ blackdict relations kb_field field
          <-> forall r, r ∈ relations -> type r <> OTHER -> kb_field r = field ->
                value ∉ blacklist r) as ->; [|tauto].
  rewrite elem_of_blackdict. split.
  - intros Hno r ? ? ? ?. apply Hno. by exists r.
  - intros Hno (r & ? & ? & ? & ?). by apply (Hno r).
Qed.

(** *** Updating the index of KB1 after a match *)

Lemma elem_of_updateUniqueInIndex (h1 h2 : heap) (e : nat) (index : Index)
    (unique_relations : list Relation) y f v :
  y ∈ index_get (_updateUniqueInIndex h1 h2 e index unique_relations) f v
  <-> y ∈ index_get index f v
      \/ (y = e /\ exists m r,
            matched (h1 e) = Some m /\ r ∈ unique_relations
            /\ f = kb1_field r /\ v ∈ get_field (h2 m) (kb2_field r)
            /\ v <> EmptyString /\ v ∉ blacklist r).
Proof.
  unfold _updateUniqueInIndex. destruct (matched (h1 e)) as [m|] eqn:Hm.
  2: { split; [auto|]. by intros [?|(_ & ? & ? & ? & _)]. }
  rewrite (foldl_collects
             (fun (index : Index) (t : nat * nat * string) =>
                t.1.1 ∈ index_get index t.1.2 t.2)
             (fun r (t : nat * nat * string) =>
                t.1.1 = e /\ t.1.2 = kb1_field r
                /\ t.2 ∈ get_field (h2 m) (kb2_field r)
                /\ t.2 <> EmptyString /\ t.2 ∉ blacklist r)
             _ unique_relations) with (t := (y, f, v)).
  - simpl. split.
    + intros [?|(r & ? & -> & -> & ? & ? & ?)]; [auto|]. right. split; [done|].
      by exists m, r.
    + intros [?|(-> & m' & r & [= <-] & ? & -> & ? & ? & ?)]; [auto|].
      right. by exists r.
  - clear. intros index r [[y f] v]. simpl.
    rewrite (foldl_collects
               (fun (index : Index) (t : nat * nat * string) =>
                  t.1.1 ∈ index_get index t.1.2 t.2)
               (fun value (t : nat * nat * string) =>
                  t.1.1 = e /\ t.1.2 = kb1_field r /\ t.2 = value
                  /\ t.2 <> EmptyString /\ t.2 ∉ blacklist r)
               _ (get_field (h2 m) (kb2_field r))) with (t := (y, f, v)).
    + simpl. split.
      * intros [?|(value & ? & -> & -> & -> & ? & ?)]; [auto|]. by right.
      * intros [?|(-> & -> & ? & ? & ?)]; [auto|]. right. by exists v.
    + clear. intros index value [[y f] v]. simpl.
      unfold nonempty. destruct (String.eqb_spec value EmptyString) as [->|Hne]; simpl.
      * split; [auto|]. by intros [?|(_ & _ & -> & ? & _)].
      * case_decide as Hb.
        -- split; [auto|]. by intros [?|(_ & _ & -> & _ & ?)].
        -- rewrite elem_of_index_add. split.
           ++ intros [?|(-> & -> & ->)]; [auto|]. by right.
           ++ intros [?|(-> & -> & -> & _)]; [auto|]. by right.
Qed.

Section guard_facts.
Context `{R : Runtime} `{!RuntimeSpec R}.

Lemma not_only_other (e e' : nat) (l : list nat) :
  e ∈ l -> e' <> e -> not_only e' l = true.
Proof.
  intros He Hne. unfold not_only.
  destruct l as [|x [|y l]]; [by apply elem_of_nil in He| |done].
  apply list_elem_of_singleton in He as <-. simpl.
  assert (set_iter [e] = [e]) as ->.
  { apply Permutation_singleton_r. apply set_iter_perm. }
  simpl. rewrite bool_decide_eq_false_2; [done|]. intros [= ?]. done.
Qed.

End guard_facts.

(** X11. Once [e] is matched and [_updateUniqueInIndex] has run for it,
    the conflict guard turns down every other record of KB1 for any record
    of KB2 that has, in the field of a UNIQUE relation, a value of the
    record [e] was matched with (not empty and not blacklisted by the
    relation): an identifier of KB2 is merged into one record of KB1
    only. *)
Theorem update_index_guards `{R : Runtime} `{!RuntimeSpec R}
    (h1 h2 : heap) (e e' m : nat) (candidate : Entity) (index_for_kb1 : Index)
    (unique_relations : list Relation) (r : Relation) (value : string) :
  matched (h1 e) = Some m ->
  r ∈ unique_relations ->
  value ∈ get_field (h2 m) (kb2_field r) ->
  value <> EmptyString ->
  value ∉ blacklist r ->
  value ∈ get_field candidate (kb2_field r) ->
  e' <> e ->
  _checkUnique e' candidate
    (_updateUniqueInIndex h1 h2 e index_for_kb1 unique_relations)
    unique_relations = false.
Proof.
  intros Hm Hr Hv Hne Hb Hc He.
  apply checkUnique_false. exists r. split; [done|].
  apply conflict_in_true. exists value. split_and!; [done| |].
  - unfold nonempty. by destruct (String.eqb_spec value EmptyString).
  - apply (not_only_other e); [|done].
    apply elem_of_updateUniqueInIndex. right. split; [done|]. by exists m, r.
Qed.

Lemma update_index_guards_witness :
  _checkUnique (R := insertion_runtime) 1 (new_entity [["u2"]; ["n"]])
    (_updateUniqueInIndex
       (<[0 := set_matched (Some 0) (h1 VetoExample.start 0)]> (h1 VetoExample.start))
       (h2 VetoExample.start) 0 (fun _ _ => None) [mkRelation 0 0 UNIQUE ∅])
    [mkRelation 0 0 UNIQUE ∅] = false.
Proof.
  apply (update_index_guards (R := insertion_runtime) _ _ 0 1 0 _ _ _
           (mkRelation 0 0 UNIQUE ∅) "u2").
  - reflexivity.
  - apply list_elem_of_singleton. reflexivity.
  - apply (bool_decide_unpack _). vm_compute. exact I.
  - discriminate.
  - apply not_elem_of_empty.
  - apply (bool_decide_unpack _). vm_compute. exact I.
  - discriminate.
Defined.


(** *** Looking a record up by its identifiers *)

Lemma nonempty_true (value : string) : nonempty value = true <-> value <> EmptyString.
Proof. unfold nonempty. by destruct (String.eqb_spec value EmptyString). Qed.

Section lookup_facts.
Context `{R : Runtime} `{!RuntimeSpec R}.

Lemma first_unused_None (h : heap) l :
  first_unused h l = None -> forall c, c ∈ l -> used (h c) = true.
Proof.
  unfold first_unused. intros Hnone c Hc%list_elem_of_In.
  apply (find_none _ _ Hnone) in Hc. by apply negb_false_iff.
Qed.

Lemma match_by_unique_values_spec (h : heap) (index : Index) field id_list :
  match match_by_unique_values h index field id_list with
  | Some m =>
      used (h m) = false
      /\ exists value, value ∈ id_list /\ value <> EmptyString
           /\ m ∈ index_get index field value
  | None =>
      forall value c, value ∈ id_list -> value <> EmptyString ->
        c ∈ index_get index field value -> used (h c) = true
  end.
Proof.
  induction id_list as [|v l IH]; simpl.
  - intros value c Hv. by apply elem_of_nil in Hv.
  - destruct (nonempty v) eqn:Hv.
    + apply nonempty_true in Hv.
      destruct (first_unused h _) as [e|] eqn:E.
      * apply first_unused_Some in E as [He ?]. rewrite elem_of_set_iter in He.
        split; [done|]. exists v. split_and!; [by left|done..].
      * destruct (match_by_unique_values h index field l) as [m|].
        -- destruct IH as (? & v' & ? & ? & ?). split; [done|].
           exists v'. split_and!; [by right|done..].
        -- intros value c [->|Hin]%elem_of_cons Hne Hc.
           ++ apply (first_unused_None _ _ E). by rewrite elem_of_set_iter.
           ++ by apply (IH value c).
    + destruct (match_by_unique_values h index field l) as [m|].
      * destruct IH as (? & v' & ? & ? & ?). split; [done|].
        exists v'. split_and!; [by right|done..].
      * intros value c [->|Hin]%elem_of_cons Hne Hc.
        -- apply nonempty_true in Hne. congruence.
        -- by apply (IH value c).
Qed.

Lemma match_by_unique_reason (entity : Entity) (h : heap) (index : Index)
    (unique_relations : list Relation) :
  match match_by_unique entity h index unique_relations with
  | Some m =>
      used (h m) = false
      /\ exists r value,
           r ∈ unique_relations /\ value ∈ get_field entity (kb1_field r)
           /\ value <> EmptyString /\ m ∈ index_get index (kb2_field r) value
  | None =>
      forall r value c,
        r ∈ unique_relations -> value ∈ get_field entity (kb1_field r) ->
        value <> EmptyString -> c ∈ index_get index (kb2_field r) value ->
        used (h c) = true
  end.
Proof.
  induction unique_relations as [|r l IH]; simpl.
  - intros r value c Hr. by apply elem_of_nil in Hr.
  - pose proof (match_by_unique_values_spec h index (kb2_field r)
                  (get_field entity (kb1_field r))) as Hv.
    destruct (match_by_unique_values _ _ _ _) as [m|].
    + destruct Hv as (? & v & ? & ? & ?). split; [done|].
      exists r, v. split_and!; [by left|done..].
    + destruct (match_by_unique entity h index l) as [m|].
      * destruct IH as (? & r' & v & ? & ? & ? & ?). split; [done|].
        exists r', v. split_and!; [by right|done..].
      * intros r' value c [->|Hin]%elem_of_cons Hval Hne Hc.
        -- by apply (Hv value c).
        -- by apply (IH r' value c).
Qed.

Lemma not_only_false (e : nat) (l : list nat) :
  not_only e l = false <-> l = [] \/ l = [e].
Proof.
  unfold not_only. destruct l as [|x [|y l]]; simpl.
  - split; [auto|done].
  - assert (set_iter [x] = [x]) as ->.
    { apply Permutation_singleton_r. apply set_iter_perm. }
    simpl. destruct (decide (x = e)) as [->|Hne].
    + rewrite bool_decide_eq_true_2 by done. simpl. split; [auto|done].
    + rewrite bool_decide_eq_false_2 by congruence. simpl.
      split; [done|]. intros [?|[= ?]]; done.
  - split; [done|]. intros [?|?]; done.
Qed.

End lookup_facts.

(** X12. [match_by_unique] returns a record of KB2 that is not used and
    that the index holds under a value, not empty, that the record of KB1
    has in the field of a UNIQUE relation; it returns [None] only when
    every record the index holds under such a value is used. *)
Theorem match_by_unique_spec `{R : Runtime} `{!RuntimeSpec R}
    (entity : Entity) (h : heap) (index : Index) (unique_relations : list Relation) :
  (forall m, match_by_unique entity h index unique_relations = Some m ->
     used (h m) = false
     /\ exists r value,
          r ∈ unique_relations /\ value ∈ get_field entity (kb1_field r)
          /\ value <> EmptyString /\ m ∈ index_get index (kb2_field r) value)
  /\ (match_by_unique entity h index unique_relations = None
      <-> forall r value c,
            r ∈ unique_relations -> value ∈ get_field entity (kb1_field r) ->
            value <> EmptyString -> c ∈ index_get index (kb2_field r) value ->
            used (h c) = true).
Proof.
  pose proof (match_by_unique_reason entity h index unique_relations) as H.
  destruct (match_by_unique entity h index unique_relations) as [m|].
  - split; [by intros ? [= <-]|]. split; [done|].
    intros Hall. destruct H as (Hu & r & v & ? & ? & ? & ?).
    rewrite (Hall r v m) in Hu; done.
  - split; [done|]. split; [done|auto].
Qed.

Lemma match_by_unique_spec_witness :
  match_by_unique (R := insertion_runtime) (VetoExample.kb1_objs 1)
    VetoExample.kb2_objs VetoExample.index2 [mkRelation 0 0 UNIQUE ∅] = Some 0
  /\ used (VetoExample.kb2_objs 0) = false
  /\ exists r value,
       r ∈ [mkRelation 0 0 UNIQUE ∅]
       /\ value ∈ get_field (VetoExample.kb1_objs 1) (kb1_field r)
       /\ value <> EmptyString
       /\ 0 ∈ index_get VetoExample.index2 (kb2_field r) value.
Proof.
  assert (match_by_unique (R := insertion_runtime) (VetoExample.kb1_objs 1)
            VetoExample.kb2_objs VetoExample.index2 [mkRelation 0 0 UNIQUE ∅]
          = Some 0) as Hrun by (vm_compute; reflexivity).
  split; [exact Hrun|].
  exact (proj1 (match_by_unique_spec (R := insertion_runtime)
                  (VetoExample.kb1_objs 1) VetoExample.kb2_objs
                  VetoExample.index2 [mkRelation 0 0 UNIQUE ∅]) 0 Hrun).
Defined.

(** X14. The conflict guard [_checkUnique] lets [e] and a record of KB2
    through exactly when every value, not empty, that the record of KB2 has
    in the field of a UNIQUE relation is, in the index of KB1, under no
    record at all or under [e] alone. *)
Theorem checkUnique_spec `{R : Runtime} `{!RuntimeSpec R}
    (e : nat) (entity_from_kb2 : Entity) (index_for_kb1 : Index)
    (unique_relations : list Relation) :
  _checkUnique e entity_from_kb2 index_for_kb1 unique_relations = true
  <-> forall r value,
        r ∈ unique_relations ->
        value ∈ get_field entity_from_kb2 (kb2_field r) ->
        value <> EmptyString ->
        index_get index_for_kb1 (kb1_field r) value = []
        \/ index_get index_for_kb1 (kb1_field r) value = [e].
Proof.
  rewrite <- not_false_iff_true, checkUnique_false. split.
  - intros Hno r value Hr Hv Hne. apply not_only_false.
    apply not_true_iff_false. intros Hnot. apply Hno. exists r. split; [done|].
    apply conflict_in_true. exists value. split_and!; [done| |done].
    by apply nonempty_true.
  - intros Hall (r & Hr & Hc). apply conflict_in_true in Hc as (v & Hv & Hne & Hnot).
    apply nonempty_true in Hne. specialize (Hall r v Hr Hv Hne).
    apply not_only_false in Hall. congruence.
Qed.

Lemma checkUnique_spec_witness :
  _checkUnique (R := insertion_runtime) 1 (VetoExample.kb2_objs 0)
    (index_for_kb1 VetoExample.start) [mkRelation 0 0 UNIQUE ∅] = true
  /\ (index_get (index_for_kb1 VetoExample.start) 0 "u2" = []
      \/ index_get (index_for_kb1 VetoExample.start) 0 "u2" = [1]).
Proof.
  assert (_checkUnique (R := insertion_runtime) 1 (VetoExample.kb2_objs 0)
            (index_for_kb1 VetoExample.start) [mkRelation 0 0 UNIQUE ∅] = true)
    as Hrun by (vm_compute; reflexivity).
  split; [exact Hrun|].
  apply (proj1 (checkUnique_spec (R := insertion_runtime) 1 (VetoExample.kb2_objs 0)
                  (index_for_kb1 VetoExample.start) [mkRelation 0 0 UNIQUE ∅])
           Hrun (mkRelation 0 0 UNIQUE ∅) "u2").
  - apply list_elem_of_singleton. reflexivity.
  - apply list_elem_of_singleton. reflexivity.
  - discriminate.
Defined.

(** *** What [match] leaves alone *)

Section frame_facts.
Context `{R : Runtime} `{!RuntimeSpec R}.

Lemma match_entity_frame treshold index_for_kb2 urels nrels orels st e :
  let st' := match_entity treshold index_for_kb2 urels nrels orels st e in
  forall x,
    data (h1 st' x) = data (h1 st x)
    /\ weight (h1 st' x) = weight (h1 st x)
    /\ data (h2 st' x) = data (h2 st x)
    /\ matched (h2 st' x) = matched (h2 st x)
    /\ (used (h1 st x) = true -> used (h1 st' x) = true)
    /\ (used (h2 st x) = true -> used (h2 st' x) = true)
    /\ (x <> e -> h1 st' x = h1 st x).
Proof.
  intros st' x.
  destruct (match_entity_effect treshold index_for_kb2 urels nrels orels st e)
    as [[E1 E2]|(b & Hb & E1 & E2)]; fold st' in E1, E2.
  - rewrite E1. destruct (E2 x) as (? & ? & ?). split_and!; try done. congruence.
  - rewrite E1. destruct E2 as (Hbu & Hother & Hrest).
    destruct (Hrest x) as [? ?].
    destruct (heap_insert_cases (h1 st) e x
                (set_used true (set_matched (Some b) (h1 st e)))) as [[-> ->]|[? ->]];
      split_and!; try done.
    + intros Hu. destruct (decide (x = b)) as [->|Hne]; [done|].
      by rewrite Hother.
    + intros Hu. destruct (decide (x = b)) as [->|Hne]; [done|].
      by rewrite Hother.
Qed.

End frame_facts.

(** X15. [match] writes to nothing but the flags [used] and [matched] of
    the records and the weights of KB2: it leaves the values of every
    record of both KBs, the weights of KB1 and the [matched] of KB2 as they
    were, never takes back a [used], and does not touch a record of KB1
    that is not in the list it is given. *)
Theorem match_preserves `{R : Runtime} `{!RuntimeSpec R}
    (kb1_entities : list nat) (index_for_kb2 : Index) (relations : list Relation)
    (treshold : Z) (st : mstate) (x : nat) :
  let st' := match_ kb1_entities index_for_kb2 relations treshold st in
  data (h1 st' x) = data (h1 st x)
  /\ weight (h1 st' x) = weight (h1 st x)
  /\ data (h2 st' x) = data (h2 st x)
  /\ matched (h2 st' x) = matched (h2 st x)
  /\ (used (h1 st x) = true -> used (h1 st' x) = true)
  /\ (used (h2 st x) = true -> used (h2 st' x) = true)
  /\ (x ∉ kb1_entities -> h1 st' x = h1 st x).
Proof.
  unfold match_. cbv zeta.
  set (urels := filter (fun r => type r = UNIQUE) relations).
  set (nrels := filter (fun r => type r <> UNIQUE /\ type r = NAME) relations).
  set (orels := filter (fun r => type r <> UNIQUE /\ type r <> NAME) relations).
  revert st. induction kb1_entities as [|e l IH]; intros st; simpl.
  - split_and!; done.
  - destruct (IH (match_entity treshold index_for_kb2 urels nrels orels st e))
      as (I1 & I2 & I3 & I4 & I5 & I6 & I7).
    destruct (match_entity_frame treshold index_for_kb2 urels nrels orels st e x)
      as (F1 & F2 & F3 & F4 & F5 & F6 & F7).
    split_and!; try congruence; try tauto.
    intros Hx. apply not_elem_of_cons in Hx as [Hne Hx].
    rewrite I7 by done. by apply F7.
Qed.

Lemma match_preserves_witness :
  data (h1 (TresholdExample.run insertion_runtime 1) 0)
  = data (TresholdExample.kb1_objs 0)
  /\ weight (h1 (TresholdExample.run insertion_runtime 1) 0)
     = weight (TresholdExample.kb1_objs 0)
  /\ data (h2 (TresholdExample.run insertion_runtime 1) 0)
     = data (TresholdExample.kb2_objs 0)
  /\ matched (h2 (TresholdExample.run insertion_runtime 1) 0)
     = matched (TresholdExample.kb2_objs 0).
Proof.
  destruct (match_preserves (R := insertion_runtime) [0; 1]
              (make_index_for_kb2 TresholdExample.kb2_objs [0]
                 TresholdExample.relations)
              TresholdExample.relations 1
              (mkMstate TresholdExample.kb1_objs TresholdExample.kb2_objs
                 (make_index_for_kb1 TresholdExample.kb1_objs [0; 1]
                    TresholdExample.relations) []) 0)
    as (H1 & H2 & H3 & H4 & _).
  split_and!; [exact H1|exact H2|exact H3|exact H4].
Defined.


(** *** The candidates of [match_by_name] and their weights *)

Lemma foldl_bind {A B C} (f : A -> C -> A) (g : B -> list C) (l : list B) : forall a,
  foldl f a (l ≫= g) = foldl (fun a x => foldl f a (g x)) a l.
Proof.
  induction l as [|x l IH]; intros a; [done|].
  change ((x :: l) ≫= g) with (g x ++ (l ≫= g)).
  by rewrite foldl_app, IH.
Qed.

Lemma name_step_run (l : list nat) : forall (cands : list nat) (h : heap),
  let st' := foldl name_step (cands, h) l in
  same_frame h st'.2
  /\ (NoDup cands -> NoDup st'.1)
  /\ (forall c, c ∈ st'.1 <-> c ∈ cands \/ (c ∈ l /\ used (h c) = false))
  /\ forall c,
       weight (st'.2 c)
       = if used (h c) then weight (h c)
         else (weight (h c) + Z.of_nat (length (filter (fun x => x = c) l)))%Z.
Proof.
  induction l as [|e l IH]; intros cands h; simpl.
  - split_and!; [apply same_frame_refl|done| |].
    + intros c. split; [auto|]. by intros [?|[?%elem_of_nil _]].
    + intros c. destruct (used (h c)); [done|]. lia.
  - destruct (used (h e)) eqn:Hu.
    + destruct (IH cands h) as (I1 & I2 & I3 & I4). split_and!; [done..| |].
      * intros c. rewrite I3, elem_of_cons. split; [tauto|].
        intros [?|[[->|?] ?]]; [tauto|congruence|tauto].
      * intros c. rewrite I4, filter_cons. destruct (used (h c)) eqn:Hc; [done|].
        rewrite decide_False by congruence. done.
    + set (h' := <[e := set_weight (weight (h e) + 1) (h e)]> h).
      assert (same_frame h h') as Hf by apply same_frame_set_weight.
      destruct (IH (set_add e cands) h') as (I1 & I2 & I3 & I4). split_and!.
      * by eapply same_frame_trans.
      * intros Hnd. apply I2. by apply NoDup_set_add.
      * intros c. rewrite I3, elem_of_set_add, elem_of_cons.
        destruct (Hf c) as (Hc & _). rewrite Hc. split.
        -- intros [[->|?]|[? ?]]; tauto.
        -- intros [?|[[->|?] ?]]; tauto.
      * intros c. rewrite I4, filter_cons. destruct (Hf c) as (Hc & _). rewrite Hc.
        destruct (used (h c)) eqn:Huc.
        -- subst h'. destruct (heap_insert_cases h e c (set_weight (weight (h e) + 1) (h e)))
             as [[-> _]|[_ ->]]; [congruence|done].
        -- subst h'. destruct (heap_insert_cases h e c (set_weight (weight (h e) + 1) (h e)))
             as [[-> ->]|[Hne ->]].
           ++ rewrite decide_True by done. simpl. lia.
           ++ rewrite decide_False by done. done.
Qed.

Section name_facts.
Context `{R : Runtime} `{!RuntimeSpec R}.

Lemma match_by_name_lookups (entity : Entity) (h : heap) (index : Index)
    (name_relations : list Relation) :
  match_by_name entity h index name_relations
  = foldl name_step ([], h) (name_lookups entity index name_relations).
Proof.
  unfold match_by_name, name_lookups. rewrite foldl_bind.
  generalize (@nil nat, h). induction name_relations as [|r l IH]; intros st; [done|].
  simpl. rewrite <- IH. f_equal. rewrite foldl_bind.
  generalize st. clear.
  induction (get_field entity (kb1_field r)) as [|v vs IHv]; intros st; [done|].
  simpl. rewrite <- IHv. f_equal. destruct (nonempty v); [|done].
  generalize st. clear.
  induction (set_iter (index_get index (kb2_field r) v)) as [|e es IHe]; intros st;
    [done|].
  simpl. rewrite <- IHe. f_equal. by destruct st.
Qed.

Lemma elem_of_name_lookups (entity : Entity) (index : Index)
    (name_relations : list Relation) c :
  c ∈ name_lookups entity index name_relations
  <-> shares entity index name_relations c.
Proof.
  unfold name_lookups, shares. rewrite list_elem_of_bind. split.
  - intros (r & Hc & Hr). apply list_elem_of_bind in Hc as (v & Hc & Hv).
    destruct (nonempty v) eqn:Hne; [|by apply elem_of_nil in Hc].
    apply nonempty_true in Hne. rewrite elem_of_set_iter in Hc. by exists r, v.
  - intros (r & v & Hr & Hv & Hne & Hc). exists r. split; [|done].
    apply list_elem_of_bind. exists v. split; [|done].
    apply nonempty_true in Hne. rewrite Hne. by rewrite elem_of_set_iter.
Qed.

Lemma count_NoDup (c : nat) (l : list nat) :
  NoDup l ->
  length (filter (fun x => x = c) l) = if decide (c ∈ l) then 1 else 0.
Proof.
  induction 1 as [|x l Hx Hnd IH]; [done|].
  rewrite filter_cons. destruct (decide (x = c)) as [->|Hne].
  - simpl. rewrite IH. rewrite decide_False by done.
    by rewrite decide_True by left.
  - rewrite IH. destruct (decide (c ∈ l)).
    + by rewrite decide_True by (by right).
    + rewrite decide_False; [done|]. intros [?|?]%elem_of_cons; congruence.
Qed.

Lemma count_name_lookups (entity : Entity) (index : Index)
    (name_relations : list Relation) c :
  (forall f v, NoDup (index_get index f v)) ->
  length (filter (fun x => x = c) (name_lookups entity index name_relations))
  = length (name_hits entity index name_relations c).
Proof.
  intros Hnd. unfold name_lookups, name_hits.
  induction name_relations as [|r l IH]; [done|].
  change ((r :: l) ≫= ?g) with (g r ++ (l ≫= g)).
  rewrite filter_app, !length_app, IH. f_equal. rewrite length_fmap. clear IH.
  induction (get_field entity (kb1_field r)) as [|v vs IHv]; [done|].
  change ((v :: vs) ≫= ?g) with (g v ++ (vs ≫= g)).
  rewrite filter_app, length_app, IHv, (filter_cons _ v). clear IHv.
  destruct (nonempty v) eqn:Hne.
  - apply nonempty_true in Hne.
    rewrite (Permutation_length (filter_Permutation _ _ _ (set_iter_perm _))).
    rewrite count_NoDup by done.
    destruct (decide (c ∈ index_get index (kb2_field r) v)).
    + by rewrite decide_True.
    + rewrite decide_False; [done|]. tauto.
  - rewrite decide_False; [done|]. intros [Hv _]. apply nonempty_true in Hv. congruence.
Qed.

Lemma name_hits_shares (entity : Entity) (index : Index)
    (name_relations : list Relation) c :
  name_hits entity index name_relations c <> []
  <-> shares entity index name_relations c.
Proof.
  unfold name_hits, shares. split.
  - intros Hne. destruct (name_relations ≫= _) as [|[r v] l] eqn:E; [done|].
    assert ((r, v) ∈ name_relations ≫= fun r =>
              (fun value => (r, value))
                <$> filter (fun value => value <> EmptyString
                                         /\ c ∈ index_get index (kb2_field r) value)
                           (get_field entity (kb1_field r))) as Hin.
    { rewrite E. left. }
    apply list_elem_of_bind in Hin as (r' & Hin & Hr).
    apply list_elem_of_fmap in Hin as (v' & [= -> ->] & Hv).
    apply list_elem_of_filter in Hv as [[? ?] ?]. by exists r', v'.
  - intros (r & v & Hr & Hv & Hne & Hc) Hnil.
    assert ((r, v) ∈ name_relations ≫= fun r =>
              (fun value => (r, value))
                <$> filter (fun value => value <> EmptyString
                                         /\ c ∈ index_get index (kb2_field r) value)
                           (get_field entity (kb1_field r))) as Hin.
    { apply list_elem_of_bind. exists r. split; [|done].
      apply list_elem_of_fmap. exists v. split; [done|].
      by apply list_elem_of_filter. }
    rewrite Hnil in Hin. by apply elem_of_nil in Hin.
Qed.

Lemma match_by_name_effect (entity : Entity) (h : heap) (index : Index)
    (name_relations : list Relation) :
  let res := match_by_name entity h index name_relations in
  same_frame h res.2
  /\ NoDup res.1
  /\ (forall c, c ∈ res.1
        <-> used (h c) = false /\ shares entity index name_relations c)
  /\ forall c, c ∉ res.1 -> weight (res.2 c) = weight (h c).
Proof.
  intros res. subst res. rewrite match_by_name_lookups.
  destruct (name_step_run (name_lookups entity index name_relations) [] h)
    as (I1 & I2 & I3 & I4).
  split_and!; [done|apply I2; constructor| |].
  - intros c. rewrite I3, elem_of_name_lookups. split.
    + intros [?%elem_of_nil|[? ?]]; done.
    + intros [? ?]. by right.
  - intros c Hc. rewrite I4. destruct (used (h c)) eqn:Hu; [done|].
    assert (c ∉ name_lookups entity index name_relations) as Hnot.
    { intros Hin. apply Hc, I3. by right. }
    assert (filter (fun x => x = c) (name_lookups entity index name_relations) = [])
      as ->.
    { clear -Hnot. induction (name_lookups entity index name_relations) as [|x l IH];
        [done|].
      apply not_elem_of_cons in Hnot as [? ?].
      rewrite filter_cons, decide_False by done. auto. }
    simpl. lia.
Qed.

End name_facts.

(** X13. [match_by_name] makes a candidate of each record of KB2 that is
    not used and that the index holds under a name of the record of KB1,
    once, and of no other; and what it adds to the weight of a candidate is
    the number of pairs of a NAME relation and a value, not empty, of the
    record of KB1 under which the index holds the candidate.  Nothing else
    of KB2 changes. *)
Theorem match_by_name_scores `{R : Runtime} `{!RuntimeSpec R}
    (entity : Entity) (h : heap) (index : Index) (name_relations : list Relation) :
  (forall f v, NoDup (index_get index f v)) ->
  let candidates := (match_by_name entity h index name_relations).1 in
  let h' := (match_by_name entity h index name_relations).2 in
  NoDup candidates
  /\ (forall c, c ∈ candidates
        <-> used (h c) = false /\ shares entity index name_relations c)
  /\ (forall c, c ∈ candidates ->
        weight (h' c)
        = (weight (h c)
           + Z.of_nat (length (name_hits entity index name_relations c)))%Z
        /\ name_hits entity index name_relations c <> [])
  /\ (forall c, c ∉ candidates -> weight (h' c) = weight (h c))
  /\ same_frame h h'.
Proof.
  intros Hnd candidates h'.
  destruct (match_by_name_effect entity h index name_relations)
    as (E1 & E2 & E3 & E4).
  split_and!; [done..| |done|done].
  intros c Hc. apply E3 in Hc as [Hu Hs]. split; [|by apply name_hits_shares].
  subst h'. rewrite match_by_name_lookups.
  destruct (name_step_run (name_lookups entity index name_relations) [] h)
    as (_ & _ & _ & I4).
  rewrite I4, Hu. by rewrite count_name_lookups.
Qed.

Lemma match_by_name_scores_witness :
  NoDup (match_by_name (R := insertion_runtime) (h1 VetoExample.start 0)
           (h2 VetoExample.start) VetoExample.index2 [mkRelation 1 1 NAME ∅]).1
  /\ (forall c,
        c ∈ (match_by_name (R := insertion_runtime) (h1 VetoExample.start 0)
               (h2 VetoExample.start) VetoExample.index2 [mkRelation 1 1 NAME ∅]).1
        <-> used (h2 VetoExample.start c) = false
            /\ shares (h1 VetoExample.start 0) VetoExample.index2
                 [mkRelation 1 1 NAME ∅] c).
Proof.
  destruct (match_by_name_scores (R := insertion_runtime) (h1 VetoExample.start 0)
              (h2 VetoExample.start) VetoExample.index2 [mkRelation 1 1 NAME ∅])
    as (H1 & H2 & _).
  - intros f v. apply NoDup_make_index.
  - split; assumption.
Defined.

(** *** Weights are scratch space *)

Lemma reset_weights_effect (l : list nat) : forall h : heap,
  let h' := foldl (fun h candidate => <[candidate := set_weight 0 (h candidate)]> h) h l in
  (forall x, x ∈ l -> weight (h' x) = 0%Z)
  /\ (forall x, x ∉ l -> h' x = h x).
Proof.
  induction l as [|c l IH]; intros h; simpl.
  - split; [|done]. intros x Hx. by apply elem_of_nil in Hx.
  - destruct (IH (<[c := set_weight 0 (h c)]> h)) as [I1 I2]. split.
    + intros x Hx. destruct (decide (x ∈ l)) as [Hl|Hl]; [by apply I1|].
      apply elem_of_cons in Hx as [->|?]; [|done].
      rewrite I2 by done. by rewrite fn_lookup_insert.
    + intros x Hx. apply not_elem_of_cons in Hx as [Hne Hx].
      rewrite I2 by done. by rewrite fn_lookup_insert_ne.
Qed.

Section weight_facts.
Context `{R : Runtime} `{!RuntimeSpec R}.

Lemma match_names_weights treshold index_for_kb2 urels nrels orels st e :
  (forall x, weight (h2 st x) = 0%Z) ->
  forall x, weight (h2 (match_names treshold index_for_kb2 urels nrels orels st e) x)
            = 0%Z.
Proof.
  intros Hzero x. unfold match_names.
  pose proof (match_by_name_effect (h1 st e) (h2 st) index_for_kb2 nrels)
    as (_ & _ & _ & Hout).
  destruct (match_by_name (h1 st e) (h2 st) index_for_kb2 nrels) as [cands h2a].
  simpl in Hout.
  destruct cands as [|c0 cs].
  { simpl. rewrite Hout; [done|]. apply not_elem_of_nil. }
  set (L := set_iter (c0 :: cs)).
  set (h2b := score_candidates treshold e (h1 st) (index_for_kb1 st) urels orels h2a L).
  assert (forall y, y ∉ c0 :: cs -> weight (h2b y) = 0%Z) as Hb.
  { intros y Hy.
    destruct (score_candidates_spec treshold e (h1 st) (index_for_kb1 st) urels orels
                L h2a) as (_ & Hsame & _).
    unfold h2b. rewrite Hsame; [by rewrite Hout|].
    unfold L. by rewrite elem_of_set_iter. }
  assert (forall (h2c : heap), (forall y, weight (h2c y) = weight (h2b y)) ->
            weight (foldl (fun h candidate => <[candidate := set_weight 0 (h candidate)]> h)
                      h2c L x) = 0%Z) as Hreset.
  { intros h2c Hc. destruct (reset_weights_effect L h2c) as [R1 R2].
    destruct (decide (x ∈ L)) as [Hx|Hx]; [by apply R1|].
    rewrite R2 by done. rewrite Hc. apply Hb.
    unfold L in Hx. by rewrite elem_of_set_iter in Hx. }
  destruct (choose_best h2b L) as [best|]; [|by apply Hreset].
  destruct (treshold <=? weight (h2b best))%Z; [|by apply Hreset].
  simpl. apply Hreset. intros y.
  destruct (heap_insert_cases h2b best y (set_used true (h2b best)))
    as [[-> ->]|[_ ->]]; done.
Qed.

Lemma match_entity_weights treshold index_for_kb2 urels nrels orels st e :
  (forall x, weight (h2 st x) = 0%Z) ->
  forall x, weight (h2 (match_entity treshold index_for_kb2 urels nrels orels st e) x)
            = 0%Z.
Proof.
  intros Hzero x. unfold match_entity.
  destruct (match_by_unique _ _ _ _) as [m|]; [|by apply match_names_weights].
  destruct (_checkUnique _ _ _ _).
  - simpl. destruct (heap_insert_cases (h2 st) m x (set_used true (h2 st m)))
      as [[-> ->]|[_ ->]]; [simpl|]; apply Hzero.
  - destruct (_getCheckUniqueErrorUriList _ _ _ _ _). simpl. apply Hzero.
Qed.

End weight_facts.

(** X16. The weights of KB2 are scratch space of one turn of [match]:
    when every record of KB2 weighs nothing before [match], every record
    weighs nothing after it, matched or not. *)
Theorem match_resets_weights `{R : Runtime} `{!RuntimeSpec R}
    (kb1_entities : list nat) (index_for_kb2 : Index) (relations : list Relation)
    (treshold : Z) (st : mstate) :
  (forall x, weight (h2 st x) = 0%Z) ->
  forall x,
    weight (h2 (match_ kb1_entities index_for_kb2 relations treshold st) x) = 0%Z.
Proof.
  unfold match_. cbv zeta.
  revert st. induction kb1_entities as [|e l IH]; intros st Hzero; simpl; [done|].
  apply IH. by apply match_entity_weights.
Qed.

Lemma match_resets_weights_witness :
  weight (h2 (TresholdExample.run insertion_runtime 1) 0) = 0%Z.
Proof.
  apply (match_resets_weights (R := insertion_runtime) [0; 1]
           (make_index_for_kb2 TresholdExample.kb2_objs [0] TresholdExample.relations)
           TresholdExample.relations 1).
  intros x. unfold TresholdExample.kb2_objs, heap_of. simpl.
  destruct x as [|x]; [reflexivity|]. destruct x; reflexivity.
Defined.


(** *** Why two records are paired *)

Section reason_facts.
Context `{R : Runtime} `{!RuntimeSpec R}.

Lemma match_entity_reason treshold index_for_kb2 urels nrels orels st e m :
  matched (h1 (match_entity treshold index_for_kb2 urels nrels orels st e) e) = Some m ->
  matched (h1 st e) = Some m
  \/ (used (h2 st m) = false
      /\ (shares (h1 st e) index_for_kb2 urels m
          \/ shares (h1 st e) index_for_kb2 nrels m)).
Proof.
  unfold match_entity.
  pose proof (match_by_unique_reason (h1 st e) (h2 st) index_for_kb2 urels) as Hu.
  destruct (match_by_unique (h1 st e) (h2 st) index_for_kb2 urels) as [m0|].
  - destruct (_checkUnique _ _ _ _).
    + simpl. rewrite fn_lookup_insert. simpl. intros [= <-].
      right. destruct Hu as [? ?]. split; [done|]. by left.
    + destruct (_getCheckUniqueErrorUriList _ _ _ _ _). simpl. auto.
  - rewrite match_names_h1. cbv zeta.
    pose proof (match_by_name_effect (h1 st e) (h2 st) index_for_kb2 nrels)
      as (_ & _ & Hc & _).
    destruct (match_by_name (h1 st e) (h2 st) index_for_kb2 nrels) as [cands h2a].
    simpl in *. destruct cands as [|c0 cs]; [auto|].
    destruct (choose_best _ _) as [best|] eqn:B; [|auto].
    destruct (_ <=? _)%Z; [|auto].
    rewrite fn_lookup_insert. simpl. intros [= <-]. right.
    apply choose_best_spec in B as [Hb _]. rewrite elem_of_set_iter in Hb.
    apply Hc in Hb as [? ?]. split; [done|]. by right.
Qed.

Lemma match_pairs_run treshold index_for_kb2 urels nrels orels st0 todo :
  forall st done,
  NoDup (done ++ todo) ->
  (forall e, e ∈ todo -> h1 st e = h1 st0 e) ->
  (forall e, e ∈ todo -> matched (h1 st0 e) = None) ->
  (forall x, used (h2 st0 x) = true -> used (h2 st x) = true) ->
  (forall e m, e ∈ done -> matched (h1 st e) = Some m ->
     used (h2 st0 m) = false
     /\ (shares (h1 st0 e) index_for_kb2 urels m
         \/ shares (h1 st0 e) index_for_kb2 nrels m)) ->
  let st' := foldl (match_entity treshold index_for_kb2 urels nrels orels) st todo in
  forall e m, e ∈ done ++ todo -> matched (h1 st' e) = Some m ->
    used (h2 st0 m) = false
    /\ (shares (h1 st0 e) index_for_kb2 urels m
        \/ shares (h1 st0 e) index_for_kb2 nrels m).
Proof.
  induction todo as [|e todo IH]; intros st done Hnd Htodo Hnone Hused Hdone; simpl.
  - intros e m He. rewrite app_nil_r in He. by apply Hdone.
  - replace (done ++ e :: todo) with ((done ++ [e]) ++ todo) in *
      by (by rewrite <- app_assoc).
    pose proof (match_entity_frame treshold index_for_kb2 urels nrels orels st e)
      as Hframe. cbv zeta in Hframe.
    assert ((e ∉ done) /\ (e ∉ todo)) as [Hed Het].
    { apply NoDup_app in Hnd as (Hnd1 & Hnd2 & _).
      apply NoDup_app in Hnd1 as (_ & Hnd1 & _). split.
      - intros Hin. apply (Hnd1 e Hin). by apply list_elem_of_singleton.
      - apply Hnd2. apply elem_of_app. right. by apply list_elem_of_singleton. }
    apply IH; [done| | | |].
    + intros x Hx. destruct (Hframe x) as (_ & _ & _ & _ & _ & _ & F).
      rewrite F by (by intros ->). apply Htodo. by right.
    + intros x Hx. apply Hnone. by right.
    + intros x Hx. destruct (Hframe x) as (_ & _ & _ & _ & _ & F & _). auto.
    + intros x m [Hx|Hx]%elem_of_app Hm.
      * destruct (Hframe x) as (_ & _ & _ & _ & _ & _ & F).
        rewrite F in Hm by (by intros ->). by apply Hdone.
      * apply list_elem_of_singleton in Hx as ->.
        apply match_entity_reason in Hm as [Hm|[Hu Hs]].
        -- rewrite Htodo, Hnone in Hm by left. done.
        -- rewrite Htodo in Hs by left. split; [|done].
           destruct (used (h2 st0 m)) eqn:E; [|done].
           apply Hused in E. congruence.
Qed.

End reason_facts.

(** X17. [match] pairs two records only for a reason: when no record of
    KB1 has a [matched] before, a record [m] that a record [e] of KB1 has as
    its [matched] after was not used before, and the index of KB2 holds it
    under a value, not empty, that [e] has in the field of a UNIQUE
    relation or of a NAME relation. *)
Theorem match_pairs_share `{R : Runtime} `{!RuntimeSpec R}
    (kb1_entities : list nat) (index_for_kb2 : Index) (relations : list Relation)
    (treshold : Z) (st : mstate) (e m : nat) :
  NoDup kb1_entities ->
  (forall x, x ∈ kb1_entities -> matched (h1 st x) = None) ->
  e ∈ kb1_entities ->
  matched (h1 (match_ kb1_entities index_for_kb2 relations treshold st) e) = Some m ->
  used (h2 st m) = false
  /\ (shares (h1 st e) index_for_kb2
        (filter (fun r => type r = UNIQUE) relations) m
      \/ shares (h1 st e) index_for_kb2
           (filter (fun r => type r <> UNIQUE /\ type r = NAME) relations) m).
Proof.
  intros Hnd Hnone He Hm. unfold match_ in Hm. cbv zeta in Hm.
  eapply (match_pairs_run treshold index_for_kb2 _ _ _ st kb1_entities st []);
    try done.
  intros x m' Hx. by apply elem_of_nil in Hx.
Qed.

Lemma match_pairs_share_witness :
  used (h2 (mkMstate TresholdExample.kb1_objs TresholdExample.kb2_objs
              (make_index_for_kb1 TresholdExample.kb1_objs [0; 1]
                 TresholdExample.relations) []) 0) = false
  /\ (shares (TresholdExample.kb1_objs 0)
        (make_index_for_kb2 TresholdExample.kb2_objs [0] TresholdExample.relations)
        (filter (fun r => type r = UNIQUE) TresholdExample.relations) 0
      \/ shares (TresholdExample.kb1_objs 0)
           (make_index_for_kb2 TresholdExample.kb2_objs [0] TresholdExample.relations)
           (filter (fun r => type r <> UNIQUE /\ type r = NAME)
                   TresholdExample.relations) 0).
Proof.
  apply (match_pairs_share (R := insertion_runtime) [0; 1]
           (make_index_for_kb2 TresholdExample.kb2_objs [0] TresholdExample.relations)
           TresholdExample.relations 1
           (mkMstate TresholdExample.kb1_objs TresholdExample.kb2_objs
              (make_index_for_kb1 TresholdExample.kb1_objs [0; 1]
                 TresholdExample.relations) []) 0 0).
  - apply (bool_decide_unpack _). vm_compute. exact I.
  - intros x Hx. apply elem_of_cons in Hx as [->|Hx]; [reflexivity|].
    apply list_elem_of_singleton in Hx as ->. reflexivity.
  - apply (bool_decide_unpack _). vm_compute. exact I.
  - vm_compute. reflexivity.
Defined.


(** *** [uniqifyList] and the order of a cluster *)

(** X18. [uniqifyList] with [order_preserving] keeps the first occurrence
    of each value and the order of what it keeps: the result has no
    repetition and the values of the list, it is the list with some
    elements left out, it begins as the list does, and a list without
    repetition comes back as it is. *)
Theorem uniqifyList_spec (seq : list string) :
  NoDup (uniqifyList seq)
  /\ (forall v, v ∈ uniqifyList seq <-> v ∈ seq)
  /\ uniqifyList seq `sublist_of` seq
  /\ head (uniqifyList seq) = head seq
  /\ uniqifyList (uniqifyList seq) = uniqifyList seq
  /\ (NoDup seq -> uniqifyList seq = seq).
Proof.
  unfold uniqifyList.
  destruct (uniqify_from_spec seq ∅) as (U1 & U2 & U3).
  split_and!; [done| |done| | |].
  - intros v. rewrite U2. set_solver.
  - destruct seq as [|x l]; [done|]. simpl. by rewrite decide_False by set_solver.
  - apply uniqify_from_fixed; [done|]. set_solver.
  - intros Hnd. apply uniqify_from_fixed; [done|]. set_solver.
Qed.

Lemma insert_desc_sorted (key : nat -> nat) x l :
  StronglySorted (fun a b => key b <= key a) l ->
  StronglySorted (fun a b => key b <= key a) (insert_desc key x l).
Proof.
  induction l as [|y l IH]; simpl; intros Hs.
  - repeat constructor.
  - apply StronglySorted_inv in Hs as [Hs Hy].
    destruct (key x <? key y) eqn:E.
    + apply Nat.ltb_lt in E. constructor; [by apply IH|].
      rewrite (insert_desc_perm key x l). constructor; [lia|done].
    + apply Nat.ltb_ge in E. constructor; [by constructor|].
      constructor; [done|]. eapply Forall_impl; [exact Hy|]. simpl. lia.
Qed.

Lemma insert_desc_stable (key : nat -> nat) (k : nat) x l :
  filter (fun y => key y = k) (insert_desc key x l)
  = filter (fun y => key y = k) (x :: l).
Proof.
  induction l as [|y l IH]; simpl; [done|].
  destruct (key x <? key y) eqn:E; [|done].
  apply Nat.ltb_lt in E. rewrite (filter_cons _ y), IH, !filter_cons.
  destruct (decide (key x = k)), (decide (key y = k)); try done. lia.
Qed.

(** X19. The sort of a cluster by [countNonEmptyFields], greatest first,
    rearranges the cluster so that no record comes before one with more
    non-empty fields, and it is stable: records with the same count stay in
    the order they came in.  The record a fusion copies, the first one, has
    the most non-empty fields of the cluster. *)
Theorem sort_desc_spec (key : nat -> nat) (matches : list nat) :
  sort_desc key matches ≡ₚ matches
  /\ StronglySorted (fun a b => key b <= key a) (sort_desc key matches)
  /\ (forall k, filter (fun y => key y = k) (sort_desc key matches)
                = filter (fun y => key y = k) matches)
  /\ (forall base x, head (sort_desc key matches) = Some base -> x ∈ matches ->
        key x <= key base).
Proof.
  assert (StronglySorted (fun a b => key b <= key a) (sort_desc key matches)) as Hs.
  { unfold sort_desc. induction matches as [|x l IH]; simpl; [constructor|].
    by apply insert_desc_sorted. }
  split_and!; [apply sort_desc_perm|done| |].
  - intros k. unfold sort_desc. induction matches as [|x l IH]; simpl; [done|].
    rewrite insert_desc_stable, !filter_cons.
    assert (StronglySorted (fun a b => key b <= key a) (foldr (insert_desc key) [] l))
      as Hl.
    { clear. induction l as [|x l IH]; simpl; [constructor|].
      by apply insert_desc_sorted. }
    rewrite (IH Hl). done.
  - intros base x Hhead Hx.
    destruct (sort_desc key matches) as [|b l] eqn:E; [done|].
    injection Hhead as ->.
    apply StronglySorted_inv in Hs as [_ Hall].
    rewrite <- (sort_desc_perm key matches), E in Hx.
    apply elem_of_cons in Hx as [->|Hx]; [done|].
    rewrite Forall_forall in Hall. by apply Hall.
Qed.

(** *** The size of a deduplicated KB *)

Section size_facts.
Context `{R : Runtime}.

Lemma insert_desc_not_nil (key : nat -> nat) x l : insert_desc key x l <> [].
Proof. destruct l; simpl; [done|]. by destruct (_ <? _). Qed.

Lemma dedup_entity_length fuel kb index id_fields st s st' :
  dedup_entity fuel kb index id_fields st s = Some (Return st') ->
  length (new_kb_entities st') <= S (length (new_kb_entities st)).
Proof.
  unfold dedup_entity. destruct (used (objs st s)); [intros [= <-]; lia|].
  destruct (_collectUniqueIds _ _ _ _ _ _) as [[c| |]|]; [|done..].
  destruct (gather_matches _ _ _) as [M| |]; [|done..]. simpl.
  destruct (1 <? length (set_iter M)).
  - intros [= ->%fuse_checked_Return].
    unfold fuse. destruct (sort_desc _ _); simpl; [lia|].
    rewrite length_app. simpl. lia.
  - intros [= <-]. simpl. rewrite length_app. simpl. lia.
Qed.

Lemma dedup_loop_length fuel kb index id_fields todo : forall st st',
  dedup_loop fuel kb index id_fields st todo = Some (Return st') ->
  length (new_kb_entities st') <= length (new_kb_entities st) + length todo.
Proof.
  induction todo as [|s todo IH]; intros st st'; simpl.
  - intros [= <-]. lia.
  - destruct (dedup_entity fuel kb index id_fields st s) as [[st1| |]|] eqn:E;
      [|done..].
    intros Hrun. apply IH in Hrun. apply dedup_entity_length in E. lia.
Qed.

End size_facts.

(** X20. A deduplication pass never makes a KB larger: the records it
    leaves are at most as many as the records it was given, so the number
    of removed entities it prints is not negative. *)
Theorem deduplicate_never_grows `{R : Runtime} (fuel : nat) (kb : KB) (h : heap)
    (fresh : nat) (kb_entities : list nat) (id_fields : list string)
    (blacklist : gset idpair) (d : dstate) :
  deduplicate fuel kb h fresh kb_entities id_fields blacklist = Some (Return d) ->
  length (new_kb_entities d) <= length kb_entities.
Proof.
  unfold deduplicate, _deduplicate.
  destruct (_make_index_checked _ _ _ _ _) as [index| |]; [|done..]. intros Hrun.
  apply dedup_loop_length in Hrun. simpl in Hrun. lia.
Qed.

Lemma deduplicate_never_grows_witness :
  exists d,
    deduplicate (R := insertion_runtime) 10 FuseExample.kb FuseExample.kb_objs 2
      FuseExample.kb_entities ["ID"] ∅ = Some (Return d)
    /\ length (new_kb_entities d) <= length FuseExample.kb_entities.
Proof.
  assert (exists d,
            deduplicate (R := insertion_runtime) 10 FuseExample.kb
              FuseExample.kb_objs 2 FuseExample.kb_entities ["ID"] ∅
            = Some (Return d)) as [d Hd].
  { eexists. vm_compute. reflexivity. }
  exists d. split; [exact Hd|].
  exact (deduplicate_never_grows (R := insertion_runtime) 10 FuseExample.kb
           FuseExample.kb_objs 2 FuseExample.kb_entities ["ID"] ∅ d Hd).
Defined.


(** *** The blacklist of a pass and the indexes of [match] *)

Lemma elem_of_blackdict_of_uniques (b : gset idpair) (field : nat) (value : string) :
  value ∈ blackdict_of_uniques b field <-> (field, value) ∈ b.
Proof.
  unfold blackdict_of_uniques. rewrite elem_of_map. split.
  - intros ([f v] & -> & Hin). apply elem_of_filter in Hin as [Hf Hin].
    simpl in *. by subst.
  - intros Hin. exists (field, value). split; [done|]. by apply elem_of_filter.
Qed.

Lemma feed_blacklist_image (kb_field : Relation -> nat) (b : gset idpair)
    (relations : list Relation) r :
  r ∈ relations ->
  exists r', r' ∈ feed_blacklist kb_field b relations
    /\ kb1_field r' = kb1_field r /\ kb2_field r' = kb2_field r
    /\ type r' = type r
    /\ blacklist r ⊆ blacklist r'
    /\ (type r = UNIQUE -> blackdict_of_uniques b (kb_field r) ⊆ blacklist r').
Proof.
  intros Hr. unfold feed_blacklist.
  eexists. split; [apply list_elem_of_fmap; by exists r|].
  case_decide as Hd; simpl.
  - split_and!; [done..|set_solver|set_solver].
  - split_and!; [done..|].
    intros Hu. destruct (decide (blackdict_of_uniques b (kb_field r) = ∅)) as [->|Hne].
    + set_solver.
    + destruct Hd. done.
Qed.

(** X21. What a deduplication pass has blacklisted in the field of a
    UNIQUE relation, [main] keeps out of both indexes of [match]: under a
    blacklisted value of that field, the index of KB1 and the index of KB2
    hold no record, so no two records are paired through it. *)
Theorem blacklisted_not_indexed (kb_field : Relation -> nat) (b : gset idpair)
    (relations : list Relation) (r : Relation) (value : string)
    (h1 h2 : heap) (kb1_entities kb2_entities : list nat) :
  r ∈ relations ->
  type r = UNIQUE ->
  (kb_field r, value) ∈ b ->
  index_get (make_index_for_kb1 h1 kb1_entities
               (feed_blacklist kb_field b relations)) (kb1_field r) value = []
  /\ index_get (make_index_for_kb2 h2 kb2_entities
                  (feed_blacklist kb_field b relations)) (kb2_field r) value = [].
Proof.
  intros Hr Hu Hb.
  destruct (feed_blacklist_image kb_field b relations r Hr)
    as (r' & Hr' & H1 & H2 & Ht & _ & Hfed).
  assert (value ∈ blacklist r') as Hv.
  { apply (Hfed Hu). by apply elem_of_blackdict_of_uniques. }
  assert (type r' <> OTHER) as Hno by (rewrite Ht, Hu; done).
  split; apply elem_of_nil_inv; intros x Hx;
    apply elem_of_make_index in Hx as (_ & _ & _ & Hx); apply Hx;
    apply elem_of_blackdict; by exists r'.
Qed.

Lemma blacklisted_not_indexed_witness :
  index_get (make_index_for_kb1 DedupExample.kb_objs DedupExample.kb_entities
               (feed_blacklist kb1_field {[ (0, "a") ]}
                  [mkRelation 0 0 UNIQUE ∅])) 0 "a" = []
  /\ index_get (make_index_for_kb2 DedupExample.kb_objs DedupExample.kb_entities
                  (feed_blacklist kb1_field {[ (0, "a") ]}
                     [mkRelation 0 0 UNIQUE ∅])) 0 "a" = [].
Proof.
  apply (blacklisted_not_indexed kb1_field {[ (0, "a") ]} [mkRelation 0 0 UNIQUE ∅]
           (mkRelation 0 0 UNIQUE ∅) "a").
  - apply list_elem_of_singleton. reflexivity.
  - reflexivity.
  - apply elem_of_singleton. reflexivity.
Defined.


(** *** A record that shares no identifier *)

Section solo.
Context `{R : Runtime} `{!RuntimeSpec R}.
Context (h : heap) (index : Index) (id_fields : list nat) (b : gset idpair) (s : nat).
Context (Halone : forall p, p ∈ _getIds id_fields (h s) (Some b) ->
                    index p.1 p.2 = Some [s]).

Lemma set_iter_singleton (x : nat) : set_iter [x] = [x].
Proof. apply Permutation_singleton_r. apply set_iter_perm. Qed.

Lemma collect_ids_stage (todo : list idpair) : forall cands cents,
  (forall p, p ∈ todo -> p ∈ _getIds id_fields (h s) (Some b)) ->
  collect_ids index (_getIds id_fields (h s) (Some b)) (mkPstate ∅ b cands cents) todo
  = Return (mkPstate ∅ b (cands ++ todo)
              (cents ++ ((fun p => (s, Some p)) <$> todo))).
Proof.
  induction todo as [|p todo IH]; intros cands cents Hin; simpl.
  - by rewrite !app_nil_r.
  - assert (p ∈ _getIds id_fields (h s) (Some b)) as Hp by (apply Hin; left).
    unfold collect_id. simpl.
    apply elem_of_getIds_Some in Hp as Hp'. destruct Hp' as [_ Hpb].
    rewrite decide_False by done.
    rewrite decide_False by apply not_elem_of_empty.
    rewrite decide_False.
    2: { intros (q & Hq & _). by apply not_elem_of_empty in Hq. }
    rewrite (Halone p Hp), set_iter_singleton. simpl.
    rewrite IH by (intros q Hq; apply Hin; by right).
    by rewrite <- !app_assoc.
Qed.

Lemma collect_ids_skip (cur_ids todo : list idpair) (st : pstate) :
  (forall p, p ∈ todo -> p ∈ p_dest st) ->
  (forall p, p ∈ todo -> p ∉ p_black st) ->
  collect_ids index cur_ids st todo = Return st.
Proof.
  induction todo as [|p todo IH]; intros Hd Hb; simpl; [done|].
  unfold collect_id. rewrite decide_False by (apply Hb; left).
  rewrite decide_True by (apply Hd; left). simpl.
  apply IH; intros q Hq; [apply Hd|apply Hb]; by right.
Qed.

Lemma collect_entity_first :
  collect_entity h index id_fields ∅ b [] s None
  = Return (mkCstate (list_to_set (_getIds id_fields (h s) (Some b))) b
              ((fun p => (s, Some p)) <$> _getIds id_fields (h s) (Some b))).
Proof.
  unfold collect_entity. simpl. rewrite collect_ids_stage by done. simpl.
  by rewrite union_empty_l_L.
Qed.

Lemma collect_entity_again fifo p :
  p ∈ _getIds id_fields (h s) (Some b) ->
  collect_entity h index id_fields (list_to_set (_getIds id_fields (h s) (Some b)))
    b fifo s (Some p)
  = Return (mkCstate (list_to_set (_getIds id_fields (h s) (Some b))) b fifo).
Proof.
  intros Hp. unfold collect_entity. simpl.
  apply elem_of_getIds_Some in Hp as Hp'. destruct Hp' as [_ Hpb].
  rewrite bool_decide_eq_false_2 by done.
  rewrite collect_ids_skip; simpl.
  - by rewrite union_empty_r_L, app_nil_r.
  - intros q Hq. by apply elem_of_list_to_set.
  - intros q Hq. apply elem_of_getIds_Some in Hq. tauto.
Qed.

Lemma collect_loop_again (q : list (nat * option idpair)) : forall fuel,
  (forall x, x ∈ q ->
     exists p, x = (s, Some p) /\ p ∈ _getIds id_fields (h s) (Some b)) ->
  length q <= fuel ->
  collect_loop fuel h index id_fields
    (mkCstate (list_to_set (_getIds id_fields (h s) (Some b))) b q)
  = Some (Return (mkCstate (list_to_set (_getIds id_fields (h s) (Some b))) b [])).
Proof.
  induction q as [|x q IH]; intros fuel Hq Hfuel.
  - by destruct fuel.
  - destruct (Hq x) as (p & -> & Hp); [by left|].
    destruct fuel as [|fuel]; [simpl in Hfuel; lia|]. simpl.
    rewrite collect_entity_again by done.
    apply IH; [|simpl in Hfuel; lia]. intros y Hy. apply Hq. by right.
Qed.

Lemma collectUniqueIds_alone fuel :
  length (_getIds id_fields (h s) (Some b)) < fuel ->
  _collectUniqueIds fuel h id_fields s index b
  = Some (Return (mkCstate (list_to_set (_getIds id_fields (h s) (Some b))) b [])).
Proof.
  intros Hfuel. unfold _collectUniqueIds.
  destruct fuel as [|fuel]; [lia|]. simpl.
  rewrite collect_entity_first. apply collect_loop_again.
  - intros x (p & -> & Hp)%list_elem_of_fmap. by exists p.
  - rewrite length_fmap. lia.
Qed.

Lemma gather_alone (ids : list idpair) : forall acc,
  (forall p, p ∈ ids -> index p.1 p.2 = Some [s]) ->
  acc = [] \/ acc = [s] ->
  exists M, gather_matches index ids acc = Return M /\ (M = [] \/ M = [s]).
Proof.
  induction ids as [|p ids IH]; intros acc Hids Hacc; simpl.
  - by exists acc.
  - rewrite (Hids p) by left. rewrite set_iter_singleton. simpl.
    apply IH; [intros q Hq; apply Hids; by right|].
    right. unfold set_add. destruct Hacc as [->| ->].
    + by rewrite decide_False by apply not_elem_of_nil.
    + by rewrite decide_True by left.
Qed.

Lemma dedup_entity_alone (kb : KB) (fresh : nat) (new : list nat) fuel :
  used (h s) = false ->
  length (_getIds id_fields (h s) (Some b)) < fuel ->
  dedup_entity fuel kb index id_fields (mkDstate h fresh b new) s
  = Some (Return (mkDstate h fresh b (new ++ [s]))).
Proof.
  intros Hu Hfuel. unfold dedup_entity. simpl. rewrite Hu.
  rewrite collectUniqueIds_alone by done. simpl.
  destruct (gather_alone
              (ids_in_key_order id_fields
                 (list_to_set (_getIds id_fields (h s) (Some b)))) [])
    as (M & -> & HM); [|by left|].
  { intros p [_ Hp]%elem_of_ids_in_key_order. apply Halone.
    by apply elem_of_list_to_set in Hp. }
  simpl. assert (length (set_iter M) <= 1) as Hlen.
  { rewrite (Permutation_length (set_iter_perm M)). destruct HM as [->| ->]; simpl; lia. }
  destruct (1 <? length (set_iter M)) eqn:E; [apply Nat.ltb_lt in E; lia|done].
Qed.

End solo.

Section solo_pass.
Context `{R : Runtime} `{!RuntimeSpec R}.

Lemma dedup_loop_alone (kb : KB) (h : heap) (index : Index) (id_fields : list nat)
    (b : gset idpair) (todo : list nat) :
  (forall s, s ∈ todo ->
     used (h s) = false
     /\ forall p, p ∈ _getIds id_fields (h s) (Some b) -> index p.1 p.2 = Some [s]) ->
  exists N, forall fuel, N <= fuel -> forall fresh new,
    dedup_loop fuel kb index id_fields (mkDstate h fresh b new) todo
    = Some (Return (mkDstate h fresh b (new ++ todo))).
Proof.
  induction todo as [|s todo IH]; intros Hall.
  - exists 0. intros fuel _ fresh new. simpl. by rewrite app_nil_r.
  - destruct IH as [N HN]; [intros x Hx; apply Hall; by right|].
    destruct (Hall s) as [Hu Hs]; [by left|].
    exists (N `max` S (length (_getIds id_fields (h s) (Some b)))).
    intros fuel Hfuel fresh new. simpl.
    rewrite (dedup_entity_alone h index id_fields b s Hs) by (done || lia).
    rewrite HN by lia. by rewrite <- app_assoc.
Qed.

Lemma index_entry_alone (l : list nat) (s : nat) :
  NoDup l -> (forall x, x ∈ l <-> x = s) -> l = [s].
Proof.
  intros Hnd Hl. destruct l as [|x l].
  - assert (s ∈ []) as Hs by (by apply Hl). by apply elem_of_nil in Hs.
  - assert (x = s) as -> by (apply Hl; left).
    destruct l as [|y l]; [done|].
    assert (y = s) as -> by (apply Hl; right; left).
    apply NoDup_cons in Hnd as [Hnd _]. destruct Hnd. left.
Qed.

End solo_pass.

(** X22. On a KB that has the columns of its schema and in which no two
    records have a value of an identifier field in common, a deduplication
    pass changes nothing: with fuel enough it returns, every record is
    kept, in the order of the KB, no record is fused or marked, no object
    is made and the blacklist is the one it was given. *)
Theorem deduplicate_without_duplicates `{R : Runtime} `{!RuntimeSpec R}
    (kb : KB) (h : heap) (fresh : nat) (kb_entities : list nat)
    (id_fields : list string) (blacklist : gset idpair) :
  columns_ok kb h kb_entities ->
  (forall x, x ∈ kb_entities -> used (h x) = false) ->
  (forall x y f v,
     x ∈ kb_entities -> y ∈ kb_entities ->
     f ∈ kb1_field <$> _getIdRelations kb id_fields ->
     v ∈ get_field (h x) f -> v ∈ get_field (h y) f -> x = y) ->
  exists N, forall fuel, N <= fuel ->
    deduplicate fuel kb h fresh kb_entities id_fields blacklist
    = Some (Return (mkDstate h fresh blacklist kb_entities)).
Proof.
  intros Hcols Hunused Hdistinct. unfold deduplicate, _deduplicate.
  rewrite make_index_checked_in_range; [| |apply Hcols].
  2: { intros r Hr. eapply getIdRelations_in_range; [apply Hcols|exact Hr]. }
  fold (make_index_for_kb1 h kb_entities (_getIdRelations kb id_fields)).
  set (index := make_index_for_kb1 h kb_entities (_getIdRelations kb id_fields)).
  set (fields := set_iter (remove_dups (kb1_field <$>
         filter (fun r => type r = UNIQUE) (_getIdRelations kb id_fields)))).
  destruct (dedup_loop_alone kb h index fields blacklist kb_entities) as [N HN].
  { intros s Hs. split; [by apply Hunused|]. intros [f v] Hp.
    apply elem_of_getIds_Some in Hp as [[Hf Hv] _]. simpl in *.
    assert (index_get index f v = [s]) as Hentry.
    { apply index_entry_alone; [apply NoDup_make_index|].
      intros x. unfold index. rewrite id_index_spec. fold fields. split.
      - intros (Hx & _ & Hxv). apply (Hdistinct x s f v); try done.
        unfold fields in Hf. rewrite set_iter_perm, elem_of_remove_dups in Hf.
        by rewrite id_filter_unique in Hf.
      - intros ->. done. }
    unfold index_get in Hentry. destruct (index f v); simpl in Hentry; congruence. }
  exists N. intros fuel Hfuel. by rewrite HN.
Qed.

Lemma deduplicate_without_duplicates_witness :
  exists N, forall fuel, N <= fuel ->
    deduplicate (R := insertion_runtime) fuel FuseExample.kb SoloExample.kb_objs 2
      SoloExample.kb_entities ["ID"] ∅
    = Some (Return (mkDstate SoloExample.kb_objs 2 ∅ SoloExample.kb_entities)).
Proof.
  apply (deduplicate_without_duplicates (R := insertion_runtime)).
  - split.
    + intros key f Hf. unfold FuseExample.kb in Hf. cbn [fields field_count] in *.
      apply lookup_insert_Some in Hf as [[_ <-]|[_ Hf]]; [simpl; lia|].
      apply lookup_singleton_Some in Hf as [_ <-]. simpl. lia.
    + intros x Hx. unfold SoloExample.kb_entities in Hx.
      apply elem_of_cons in Hx as [->|Hx]; [reflexivity|].
      apply list_elem_of_singleton in Hx as ->. reflexivity.
  - intros x Hx. unfold SoloExample.kb_entities in Hx.
    apply elem_of_cons in Hx as [->|Hx]; [reflexivity|].
    apply list_elem_of_singleton in Hx as ->. reflexivity.
  - intros x y f v Hx Hy Hf Hv Hv'.
    change (kb1_field <$> _getIdRelations FuseExample.kb ["ID"]) with [0] in Hf.
    apply list_elem_of_singleton in Hf as ->.
    unfold SoloExample.kb_entities in Hx, Hy.
    apply elem_of_cons in Hx as [->|Hx]; [|apply list_elem_of_singleton in Hx as ->];
      (apply elem_of_cons in Hy as [->|Hy]; [|apply list_elem_of_singleton in Hy as ->]);
      try reflexivity;
      change (get_field (SoloExample.kb_objs 0) 0) with ["a"] in *;
      change (get_field (SoloExample.kb_objs 1) 0) with ["b"] in *;
      apply list_elem_of_singleton in Hv, Hv'; congruence.
Defined.


(** *** Every record of KB2 is written once *)

Section rest_facts.
Context `{R : Runtime} `{!RuntimeSpec R}.

(** [main] up to the end of [match], as one call of [match] on two KBs
    that are as good as loaded. *)
Lemma main_match_unfold (fuel : nat) (args : Args) (kb1 kb2 : KB) (l1 l2 : Loaded)
    (relations : list Relation) (m : Matched) :
  freshly_loaded l1 -> freshly_loaded l2 ->
  main_match fuel args kb1 kb2 l1 l2 relations = Some (Return m) ->
  exists l1' l2' rels,
    freshly_loaded l1' /\ freshly_loaded l2'
    /\ m_kb1_entities m = l_entities l1' /\ m_kb2_entities m = l_entities l2'
    /\ m_state m
       = match_ (l_entities l1')
           (make_index_for_kb2 (l_objs l2') (l_entities l2') rels) rels
           (treshold args)
           (mkMstate (l_objs l1') (l_objs l2')
              (make_index_for_kb1 (l_objs l1') (l_entities l1') rels) []).
Proof.
  intros Hl1 Hl2. unfold main_match.
  destruct (dedup_step fuel (deduplicate_kb1 args) kb1 l1 (id_fields args)
              kb1_field relations) as [[[l1' rel1]| |]|] eqn:E1; try done.
  destruct (dedup_step fuel (deduplicate_kb2 args) kb2 l2 (id_fields args)
              kb2_field rel1) as [[[l2' rel2]| |]|] eqn:E2; try done.
  destruct (_make_index_checked (l_objs l1') _ _ _ _) as [i1| |] eqn:I1; [|done..].
  destruct (_make_index_checked (l_objs l2') _ _ _ _) as [i2| |] eqn:I2; [|done..].
  apply make_index_checked_Return in I1 as ->.
  apply make_index_checked_Return in I2 as ->.
  cbn [obind].
  destruct (match_checked _ _ _ _ _) as [st'| |] eqn:M; [|done..].
  apply match_checked_Return in M as ->.
  intros [= <-]. simpl.
  apply (dedup_step_spec _ _ _ _ _ _ Hl1) in E1.
  apply (dedup_step_spec _ _ _ _ _ _ Hl2) in E2.
  by exists l1', l2', rel2.
Qed.

Lemma elem_of_matched_pairs (h : heap) (kb1_entities : list nat) e x :
  (e, x) ∈ matched_pairs h kb1_entities
  <-> e ∈ kb1_entities /\ matched (h e) = Some x.
Proof.
  unfold matched_pairs. rewrite list_elem_of_omap. split.
  - intros (e' & He & Hm). destruct (matched (h e')) as [m|] eqn:E; [|done].
    simpl in Hm. injection Hm as -> ->. done.
  - intros [He Hm]. exists e. split; [done|]. by rewrite Hm.
Qed.

Lemma matched_pairs_targets (h : heap) (kb1_entities : list nat) :
  NoDup kb1_entities ->
  (forall e e' x, e ∈ kb1_entities -> e' ∈ kb1_entities ->
     matched (h e) = Some x -> matched (h e') = Some x -> e = e') ->
  NoDup (matched_pairs h kb1_entities).*2.
Proof.
  intros Hnd Hinj. induction kb1_entities as [|e l IH]; [constructor|].
  apply NoDup_cons in Hnd as [He Hnd].
  unfold matched_pairs. simpl. destruct (matched (h e)) as [x|] eqn:E; simpl.
  - constructor.
    + intros Hin. apply list_elem_of_fmap in Hin as ([e' x'] & -> & Hin).
      apply elem_of_matched_pairs in Hin as [He' Hm]. simpl in *.
      assert (e = e'); [|by subst].
      apply (Hinj e e' x'); [by left|by right|done..].
    + apply IH; [done|]. intros e1 e2 x1 ? ? ? ?. apply (Hinj e1 e2 x1); by try right.
  - apply IH; [done|]. intros e1 e2 x1 ? ? ? ?. apply (Hinj e1 e2 x1); by try right.
Qed.

End rest_facts.

(** X25. At the end of [main]'s matching every record of KB2 is accounted
    for once: the pairs [match] has made and the records [generate_rest]
    writes to the second output are together as many as the records of
    KB2; the record of a pair is a record of KB2 and is not written by
    [generate_rest], and a record that is in no pair is. *)
Theorem pipeline_accounts_for_kb2 `{R : Runtime} `{!RuntimeSpec R}
    (fuel : nat) (args : Args) (kb1 kb2 : KB) (l1 l2 : Loaded)
    (relations : list Relation) (m : Matched) :
  freshly_loaded l1 -> freshly_loaded l2 ->
  main_match fuel args kb1 kb2 l1 l2 relations = Some (Return m) ->
  length (matched_pairs (h1 (m_state m)) (m_kb1_entities m))
  + length (generate_rest (h2 (m_state m)) (m_kb2_entities m))
  = length (m_kb2_entities m)
  /\ (forall e x, (e, x) ∈ matched_pairs (h1 (m_state m)) (m_kb1_entities m) ->
        x ∈ m_kb2_entities m /\ used (h2 (m_state m) x) = true)
  /\ (forall x, x ∈ m_kb2_entities m ->
        used (h2 (m_state m) x) = false
        <-> forall e, (e, x) ∉ matched_pairs (h1 (m_state m)) (m_kb1_entities m)).
Proof.
  intros Hl1 Hl2 Hrun.
  destruct (main_match_unfold fuel args kb1 kb2 l1 l2 relations m Hl1 Hl2 Hrun)
    as (l1' & l2' & rels & (Hnd1 & Hnew1 & _) & (Hnd2 & Hnew2 & _) & E1 & E2 & Est).
  rewrite E1, E2, Est.
  set (index2 := make_index_for_kb2 (l_objs l2') (l_entities l2') rels).
  set (st0 := mkMstate (l_objs l1') (l_objs l2')
                (make_index_for_kb1 (l_objs l1') (l_entities l1') rels) []).
  set (st := match_ (l_entities l1') index2 rels (treshold args) st0).
  assert (match_inv st0 st (l_entities l1') []) as Hinv.
  { unfold st, match_. apply (match_inv_run _ _ _ _ _ _ _ _ []); [done|].
    apply match_inv_start. intros e He. simpl.
    by destruct (Hnew1 e He) as (? & ? & _). }
  destruct Hinv as (_ & _ & I3 & I4 & I5 & _).
  assert (forall e x, e ∈ l_entities l1' -> matched (h1 st e) = Some x ->
            x ∈ l_entities l2') as Htarget.
  { intros e x He Hm.
    destruct (match_pairs_run (treshold args) index2
                (filter (fun r => type r = UNIQUE) rels)
                (filter (fun r => type r <> UNIQUE /\ type r = NAME) rels)
                (filter (fun r => type r <> UNIQUE /\ type r <> NAME) rels)
                st0 (l_entities l1') st0 [] Hnd1) with (e := e) (m := x)
      as [_ [Hs|Hs]]; try done.
    - intros y Hy. simpl. by destruct (Hnew1 y Hy) as (_ & ? & _).
    - intros y m' Hy. by apply elem_of_nil in Hy.
    - destruct Hs as (r & v & _ & _ & _ & Hx).
      by apply elem_of_make_index in Hx as [? _].
    - destruct Hs as (r & v & _ & _ & _ & Hx).
      by apply elem_of_make_index in Hx as [? _]. }
  assert (forall x, x ∈ l_entities l2' ->
            used (h2 st x) = true
            <-> x ∈ (matched_pairs (h1 st) (l_entities l1')).*2) as Hused.
  { intros x Hx. rewrite list_elem_of_fmap. split.
    - intros Hu. destruct (I5 x) as (e & He & Hm); [|done|].
      + simpl. by destruct (Hnew2 x Hx) as (? & _).
      + exists (e, x). split; [done|]. by apply elem_of_matched_pairs.
    - intros ([e x'] & -> & Hin). apply elem_of_matched_pairs in Hin as [He Hm].
      by destruct (I3 e x' He Hm). }
  split_and!.
  - unfold generate_rest. rewrite length_fmap.
    assert ((matched_pairs (h1 st) (l_entities l1')).*2
            ≡ₚ filter (fun x => used (h2 st x) = true) (l_entities l2')) as Hperm.
    { apply NoDup_Permutation.
      - apply matched_pairs_targets; [done|]. intros e e' x ? ? ? ?. by apply (I4 e e' x).
      - by apply NoDup_filter.
      - intros x. rewrite list_elem_of_filter. split.
        + intros Hin. apply list_elem_of_fmap in Hin as Hin'.
          destruct Hin' as ([e x'] & -> & Hpair).
          apply elem_of_matched_pairs in Hpair as [He Hm]. simpl.
          assert (x' ∈ l_entities l2') as Hx by (by eapply Htarget).
          split; [|done]. by apply Hused.
        + intros [Hu Hx]. by apply Hused. }
    rewrite <- (length_fmap snd), (Permutation_length Hperm).
    pose proof (Permutation_length
                  (filter_app_complement (fun x => used (h2 st x) = true)
                     (l_entities l2'))) as Hlen.
    rewrite length_app in Hlen. rewrite <- Hlen. f_equal. f_equal.
    apply list_filter_iff. intros x. by destruct (used (h2 st x)).
  - intros e x Hin. apply elem_of_matched_pairs in Hin as [He Hm].
    split; [by eapply Htarget|]. by destruct (I3 e x He Hm).
  - intros x Hx. split.
    + intros Hu e Hin. apply elem_of_matched_pairs in Hin as [He Hm].
      destruct (I3 e x He Hm). congruence.
    + intros Hno. destruct (used (h2 st x)) eqn:Hu; [|done].
      apply Hused in Hu; [|done].
      apply list_elem_of_fmap in Hu as ([e x'] & -> & Hin). by destruct (Hno e).
Qed.

Lemma freshly_loaded_new (ds : list (list (list string))) :
  freshly_loaded (loaded_kb (new_entity <$> ds)).
Proof.
  unfold freshly_loaded, loaded_kb. simpl. split_and!.
  - apply NoDup_seq.
  - intros x Hx. apply elem_of_seq in Hx as [_ Hx]. simpl in Hx.
    rewrite length_fmap in Hx. unfold heap_of. rewrite list_lookup_fmap.
    destruct (lookup_lt_is_Some_2 ds x Hx) as [d ->]. done.
  - intros x Hx. apply elem_of_seq in Hx. lia.
Qed.

Lemma pipeline_accounts_for_kb2_witness :
  exists m,
    main_match (R := insertion_runtime) 5 RestExample.args RestExample.kb1
      RestExample.kb2 RestExample.l1 RestExample.l2 RestExample.relations
    = Some (Return m)
    /\ length (matched_pairs (h1 (m_state m)) (m_kb1_entities m))
       + length (generate_rest (h2 (m_state m)) (m_kb2_entities m))
       = length (m_kb2_entities m).
Proof.
  assert (exists m,
            main_match (R := insertion_runtime) 5 RestExample.args RestExample.kb1
              RestExample.kb2 RestExample.l1 RestExample.l2 RestExample.relations
            = Some (Return m)) as [m Hm].
  { eexists. vm_compute. reflexivity. }
  exists m. split; [exact Hm|].
  apply (pipeline_accounts_for_kb2 (R := insertion_runtime) 5 RestExample.args
           RestExample.kb1 RestExample.kb2 RestExample.l1 RestExample.l2
           RestExample.relations m
           (freshly_loaded_new [[["1"]]])
           (freshly_loaded_new [[["1"]]; [["2"]]]) Hm).
Defined.


(** *** The cell of a matched record *)

Section cell_facts.
Context `{R : Runtime} `{!RuntimeSpec R}.

Lemma uniqify_set_spec (seq : list string) :
  NoDup (uniqify_set seq) /\ forall v, v ∈ uniqify_set seq <-> v ∈ seq.
Proof.
  unfold uniqify_set, uniqifyList.
  destruct (uniqify_from_spec seq ∅) as (U1 & U2 & _). split.
  - by rewrite str_iter_perm.
  - intros v. rewrite str_iter_perm, U2. set_solver.
Qed.

Lemma get_field_checked_in_range (e : Entity) (n : nat) :
  n < length (data e) -> get_field_checked e n = Return (get_field e n).
Proof.
  intros Hn. unfold get_field_checked.
  by rewrite (proj2 (Nat.ltb_lt _ _) Hn).
Qed.

Lemma get_field_in_range (e : Entity) (n : nat) :
  get_field e n <> [] -> n < length (data e).
Proof.
  unfold get_field. rewrite list_lookup_total_alt. intros Hne.
  destruct (data e !! n) eqn:E; [by eapply lookup_lt_Some|done].
Qed.

Lemma extend_from_matched (h2 : heap) (line : Entity) (m n : nat)
    (relations : list Relation) :
  matched line = Some m ->
  (forall r, r ∈ relations -> kb1_field r = n ->
     kb2_field r < length (data (h2 m))) ->
  forall possible, exists possible',
    foldl (fun possible relation =>
             if decide (kb1_field relation = n)
             then obind possible (extend_matched h2 line (kb2_field relation))
             else possible)
          (Return possible) relations = Return possible'
    /\ forall v, v ∈ possible'
         <-> v ∈ possible
             \/ exists r, r ∈ relations /\ kb1_field r = n
                  /\ v ∈ get_field (h2 m) (kb2_field r).
Proof.
  intros Hm Hrange. induction relations as [|r rels IH]; intros possible; simpl.
  - exists possible. split; [done|]. intros v. split; [auto|].
    by intros [?|(r & ?%elem_of_nil & _)].
  - assert (forall r', r' ∈ rels -> kb1_field r' = n ->
              kb2_field r' < length (data (h2 m))) as Hrange'.
    { intros r' Hr'. apply Hrange. by right. }
    specialize (IH Hrange').
    case_decide as Hr.
    + unfold extend_matched at 2. simpl. rewrite Hm.
      rewrite get_field_checked_in_range by (apply Hrange; [by left|done]).
      simpl.
      destruct (IH (possible ++ get_field (h2 m) (kb2_field r))) as (p' & -> & Hp').
      exists p'. split; [done|]. intros v. rewrite Hp', elem_of_app. split.
      * intros [[?|?]|(r' & ? & ? & ?)]; [auto| |].
        -- right. exists r. split; [by left|done].
        -- right. exists r'. split; [by right|done].
      * intros [?|(r' & [->|?]%elem_of_cons & ? & ?)]; [auto|auto|].
        right. by exists r'.
    + destruct (IH possible) as (p' & -> & Hp'). exists p'. split; [done|].
      intros v. rewrite Hp'. split.
      * intros [?|(r' & ? & ? & ?)]; [auto|]. right. exists r'. split; [by right|done].
      * intros [?|(r' & [->|?]%elem_of_cons & ? & ?)]; [auto|done|].
        right. by exists r'.
Qed.

End cell_facts.

(** X23. For a record of KB1 that is matched, the cell of a field of KB1
    that may hold several values has each value once that the record has in
    the field or that the matched record of KB2 has in the field a relation
    pairs with it, and nothing else; the ID counter and standard output are
    left as they were.  The field is a column of the record, and the fields
    the relations pair with it are columns of the matched record. *)
Theorem used_cell_merges `{R : Runtime} `{!RuntimeSpec R} (prefix : string)
    (kb1 kb2 : KB) (h2 : heap) (relations : list Relation) (line : Entity)
    (fieldname : string) (ff : Field) (m : nat) (st : nat * list out_line) :
  String.eqb fieldname "ID" = false ->
  Str.startswith (String QUOTE EmptyString) fieldname = false ->
  Str.startswith (name kb1) fieldname = true ->
  fields kb1 !! fieldname = Some ff ->
  multiple ff = true ->
  matched line = Some m ->
  order_num ff < length (data line) ->
  (forall r, r ∈ relations -> kb1_field r = order_num ff ->
     kb2_field r < length (data (h2 m))) ->
  exists possible,
    used_cell prefix kb1 kb2 h2 relations line (Some fieldname) st
    = (Return possible, st)
    /\ NoDup possible
    /\ forall v, v ∈ possible
         <-> v ∈ get_field line (order_num ff)
             \/ exists r, r ∈ relations /\ kb1_field r = order_num ff
                  /\ v ∈ get_field (h2 m) (kb2_field r).
Proof.
  intros Hid Hq Hkb1 Hff Hmul Hm Hcol Hcols. unfold used_cell. rewrite Hid, Hq.
  unfold field_values. rewrite Hkb1, Hff, Hmul. unfold extend_line.
  rewrite get_field_checked_in_range by done. simpl.
  destruct (extend_from_matched h2 line m (order_num ff) relations Hm Hcols
              (get_field line (order_num ff))) as (p' & -> & Hp').
  simpl. destruct (uniqify_set_spec p') as [U1 U2].
  exists (uniqify_set p'). destruct st. split_and!; [done..|].
  intros v. by rewrite U2, Hp'.
Qed.

Lemma used_cell_merges_witness :
  exists possible,
    used_cell (R := insertion_runtime) "p" LoadExample.kb OutputExample.kb2
      (heap_of [new_entity [["1"]]]) [mkRelation 1 0 NAME ∅]
      (mkEntity [["a"]; ["n1"]] 0 true (Some 0)) (Some "k.NAME") (0, [])
    = (Return possible, (0, []))
    /\ NoDup possible
    /\ forall v, v ∈ possible
         <-> v ∈ get_field (mkEntity [["a"]; ["n1"]] 0 true (Some 0)) 1
             \/ exists r, r ∈ [mkRelation 1 0 NAME ∅] /\ kb1_field r = 1
                  /\ v ∈ get_field (heap_of [new_entity [["1"]]] 0) (kb2_field r).
Proof.
  apply (used_cell_merges (R := insertion_runtime) "p" LoadExample.kb
           OutputExample.kb2 (heap_of [new_entity [["1"]]]) [mkRelation 1 0 NAME ∅]
           (mkEntity [["a"]; ["n1"]] 0 true (Some 0)) "k.NAME" (mkField 1 true) 0
           (0, [])); try reflexivity.
  - simpl. lia.
  - intros r Hr _. apply list_elem_of_singleton in Hr as ->. simpl. lia.
Defined.

(** X24. For a field of KB1 that holds one value, the record of KB1 has
    the say: when it has a value in the field, the cell is one of its own
    values, and the record matched with it is not looked at, so the cell is
    rendered even for a record that has no [matched]. *)
Theorem used_cell_single_value `{R : Runtime} `{!RuntimeSpec R} (prefix : string)
    (kb1 kb2 : KB) (h2 : heap) (relations : list Relation) (line : Entity)
    (fieldname : string) (ff : Field) (st : nat * list out_line) :
  String.eqb fieldname "ID" = false ->
  Str.startswith (String QUOTE EmptyString) fieldname = false ->
  Str.startswith (name kb1) fieldname = true ->
  fields kb1 !! fieldname = Some ff ->
  multiple ff = false ->
  get_field line (order_num ff) <> [] ->
  exists v,
    used_cell prefix kb1 kb2 h2 relations line (Some fieldname) st
    = (Return [v], st)
    /\ v ∈ get_field line (order_num ff).
Proof.
  intros Hid Hq Hkb1 Hff Hmul Hne. unfold used_cell. rewrite Hid, Hq.
  unfold field_values. rewrite Hkb1, Hff, Hmul. unfold extend_line.
  rewrite get_field_checked_in_range by (by apply get_field_in_range). simpl.
  destruct (get_field line (order_num ff)) as [|v0 l] eqn:E; [done|]. simpl.
  destruct (uniqify_set_spec (v0 :: l)) as [U1 U2].
  destruct (uniqify_set (v0 :: l)) as [|v [|v' l']] eqn:Eu.
  - exfalso. assert (v0 ∈ []) as Hin by (apply U2; left). by apply elem_of_nil in Hin.
  - exists v. destruct st. simpl. split; [done|]. apply U2. left.
  - exists v. destruct st. simpl. split; [done|]. apply U2. left.
Qed.

Lemma used_cell_single_value_witness :
  exists v,
    used_cell (R := insertion_runtime) "p" LoadExample.kb OutputExample.kb2
      (heap_of []) [mkRelation 0 0 UNIQUE ∅]
      (mkEntity [["a"]; ["n1"]] 0 true None) (Some "k.ID") (0, [])
    = (Return [v], (0, []))
    /\ v ∈ get_field (mkEntity [["a"]; ["n1"]] 0 true None) 0.
Proof.
  apply (used_cell_single_value (R := insertion_runtime) "p" LoadExample.kb
           OutputExample.kb2 (heap_of []) [mkRelation 0 0 UNIQUE ∅]
           (mkEntity [["a"]; ["n1"]] 0 true None) "k.ID" (mkField 0 false) (0, []));
    try reflexivity.
  discriminate.
Defined.

(** *** One line for each record *)

Section line_facts.
Context `{R : Runtime}.

Lemma generate_line_length cell (fieldnames : list (option string)) :
  forall generated_line st g st',
  generate_line cell fieldnames generated_line st = (Return g, st') ->
  length g = length generated_line + length fieldnames.
Proof.
  induction fieldnames as [|f fs IH]; intros acc st g st'; simpl.
  - intros [= <- _]. lia.
  - destruct (cell f st) as [[possible| |] st1]; [|done..].
    intros Hrun. apply IH in Hrun. rewrite length_app in Hrun. simpl in Hrun. lia.
Qed.

Lemma make_output_kb1_lines prefix kb1 kb2 (h1 h2 : heap) relations
    output_fields other_output_fields (kb1_entities : list nat) :
  forall st st',
  make_output_kb1 prefix kb1 kb2 h1 h2 relations output_fields other_output_fields
    kb1_entities st = (Return (), st') ->
  exists lines,
    output_fd st' = output_fd st ++ lines
    /\ Forall2 (fun e line =>
                  length line
                  = length (if used (h1 e) then output_fields
                            else other_output_fields))
               kb1_entities lines.
Proof.
  induction kb1_entities as [|e l IH]; intros st st'; simpl.
  - intros [= <-]. exists []. by rewrite app_nil_r.
  - destruct (generate_line _ _ _ _) as [[g| |] [n out]] eqn:E; [|done..].
    intros Hrun. apply IH in Hrun as (lines & Hfd & Hall). simpl in Hfd.
    exists (g :: lines). split; [by rewrite Hfd, <- app_assoc|].
    constructor; [|done]. apply generate_line_length in E. simpl in E.
    by destruct (used (h1 e)).
Qed.

End line_facts.

(** X27. When the loop of [make_output] over KB1 returns, it has written
    one line for each record of KB1, in the order of the KB, after what the
    file held: a line of as many cells as the output template has fields
    for a record that is used, and as the other template has for one that
    is not. *)
Theorem make_output_one_line_each `{R : Runtime} (prefix : string) (kb1 kb2 : KB)
    (h1 h2 : heap) (relations : list Relation)
    (output_fields other_output_fields : list (option string))
    (kb1_entities : list nat) (st st' : ostate) :
  make_output_kb1 prefix kb1 kb2 h1 h2 relations output_fields other_output_fields
    kb1_entities st = (Return (), st') ->
  exists lines,
    output_fd st' = output_fd st ++ lines
    /\ length lines = length kb1_entities
    /\ forall i e line, kb1_entities !! i = Some e -> lines !! i = Some line ->
         length line = length (if used (h1 e) then output_fields
                               else other_output_fields).
Proof.
  intros Hrun. apply make_output_kb1_lines in Hrun as (lines & Hfd & Hall).
  exists lines. split_and!; [done|symmetry; exact (Forall2_length _ _ _ Hall)|].
  intros i e line He Hl. exact (Forall2_lookup_lr _ _ _ _ _ _ Hall He Hl).
Qed.

Lemma make_output_one_line_each_witness :
  exists lines,
    output_fd (mkOstate 1 [[["p:0000000000"]; ["2"]]] [])
    = output_fd OutputExample.start ++ lines
    /\ length lines = length [1]
    /\ forall i e line, [1] !! i = Some e -> lines !! i = Some line ->
         length line = length (if used (OutputExample.kb1_objs e)
                               then OutputExample.output_fields
                               else OutputExample.other_output_fields).
Proof.
  apply (make_output_one_line_each (R := insertion_runtime) "p" OutputExample.kb1
           OutputExample.kb2 OutputExample.kb1_objs OutputExample.kb2_objs
           OutputExample.relations OutputExample.output_fields
           OutputExample.other_output_fields [1] OutputExample.start).
  vm_compute. reflexivity.
Defined.


(** *** Reading back what [generate_rest] writes *)

Lemma count_app (c : ascii) (a b : string) :
  Str.count c (a +:+ b) = Str.count c a + Str.count c b.
Proof.
  induction a as [|x a IH]; [done|]. rewrite app_cons. simpl. rewrite IH. lia.
Qed.

Lemma join_cons (sep x y : string) (l : list string) :
  Str.join sep (x :: y :: l) = x +:+ (sep +:+ Str.join sep (y :: l)).
Proof. reflexivity. Qed.

Lemma count_join (c : ascii) (sep : string) (l : list string) :
  Str.count c sep = 0 -> Forall (fun s => Str.count c s = 0) l ->
  Str.count c (Str.join sep l) = 0.
Proof.
  intros Hsep. induction 1 as [|x l Hx Hl IH]; [done|].
  destruct l as [|y l]; [done|].
  rewrite join_cons, !count_app, Hx, Hsep, IH. done.
Qed.

Lemma split_join (c : ascii) (l : list string) :
  l <> [] -> Forall (fun s => Str.count c s = 0) l ->
  Str.split c (Str.join (String c EmptyString) l) = l.
Proof.
  intros Hne Hall. induction Hall as [|x l Hx Hl IH]; [done|].
  destruct l as [|y l]; [by apply split_no_sep|].
  rewrite join_cons, app_cons, app_nil, split_app_sep by done.
  by rewrite IH.
Qed.

Lemma split_on_char (c : ascii) (s : string) :
  Str.split_on (String c EmptyString) s = Str.split c s.
Proof.
  unfold Str.split_on. induction s as [|a s IH]; [done|].
  cbn [Str.split_from Str.split String.prefix String.length].
  destruct (ascii_dec c a) as [->|Hne].
  - rewrite decide_True by done.
    assert (String.prefix "" s = true) as -> by (by destruct s).
    simpl. by rewrite IH.
  - rewrite decide_False by congruence. by rewrite IH.
Qed.

Lemma rstrip_newline (s : string) :
  Str.count Str.CR s = 0 -> Str.count Str.LF s = 0 ->
  Str.rstrip_chars [Str.CR; Str.LF] (s +:+ String Str.LF EmptyString) = s.
Proof.
  induction s as [|a s IH]; [done|].
  rewrite app_cons. cbn [Str.rstrip_chars Str.count].
  destruct (decide (a = Str.CR)) as [->|Hcr]; [done|].
  destruct (decide (a = Str.LF)) as [->|Hlf]; [done|].
  simpl. intros H1 H2. rewrite IH by done.
  destruct s; [|done].
  rewrite bool_decide_eq_false_2; [done|].
  intros [?|[?|?%elem_of_nil]%elem_of_cons]%elem_of_cons; done.
Qed.

Lemma split_lines_app_newline (s t : string) :
  Str.count Str.LF s = 0 ->
  Str.split_lines ((s +:+ String Str.LF EmptyString) +:+ t)
  = (s +:+ String Str.LF EmptyString) :: Str.split_lines t.
Proof.
  induction s as [|a s IH].
  - intros _. rewrite !app_nil, app_cons, app_nil. cbn [Str.split_lines].
    by destruct (decide (Str.LF = Str.LF)).
  - rewrite !app_cons. cbn [Str.split_lines Str.count].
    destruct (decide (a = Str.LF)); [done|]. simpl. intros H. by rewrite IH.
Qed.

(** A text without carriage return is read as it is. *)
Lemma universal_newlines_app (s t : string) :
  Str.count Str.CR s = 0 ->
  Str.universal_newlines (s +:+ t) = s +:+ Str.universal_newlines t.
Proof.
  induction s as [|a s IH]; [by rewrite app_nil|].
  rewrite !app_cons. cbn [Str.universal_newlines Str.count].
  destruct (decide (a = Str.CR)) as [->|Hne]; simpl; [lia|].
  intros H. by rewrite IH.
Qed.

Lemma lines_app_newline (s t : string) :
  Str.count Str.CR s = 0 -> Str.count Str.LF s = 0 ->
  Str.lines ((s +:+ String Str.LF EmptyString) +:+ t)
  = (s +:+ String Str.LF EmptyString) :: Str.lines t.
Proof.
  intros Hcr Hlf. unfold Str.lines. rewrite universal_newlines_app.
  - by apply split_lines_app_newline.
  - rewrite count_app, Hcr. reflexivity.
Qed.

Section round_trip.
Context `{R : Runtime} `{!RuntimeSpec R}.

Lemma init_cell_join (values : list string) :
  Forall plain_value values -> NoDup values ->
  init_cell "|" (Str.join "|" values) ≡ₚ values.
Proof.
  intros Hplain Hnd. unfold init_cell. rewrite str_iter_perm.
  change "|"%string with (String "|"%char EmptyString) at 1 2.
  rewrite split_on_char.
  destruct values as [|v l]; [done|].
  rewrite split_join; [|done|].
  2: { eapply Forall_impl; [exact Hplain|]. by intros x (_ & _ & _ & ? & _). }
  assert (Str.strip <$> (v :: l) = v :: l) as ->.
  { clear Hnd. induction Hplain as [|x k (_ & Hx & _) _ IH]; [done|].
    rewrite fmap_cons, Hx. by f_equal. }
  unfold uniqifyList. rewrite uniqify_from_fixed; [|done|set_solver].
  rewrite filter_all; [done|]. intros x Hx.
  rewrite Forall_forall in Hplain. by destruct (Hplain x Hx).
Qed.

Lemma render_line_text (d : list (list string)) :
  plain_record d ->
  Str.count Str.CR (Str.join tab_string (Str.join "|" <$> d)) = 0
  /\ Str.count Str.LF (Str.join tab_string (Str.join "|" <$> d)) = 0
  /\ Str.split Str.TAB (Str.join tab_string (Str.join "|" <$> d))
     = Str.join "|" <$> d.
Proof.
  intros (Hne & Hplain & _).
  assert (forall c, c <> "|"%char ->
            (forall v, plain_value v -> Str.count c v = 0) ->
            Forall (fun s => Str.count c s = 0) (Str.join "|" <$> d)) as Hcells.
  { intros c Hc Hv. apply Forall_fmap. eapply Forall_impl; [exact Hplain|].
    intros values Hvalues. simpl. apply count_join.
    - simpl. by rewrite decide_False.
    - eapply Forall_impl; [exact Hvalues|]. done. }
  split_and!.
  - apply count_join; [done|]. apply Hcells; [done|]. by intros v (_ & _ & _ & _ & ? & _).
  - apply count_join; [done|]. apply Hcells; [done|]. by intros v (_ & _ & _ & _ & _ & ?).
  - apply split_join; [by destruct d|].
    apply Hcells; [done|]. by intros v (_ & _ & ? & _).
Qed.

Lemma load_rest_line (d : list (list string)) :
  plain_record d ->
  exists e,
    load_line "|" (length d) None (render_line d) = LoadReturn e
    /\ Forall2 (fun cell values => cell ≡ₚ values) (data e) d
    /\ weight e = 0%Z /\ used e = false /\ matched e = None.
Proof.
  intros Hd. destruct (render_line_text d Hd) as (Hcr & Hlf & Hsplit).
  destruct Hd as (Hne & Hplain & Hnd).
  unfold load_line, render_line. rewrite rstrip_newline by done.
  unfold Entity_init. rewrite Hsplit, length_fmap.
  rewrite decide_True by done. rewrite decide_False by done.
  eexists. split; [done|]. simpl. split_and!; [|done..].
  rewrite <- list_fmap_compose. apply Forall2_fmap_l.
  apply Forall_Forall2_diag. rewrite Forall_forall. intros values Hin. simpl.
  rewrite Forall_forall in Hplain, Hnd.
  apply init_cell_join; [by apply Hplain|by apply Hnd].
Qed.

Lemma lines_file_text (ds : list (list (list string))) :
  Forall plain_record ds ->
  Str.lines (file_text (render_line <$> ds)) = render_line <$> ds.
Proof.
  induction 1 as [|d ds Hd _ IH]; [done|].
  rewrite !fmap_cons.
  change (file_text (render_line d :: (render_line <$> ds)))
    with (render_line d +:+ file_text (render_line <$> ds)).
  unfold render_line at 1.
  destruct (render_line_text d Hd) as (? & ? & _).
  by rewrite lines_app_newline, IH.
Qed.

Lemma load_rest_lines (n : nat) (ds : list (list (list string))) : forall acc,
  Forall plain_record ds -> Forall (fun d => length d = n) ds ->
  exists es,
    load_lines "|" n None acc (render_line <$> ds) = LoadReturn (acc ++ es)
    /\ Forall2 (fun e d => Forall2 (fun cell values => cell ≡ₚ values) (data e) d
                           /\ weight e = 0%Z /\ used e = false /\ matched e = None)
               es ds.
Proof.
  induction ds as [|d ds IH]; intros acc Hplain Hlen.
  - exists []. simpl. by rewrite app_nil_r.
  - apply Forall_cons in Hplain as [Hd Hplain]. apply Forall_cons in Hlen as [<- Hlen].
    destruct (load_rest_line d Hd) as (e & He & Hdata).
    rewrite fmap_cons. cbn [load_lines]. rewrite He. cbv beta iota.
    destruct (IH (acc ++ [e]) Hplain Hlen) as (es & Hrun & Hes).
    exists (e :: es). split; [|by constructor].
    rewrite Hrun. by rewrite <- app_assoc.
Qed.

End round_trip.

(** X26. The second output file is a KB file: when the records of KB2
    that are not used have the columns of the KB, with plain values (not
    empty, without white space at their ends, without tab, bar or newline)
    and no repetition, and the KB has no FREEBASE URL field,
    [load_to_memory] with the separator [|] reads what [generate_rest]
    wrote back as those records, in their order: the same values in every
    column, up to their order within the column, and every record unused,
    unmatched and without weight. *)
Theorem generate_rest_reloads `{R : Runtime} `{!RuntimeSpec R}
    (kb : KB) (h2 : heap) (entities : list nat) :
  fields kb !! (name kb +:+ "." +:+ "FREEBASE URL") = None ->
  (forall x, x ∈ entities -> used (h2 x) = false ->
     plain_record (data (h2 x)) /\ length (data (h2 x)) = field_count kb) ->
  exists loaded,
    load_file kb "|" (Some (file_text (generate_rest h2 entities)))
    = LoadReturn loaded
    /\ Forall2 (fun e x =>
                  Forall2 (fun cell values => cell ≡ₚ values) (data e) (data (h2 x))
                  /\ weight e = 0%Z /\ used e = false /\ matched e = None)
               loaded (filter (fun x => used (h2 x) = false) entities).
Proof.
  intros Hfree Hplain. unfold load_file, generate_rest. rewrite Hfree. simpl.
  rewrite (list_fmap_compose (fun e => data (h2 e)) render_line).
  set (ds := (fun e => data (h2 e)) <$> filter (fun x => used (h2 x) = false) entities).
  assert (Forall plain_record ds /\ Forall (fun d => length d = field_count kb) ds)
    as [Hp Hl].
  { unfold ds. split; apply Forall_fmap, Forall_forall; intros x Hx;
      apply list_elem_of_filter in Hx as [Hu Hx]; simpl; by apply Hplain. }
  rewrite lines_file_text by done.
  destruct (load_rest_lines (field_count kb) ds [] Hp Hl) as (es & -> & Hes).
  exists es. split; [done|]. unfold ds in Hes. by apply Forall2_fmap_r in Hes.
Qed.

Lemma generate_rest_reloads_witness :
  exists loaded,
    load_file (R := insertion_runtime) RestExample.kb2 "|"
      (Some (file_text (generate_rest (l_objs RestExample.l2) [0; 1])))
    = LoadReturn loaded
    /\ Forall2 (fun e x =>
                  Forall2 (fun cell values => cell ≡ₚ values) (data e)
                          (data (l_objs RestExample.l2 x))
                  /\ weight e = 0%Z /\ used e = false /\ matched e = None)
               loaded
               (filter (fun x => used (l_objs RestExample.l2 x) = false) [0; 1]).
Proof.
  apply (generate_rest_reloads (R := insertion_runtime) RestExample.kb2
           (l_objs RestExample.l2) [0; 1]).
  - reflexivity.
  - intros x Hx _.
    apply elem_of_cons in Hx as [->|Hx]; [|apply list_elem_of_singleton in Hx as ->];
      (split; [|reflexivity]);
      (split_and!; [discriminate| |repeat constructor; apply not_elem_of_nil]);
      repeat constructor; discriminate.
Defined.


(** *** The records of KB2 in the first output *)

Section second_facts.
Context `{R : Runtime}.

Lemma second_cell_counter prefix kb fields_in_kb2 line fieldname counter cell counter' :
  second_cell prefix kb fields_in_kb2 line fieldname counter = (Return cell, counter') ->
  counter' = counter + (if decide (fieldname = Some "ID") then 1 else 0).
Proof.
  unfold second_cell. destruct fieldname as [fieldname|].
  2: { intros [= _ <-]. rewrite decide_False by done. lia. }
  destruct (String.eqb_spec fieldname "ID") as [->|Hne].
  - intros [= _ <-]. rewrite decide_True by done. lia.
  - rewrite decide_False by congruence.
    repeat case_match; intros [= _ <-] || intros [=]; lia.
Qed.

Lemma second_line_counter prefix kb fields_in_kb2 line (output : list (option string)) :
  forall result counter r counter',
  second_line prefix kb fields_in_kb2 line output result counter = (Return r, counter') ->
  length r = length result + length output
  /\ counter' = counter + length (filter (fun f => f = Some "ID") output).
Proof.
  induction output as [|f fs IH]; intros result counter r counter'; simpl.
  - intros [= <- <-]. lia.
  - destruct (second_cell prefix kb fields_in_kb2 line f counter)
      as [[cell| |] c1] eqn:E; [|done..].
    intros Hrun. apply IH in Hrun as [Hlen Hc]. apply second_cell_counter in E.
    rewrite length_app in Hlen. simpl in Hlen. rewrite filter_cons.
    destruct (decide (f = Some "ID")); simpl; lia.
Qed.

End second_facts.

(** X28. When [generate_second] returns, it has written, after what the
    file held, one line for each record of KB2 that is not used and none
    for one that is, and it has drawn from the ID counter once for each ID
    field of the template and each line: the IDs of the lines follow those
    of the records of KB1 without a gap. *)
Theorem generate_second_lines `{R : Runtime} (prefix : string) (h2 : heap)
    (data : list nat) (output : list (option string)) (kb : string)
    (fields_in_kb2 : gmap string Field) (written lines : list string)
    (counter counter' : nat) :
  generate_second prefix h2 data output kb fields_in_kb2 written counter
  = (Return lines, counter') ->
  exists new,
    lines = written ++ new
    /\ length new = length (filter (fun e => used (h2 e) = false) data)
    /\ counter' = counter
                  + length new * length (filter (fun f => f = Some "ID") output).
Proof.
  revert written counter.
  induction data as [|e l IH]; intros written counter; simpl.
  - intros [= <- <-]. exists []. rewrite app_nil_r. simpl. split_and!; [done..|lia].
  - rewrite filter_cons. destruct (used (h2 e)) eqn:Hu.
    + rewrite decide_False by done. apply IH.
    + rewrite decide_True by done.
      destruct (second_line prefix kb fields_in_kb2 (h2 e) output [] counter)
        as [[result| |] c1] eqn:E; [|done..].
      intros Hrun. apply IH in Hrun as (new & -> & Hlen & ->).
      apply second_line_counter in E as [_ ->].
      eexists (_ :: new). split_and!; [by rewrite <- app_assoc|simpl; lia|simpl; lia].
Qed.

Lemma generate_second_lines_witness :
  exists new,
    ["p:0000000000" +:+ String Str.TAB ("2" +:+ String Str.LF "")] = [] ++ new
    /\ length new
       = length (filter (fun e => used (heap_of [mkEntity [["1"]] 0 true None;
                                                  new_entity [["2"]]] e) = false)
                        [0; 1])
    /\ 1 = 0 + length new
               * length (filter (fun f => f = Some "ID") [Some "ID"; Some "b.ID"]).
Proof.
  apply (generate_second_lines (R := insertion_runtime) "p"
           (heap_of [mkEntity [["1"]] 0 true None; new_entity [["2"]]])
           [0; 1] [Some "ID"; Some "b.ID"] "b"
           {[ "b.ID" := mkField 0 false ]} []).
  vm_compute. reflexivity.
Defined.


(** *** From the files to the end of [match] *)

(** A schema without a repeated name has its ordinals below
    [field_count]. *)
Lemma load_config_schema (KB_file_name fields_file_name text : string) (kb : KB) :
  NoDup (declarations text).*1 ->
  load_config KB_file_name fields_file_name (Some text) = Return kb ->
  forall key f, fields kb !! key = Some f -> order_num f < field_count kb.
Proof.
  intros Hnd. rewrite load_config_table. intros [= <-] key f Hf. simpl in *.
  destruct (table_of_size KB_file_name (declarations text)) as (_ & Hsize & _).
  rewrite (Hsize Hnd).
  apply table_of_lookup in Hf as (nm & _ & Hlook & _).
  by eapply lookup_lt_Some.
Qed.

Section loaded_facts.
Context `{R : Runtime}.

Lemma load_file_new (kb : KB) (separator text : string) (entities : list Entity) :
  load_file kb separator (Some text) = LoadReturn entities ->
  forall e, e ∈ entities ->
    length (data e) = field_count kb /\ weight e = 0%Z
    /\ used e = false /\ matched e = None.
Proof.
  unfold load_file. intros Hrun e He.
  apply load_lines_fresh in Hrun as [_ Hall].
  destruct (Hall e He) as [Hnil|?]; [|done]. by apply elem_of_nil in Hnil.
Qed.

Lemma loaded_kb_lookup (entities : list Entity) x :
  x ∈ l_entities (loaded_kb entities) ->
  l_objs (loaded_kb entities) x ∈ entities.
Proof.
  simpl. intros Hx. apply elem_of_seq in Hx as [_ Hx]. simpl in Hx.
  unfold heap_of. destruct (lookup_lt_is_Some_2 entities x Hx) as [e He].
  rewrite He. simpl. by eapply list_elem_of_lookup_2.
Qed.

Lemma load_file_loaded (kb : KB) (separator text : string) (entities : list Entity) :
  load_file kb separator (Some text) = LoadReturn entities ->
  freshly_loaded (loaded_kb entities)
  /\ forall x, x ∈ l_entities (loaded_kb entities) ->
       length (data (l_objs (loaded_kb entities) x)) = field_count kb.
Proof.
  intros Hrun. pose proof (load_file_new kb separator text entities Hrun) as Hnew.
  split.
  - unfold freshly_loaded. split_and!.
    + apply NoDup_seq.
    + intros x Hx. apply loaded_kb_lookup in Hx.
      by destruct (Hnew _ Hx) as (_ & ? & ? & ?).
    + intros x Hx. simpl in *. apply elem_of_seq in Hx. lia.
  - intros x Hx. apply loaded_kb_lookup in Hx. by destruct (Hnew _ Hx).
Qed.

End loaded_facts.

Lemma parse_relations_in_range (rel_conf_file_name text : string) (kb1 kb2 : KB)
    (relations : list Relation) :
  (forall key f, fields kb1 !! key = Some f -> order_num f < field_count kb1) ->
  (forall key f, fields kb2 !! key = Some f -> order_num f < field_count kb2) ->
  parse_relations rel_conf_file_name (Some text) kb1 kb2 = Return relations ->
  relations_in_range kb1 kb2 relations.
Proof.
  intros H1 H2. unfold parse_relations.
  destruct (parse_lines _ _ _ _ _) as [[rels t]| |] eqn:E; [|done..].
  simpl. intros [= <-].
  apply parse_lines_inv in E as [Hall _]; [|unfold OTHER; lia|constructor].
  intros r Hr. rewrite Forall_forall in Hall.
  destruct (Hall r Hr) as ((k1 & f1 & Hf1 & ->) & (k2 & f2 & Hf2 & ->) & _).
  split; [by eapply H1|by eapply H2].
Qed.

(** X29. With [.fields] files that declare no name twice, nothing can go
    wrong between the files and the output: when the two KBs are loaded and
    the relation file is parsed, [main] gets through the deduplication
    passes asked for, the making of the two indexes and [match] without an
    exception.  No subscript is out of range, whatever the records and the
    relations are. *)
Theorem main_returns_on_loaded `{R : Runtime} `{!RuntimeSpec R} (args : Args)
    (first first_fields fields1 first_sep kb1_text : string)
    (second second_fields fields2 second_sep kb2_text : string)
    (rel_conf rel_text : string) (kb1 kb2 : KB) (entities1 entities2 : list Entity)
    (relations : list Relation) :
  NoDup (declarations fields1).*1 ->
  NoDup (declarations fields2).*1 ->
  load_config first first_fields (Some fields1) = Return kb1 ->
  load_config second second_fields (Some fields2) = Return kb2 ->
  load_file kb1 first_sep (Some kb1_text) = LoadReturn entities1 ->
  load_file kb2 second_sep (Some kb2_text) = LoadReturn entities2 ->
  parse_relations rel_conf (Some rel_text) kb1 kb2 = Return relations ->
  exists N m, forall fuel, N <= fuel ->
    main_match fuel args kb1 kb2 (loaded_kb entities1) (loaded_kb entities2)
      relations = Some (Return m).
Proof.
  intros Hnd1 Hnd2 Hkb1 Hkb2 Hl1 Hl2 Hrel.
  pose proof (load_config_schema _ _ _ _ Hnd1 Hkb1) as Hs1.
  pose proof (load_config_schema _ _ _ _ Hnd2 Hkb2) as Hs2.
  destruct (load_file_loaded _ _ _ _ Hl1) as [Hf1 Hc1].
  destruct (load_file_loaded _ _ _ _ Hl2) as [Hf2 Hc2].
  destruct (main_match_spec args kb1 kb2 (loaded_kb entities1) (loaded_kb entities2)
              relations Hf1 Hf2) as [Hreturns _].
  apply Hreturns; [done|done|].
  by eapply parse_relations_in_range.
Qed.

Lemma main_returns_on_loaded_witness :
  exists N m, forall fuel, N <= fuel ->
    main_match (R := insertion_runtime) fuel RestExample.args RestExample.kb1
      RestExample.kb2 (loaded_kb [new_entity [["1"]]])
      (loaded_kb [new_entity [["1"]]; new_entity [["2"]]])
      RestExample.relations = Some (Return m).
Proof.
  apply (main_returns_on_loaded (R := insertion_runtime) RestExample.args
           "a" "a.fields" ("ID" +:+ String Str.LF "") "|"
           ("1" +:+ String Str.LF "")
           "b" "b.fields" ("ID" +:+ String Str.CR (String Str.LF "")) "|"
           ("1" +:+ String Str.LF ("2" +:+ String Str.LF ""))
           "rel.conf" rel_pair_text).
  - apply (bool_decide_unpack _). vm_compute. exact I.
  - apply (bool_decide_unpack _). vm_compute. exact I.
  - vm_compute. reflexivity.
  - vm_compute. reflexivity.
  - vm_compute. reflexivity.
  - vm_compute. reflexivity.
  - vm_compute. reflexivity.
Defined.
